(** * Polychrome Capture: the content script's extraction engine

    A shallow embedding of [src/extension/content-script.js]: the regular
    expressions and a backtracking matcher for them, the [Date] arithmetic
    the script relies on, the date/time parser, the text normaliser, the
    candidate collector and the scrape loop, followed by the properties of
    the specification that were checked against them.

    Modelling conventions.
    - A JavaScript string is a [list ascii]: one 8-bit code unit per
      character (the Latin-1 range of UTF-16 code units).
    - A JavaScript number is an integer or [NaN]; every number the script
      computes is an integer far below 2^53, so the arithmetic is exact.
    - The local time zone is a fixed offset [tz] (milliseconds east of
      UTC); the changes of offset of a zone with daylight saving are not
      modelled.
    - [new Date()] reads a clock that is passed in explicitly. *)

From Stdlib Require Import ZArith List Ascii String Lia Bool.
From stdpp Require Import base decidable countable gmap strings.
Import ListNotations.
Open Scope Z_scope.
#[local] Set Warnings "-register-all,-clear-no-such-hyp".

(** ** Strings *)

Definition str (s : string) : list ascii := list_ascii_of_string s.

Definition code (c : ascii) : N := N_of_ascii c.

Definition in_range (lo hi c : ascii) : bool :=
  ((code lo <=? code c) && (code c <=? code hi))%N.

Definition is_digit (c : ascii) : bool := in_range "0" "9" c.
Definition is_lower (c : ascii) : bool := in_range "a" "z" c.
Definition is_upper (c : ascii) : bool := in_range "A" "Z" c.

(** [\w]: ASCII letters, digits and the underscore. *)
Definition is_word_char (c : ascii) : bool :=
  is_lower c || is_upper c || is_digit c || Ascii.eqb c "_".

(** [\s], and the characters [String.prototype.trim] strips: TAB, LF, VT,
    FF, CR, SPACE and NBSP (the others lie above the 8-bit range). *)
Definition is_js_space (c : ascii) : bool :=
  ((9 <=? code c) && (code c <=? 13) || (code c =? 32) || (code c =? 160))%N.

(** [String.prototype.toLowerCase] on one Latin-1 code unit. *)
Definition lower_char (c : ascii) : ascii :=
  if is_upper c then ascii_of_N (code c + 32)
  else if ((192 <=? code c) && (code c <=? 222) && negb (code c =? 215))%N
       then ascii_of_N (code c + 32)
  else c.

Definition toLowerCase (s : list ascii) : list ascii := map lower_char s.

(** Canonicalisation of the [i] flag (non-unicode mode): a character is
    compared through its upper-case form, and a character above the ASCII
    range never folds into it; the patterns of the script only contain
    ASCII letters, so folding the ASCII letters is all that is observable. *)
Definition canon (c : ascii) : ascii :=
  if is_lower c then ascii_of_N (code c - 32) else c.

Fixpoint trimStart (s : list ascii) : list ascii :=
  match s with
  | c :: s' => if is_js_space c then trimStart s' else s
  | [] => []
  end.

Definition trimEnd (s : list ascii) : list ascii := rev (trimStart (rev s)).

Definition trim (s : list ascii) : list ascii := trimEnd (trimStart s).

(** [String.prototype.split] with a one-character separator. *)
Fixpoint split_on (sep : ascii) (s : list ascii) : list (list ascii) :=
  match s with
  | [] => [[]]
  | c :: s' =>
      if Ascii.eqb c sep then [] :: split_on sep s'
      else match split_on sep s' with
           | l :: ls => (c :: l) :: ls
           | [] => [[c]]
           end
  end.

(** [Array.prototype.join]. *)
Fixpoint join (sep : list ascii) (ls : list (list ascii)) : list ascii :=
  match ls with
  | [] => []
  | [l] => l
  | l :: ls' => l ++ sep ++ join sep ls'
  end.

Definition LF : ascii := ascii_of_N 10.

(** ** Regular expressions

    The fragment of ECMAScript regular expressions the script uses, with
    the backtracking semantics of the language: alternatives are tried
    left to right, quantifiers are greedy, and the first successful path
    fixes the captures. *)

Inductive regex : Type :=
| Empty : regex
| Char : (ascii -> bool) -> regex
| Seq : regex -> regex -> regex
| Alt : regex -> regex -> regex
| Star : regex -> regex
| Group : nat -> regex -> regex
| WordB : regex
| Bol : regex
| Eol : regex.

(** A position in the subject: the character just before it, if any, and
    what remains to be read. *)
Record mstate : Type := MState { prev : option ascii; rest : list ascii }.

(** Captures, most recent first. *)
Definition captures : Type := list (nat * list ascii).

Fixpoint cap (cs : captures) (n : nat) : option (list ascii) :=
  match cs with
  | [] => None
  | (m, s) :: cs' => if Nat.eqb m n then Some s else cap cs' n
  end.

Definition word_before (st : mstate) : bool :=
  match prev st with Some c => is_word_char c | None => false end.

Definition word_after (st : mstate) : bool :=
  match rest st with c :: _ => is_word_char c | [] => false end.

Definition at_word_boundary (st : mstate) : bool :=
  xorb (word_before st) (word_after st).

(** The text read between two positions of one subject. *)
Definition consumed (st st' : mstate) : list ascii :=
  firstn (length (rest st) - length (rest st')) (rest st).

Definition orelse {A : Type} (x : option A) (y : option A) : option A :=
  match x with Some a => Some a | None => y end.

(** The iterations of a star whose body is matched by [body], followed
    by [k]: greedy, and an iteration that reads nothing is refused, as in
    ECMAScript.  Each iteration that is kept shortens the rest, so a
    [fuel] of the length of the rest is never used up. *)
Fixpoint star_loop {A : Type}
    (body : mstate -> captures -> (mstate -> captures -> option A) -> option A)
    (k : mstate -> captures -> option A)
    (fuel : nat) (st0 : mstate) (cs0 : captures) {struct fuel} : option A :=
  match fuel with
  | O => k st0 cs0
  | S fuel' =>
      orelse
        (body st0 cs0 (fun st1 cs1 =>
           if (length (rest st1) <? length (rest st0))%nat
           then star_loop body k fuel' st1 cs1 else None))
        (k st0 cs0)
  end.

(** The matcher, in continuation-passing style: [k] is what remains to be
    matched after [r]. *)
Fixpoint rmatch {A : Type} (r : regex) (st : mstate) (cs : captures)
    (k : mstate -> captures -> option A) {struct r} : option A :=
  match r with
  | Empty => k st cs
  | Char p =>
      match rest st with
      | c :: s => if p c then k (MState (Some c) s) cs else None
      | [] => None
      end
  | Seq r1 r2 => rmatch r1 st cs (fun st1 cs1 => rmatch r2 st1 cs1 k)
  | Alt r1 r2 => orelse (rmatch r1 st cs k) (rmatch r2 st cs k)
  | Star r1 => star_loop (rmatch r1) k (length (rest st)) st cs
  | Group n r1 =>
      rmatch r1 st cs (fun st1 cs1 => k st1 ((n, consumed st st1) :: cs1))
  | WordB => if at_word_boundary st then k st cs else None
  | Bol => match prev st with None => k st cs | Some _ => None end
  | Eol => match rest st with [] => k st cs | _ :: _ => None end
  end.

(** One attempt at a given position, and the search for the leftmost
    position at which an attempt succeeds ([RegExp.prototype.exec]). The
    result is the position after the match together with the captures. *)
Definition match_here (r : regex) (st : mstate) : option (mstate * captures) :=
  rmatch r st [] (fun st' cs => Some (st', cs)).

Fixpoint search_from (r : regex) (p : option ascii) (s : list ascii)
    : option (mstate * captures) :=
  match match_here r (MState p s) with
  | Some res => Some res
  | None =>
      match s with
      | [] => None
      | c :: s' => search_from r (Some c) s'
      end
  end.

(** [text.match(r)] for a pattern without the [g] flag. *)
Definition exec (r : regex) (text : list ascii) : option captures :=
  match search_from r None text with
  | Some (_, cs) => Some cs
  | None => None
  end.

(** [r.test(text)]. *)
Definition test (r : regex) (text : list ascii) : bool :=
  match exec r text with Some _ => true | None => false end.

(** Successive [exec] calls of a pattern with the [g] flag, each resuming
    where the previous match ended, until one fails.  [fuel] bounds the
    number of matches; a match of the time pattern reads at least one
    digit, so the length of the text is enough. *)
Fixpoint exec_all (fuel : nat) (r : regex) (p : option ascii) (s : list ascii)
    : list captures :=
  match fuel with
  | O => []
  | S fuel' =>
      match search_from r p s with
      | Some (st', cs) => cs :: exec_all fuel' r (prev st') (rest st')
      | None => []
      end
  end.

(** *** Pattern combinators *)

Definition Opt (r : regex) : regex := Alt r Empty.
Definition Plus (r : regex) : regex := Seq r (Star r).

Fixpoint seqs (rs : list regex) : regex :=
  match rs with
  | [] => Empty
  | [r] => r
  | r :: rs' => Seq r (seqs rs')
  end.

Fixpoint alts (rs : list regex) : regex :=
  match rs with
  | [] => Char (fun _ => false)
  | [r] => r
  | r :: rs' => Alt r (alts rs')
  end.

(** A literal, case-sensitive and under the [i] flag. *)
Definition lit (s : string) : regex :=
  seqs (map (fun c => Char (Ascii.eqb c)) (str s)).
Definition liti (s : string) : regex :=
  seqs (map (fun c => Char (fun x => Ascii.eqb (canon x) (canon c))) (str s)).

Definition digit : regex := Char is_digit.
Definition space : regex := Char is_js_space.
(** [[a-z]] and [[A-Z]], and [[a-z]] under the [i] flag. *)
Definition lower : regex := Char is_lower.
Definition upper : regex := Char is_upper.
Definition letter : regex := Char (fun c => is_lower c || is_upper c).

(** ** Numbers *)

Inductive number : Type :=
| Int : Z -> number
| NaN : number.

Definition num_map2 (f : Z -> Z -> Z) (a b : number) : number :=
  match a, b with
  | Int x, Int y => Int (f x y)
  | _, _ => NaN
  end.

Definition num_add : number -> number -> number := num_map2 Z.add.
Definition num_sub : number -> number -> number := num_map2 Z.sub.

(** The remainder of non-negative operands ([%] is only applied to an hour
    above 23). *)
Definition num_rem : number -> number -> number := num_map2 Z.rem.

(** Comparisons: anything compared with [NaN] is false. *)
Definition num_ltb (a b : number) : bool :=
  match a, b with Int x, Int y => x <? y | _, _ => false end.
Definition num_gtb (a b : number) : bool := num_ltb b a.
Definition num_eqb (a b : number) : bool :=
  match a, b with Int x, Int y => x =? y | _, _ => false end.

Definition digit_value (c : ascii) : Z := Z.of_N (code c) - 48.

Definition is_hex_digit (c : ascii) : bool :=
  is_digit c || in_range "a" "f" c || in_range "A" "F" c.

Definition hex_value (c : ascii) : Z :=
  if is_digit c then digit_value c
  else if in_range "a" "f" c then Z.of_N (code c) - 87
  else Z.of_N (code c) - 55.

(** The value of the longest prefix of digits in the given radix, read
    left to right with accumulator [acc]; [seen] records whether a digit
    was read at all. *)
Fixpoint read_digits (radix : Z) (isd : ascii -> bool) (val : ascii -> Z)
    (seen : bool) (acc : Z) (s : list ascii) : option Z :=
  match s with
  | c :: s' =>
      if isd c then read_digits radix isd val true (acc * radix + val c) s'
      else if seen then Some acc else None
  | [] => if seen then Some acc else None
  end.

Definition parse_unsigned (s : list ascii) : option Z :=
  match s with
  | z :: x :: s' =>
      if Ascii.eqb z "0" && (Ascii.eqb x "x" || Ascii.eqb x "X")
      then read_digits 16 is_hex_digit hex_value false 0 s'
      else read_digits 10 is_digit digit_value false 0 s
  | _ => read_digits 10 is_digit digit_value false 0 s
  end.

(** [parseInt(s)] without a radix: leading white space, a sign, an optional
    hexadecimal prefix, then as many digits as there are. *)
Definition parseInt (s : list ascii) : number :=
  let s1 := trimStart s in
  let '(sign, s2) :=
    match s1 with
    | c :: s' =>
        if Ascii.eqb c "-" then (-1, s')
        else if Ascii.eqb c "+" then (1, s')
        else (1, s1)
    | [] => (1, s1)
    end in
  match parse_unsigned s2 with
  | Some n => Int (sign * n)
  | None => NaN
  end.

(** A value that may be [undefined], such as a capture of a group that
    did not take part in the match. *)
Definition parseInt_value (v : option (list ascii)) : number :=
  match v with
  | Some s => parseInt s
  | None => parseInt (str "undefined")
  end.

(** [v || "0"]: [undefined] and the empty string are falsy. *)
Definition or_zero (v : option (list ascii)) : list ascii :=
  match v with
  | Some (c :: s) => c :: s
  | _ => str "0"
  end.

Definition truthy (v : option (list ascii)) : bool :=
  match v with
  | Some (_ :: _) => true
  | _ => false
  end.

(** ** Dates

    Time values and the abstract operations of ECMA-262 (section "Date
    objects"): days and years are counted from 1970-01-01. *)

Definition msPerDay : Z := 86400000.
Definition msPerHour : Z := 3600000.
Definition msPerMinute : Z := 60000.
Definition msPerSecond : Z := 1000.
Definition maxTime : Z := 8640000000000000.

Definition Day (t : Z) : Z := t / msPerDay.
Definition TimeWithinDay (t : Z) : Z := t mod msPerDay.

Definition DayFromYear (y : Z) : Z :=
  365 * (y - 1970) + (y - 1969) / 4 - (y - 1901) / 100 + (y - 1601) / 400.

Definition is_leap (y : Z) : bool :=
  ((y mod 4 =? 0) && negb (y mod 100 =? 0)) || (y mod 400 =? 0).

Definition DaysInYear (y : Z) : Z := if is_leap y then 366 else 365.

(** The year of a day number: the largest [y] with [DayFromYear y <= d].
    The mean year of 146097/400 days gives an estimate that is off by at
    most one. *)
Definition YearFromDay (d : Z) : Z :=
  let y0 := 1970 + (d * 400) / 146097 in
  if DayFromYear (y0 + 1) <=? d then y0 + 1
  else if DayFromYear y0 <=? d then y0
  else y0 - 1.

Definition YearFromTime (t : Z) : Z := YearFromDay (Day t).

Definition DayWithinYear (t : Z) : Z := Day t - DayFromYear (YearFromTime t).

Definition InLeapYear (t : Z) : Z := if is_leap (YearFromTime t) then 1 else 0.

(** The day of the year on which month [m] (0 to 11) starts. *)
Definition month_start (leap : Z) (m : Z) : Z :=
  match m with
  | 0 => 0
  | 1 => 31
  | 2 => 59 + leap
  | 3 => 90 + leap
  | 4 => 120 + leap
  | 5 => 151 + leap
  | 6 => 181 + leap
  | 7 => 212 + leap
  | 8 => 243 + leap
  | 9 => 273 + leap
  | 10 => 304 + leap
  | 11 => 334 + leap
  | _ => 365 + leap
  end.

Definition MonthFromTime (t : Z) : Z :=
  let d := DayWithinYear t in
  let l := InLeapYear t in
  if d <? 31 then 0
  else if d <? 59 + l then 1
  else if d <? 90 + l then 2
  else if d <? 120 + l then 3
  else if d <? 151 + l then 4
  else if d <? 181 + l then 5
  else if d <? 212 + l then 6
  else if d <? 243 + l then 7
  else if d <? 273 + l then 8
  else if d <? 304 + l then 9
  else if d <? 334 + l then 10
  else 11.

Definition DateFromTime (t : Z) : Z :=
  DayWithinYear t - month_start (InLeapYear t) (MonthFromTime t) + 1.

Definition HourFromTime (t : Z) : Z := (t / msPerHour) mod 24.
Definition MinFromTime (t : Z) : Z := (t / msPerMinute) mod 60.
Definition SecFromTime (t : Z) : Z := (t / msPerSecond) mod 60.
Definition msFromTime (t : Z) : Z := t mod msPerSecond.

(** [MakeDay]: months beyond 0..11 carry into the year, and the day of the
    month is an offset from the first of the month. *)
Definition MakeDay (year month date : Z) : Z :=
  let ym := year + month / 12 in
  let mn := month mod 12 in
  DayFromYear ym + month_start (if is_leap ym then 1 else 0) mn + date - 1.

Definition MakeTime (h m s ms : Z) : Z :=
  h * msPerHour + m * msPerMinute + s * msPerSecond + ms.

Definition MakeDate (day time : Z) : Z := day * msPerDay + time.

Definition TimeClip (t : Z) : number :=
  if Z.abs t <=? maxTime then Int t else NaN.

(** *** Date objects

    A [Date] is its time value: milliseconds since the epoch in UTC, or
    [NaN] for an invalid date. *)

Definition Date : Type := number.

Inductive error : Type := RangeError | TypeError.

Inductive result (A : Type) : Type :=
| Ok : A -> result A
| Throw : error -> result A.
Arguments Ok {A} _.
Arguments Throw {A} _.

Definition digit_char (d : Z) : ascii := ascii_of_N (48 + Z.to_N d).

(** The last [w] decimal digits of [n], most significant first. *)
Fixpoint pad (w : nat) (n : Z) : list ascii :=
  match w with
  | O => []
  | S w' => pad w' (n / 10) ++ [digit_char (n mod 10)]
  end.

Section Zone.

Variable tz : Z.

Definition LocalTime (t : Z) : Z := t + tz.
Definition UTC (t : Z) : Z := t - tz.

(** [new Date(year, month, day)]: a year from 0 to 99 stands for 1900 to
    1999. *)
Definition new_Date (year month day : number) : Date :=
  match year, month, day with
  | Int y, Int m, Int d =>
      let yr := if (0 <=? y) && (y <=? 99) then 1900 + y else y in
      TimeClip (UTC (MakeDate (MakeDay yr m d) (MakeTime 0 0 0 0)))
  | _, _, _ => NaN
  end.

Definition getFullYear (d : Date) : number :=
  match d with Int t => Int (YearFromTime (LocalTime t)) | NaN => NaN end.
Definition getMonth (d : Date) : number :=
  match d with Int t => Int (MonthFromTime (LocalTime t)) | NaN => NaN end.
Definition getDate (d : Date) : number :=
  match d with Int t => Int (DateFromTime (LocalTime t)) | NaN => NaN end.

Definition setFullYear (d : Date) (year : number) : Date :=
  let t := match d with Int t => LocalTime t | NaN => 0 end in
  match year with
  | Int y =>
      TimeClip (UTC (MakeDate (MakeDay y (MonthFromTime t) (DateFromTime t))
                              (TimeWithinDay t)))
  | NaN => NaN
  end.

Definition setDate (d : Date) (date : number) : Date :=
  match d, date with
  | Int t0, Int dt =>
      let t := LocalTime t0 in
      TimeClip (UTC (MakeDate (MakeDay (YearFromTime t) (MonthFromTime t) dt)
                              (TimeWithinDay t)))
  | _, _ => NaN
  end.

Definition setHours (d : Date) (hour min sec ms : number) : Date :=
  match d, hour, min, sec, ms with
  | Int t0, Int h, Int m, Int s, Int milli =>
      let t := LocalTime t0 in
      TimeClip (UTC (MakeDate (Day t) (MakeTime h m s milli)))
  | _, _, _, _, _ => NaN
  end.

(** [toISOString]: the UTC fields, with four digits for a year from 0 to
    9999 and a sign and six digits otherwise; an invalid date throws. *)
Definition iso_year (y : Z) : list ascii :=
  if (0 <=? y) && (y <=? 9999) then pad 4 y
  else (if y <? 0 then str "-" else str "+") ++ pad 6 (Z.abs y).

Definition toISOString (d : Date) : result (list ascii) :=
  match d with
  | NaN => Throw RangeError
  | Int t =>
      Ok (iso_year (YearFromTime t) ++ str "-" ++
          pad 2 (MonthFromTime t + 1) ++ str "-" ++
          pad 2 (DateFromTime t) ++ str "T" ++
          pad 2 (HourFromTime t) ++ str ":" ++
          pad 2 (MinFromTime t) ++ str ":" ++
          pad 2 (SecFromTime t) ++ str "." ++
          pad 3 (msFromTime t) ++ str "Z")
  end.

End Zone.

(** ** The patterns of the script *)

Definition month_names : list string :=
  ["jan"; "feb"; "mar"; "apr"; "may"; "jun"; "jul"; "aug"; "sep"; "sept";
   "oct"; "nov"; "dec"]%string.

Definition weekday_names : list string :=
  ["mon"; "tue"; "tues"; "wed"; "thu"; "thur"; "thurs"; "fri"; "sat";
   "sun"]%string.

Definition comma_or_dot : regex :=
  Char (fun c => Ascii.eqb c "," || Ascii.eqb c ".").

Definition ordinal_suffix : regex :=
  alts (map liti ["st"; "nd"; "rd"; "th"]%string).

Definition digits_1_2 : regex := Seq digit (Opt digit).
Definition digits_2 : regex := Seq digit digit.
Definition digits_4 : regex := seqs [digit; digit; digit; digit].

Definition DUE_KEYWORDS : regex :=
  seqs [WordB;
        Group 1 (alts (map liti
          ["due"; "overdue"; "deadline"; "open until"; "available until";
           "closes at"; "closes"; "closing"; "submit by"; "turn in by";
           "due by"; "due on"; "due date"]%string));
        WordB].

Module DATE_PATTERNS.

Definition monthDayYear : regex :=
  seqs [WordB;
        Opt (seqs [alts (map liti weekday_names); Star letter;
                   Opt comma_or_dot; Star space]);
        Group 1 (alts (map liti month_names)); Star letter; Opt (lit ".");
        Plus space;
        Group 2 digits_1_2; Opt ordinal_suffix; Opt comma_or_dot;
        Star space;
        Group 3 digits_4; WordB].

Definition monthDay : regex :=
  seqs [WordB;
        Group 1 (alts (map liti month_names)); Star letter; Opt (lit ".");
        Plus space;
        Group 2 digits_1_2; Opt ordinal_suffix; WordB].

Definition iso : regex :=
  seqs [WordB; Group 1 digits_4; lit "-"; Group 2 digits_2; lit "-";
        Group 3 digits_2; WordB].

Definition relative : regex :=
  seqs [WordB; Group 1 (alts [liti "today"; liti "tomorrow"]); WordB].

End DATE_PATTERNS.

Definition meridian_marker : regex := alts [liti "am"; liti "pm"].

(** The two patterns of [parseTime]: the one anchored on a keyword, and
    the one the whole text is scanned with (flag [g]). *)
Definition keyword_time : regex :=
  seqs [alts [liti "at"; liti "until"; liti "by"]; Plus space;
        Group 1 digits_1_2; Opt (Seq (lit ":") (Group 2 digits_2));
        Star space; Opt (Group 3 meridian_marker)].

Definition TIME_PATTERN : regex :=
  seqs [WordB; Group 1 digits_1_2; Opt (Seq (lit ":") (Group 2 digits_2));
        Star space; Opt (Group 3 meridian_marker); WordB].

(** ** The date and time parser *)

Definition months : list (list ascii * Z) :=
  [(str "jan", 0); (str "feb", 1); (str "mar", 2); (str "apr", 3);
   (str "may", 4); (str "jun", 5); (str "jul", 6); (str "aug", 7);
   (str "sep", 8); (str "sept", 8); (str "oct", 9); (str "nov", 10);
   (str "dec", 11)].

Fixpoint lookup_key (key : list ascii) (tbl : list (list ascii * Z))
    : option Z :=
  match tbl with
  | [] => None
  | (k, v) :: tbl' => if bool_decide (k = key) then Some v else lookup_key key tbl'
  end.

(** [months[key] ?? -1] with [key] the first three characters, lowered. *)
Definition parseMonth (s : list ascii) : Z :=
  let key := firstn 3 (toLowerCase s) in
  match lookup_key key months with
  | Some m => m
  | None => -1
  end.

(** [parseMonth(m[1])]: calling [toLowerCase] on [undefined] is a
    [TypeError]. *)
Definition parseMonth_value (v : option (list ascii)) : result Z :=
  match v with
  | Some s => Ok (parseMonth s)
  | None => Throw TypeError
  end.

Definition result_bind {A B : Type} (x : result A) (f : A -> result B)
    : result B :=
  match x with
  | Ok a => f a
  | Throw e => Throw e
  end.

Notation "'do' x <- e ; k" := (result_bind e (fun x => k))
  (at level 10, x name, e at level 100, k at level 200).

Record ParsedTime : Type := mkTime { hours : number; minutes : number }.

Section Parser.

Variable tz : Z.

(** The four attempts of [parseDate(text)], in the order of the source;
    [now] is the time value [new Date()] reads. *)
Definition try_iso (text : list ascii) : option Date :=
  match exec DATE_PATTERNS.iso text with
  | Some isoMatch =>
      Some (new_Date tz (parseInt_value (cap isoMatch 1))
                        (num_sub (parseInt_value (cap isoMatch 2)) (Int 1))
                        (parseInt_value (cap isoMatch 3)))
  | None => None
  end.

Definition try_monthDayYear (text : list ascii) : result (option Date) :=
  match exec DATE_PATTERNS.monthDayYear text with
  | Some mdyMatch =>
      do month <- parseMonth_value (cap mdyMatch 1);
      let day := parseInt_value (cap mdyMatch 2) in
      let year := parseInt_value (cap mdyMatch 3) in
      if negb (month =? -1) then Ok (Some (new_Date tz year (Int month) day))
      else Ok None
  | None => Ok None
  end.

Definition try_monthDay (now : Z) (text : list ascii) : result (option Date) :=
  match exec DATE_PATTERNS.monthDay text with
  | Some mdMatch =>
      do month <- parseMonth_value (cap mdMatch 1);
      let day := parseInt_value (cap mdMatch 2) in
      if negb (month =? -1) then
        let year := getFullYear tz (Int now) in
        let date := new_Date tz year (Int month) day in
        Ok (Some (if num_ltb date (Int now)
                  then setFullYear tz date (num_add year (Int 1))
                  else date))
      else Ok None
  | None => Ok None
  end.

Definition try_relative (now : Z) (text : list ascii) : option Date :=
  match exec DATE_PATTERNS.relative (toLowerCase text) with
  | Some relMatch =>
      let base := new_Date tz (getFullYear tz (Int now))
                              (getMonth tz (Int now)) (getDate tz (Int now)) in
      Some (if bool_decide (cap relMatch 1 = Some (str "tomorrow"))
            then setDate tz base (num_add (getDate tz base) (Int 1))
            else base)
  | None => None
  end.

Definition parseDate (now : Z) (text : list ascii) : result (option Date) :=
  match try_iso text with
  | Some d => Ok (Some d)
  | None =>
      do mdy <- try_monthDayYear text;
      match mdy with
      | Some d => Ok (Some d)
      | None =>
          do md <- try_monthDay now text;
          match md with
          | Some d => Ok (Some d)
          | None => Ok (try_relative now text)
          end
      end
  end.

Definition normalizeTime (hours minutes : number)
    (meridian : option (list ascii)) : ParsedTime :=
  if num_gtb hours (Int 12) then
    mkTime (if num_gtb hours (Int 23) then num_rem hours (Int 24) else hours)
           minutes
  else
    let hours :=
      if bool_decide (meridian = Some (str "pm")) && num_ltb hours (Int 12)
      then num_add hours (Int 12)
      else if bool_decide (meridian = Some (str "am")) && num_eqb hours (Int 12)
      then Int 0
      else hours in
    mkTime hours minutes.

(** One entry of the [times] array of [parseTime]; [has_minutes] is
    whether the minute group took part in the match ([match[2]]). *)
Record TimeMatch : Type := mkTimeMatch {
  tm_hours : number;
  tm_minutes : number;
  tm_meridian : option (list ascii);
  tm_has_minutes : bool
}.

Definition time_of_match (cs : captures) : TimeMatch :=
  mkTimeMatch (parseInt_value (cap cs 1))
              (parseInt (or_zero (cap cs 2)))
              (option_map toLowerCase (cap cs 3))
              (truthy (cap cs 2)).

(** The test of the scanning loop: what is kept in [times]. *)
Definition keep_time (t : TimeMatch) : bool :=
  negb (num_gtb (tm_hours t) (Int 23)) &&
  negb (negb (truthy (tm_meridian t)) && negb (tm_has_minutes t)).

Definition scan_times (text : list ascii) : list TimeMatch :=
  List.filter keep_time
    (map time_of_match (exec_all (S (length text)) TIME_PATTERN None text)).

Definition parseTime (text : list ascii) : option ParsedTime :=
  match exec keyword_time text with
  | Some keywordMatch =>
      Some (normalizeTime (parseInt_value (cap keywordMatch 1))
                          (parseInt (or_zero (cap keywordMatch 2)))
                          (option_map toLowerCase (cap keywordMatch 3)))
  | None =>
      let times := scan_times text in
      match times with
      | [] => None
      | t0 :: _ =>
          match List.filter (fun t => truthy (tm_meridian t)) times with
          | t :: _ => Some (normalizeTime (tm_hours t) (tm_minutes t) (tm_meridian t))
          | [] => Some (normalizeTime (tm_hours t0) (tm_minutes t0) (tm_meridian t0))
          end
      end
  end.

(** [parseDateTimeFromText(text)]: [null] when no date is found, the ISO
    string otherwise. *)
Definition parseDateTimeFromText (now : Z) (text : list ascii)
    : result (option (list ascii)) :=
  do parsed <- parseDate now text;
  match parsed with
  | None => Ok None
  | Some date =>
      let date :=
        match parseTime text with
        | Some time =>
            setHours tz date (hours time) (minutes time) (Int 0) (Int 0)
        | None => date
        end in
      do s <- toISOString date;
      Ok (Some s)
  end.

End Parser.

(** ** The text normaliser *)

Definition anchored (r : regex) : regex := seqs [Bol; r; Eol].

Definition copyright_sign : ascii := ascii_of_N 169.

(** The lines to remove: navigation, footer and other chrome. *)
Definition junkPatterns : list regex :=
  [ anchored (Plus (lit "!"));
    anchored (liti "skip to content");
    anchored (liti "courses");
    anchored (liti "groups");
    anchored (liti "resources");
    anchored (liti "more");
    anchored (liti "home");
    anchored (liti "grades");
    anchored (Plus digit);
    anchored (liti "start attempt");
    anchored (liti "english");
    anchored (liti "change language");
    anchored (liti "support");
    anchored (liti "privacy policy");
    anchored (liti "terms of use");
    Seq Bol (liti "powerschool");
    seqs [Char (Ascii.eqb copyright_sign); Star space; digits_4];
    anchored (liti "assignment");
    anchored (liti "my document");
    anchored (liti "assignmentmy document");
    anchored (seqs [liti "assignment"; Star space; liti "my document"]) ].

Definition name_pattern : regex :=
  seqs [Bol; upper; Plus lower; Plus space; upper; Plus lower; Eol].

Definition course_pattern : regex :=
  alts (map liti ["section"; "period"; "class"; "block"]%string).

Definition unit_pattern : regex :=
  seqs [Bol; liti "unit"; Plus space; Plus digit].

Definition week_pattern : regex :=
  seqs [Bol; liti "week"; Plus space; Plus digit].

Definition weekday_pattern : regex :=
  seqs [Bol;
        Group 1 (alts (map liti
          ["monday"; "tuesday"; "wednesday"; "thursday"; "friday";
           "saturday"; "sunday"]%string));
        Eol].

Definition nonempty {A : Type} (l : list A) : bool :=
  match l with [] => false | _ :: _ => true end.

(** The filter of [cleanRawText]: a line is kept when its trimmed text is
    not empty and matches none of the junk patterns. *)
Definition keep_line (line : list ascii) : bool :=
  let trimmed := trim line in
  nonempty trimmed && negb (existsb (fun pattern => test pattern trimmed) junkPatterns).

(** [cleaned.filter((line, i) => i === 0 || line.trim() !== cleaned[i - 1].trim())];
    [before] is the element at index [i - 1]. *)
Fixpoint drop_repeats (before : option (list ascii)) (cleaned : list (list ascii))
    : list (list ascii) :=
  match cleaned with
  | [] => []
  | line :: cleaned' =>
      let keep :=
        match before with
        | None => true
        | Some b => negb (bool_decide (trim line = trim b))
        end in
      (if keep then [line] else []) ++ drop_repeats (Some line) cleaned'
  end.

(** The state of the classification loop of [formatAsBreadcrumb]. *)
Record Breadcrumb : Type := mkBreadcrumb {
  hierarchy : list (list ascii);
  details : list (list ascii);
  foundAssignment : bool
}.

Definition classify_line (b : Breadcrumb) (line : list ascii) : Breadcrumb :=
  let trimmed := trim line in
  let to_hierarchy := mkBreadcrumb (hierarchy b ++ [trimmed]) (details b) in
  if test name_pattern trimmed then b
  else if negb (foundAssignment b) && test course_pattern trimmed
  then to_hierarchy (foundAssignment b)
  else if negb (foundAssignment b) && test unit_pattern trimmed
  then to_hierarchy (foundAssignment b)
  else if negb (foundAssignment b) && test week_pattern trimmed
  then to_hierarchy (foundAssignment b)
  else if negb (foundAssignment b) && test weekday_pattern trimmed
  then to_hierarchy (foundAssignment b)
  else if negb (foundAssignment b) && nonempty (hierarchy b)
  then to_hierarchy true
  else mkBreadcrumb (hierarchy b) (details b ++ [trimmed]) (foundAssignment b).

Definition classify (lines : list (list ascii)) : Breadcrumb :=
  fold_left classify_line lines (mkBreadcrumb [] [] false).

Definition formatAsBreadcrumb (lines : list (list ascii)) : list ascii :=
  if (length lines <? 3)%nat then trim (join [LF] lines)
  else
    let b := classify lines in
    let output :=
      (if nonempty (hierarchy b) then [join (str " > ") (hierarchy b)] else [])
      ++ (if nonempty (details b) then [] :: details b else []) in
    trim (join [LF] output).

Definition cleanRawText (text : list ascii) : list ascii :=
  let lines := split_on LF text in
  let cleaned := List.filter keep_line lines in
  let deduped := drop_repeats None cleaned in
  formatAsBreadcrumb deduped.

(** ** The document

    What the script reads of the page: a tree of elements, each with its
    tag name, whether it is an [HTMLElement], its computed style and its
    rendered text, and the title of the document. *)

Record Style : Type := mkStyle {
  display : list ascii;
  visibility : list ascii;
  opacity : list ascii
}.

Record Element : Type := mkElement {
  isHTMLElement : bool;
  tagName : list ascii;
  computedStyle : option Style;
  innerText : option (list ascii)
}.

Inductive Node : Type :=
| El : Element -> list Node -> Node.

Definition elem (n : Node) : Element := match n with El e _ => e end.
Definition children (n : Node) : list Node := match n with El _ ks => ks end.

Record Document : Type := mkDocument {
  documentElement : Node;
  documentTitle : list ascii
}.

(** A reference to an element of the tree: the element, its previous
    sibling, and its path from the root (child indices). *)
Record Loc : Type := mkLoc {
  node : Node;
  previousElementSibling : option Node;
  path : list nat
}.

(** An element as the script holds it: its location followed by those of
    its ancestors, nearest first ([parentElement]). *)
Definition ElementRef : Type := list Loc.

(** The elements of a subtree in tree order, each with its ancestors. *)
Fixpoint walk (n : Node) (before : option Node) (p : list nat)
    (above : ElementRef) {struct n} : list ElementRef :=
  match n with
  | El _ kids =>
      let here := mkLoc n before p :: above in
      here ::
      (fix go (ks : list Node) (prv : option Node) (i : nat) {struct ks}
         : list ElementRef :=
         match ks with
         | [] => []
         | k :: ks' => walk k prv (p ++ [i]) here ++ go ks' (Some k) (S i)
         end) kids None O
  end.

(** [document.querySelectorAll("*")]. *)
Definition all_elements (doc : Document) : list ElementRef :=
  walk (documentElement doc) None [] [].

(** The elements below [n], in tree order. *)
Definition descendants (n : Node) : list Node :=
  flat_map (fun k => map (fun r => match r with l :: _ => node l | [] => k end)
                         (walk k None [] []))
           (children n).

Definition tag_is (tags : list string) (n : Node) : bool :=
  existsb (fun t => bool_decide (toLowerCase (tagName (elem n)) = str t)) tags.

(** [document.body]: the first [body] or [frameset] child of the root. *)
Definition body_path (doc : Document) : option (list nat) :=
  (fix go (ks : list Node) (i : nat) : option (list nat) :=
     match ks with
     | [] => None
     | k :: ks' => if tag_is ["body"; "frameset"]%string k then Some [i]
                   else go ks' (S i)
     end) (children (documentElement doc)) O.

(** [n.innerText?.trim()], when it is a non-empty string. *)
Definition trimmed_text (n : Node) : option (list ascii) :=
  match innerText (elem n) with
  | Some s => match trim s with [] => None | t => Some t end
  | None => None
  end.

Definition isVisible (el : ElementRef) : bool :=
  match el with
  | [] => false
  | l :: _ =>
      let e := elem (node l) in
      if negb (isHTMLElement e) then false
      else if existsb (fun t => bool_decide (toLowerCase (tagName e) = str t))
                ["script"; "style"; "noscript"; "template"; "svg"; "path"]%string
      then false
      else match computedStyle e with
           | None => false
           | Some style =>
               if bool_decide (display style = str "none")
                  || bool_decide (visibility style = str "hidden") then false
               else if bool_decide (opacity style = str "0") then false
               else true
           end
  end.

(** [el.innerText]. *)
Definition inner_text (e : ElementRef) : option (list ascii) :=
  match e with
  | l :: _ => innerText (elem (node l))
  | [] => None
  end.

Record Candidate : Type := mkCandidate { el : ElementRef; text : list ascii }.

Definition has (x : list ascii) (seen : gset (list ascii)) : bool :=
  bool_decide (x ∈ seen).

(** The loop of [findCandidateElements]. *)
Fixpoint collect (elements : list ElementRef) (seen : gset (list ascii))
    : list Candidate :=
  match elements with
  | [] => []
  | e :: elements' =>
      if negb (isVisible e) then collect elements' seen
      else
        match option_map trim (inner_text e) with
        | None => collect elements' seen
        | Some t =>
            if negb (nonempty t) || (length t <? 8)%nat || (1000 <? length t)%nat
            then collect elements' seen
            else if has t seen then collect elements' seen
            else mkCandidate e t :: collect elements' ({[ t ]} ∪ seen)
        end
  end.

Definition findCandidateElements (doc : Document) : list Candidate :=
  collect (all_elements doc) ∅.

(** The upward walk of [getTitle]: from the element to the root, stopping
    at [document.body]. *)
Fixpoint title_above (body : option (list nat)) (cur : ElementRef)
    : option (list ascii) :=
  match cur with
  | [] => None
  | l :: up =>
      if bool_decide (Some (path l) = body) then None
      else
        match
          match find (tag_is ["h1"; "h2"; "h3"; "h4"]%string) (descendants (node l)) with
          | Some heading => trimmed_text heading
          | None => None
          end
        with
        | Some t => Some t
        | None =>
            match
              match previousElementSibling l with
              | Some p => if tag_is ["h1"; "h2"; "h3"; "h4"]%string p
                          then trimmed_text p else None
              | None => None
              end
            with
            | Some t => Some t
            | None => title_above body up
            end
        end
  end.

Definition querySelector (doc : Document) (tag : string) : option Node :=
  find (tag_is [tag]) (documentElement doc :: descendants (documentElement doc)).

Definition heading_text (doc : Document) (tag : string) : option (list ascii) :=
  match querySelector doc tag with
  | Some h => trimmed_text h
  | None => None
  end.

Definition getTitle (doc : Document) (e : ElementRef) : list ascii :=
  match heading_text doc "h1" with
  | Some t => t
  | None =>
  match heading_text doc "h2" with
  | Some t => t
  | None =>
  match title_above (body_path doc) e with
  | Some t => t
  | None =>
      if nonempty (documentTitle doc) then documentTitle doc
      else str "Captured task"
  end end end.

(** ** The scrape *)

Record ScrapedTask : Type := mkTask {
  title : list ascii;
  dueDate : list ascii;
  raw : list ascii
}.

Definition dedup_key (title parsed : list ascii) : list ascii :=
  title ++ str "__" ++ parsed.

Section Scrape.

Variable tz : Z.

(** The loop of [scrapeTasks] over the candidates, each paired with the
    time the clock shows while it is processed. *)
Fixpoint scrape_loop (doc : Document) (candidates : list (Z * Candidate))
    (seen : gset (list ascii)) : result (list ScrapedTask) :=
  match candidates with
  | [] => Ok []
  | (now, c) :: candidates' =>
      if negb (test DUE_KEYWORDS (text c)) then scrape_loop doc candidates' seen
      else
        do parsed <- parseDateTimeFromText tz now (text c);
        match parsed with
        | Some (ch :: s) =>
            let parsed := ch :: s in
            let title := getTitle doc (el c) in
            let key := dedup_key title parsed in
            if has key seen then scrape_loop doc candidates' seen
            else
              do results <- scrape_loop doc candidates' ({[ key ]} ∪ seen);
              Ok (mkTask title parsed (cleanRawText (text c)) :: results)
        | _ => scrape_loop doc candidates' seen
        end
  end.

(** [scrapeTasks()]; [clock i] is the time while candidate [i] is
    processed. *)
Definition scrapeTasks (doc : Document) (clock : nat -> Z)
    : result (list ScrapedTask) :=
  let candidates := findCandidateElements doc in
  scrape_loop doc
    (combine (map clock (seq 0 (length candidates))) candidates) ∅.

End Scrape.

(** ** A declarative reading of the patterns

    [matches r st cs st' cs'] holds when some path through [r] leads from
    position [st] with captures [cs] to position [st'] with captures
    [cs']: what a successful run of [rmatch] must have gone through,
    regardless of the order in which the paths are tried. *)

Inductive matches : regex -> mstate -> captures -> mstate -> captures -> Prop :=
| m_empty st cs : matches Empty st cs st cs
| m_char (p : ascii -> bool) pv c s cs :
    p c = true ->
    matches (Char p) (MState pv (c :: s)) cs (MState (Some c) s) cs
| m_seq r1 r2 st cs st1 cs1 st2 cs2 :
    matches r1 st cs st1 cs1 -> matches r2 st1 cs1 st2 cs2 ->
    matches (Seq r1 r2) st cs st2 cs2
| m_alt_l r1 r2 st cs st' cs' :
    matches r1 st cs st' cs' -> matches (Alt r1 r2) st cs st' cs'
| m_alt_r r1 r2 st cs st' cs' :
    matches r2 st cs st' cs' -> matches (Alt r1 r2) st cs st' cs'
| m_star_stop r st cs : matches (Star r) st cs st cs
| m_star_more r st cs st1 cs1 st2 cs2 :
    matches r st cs st1 cs1 ->
    (length (rest st1) < length (rest st))%nat ->
    matches (Star r) st1 cs1 st2 cs2 ->
    matches (Star r) st cs st2 cs2
| m_group n r st cs st' cs' :
    matches r st cs st' cs' ->
    matches (Group n r) st cs st' ((n, consumed st st') :: cs')
| m_wordb st cs :
    at_word_boundary st = true -> matches WordB st cs st cs
| m_bol s cs : matches Bol (MState None s) cs (MState None s) cs
| m_eol pv cs : matches Eol (MState pv []) cs (MState pv []) cs.

(** A pattern without capture groups. *)
Fixpoint capfree (r : regex) : bool :=
  match r with
  | Seq r1 r2 | Alt r1 r2 => capfree r1 && capfree r2
  | Star r1 => capfree r1
  | Group _ _ => false
  | _ => true
  end.

(** Every character, for proofs by enumeration. *)
Definition all_ascii : list ascii := map ascii_of_nat (seq 0 256).

(** The length of month [m] (0 to 11) of year [y]. *)
Definition days_in_month (y m : Z) : Z :=
  match m with
  | 1 => if is_leap y then 29 else 28
  | 3 | 5 | 8 | 10 => 30
  | 0 | 2 | 4 | 6 | 7 | 9 | 11 => 31
  | _ => 0
  end.

(** A calendar date that exists. *)
Definition valid_date (y m d : Z) : Prop :=
  0 <= m <= 11 /\ 1 <= d <= days_in_month y m.

(** ** Notions used in the statements *)

(** The character before the position reached by reading [w] from a
    position that comes after [pv]. *)
Definition last_read (pv : option ascii) (w : list ascii) : option ascii :=
  match rev w with c :: _ => Some c | [] => pv end.

Definition all_digits (w : list ascii) : Prop := forallb is_digit w = true.

(** The captures of a match of the month-day-year pattern. *)
Definition mdy_shape (cs : captures) : Prop :=
  exists mon day year,
    cap cs 1 = Some mon /\ cap cs 2 = Some day /\ cap cs 3 = Some year /\
    0 <= parseMonth mon <= 11 /\
    all_digits day /\ (1 <= length day <= 2)%nat /\
    all_digits year /\ length year = 4%nat.

(** The captures of a match of the month-day pattern. *)
Definition md_shape (cs : captures) : Prop :=
  exists mon day,
    cap cs 1 = Some mon /\ cap cs 2 = Some day /\
    0 <= parseMonth mon <= 11 /\
    all_digits day /\ (1 <= length day <= 2)%nat.

(** The captures of a match of the ISO pattern. *)
Definition iso_shape (cs : captures) : Prop :=
  exists y m d,
    cs = [(3%nat, d); (2%nat, m); (1%nat, y)] /\
    all_digits y /\ length y = 4%nat /\
    all_digits m /\ length m = 2%nat /\
    all_digits d /\ length d = 2%nat.

(** The captures of a match of either time pattern: an hour of one or two
    digits, possibly two digits of minutes, possibly a meridian marker. *)
Definition time_shape (cs : captures) : Prop :=
  (exists h, cap cs 1 = Some h /\ all_digits h /\ (1 <= length h <= 2)%nat) /\
  (cap cs 2 = None \/
   exists m, cap cs 2 = Some m /\ all_digits m /\ length m = 2%nat) /\
  (cap cs 3 = None \/
   exists a, cap cs 3 = Some a /\
     (toLowerCase a = str "am" \/ toLowerCase a = str "pm")).

Definition six_lines : list (list ascii) :=
  map str ["Section B"; "Week 3"; "Essay Draft"; "Due Jan 26"; "Due Jan 26";
           "35"]%string.

(** The lines that reach the classification loop of [formatAsBreadcrumb]. *)
Definition surviving_lines (text : list ascii) : list (list ascii) :=
  drop_repeats None (List.filter keep_line (split_on LF text)).

(** *** The text block of an element

    What the collector is specified to keep of an element: the trimmed
    rendered text of a visible element, when its length is between 8 and
    1000 characters. *)

Definition rendered_text (e : ElementRef) : option (list ascii) :=
  option_map trim (inner_text e).

Definition in_window (t : list ascii) : bool :=
  (8 <=? length t)%nat && (length t <=? 1000)%nat.

Definition block_text (e : ElementRef) : option (list ascii) :=
  if isVisible e then
    match rendered_text e with
    | Some t => if in_window t then Some t else None
    | None => None
    end
  else None.

(** *** What one candidate yields, and the first occurrences of a list *)

Section ScrapeSpec.

Variable tz : Z.
Variable doc : Document.

(** The task a candidate gives rise to, if it passes the gate and a date
    is found in it. *)
Definition candidate_task (nc : Z * Candidate) : result (option ScrapedTask) :=
  let '(now, c) := nc in
  if test DUE_KEYWORDS (text c) then
    do parsed <- parseDateTimeFromText tz now (text c);
    match parsed with
    | Some (ch :: s) =>
        Ok (Some (mkTask (getTitle doc (el c)) (ch :: s) (cleanRawText (text c))))
    | _ => Ok None
    end
  else Ok None.

Definition surviving_task (nc : Z * Candidate) : option ScrapedTask :=
  match candidate_task nc with
  | Ok (Some t) => Some t
  | _ => None
  end.

End ScrapeSpec.

Definition task_pair (t : ScrapedTask) : list ascii * list ascii :=
  (title t, dueDate t).

(** The tasks of a list whose (title, dueDate) pair did not occur before,
    neither in [seen] nor earlier in the list. *)
Fixpoint first_by_pair (seen : list (list ascii * list ascii))
    (ts : list ScrapedTask) : list ScrapedTask :=
  match ts with
  | [] => []
  | t :: ts' =>
      if bool_decide (task_pair t ∈ seen) then first_by_pair seen ts'
      else t :: first_by_pair (task_pair t :: seen) ts'
  end.

(** The candidates of a document, each with its clock reading. *)
Definition timed_candidates (doc : Document) (clock : nat -> Z)
    : list (Z * Candidate) :=
  let candidates := findCandidateElements doc in
  combine (map clock (seq 0 (length candidates))) candidates.

Definition underscore : ascii := "_".

(** The set of keys and a list of pairs record the same tasks. *)
Definition seen_agree (seen : gset (list ascii))
    (pairs : list (list ascii * list ascii)) : Prop :=
  forall t d, underscore ∉ d -> dedup_key t d ∈ seen <-> (t, d) ∈ pairs.

(** A page with a heading and three deadline lines, two of them for the
    same instant. *)
Definition sample_style : option Style :=
  Some (mkStyle (str "block") (str "visible") (str "1")).

Definition sample_element (tag txt : string) (kids : list Node) : Node :=
  El (mkElement true (str tag) sample_style (Some (str txt))) kids.

Definition sample_document : Document :=
  mkDocument
    (sample_element "HTML" "Essay"
       [ sample_element "HEAD" "" [];
         sample_element "BODY" "Essay"
           [ sample_element "H1" " Essay " [];
             sample_element "DIV" "Due Jan 26, 2026 at 5pm" [];
             sample_element "P" "Closes Jan 26, 2026 17:00" [];
             sample_element "P" "Due Jan 27, 2026 at 5pm" [];
             sample_element "P" "Page 3 of 12, nothing here" [];
             sample_element "P" "short" [] ] ])
    (str "Course page").

Definition sample_tasks : list ScrapedTask :=
  [ mkTask (str "Essay") (str "2026-01-26T17:00:00.000Z")
      (str "Due Jan 26, 2026 at 5pm");
    mkTask (str "Essay") (str "2026-01-27T17:00:00.000Z")
      (str "Due Jan 27, 2026 at 5pm") ].

(** *** Dates within reach

    A date is within reach when it is valid and its local time is at most
    8.32e15 ms from the epoch: far enough from the limit of 8.64e15 for
    a time of day to be set on it and for the time zone to be applied. *)

Definition reach : Z := 8320000000000000.

Definition in_reach (tz : Z) (d : Date) : Prop :=
  exists t, d = Int t /\ Z.abs (t + tz) <= reach.

(** The clock readings considered: within 8.0e15 ms of the epoch (some
    250,000 years either way). *)
Definition clock_bound : Z := 8000000000000000.

(** A candidate that is dropped: it fails the gate, or no date is found
    in it. *)
Definition dropped (tz : Z) (nc : Z * Candidate) : Prop :=
  test DUE_KEYWORDS (text (snd nc)) = false \/
  parseDateTimeFromText tz (fst nc) (text (snd nc)) = Ok None.

(** *** The date of the first pattern that matches

    The reading of the specification: the four patterns are tried in a
    fixed order and the first one that matches determines the date. *)

Definition month_number (v : option (list ascii)) : Z :=
  match v with Some s => parseMonth s | None => -1 end.

Section FirstMatch.

Variable tz : Z.
Variable now : Z.

Definition date_of_iso (m : captures) : Date :=
  new_Date tz (parseInt_value (cap m 1))
              (num_sub (parseInt_value (cap m 2)) (Int 1))
              (parseInt_value (cap m 3)).

Definition date_of_monthDayYear (m : captures) : Date :=
  new_Date tz (parseInt_value (cap m 3)) (Int (month_number (cap m 1)))
              (parseInt_value (cap m 2)).

(** The current year, or the next one when the date has passed. *)
Definition date_of_monthDay (m : captures) : Date :=
  let year := getFullYear tz (Int now) in
  let date := new_Date tz year (Int (month_number (cap m 1)))
                (parseInt_value (cap m 2)) in
  if num_ltb date (Int now) then setFullYear tz date (num_add year (Int 1))
  else date.

Definition date_of_relative (m : captures) : Date :=
  let today := new_Date tz (getFullYear tz (Int now)) (getMonth tz (Int now))
                           (getDate tz (Int now)) in
  if bool_decide (cap m 1 = Some (str "tomorrow"))
  then setDate tz today (num_add (getDate tz today) (Int 1))
  else today.

Definition first_match_date (text : list ascii) : option Date :=
  match exec DATE_PATTERNS.iso text with
  | Some m => Some (date_of_iso m)
  | None =>
  match exec DATE_PATTERNS.monthDayYear text with
  | Some m => Some (date_of_monthDayYear m)
  | None =>
  match exec DATE_PATTERNS.monthDay text with
  | Some m => Some (date_of_monthDay m)
  | None =>
  match exec DATE_PATTERNS.relative (toLowerCase text) with
  | Some m => Some (date_of_relative m)
  | None => None
  end end end end.

End FirstMatch.

(** *** An ISO date in a text

    [iso_text y m d] is the text YYYY-MM-DD; it is a token at a position
    when it stands there between word boundaries. *)

Definition iso_text (y m d : list ascii) : list ascii :=
  y ++ str "-" ++ m ++ str "-" ++ d.

Definition iso_fields (y m d : list ascii) : Prop :=
  all_digits y /\ length y = 4%nat /\
  all_digits m /\ length m = 2%nat /\
  all_digits d /\ length d = 2%nat.

Definition is_word (c : option ascii) : bool :=
  match c with Some a => is_word_char a | None => false end.

(** The ISO token that starts at a position, given the character before
    it and the text from there on. *)
Definition iso_token (p : option ascii) (s : list ascii)
    : option (list ascii * list ascii * list ascii) :=
  match s with
  | y1 :: y2 :: y3 :: y4 :: h1 :: m1 :: m2 :: h2 :: d1 :: d2 :: post =>
      if forallb is_digit [y1; y2; y3; y4; m1; m2; d1; d2]
         && Ascii.eqb h1 "-" && Ascii.eqb h2 "-"
         && negb (is_word p) && negb (is_word (head post))
      then Some ([y1; y2; y3; y4], [m1; m2], [d1; d2])
      else None
  | _ => None
  end.

(** No ISO token starts within [pre], when [pre] comes after the
    character [p] and is followed by [rest]. *)
Fixpoint iso_free (p : option ascii) (pre rest : list ascii) : bool :=
  match pre with
  | [] => true
  | c :: pre' =>
      match iso_token p (pre ++ rest) with
      | Some _ => false
      | None => iso_free (Some c) pre' rest
      end
  end.

(** The token stands between word boundaries: neither the character
    before it nor the one after it is a letter of the ASCII alphabet, a
    digit or an underscore. *)
Definition delimited (pre post : list ascii) : Prop :=
  is_word (last_read None pre) = false /\ is_word (head post) = false.

(** The local calendar date of a time value: year, month (0 to 11), day. *)
Definition local_date (tz t : Z) : Z * Z * Z :=
  (YearFromTime (LocalTime tz t), MonthFromTime (LocalTime tz t),
   DateFromTime (LocalTime tz t)).

(** Noon UTC on 2026-03-01. *)
Definition noon_2026_03_01 : Z := 1772366400000.


(** *** Time phrases and their choice, as the specification words them

    A time phrase is written hour[:minute][meridian]: one or two digits,
    possibly a colon and two digits, possibly white space and [am] or
    [pm] in any case.  The definitions of this part read the phrases off
    the text character by character; they use neither the patterns of
    the script nor its matcher, and neither [parseInt] nor
    [toLowerCase]. *)

Record phrase : Type := mkPhrase {
  hour_text : list ascii;
  minute_text : option (list ascii);
  marker_text : option (list ascii)
}.

(** The number that a string of digits writes. *)
Definition digits_value (w : list ascii) : Z :=
  fold_left (fun acc c => acc * 10 + digit_value c) w 0.

Definition hour_of (ph : phrase) : Z := digits_value (hour_text ph).

Definition minute_of (ph : phrase) : Z :=
  match minute_text ph with
  | Some w => digits_value w
  | None => 0
  end.

(** A letter of either case, read as the small letter. *)
Definition fold_case (c : ascii) : ascii :=
  if is_upper c then ascii_of_N (code c + 32) else c.

(** The word [w] (in small letters) stands at the head of [s], in any
    case; what follows it. *)
Fixpoint reads_word (w s : list ascii) : option (list ascii) :=
  match w, s with
  | [], _ => Some s
  | l :: w', c :: s' =>
      if Ascii.eqb (fold_case c) l then reads_word w' s' else None
  | _ :: _, [] => None
  end.

Inductive meridian : Type := AM | PM.

Definition meridian_of (ph : phrase) : option meridian :=
  match marker_text ph with
  | Some w =>
      match reads_word (str "am") w, reads_word (str "pm") w with
      | Some [], _ => Some AM
      | _, Some [] => Some PM
      | _, _ => None
      end
  | None => None
  end.

(** The hour at the head of [s]: one digit, or two when a second one
    follows; with what comes after it. *)
Definition read_hour (s : list ascii) : option (list ascii * list ascii) :=
  match s with
  | a :: b :: r =>
      if is_digit a then
        if is_digit b then Some ([a; b], r) else Some ([a], b :: r)
      else None
  | [a] => if is_digit a then Some ([a], []) else None
  | [] => None
  end.

(** The minutes: a colon and two digits. *)
Definition read_minute (s : list ascii) : option (list ascii * list ascii) :=
  match s with
  | c :: a :: b :: r =>
      if Ascii.eqb c ":" && is_digit a && is_digit b then Some ([a; b], r)
      else None
  | _ => None
  end.

(** The meridian marker, as it is written. *)
Definition read_marker (s : list ascii) : option (list ascii * list ascii) :=
  match reads_word (str "am") s, reads_word (str "pm") s with
  | Some r, _ => Some (firstn 2 s, r)
  | None, Some r => Some (firstn 2 s, r)
  | None, None => None
  end.

Definition starts_word (s : list ascii) : bool := is_word (head s).

(** What follows the digits of an occurrence in the block.  The
    occurrence is a word of its own: it ends where a word ends.  So the
    digits are followed by white space and a marker that ends a word;
    or by no marker, and then they end a word themselves, unless white
    space separates them from the next word (the white space is then
    counted in). *)
Definition read_tail (s : list ascii)
    : option (option (list ascii) * list ascii) :=
  let s' := trimStart s in
  let plain :=
    if starts_word s' then
      if (length s' <? length s)%nat then Some (None, s') else None
    else Some (None, s) in
  match read_marker s' with
  | Some (w, r) => if starts_word r then plain else Some (Some w, r)
  | None => plain
  end.

(** The occurrence of a time phrase that starts at the head of [s], in
    its fullest reading, with what comes after it. *)
Definition phrase_at (s : list ascii) : option (phrase * list ascii) :=
  match read_hour s with
  | None => None
  | Some (h, r) =>
      let without_minutes :=
        match read_tail r with
        | Some (mk, r') => Some (mkPhrase h None mk, r')
        | None => None
        end in
      match read_minute r with
      | Some (m, r1) =>
          match read_tail r1 with
          | Some (mk, r') => Some (mkPhrase h (Some m) mk, r')
          | None => without_minutes
          end
      | None => without_minutes
      end
  end.

(** All the occurrences of the block, from left to right: an occurrence
    starts where a word starts, and the next one is looked for after it.
    [skip] counts the characters of the last occurrence that are still
    to be passed, [before] is the character before [s]. *)
Fixpoint occurrences (skip : nat) (before : option ascii) (s : list ascii)
    : list phrase :=
  match s with
  | [] => []
  | c :: s' =>
      match skip with
      | S n => occurrences n (Some c) s'
      | O =>
          match (if is_word before then None else phrase_at s) with
          | Some (ph, r) =>
              ph :: occurrences (length s' - length r) (Some c) s'
          | None => occurrences 0 (Some c) s'
          end
      end
  end.

Definition has_minute (ph : phrase) : bool :=
  match minute_text ph with Some _ => true | None => false end.

Definition has_marker (ph : phrase) : bool :=
  match marker_text ph with Some _ => true | None => false end.

(** An occurrence is rejected when its hour is above 23, and when it is
    a bare hour, with neither minutes nor a marker. *)
Definition rejected (ph : phrase) : bool :=
  (23 <? hour_of ph) || (negb (has_minute ph) && negb (has_marker ph)).

(** Of the occurrences that remain, the first with a marker, otherwise
    the first with minutes. *)
Definition scan_choice (text : list ascii) : option phrase :=
  let remaining :=
    List.filter (fun ph => negb (rejected ph)) (occurrences 0 None text) in
  match find has_marker remaining with
  | Some ph => Some ph
  | None => find has_minute remaining
  end.

Definition read_keyword (s : list ascii) : option (list ascii) :=
  match reads_word (str "at") s with
  | Some r => Some r
  | None =>
      match reads_word (str "until") s with
      | Some r => Some r
      | None => reads_word (str "by") s
      end
  end.

(** A time phrase immediately preceded by a keyword: [at], [until] or
    [by] at the head of [s], white space, then the phrase. *)
Definition after_keyword (s : list ascii) : option phrase :=
  match read_keyword s with
  | Some (c :: r) =>
      if is_js_space c then
        match read_hour (trimStart r) with
        | Some (h, r1) =>
            let '(m, r2) :=
              match read_minute r1 with
              | Some (m, r2) => (Some m, r2)
              | None => (None, r1)
              end in
            Some (mkPhrase h m (option_map fst (read_marker (trimStart r2))))
        | None => None
        end
      else None
  | _ => None
  end.

(** The first time phrase of the text that a keyword precedes.  With
    [whole_word] the keyword has to start a word, which is how the
    specification reads; without it, the letters of the keyword may end a
    longer word, as in "that 5". *)
Fixpoint proximity (whole_word : bool) (before : option ascii)
    (s : list ascii) : option phrase :=
  match (if whole_word && is_word before then None else after_keyword s) with
  | Some ph => Some ph
  | None =>
      match s with
      | [] => None
      | c :: s' => proximity whole_word (Some c) s'
      end
  end.

(** The choice: the proximity match is preferred, otherwise the block is
    scanned. *)
Definition selected (whole_word : bool) (text : list ascii) : option phrase :=
  match proximity whole_word None text with
  | Some ph => Some ph
  | None => scan_choice text
  end.

(** The time of day that a phrase denotes: an hour above 12 is an hour
    of the 24-hour clock, whatever the marker (counted modulo 24);
    otherwise [pm] adds 12 to an hour below 12 and [am] turns 12 into 0. *)
Definition clock_time (ph : phrase) : ParsedTime :=
  let h := hour_of ph in
  mkTime
    (Int (if 12 <? h then h mod 24
          else match meridian_of ph with
               | Some PM => if h <? 12 then h + 12 else h
               | Some AM => if h =? 12 then 0 else h
               | None => h
               end))
    (Int (minute_of ph)).

(** The captures that a match of a time pattern leaves for a phrase:
    group 1 is the hour, group 2 the minutes, group 3 the marker. *)
Definition group_captures (n : nat) (w : option (list ascii)) : captures :=
  match w with Some w => [(n, w)] | None => [] end.

Definition phrase_captures (ph : phrase) : captures :=
  group_captures 3 (marker_text ph) ++ group_captures 2 (minute_text ph) ++
  [(1%nat, hour_text ph)].

(** What the readers return: digits for the hour and the minutes, the
    two letters of a marker. *)
Definition well_formed (ph : phrase) : Prop :=
  all_digits (hour_text ph) /\ (1 <= length (hour_text ph) <= 2)%nat /\
  match minute_text ph with
  | Some m => all_digits m /\ length m = 2%nat
  | None => True
  end /\
  match marker_text ph with
  | Some w =>
      reads_word (str "am") w = Some [] \/ reads_word (str "pm") w = Some []
  | None => True
  end.

(** Some proximity occurrence of the text has its keyword glued to a
    word character before it. *)
Fixpoint keyword_in_word (before : option ascii) (s : list ascii) : bool :=
  (is_word before &&
   match after_keyword s with Some _ => true | None => false end) ||
  match s with
  | [] => false
  | c :: s' => keyword_in_word (Some c) s'
  end.

(** A bare hour: neither minutes nor a marker. *)
Definition bare (ph : phrase) : Prop :=
  has_minute ph = false /\ has_marker ph = false.

(** * The popup, the service worker and the messages between them

    [src/extension/popup.js] and [src/extension/service-worker.js], and
    the top level of the content script, which sends what it scraped. *)

(** ** Values

    What a message can hold: the values of JSON, and [undefined] for what
    is absent.  An object is the list of its properties; the first entry
    of a name is the one that counts. *)

Inductive value : Type :=
| Undefined : value
| Null : value
| Boolean : bool -> value
| Number : number -> value
| Text : list ascii -> value
| Array : list value -> value
| Object : list (list ascii * value) -> value.

(** The values that count as true in a condition and on the left of [||]. *)
Definition is_truthy (v : value) : bool :=
  match v with
  | Undefined | Null => false
  | Boolean b => b
  | Number (Int z) => negb (z =? 0)
  | Number NaN => false
  | Text s => nonempty s
  | Array _ | Object _ => true
  end.

(** [v === "..."] for a string literal. *)
Definition is_text (v : value) (s : string) : bool :=
  match v with
  | Text t => bool_decide (t = str s)
  | _ => false
  end.

(** [a || b]. *)
Definition or_else (a b : value) : value := if is_truthy a then a else b.

Fixpoint property (name : list ascii) (props : list (list ascii * value))
    : value :=
  match props with
  | [] => Undefined
  | (k, v) :: props' =>
      if bool_decide (k = name) then v else property name props'
  end.

(** [v.name] for one of the property names the scripts read ([title],
    [labels], [type], ...): reading a property of [null] or [undefined]
    is a [TypeError]; a primitive or an array has none of them. *)
Definition get (v : value) (name : string) : result value :=
  match v with
  | Undefined | Null => Throw TypeError
  | Object props => Ok (property (str name) props)
  | _ => Ok Undefined
  end.

(** *** Numbers and values as text *)

(** The decimal digits of a non-negative integer, most significant first;
    an integer has no more decimal digits than binary ones, which is the
    [fuel] it is given. *)
Fixpoint decimal (fuel : nat) (n : Z) : list ascii :=
  match fuel with
  | O => []
  | S fuel' =>
      (if n <? 10 then [] else decimal fuel' (n / 10))
      ++ [digit_char (n mod 10)]
  end.

(** [String(n)] for an integer, written with all its digits.  The
    numbers of the model are the integers that the script meets: date
    fields and status codes; from 10^21 on, where [String] turns to the
    exponent notation, and for fractions, the model does not apply. *)
Definition Z_toString (n : Z) : list ascii :=
  if n <? 0 then str "-" ++ decimal (S (Z.to_nat (Z.log2 (- n)))) (- n)
  else decimal (S (Z.to_nat (Z.log2 n))) n.

Definition Number_toString (n : number) : list ascii :=
  match n with
  | Int z => Z_toString z
  | NaN => str "NaN"
  end.

(** [String(v)], as a template literal and [Array.prototype.join] apply
    it; within an array [null] and [undefined] give the empty string. *)
Fixpoint ToString (v : value) : list ascii :=
  match v with
  | Undefined => str "undefined"
  | Null => str "null"
  | Boolean b => if b then str "true" else str "false"
  | Number n => Number_toString n
  | Text s => s
  | Array l =>
      join (str ",")
        (map (fun x => match x with
                       | Undefined | Null => []
                       | _ => ToString x
                       end) l)
  | Object _ => str "[object Object]"
  end.

Definition element_text (v : value) : list ascii :=
  match v with
  | Undefined | Null => []
  | _ => ToString v
  end.

(** [l.join(sep)]. *)
Definition join_values (sep : list ascii) (l : list value) : list ascii :=
  join sep (map element_text l).

(** ** The popup *)

(** [s.replace(/c/g, by)] for a pattern of one character and a
    replacement without [$]. *)
Definition replace_char (c : ascii) (replacement : list ascii)
    (s : list ascii) : list ascii :=
  flat_map (fun x => if Ascii.eqb x c then replacement else [x]) s.

Definition quote : ascii := ascii_of_N 34.

Definition escapeHtml (s : list ascii) : list ascii :=
  replace_char "'" (str "&#39;")
    (replace_char quote (str "&quot;")
      (replace_char ">" (str "&gt;")
        (replace_char "<" (str "&lt;")
          (replace_char "&" (str "&amp;") s)))).

(** [labels.split(",").map((s) => s.trim()).filter(Boolean)], as [onSave]
    and [normalizeLabels] both do. *)
Definition split_labels (s : list ascii) : list (list ascii) :=
  List.filter nonempty (map trim (split_on "," s)).

(** *** Reading a date from a string

    [new Date(s)] for a string.  ECMA-262 fixes the result for the date
    and time format [YYYY-MM-DDTHH:mm:ss.sssZ] (the year also as a sign
    and six digits, the seconds and the milliseconds optional, and local
    time when the final [Z] is missing); for any other string it is up to
    the implementation, here [legacy_parse]. *)

Definition take_digits (n : nat) (s : list ascii) : option (Z * list ascii) :=
  let w := firstn n s in
  if (length w =? n)%nat && forallb is_digit w
  then Some (fold_left (fun acc c => acc * 10 + digit_value c) w 0, skipn n s)
  else None.

Definition take_char (c : ascii) (s : list ascii) : option (list ascii) :=
  match s with
  | x :: s' => if Ascii.eqb x c then Some s' else None
  | [] => None
  end.

Definition parse_year (s : list ascii) : option (Z * list ascii) :=
  match s with
  | c :: s' =>
      if Ascii.eqb c "+" then take_digits 6 s'
      else if Ascii.eqb c "-" then
        match take_digits 6 s' with
        | Some (y, s2) => if y =? 0 then None else Some (- y, s2)
        | None => None
        end
      else take_digits 4 s
  | [] => None
  end.

(** The optional [:ss] and [.sss]. *)
Definition parse_seconds (s : list ascii) : option (Z * Z * list ascii) :=
  match take_char ":" s with
  | Some s1 =>
      match take_digits 2 s1 with
      | Some (sec, s2) =>
          match take_char "." s2 with
          | Some s3 =>
              match take_digits 3 s3 with
              | Some (ms, s4) => Some (sec, ms, s4)
              | None => None
              end
          | None => Some (sec, 0, s2)
          end
      | None => None
      end
  | None => Some (0, 0, s)
  end.

Section Popup.

Variable tz : Z.
Variable legacy_parse : list ascii -> number.

(** The time value of a string in the date and time format, [None] for a
    string that is not in it. *)
Definition iso_time_value (s : list ascii) : option number :=
  '(y, s1) ← parse_year s;
  s2 ← take_char "-" s1;
  '(mo, s3) ← take_digits 2 s2;
  s4 ← take_char "-" s3;
  '(d, s5) ← take_digits 2 s4;
  s6 ← take_char "T" s5;
  '(h, s7) ← take_digits 2 s6;
  s8 ← take_char ":" s7;
  '(mi, s9) ← take_digits 2 s8;
  '(sec, ms, s10) ← parse_seconds s9;
  if (1 <=? mo) && (mo <=? 12) && (1 <=? d) && (d <=? days_in_month y (mo - 1))
     && (h <=? 23) && (mi <=? 59) && (sec <=? 59)
  then
    let t := MakeDate (MakeDay y (mo - 1) d) (MakeTime h mi sec ms) in
    match s10 with
    | [] => Some (TimeClip (UTC tz t))
    | [z] => if Ascii.eqb z "Z" then Some (TimeClip t) else None
    | _ => None
    end
  else None.

Definition clip (n : number) : Date :=
  match n with Int t => TimeClip t | NaN => NaN end.

(** [Date.parse(s)]. *)
Definition Date_parse (s : list ascii) : number :=
  match iso_time_value s with
  | Some t => t
  | None => clip (legacy_parse s)
  end.

(** [new Date(v)] with one argument: a string is parsed, an array or an
    object is parsed as the string it converts to, anything else is taken
    as a number of milliseconds. *)
Definition new_Date_of (v : value) : Date :=
  match v with
  | Text s => Date_parse s
  | Array _ | Object _ => Date_parse (ToString v)
  | Number n => clip n
  | Boolean b => Int (if b then 1 else 0)
  | Null => Int 0
  | Undefined => NaN
  end.

Definition getHours (d : Date) : number :=
  match d with Int t => Int (HourFromTime (LocalTime tz t)) | NaN => NaN end.
Definition getMinutes (d : Date) : number :=
  match d with Int t => Int (MinFromTime (LocalTime tz t)) | NaN => NaN end.

(** The [pad] of [toLocalInput]. *)
Definition toLocalInput_pad (n : number) : list ascii :=
  if num_ltb n (Int 10) then str "0" ++ Number_toString n
  else Number_toString n.

Definition toLocalInput (iso : value) : list ascii :=
  if negb (is_truthy iso) then []
  else
    let d := new_Date_of iso in
    match d with
    | NaN => []
    | Int _ =>
        Number_toString (getFullYear tz d) ++ str "-" ++
        toLocalInput_pad (num_add (getMonth tz d) (Int 1)) ++ str "-" ++
        toLocalInput_pad (getDate tz d) ++ str "T" ++
        toLocalInput_pad (getHours d) ++ str ":" ++
        toLocalInput_pad (getMinutes d)
    end.

(** [escapeHtml(v)] for a value: only a string has a [replace] method. *)
Definition escapeHtml_value (v : value) : result (list ascii) :=
  match v with
  | Text s => Ok (escapeHtml s)
  | _ => Throw TypeError
  end.

(** [(task.labels || []).join(", ")]: only an array has a [join] method. *)
Definition labels_text (labels : value) : result (list ascii) :=
  match or_else labels (Array []) with
  | Array l => Ok (join_values (str ", ") l)
  | _ => Throw TypeError
  end.

Definition attribute (name value_ : string) : list ascii :=
  str name ++ str "=" ++ [quote] ++ str value_ ++ [quote].

Definition indent : list ascii := LF :: str "      ".

(** The markup [renderTasks] gives to the list item of one task. *)
Definition task_markup (task : value) : result (list ascii) :=
  do title <- get task "title";
  do title_html <- escapeHtml_value (or_else title (Text []));
  do due <- get task "dueDate";
  do labels <- get task "labels";
  do labels_joined <- labels_text labels;
  do raw <- get task "raw";
  do description <- get task "description";
  do notes_html <-
    escapeHtml_value (or_else (or_else raw description) (Text []));
  Ok (indent ++ str "<label>Title</label>" ++
      indent ++ str "<input " ++ attribute "class" "title" ++ str " " ++
        attribute "type" "text" ++ str " value=" ++ [quote] ++
        title_html ++ [quote] ++ str " />" ++
      indent ++ str "<label>Due</label>" ++
      indent ++ str "<input " ++ attribute "class" "due" ++ str " " ++
        attribute "type" "datetime-local" ++ str " value=" ++ [quote] ++
        toLocalInput due ++ [quote] ++ str " />" ++
      indent ++ str "<label>Labels (comma)</label>" ++
      indent ++ str "<input " ++ attribute "class" "labels" ++ str " " ++
        attribute "type" "text" ++ str " value=" ++ [quote] ++
        escapeHtml labels_joined ++ [quote] ++ str " />" ++
      indent ++ str "<label>Notes</label>" ++
      indent ++ str "<textarea " ++ attribute "class" "raw" ++ str " " ++
        attribute "rows" "3" ++ str ">" ++ notes_html ++
        str "</textarea>" ++
      LF :: str "    ").

(** What [onSave] reads from the form of one task. *)
Record TaskForm : Type := mkTaskForm {
  form_title : list ascii;
  form_due : list ascii;
  form_labels : list ascii;
  form_raw : list ascii
}.

(** [value ? new Date(value).toISOString() : null]. *)
Definition onSave_dueDate (due : list ascii) : result value :=
  match due with
  | [] => Ok Null
  | _ :: _ => do s <- toISOString (new_Date_of (Text due)); Ok (Text s)
  end.

(** The task [onSave] sends for one form. *)
Definition onSave_task (f : TaskForm) : result value :=
  do due <- onSave_dueDate (form_due f);
  Ok (Object [ (str "title", Text (trim (form_title f)));
               (str "dueDate", due);
               (str "labels", Array (map Text (split_labels (form_labels f))));
               (str "description", Text (trim (form_raw f))) ]).

End Popup.

(** ** The service worker *)

Definition PROD_ORIGIN : list ascii := str "https://polychrome.appwrite.network".
Definition DEV_ORIGIN : list ascii := str "http://localhost:3000".
Definition API_TASKS_PATH : list ascii := str "/api/tasks".

Fixpoint startsWith (s prefix : list ascii) {struct prefix} : bool :=
  match prefix, s with
  | [], _ => true
  | p :: prefix', c :: s' => Ascii.eqb c p && startsWith s' prefix'
  | _ :: _, [] => false
  end.

Definition resolveOrigin (modeOrUrl : value) : list ascii :=
  if negb (is_truthy modeOrUrl) || is_text modeOrUrl "prod"
  then PROD_ORIGIN
  else if is_text modeOrUrl "dev" then DEV_ORIGIN
  else match modeOrUrl with
       | Text s => if startsWith s (str "http") then s else PROD_ORIGIN
       | _ => PROD_ORIGIN
       end.

Definition resolveMode (origin : list ascii) : list ascii :=
  if bool_decide (origin = DEV_ORIGIN) then str "dev"
  else if bool_decide (origin = PROD_ORIGIN) then str "prod"
  else str "custom".

Definition normalizeLabels (labels : value) : value :=
  if negb (is_truthy labels) then Array []
  else match labels with
       | Array _ => labels
       | Text s => Array (map Text (split_labels s))
       | _ => Array []
       end.

Definition formatDescription (task : value) : result (list ascii) :=
  do url <- get task "url";
  do raw <- get task "raw";
  Ok (join_values [LF; LF]
        ((if is_truthy url then [Text (str "Captured from: " ++ ToString url)]
          else [])
         ++ (if is_truthy raw then [raw] else []))).

(** The state of the worker: its two variables, and the values it has
    written to the storage under [ENV_STORAGE_KEY], latest first. *)
Record Worker : Type := mkWorker {
  currentOrigin : list ascii;
  lastScrapedTasks : list value;
  stored : list value
}.

Definition setOrigin (modeOrUrl : value) (w : Worker) : Worker * list ascii :=
  let resolved := resolveOrigin modeOrUrl in
  (mkWorker resolved (lastScrapedTasks w) (modeOrUrl :: stored w), resolved).

(** [loadOriginFromStorage], given what the storage holds under the key. *)
Definition loadOriginFromStorage (found : value) (w : Worker) : Worker :=
  fst (setOrigin (or_else found (Text (str "prod"))) w).

(** The listener of [chrome.storage.onChanged], given [changes[ENV_STORAGE_KEY]]. *)
Definition onStorageChanged (area : list ascii) (change : value) (w : Worker)
    : result Worker :=
  if negb (bool_decide (area = str "local")) || negb (is_truthy change)
  then Ok w
  else do newValue <- get change "newValue"; Ok (fst (setOrigin newValue w)).

Fixpoint map_result {A B : Type} (f : A -> result B) (l : list A)
    : result (list B) :=
  match l with
  | [] => Ok []
  | x :: l' => do y <- f x; do ys <- map_result f l'; Ok (y :: ys)
  end.

(** [v.map(f)]: only an array has a [map] method. *)
Definition map_array {B : Type} (f : value -> result B) (v : value)
    : result (list B) :=
  match v with
  | Array l => map_result f l
  | _ => Throw TypeError
  end.

(** What the worker keeps of one task of a [SCRAPED_TASKS] message;
    [tab_url] is [sender?.tab?.url]. *)
Definition scraped_task (tab_url : value) (t : value) : result value :=
  do title <- get t "title";
  do description <- get t "description";
  do dueDate <- get t "dueDate";
  do labels <- get t "labels";
  do status <- get t "status";
  do priority <- get t "priority";
  do url <- get t "url";
  do raw <- get t "raw";
  Ok (Object
        [ (str "title", or_else title (Text (str "Captured task")));
          (str "description", or_else description (Text []));
          (str "dueDate", or_else dueDate Null);
          (str "labels",
           or_else labels (Array [Text (str "capture"); Text (str "web")]));
          (str "status", or_else status (Text (str "todo")));
          (str "priority", or_else priority (Text (str "medium")));
          (str "url", or_else (or_else url tab_url) (Text []));
          (str "raw", or_else raw (Text [])) ]).

(** The task [saveTasks] posts for one task it is given. *)
Definition merged_task (t : value) : result value :=
  do title <- get t "title";
  do description <- get t "description";
  do described <-
    (if is_truthy description then Ok description
     else do s <- formatDescription t; Ok (Text s));
  do status <- get t "status";
  do priority <- get t "priority";
  do dueDate <- get t "dueDate";
  do labels <- get t "labels";
  Ok (Object
        [ (str "title", or_else title (Text (str "Captured task")));
          (str "description", described);
          (str "status", or_else status (Text (str "todo")));
          (str "priority", or_else priority (Text (str "medium")));
          (str "dueDate", or_else dueDate Null);
          (str "labels",
           normalizeLabels
             (or_else labels (Array [Text (str "capture"); Text (str "web")]))) ]).

(** The body [postTask] sends for a task. *)
Definition post_body (task : value) : result value :=
  do title <- get task "title";
  do description <- get task "description";
  do status <- get task "status";
  do priority <- get task "priority";
  do dueDate <- get task "dueDate";
  do labels <- get task "labels";
  Ok (Object [ (str "title", title); (str "description", description);
               (str "status", status); (str "priority", priority);
               (str "dueDate", dueDate); (str "labels", labels) ]).

(** What comes back from [fetch]: the promise is rejected, or there is a
    response, whose body may be read as text (unless reading fails) and
    as JSON (unless it is not JSON, which rejects with a message). *)
Record Response : Type := mkResponse {
  response_ok : bool;
  response_status : Z;
  response_text : option (list ascii);
  response_json : value + list ascii
}.

Inductive Fetched : Type :=
| Rejects : list ascii -> Fetched
| Responds : Response -> Fetched.

(** How an asynchronous function ends: with a value, with an error that a
    script made (and its message), or with an error of the engine. *)
Inductive outcome (A : Type) : Type :=
| Fulfilled : A -> outcome A
| Failed : list ascii -> outcome A
| Raised : error -> outcome A.
Arguments Fulfilled {A} _.
Arguments Failed {A} _.
Arguments Raised {A} _.

Record Request : Type := mkRequest {
  request_url : list ascii;
  request_body : value
}.

Definition safeText (res : Response) : list ascii :=
  match response_text res with
  | Some t => t
  | None => str "no body"
  end.

Section Saving.

(** The surroundings of one call of [saveTasks]: the value of
    [currentOrigin] when the request number [i] of the call is made, and
    what [fetch] gives for it. *)
Variable origin_at : nat -> list ascii.
Variable fetch : nat -> Request -> Fetched.

(** [postTask(task, options)] for the request number [i]: the request
    made, and how the call ends. *)
Definition postTask (i : nat) (task : value) : list Request * outcome value :=
  match post_body task with
  | Throw e => ([], Raised e)
  | Ok body =>
      let request := mkRequest (origin_at i ++ API_TASKS_PATH) body in
      ([request],
       match fetch i request with
       | Rejects message => Failed message
       | Responds res =>
           if negb (response_ok res)
           then Failed (str "API " ++ Z_toString (response_status res)
                        ++ str ": " ++ safeText res)
           else match response_json res with
                | inl json => Fulfilled json
                | inr message => Failed message
                end
       end)
  end.

(** The loop of [saveTasks]: one request after the other, each awaited
    before the next is made. *)
Fixpoint post_each (i : nat) (merged : list value)
    : list Request * outcome (list value) :=
  match merged with
  | [] => ([], Fulfilled [])
  | task :: merged' =>
      match postTask i task with
      | (requests, Fulfilled res) =>
          let '(requests', rest) := post_each (S i) merged' in
          (requests ++ requests',
           match rest with
           | Fulfilled results => Fulfilled (res :: results)
           | Failed message => Failed message
           | Raised e => Raised e
           end)
      | (requests, Failed message) => (requests, Failed message)
      | (requests, Raised e) => (requests, Raised e)
      end
  end.

(** [saveTasks(tasks)], without options, as the popup calls it: the
    requests made, in order, and the results or the error. *)
Definition saveTasks (tasks : value) : list Request * outcome (list value) :=
  match map_array merged_task tasks with
  | Throw e => ([], Raised e)
  | Ok merged => post_each O merged
  end.

End Saving.

(** What the listener of [chrome.runtime.onMessage] does with a message:
    the new state and the response it gives at once, if any.  A
    [SAVE_TASKS] message changes nothing in the state and is answered
    later, when [saveTasks] has ended. *)
Definition onMessage (tab_url : value) (msg : value) (w : Worker)
    : result (Worker * option value) :=
  if negb (is_truthy msg) then Ok (w, None)
  else
    do type <- get msg "type";
    if negb (is_truthy type) then Ok (w, None)
    else if is_text type "SCRAPED_TASKS" then
      do tasks <- get msg "tasks";
      do kept <- map_array (scraped_task tab_url) (or_else tasks (Array []));
      Ok (mkWorker (currentOrigin w) kept (stored w),
          Some (Object [ (str "ok", Boolean true);
                         (str "tasks", Array kept) ]))
    else if is_text type "GET_LAST_TASKS" then
      Ok (w, Some (Object [ (str "ok", Boolean true);
                            (str "tasks", Array (lastScrapedTasks w)) ]))
    else if is_text type "SAVE_TASKS" then Ok (w, None)
    else if is_text type "GET_ENV" then
      Ok (w, Some (Object
                     [ (str "ok", Boolean true);
                       (str "origin", Text (currentOrigin w));
                       (str "mode", Text (resolveMode (currentOrigin w))) ]))
    else if is_text type "SET_ENV" then
      do mode <- get msg "mode";
      do origin <- get msg "origin";
      let '(w', resolved) := setOrigin (or_else mode origin) w in
      Ok (w', Some (Object [ (str "ok", Boolean true);
                             (str "origin", Text resolved);
                             (str "mode", Text (resolveMode resolved)) ]))
    else Ok (w, None).

(** ** The top level of the content script *)

(** The task object the content script sends for a scraped task;
    [href] is [location.href]. *)
Definition sent_task (href : list ascii) (t : ScrapedTask) : value :=
  Object [ (str "title", Text (title t));
           (str "description", Text []);
           (str "dueDate", Text (dueDate t));
           (str "labels", Array [Text (str "capture")]);
           (str "url", Text href);
           (str "raw", or_else (Text (raw t)) (Text [])) ].

Definition scraped_message (href : list ascii) (tasks : list ScrapedTask)
    : value :=
  Object [ (str "type", Text (str "SCRAPED_TASKS"));
           (str "tasks", Array (map (sent_task href) tasks)) ].

Section ContentScript.

Variable tz : Z.
Variable doc : Document.
Variable href : list ascii.

(** The function that runs when the script is injected: the new value of
    [window.__polychromeCaptureInjected], and the message sent, if any,
    unless the pass throws. *)
Definition on_injection (injected : bool) (clock : nat -> Z)
    : bool * result (option value) :=
  if injected then (true, Ok None)
  else
    (true,
     do tasks <- scrapeTasks tz doc clock;
     Ok (if (length tasks =? 0)%nat then None
         else Some (scraped_message href tasks))).

(** The listener for [REQUEST_SCRAPE]: the message sent, if any, and the
    response. *)
Definition on_request (msg : value) (clock : nat -> Z)
    : result (option value * option value) :=
  if negb (is_truthy msg) then Ok (None, None)
  else
    do type <- get msg "type";
    if negb (is_text type "REQUEST_SCRAPE")
    then Ok (None, None)
    else
      do tasks <- scrapeTasks tz doc clock;
      Ok (if (0 <? length tasks)%nat then Some (scraped_message href tasks)
          else None,
          Some (Object [ (str "ok", Boolean true);
                         (str "count",
                          Number (Int (Z.of_nat (length tasks)))) ])).

End ContentScript.

(** ** Notions used in the statements about the popup and the worker *)

(** What one character becomes when it is escaped. *)
Definition escape_character (c : ascii) : list ascii :=
  if Ascii.eqb c "&" then str "&amp;"
  else if Ascii.eqb c "<" then str "&lt;"
  else if Ascii.eqb c ">" then str "&gt;"
  else if Ascii.eqb c quote then str "&quot;"
  else if Ascii.eqb c "'" then str "&#39;"
  else [c].

(** The characters that open or close a tag or an attribute value. *)
Definition is_markup (c : ascii) : bool :=
  Ascii.eqb c "<" || Ascii.eqb c ">" || Ascii.eqb c quote || Ascii.eqb c "'".

(** The five entities, each as what follows its ampersand and the
    character it stands for. *)
Definition entities : list (string * ascii) :=
  [ ("amp;"%string, "&"%char); ("lt;"%string, "<"%char);
    ("gt;"%string, ">"%char); ("quot;"%string, quote);
    ("#39;"%string, "'"%char) ].

Definition entity_names : list string := map fst entities.

(** Reading a text back from its escaped form: an ampersand followed by
    the name of one of the five entities stands for its character;
    [skip] is the number of characters still to pass over. *)
Fixpoint decode_entities (skip : nat) (s : list ascii) : list ascii :=
  match s with
  | [] => []
  | c :: s' =>
      match skip with
      | S k => decode_entities k s'
      | O =>
          if Ascii.eqb c "&" then
            match find (fun e => startsWith s' (str (fst e))) entities with
            | Some e => snd e :: decode_entities (length (str (fst e))) s'
            | None => c :: decode_entities O s'
            end
          else c :: decode_entities O s'
      end
  end.

(** A label as the popup reads it: not empty, without white space at
    either end, and without a comma. *)
Definition is_label (l : list ascii) : Prop :=
  l <> [] /\ trim l = l /\ ~ In ","%char l.

(** The characters of a date and time field: digits, the hyphen (also
    the sign of a year before year 0), [T] and the colon. *)
Definition is_field_char (c : ascii) : bool :=
  is_digit c || Ascii.eqb c "-" || Ascii.eqb c "T" || Ascii.eqb c ":".

(** ** Notions used in the further statements about the content script *)

(** A date at midnight, local time, of a day within reach. *)
Definition local_midnight (tz : Z) (d : Date) : Prop :=
  exists days, d = Int (days * msPerDay - tz) /\ Z.abs days <= 96000000.

(** No line is followed by a line that is equal to it up to the white
    space around them. *)
Fixpoint no_repeats (ls : list (list ascii)) : Prop :=
  match ls with
  | a :: ((b :: _) as ls') => trim a <> trim b /\ no_repeats ls'
  | _ => True
  end.

(** A line that looks like the name of a person, and a line that names a
    level of the hierarchy: a course, a unit, a week or a day. *)
Definition is_name (line : list ascii) : bool :=
  test name_pattern (trim line).

Definition is_level (line : list ascii) : bool :=
  test course_pattern (trim line) || test unit_pattern (trim line)
  || test week_pattern (trim line) || test weekday_pattern (trim line).

(** ** Notions used in the statements about the messages *)

(** What the worker keeps of a scraped task that comes from the page at
    [href]. *)
Definition kept_task (href : list ascii) (tab_url : value) (t : ScrapedTask)
    : value :=
  Object [ (str "title", Text (title t));
           (str "description", Text []);
           (str "dueDate", Text (dueDate t));
           (str "labels", Array [Text (str "capture")]);
           (str "status", Text (str "todo"));
           (str "priority", Text (str "medium"));
           (str "url", or_else (or_else (Text href) tab_url) (Text []));
           (str "raw", Text (raw t)) ].

(** The markup characters of a text, in their order. *)
Definition markup_of (s : list ascii) : list ascii := List.filter is_markup s.

Section SavingSpec.

Variable origin_at : nat -> list ascii.
Variable fetch : nat -> Request -> Fetched.

(** The request number [i], for a task to post. *)
Definition request_for (i : nat) (task : value) : Request :=
  mkRequest (origin_at i ++ API_TASKS_PATH) task.

(** The answer to the request number [i]: the JSON of a response that is
    [ok], or the message of the failure. *)
Definition answer (i : nat) (task : value) : value + list ascii :=
  match fetch i (request_for i task) with
  | Rejects message => inr message
  | Responds res =>
      if response_ok res then response_json res
      else inr (str "API " ++ Z_toString (response_status res) ++ str ": "
                ++ safeText res)
  end.

(** The answers to the requests for a list of tasks, from number [i] on,
    up to the first failure. *)
Fixpoint answers (i : nat) (tasks : list value) : list value * option (list ascii) :=
  match tasks with
  | [] => ([], None)
  | task :: tasks' =>
      match answer i task with
      | inl json =>
          let '(results, failure) := answers (S i) tasks' in
          (json :: results, failure)
      | inr message => ([], Some message)
      end
  end.

End SavingSpec.

(** What happens to the worker, one event after the other: a message
    arrives (from a tab with the given URL), or the storage reports a
    change.  An event whose listener throws leaves the state as it is. *)
Inductive event : Type :=
| Message : value -> value -> event
| StorageChanged : list ascii -> value -> event.

Definition after_event (w : Worker) (e : event) : Worker :=
  match e with
  | Message tab_url msg =>
      match onMessage tab_url msg w with
      | Ok (w', _) => w'
      | Throw _ => w
      end
  | StorageChanged area change =>
      match onStorageChanged area change w with
      | Ok w' => w'
      | Throw _ => w
      end
  end.

Definition after_events (w : Worker) (events : list event) : Worker :=
  fold_left after_event events w.

(** The worker when its script has run and the stored origin is loaded. *)
Definition started (found : value) : Worker :=
  loadOriginFromStorage found (mkWorker PROD_ORIGIN [] []).

(** The response to a [GET_ENV] message in a given state. *)
Definition env_response (w : Worker) : option value :=
  match onMessage Undefined (Object [(str "type", Text (str "GET_ENV"))]) w with
  | Ok (_, response) => response
  | Throw _ => None
  end.

(** The markup of the list item of a task without any property. *)
Definition blank_markup : list ascii :=
  match task_markup 0 (fun _ => NaN) (Object []) with
  | Ok html => html
  | Throw _ => []
  end.

(** The due keywords, as the pattern lists them. *)
Definition due_keywords : list string :=
  ["due"; "overdue"; "deadline"; "open until"; "available until";
   "closes at"; "closes"; "closing"; "submit by"; "turn in by";
   "due by"; "due on"; "due date"]%string.

(** * Properties *)

(** ** The matcher *)

Lemma orelse_some {A : Type} (x y : option A) (a : A) :
  orelse x y = Some a -> x = Some a \/ (x = None /\ y = Some a).
Proof. destruct x; simpl; intros H; [left | right]; auto. Qed.

(** A successful run of the matcher went through a path of the pattern. *)
Lemma rmatch_sound {A : Type} (r : regex) :
  forall st cs (k : mstate -> captures -> option A) a,
    rmatch r st cs k = Some a ->
    exists st' cs', matches r st cs st' cs' /\ k st' cs' = Some a.
Proof.
  induction r as [ | p | r1 IH1 r2 IH2 | r1 IH1 r2 IH2 | r1 IH1 | n r1 IH1 | | | ];
    intros st cs k a H; simpl in H.
  - exists st, cs. split; [constructor | exact H].
  - destruct st as [pv [ | c s]]; simpl in H; [discriminate | ].
    destruct (p c) eqn:Hp; [ | discriminate].
    exists (MState (Some c) s), cs. split; [constructor; exact Hp | exact H].
  - apply IH1 in H. destruct H as (st1 & cs1 & M1 & H).
    apply IH2 in H. destruct H as (st2 & cs2 & M2 & H).
    exists st2, cs2. split; [econstructor; eassumption | exact H].
  - apply orelse_some in H. destruct H as [H | [_ H]].
    + apply IH1 in H. destruct H as (st' & cs' & M & H).
      exists st', cs'. split; [apply m_alt_l; exact M | exact H].
    + apply IH2 in H. destruct H as (st' & cs' & M & H).
      exists st', cs'. split; [apply m_alt_r; exact M | exact H].
  - revert H. generalize (length (rest st)) as fuel. intros fuel.
    revert st cs. induction fuel as [ | fuel IHf]; intros st cs H;
      cbn [star_loop] in H.
    + exists st, cs. split; [apply m_star_stop | exact H].
    + apply orelse_some in H. destruct H as [H | [_ H]].
      * apply IH1 in H. destruct H as (st1 & cs1 & M1 & H).
        destruct (length (rest st1) <? length (rest st))%nat eqn:Hlt;
          [ | discriminate].
        apply IHf in H. destruct H as (st2 & cs2 & M2 & H).
        exists st2, cs2. split; [ | exact H].
        eapply m_star_more; try eassumption.
        apply Nat.ltb_lt. exact Hlt.
      * exists st, cs. split; [apply m_star_stop | exact H].
  - apply IH1 in H. destruct H as (st' & cs' & M & H).
    exists st', ((n, consumed st st') :: cs'). split; [constructor; exact M | exact H].
  - destruct (at_word_boundary st) eqn:Hb; [ | discriminate].
    exists st, cs. split; [constructor; exact Hb | exact H].
  - destruct st as [[c | ] s]; simpl in H; [discriminate | ].
    exists (MState None s), cs. split; [constructor | exact H].
  - destruct st as [pv [ | c s]]; simpl in H; [ | discriminate].
    exists (MState pv []), cs. split; [constructor | exact H].
Qed.

(** The matcher only depends on what its continuation returns. *)
Lemma rmatch_ext {A : Type} (r : regex) :
  forall st cs (k1 k2 : mstate -> captures -> option A),
    (forall st' cs', k1 st' cs' = k2 st' cs') ->
    rmatch r st cs k1 = rmatch r st cs k2.
Proof.
  induction r as [ | p | r1 IH1 r2 IH2 | r1 IH1 r2 IH2 | r1 IH1 | n r1 IH1 | | | ];
    intros st cs k1 k2 H; simpl.
  - apply H.
  - destruct (rest st) as [ | c s]; [reflexivity | ].
    destruct (p c); [apply H | reflexivity].
  - apply IH1. intros st1 cs1. apply IH2, H.
  - rewrite (IH1 st cs k1 k2 H), (IH2 st cs k1 k2 H). reflexivity.
  - generalize (length (rest st)) as fuel. intros fuel. revert st cs.
    induction fuel as [ | fuel IHf]; intros st cs; cbn [star_loop].
    + apply H.
    + rewrite (H st cs). f_equal. apply IH1. intros st1 cs1.
      destruct (length (rest st1) <? length (rest st))%nat;
        [apply IHf | reflexivity].
  - apply IH1. intros st1 cs1. apply H.
  - destruct (at_word_boundary st); [apply H | reflexivity].
  - destruct (prev st); [reflexivity | apply H].
  - destruct (rest st); [apply H | reflexivity].
Qed.

(** With a continuation that always fails the matcher fails. *)
Lemma rmatch_none {A : Type} (r : regex) :
  forall st cs (k : mstate -> captures -> option A),
    (forall st' cs', k st' cs' = None) -> rmatch r st cs k = None.
Proof.
  induction r as [ | p | r1 IH1 r2 IH2 | r1 IH1 r2 IH2 | r1 IH1 | n r1 IH1 | | | ];
    intros st cs k H; simpl.
  - apply H.
  - destruct (rest st) as [ | c s]; [reflexivity | ].
    destruct (p c); [apply H | reflexivity].
  - apply IH1. intros st1 cs1. apply IH2, H.
  - rewrite (IH1 st cs k H), (IH2 st cs k H). reflexivity.
  - generalize (length (rest st)) as fuel. intros fuel. revert st cs.
    induction fuel as [ | fuel IHf]; intros st cs; cbn [star_loop].
    + apply H.
    + rewrite (H st cs). rewrite IH1; [reflexivity | ].
      intros st1 cs1.
      destruct (length (rest st1) <? length (rest st))%nat;
        [apply IHf | reflexivity].
  - apply IH1. intros st1 cs1. apply H.
  - destruct (at_word_boundary st); [apply H | reflexivity].
  - destruct (prev st); [reflexivity | apply H].
  - destruct (rest st); [apply H | reflexivity].
Qed.

(** The fuel of a star is never used up: any amount from the length of
    the rest on gives the same result. *)
Lemma star_loop_fuel {A : Type} (r : regex)
    (k : mstate -> captures -> option A) (n : nat) :
  forall m st cs, (length (rest st) <= n)%nat -> (length (rest st) <= m)%nat ->
    star_loop (rmatch r) k n st cs = star_loop (rmatch r) k m st cs.
Proof.
  induction n as [ | n IH]; intros m st cs Hn Hm.
  - destruct m as [ | m]; [reflexivity | ]. cbn [star_loop].
    rewrite rmatch_none; [reflexivity | ].
    intros st1 cs1.
    destruct (Nat.ltb_spec (length (rest st1)) (length (rest st)));
      [lia | reflexivity].
  - destruct m as [ | m]; cbn [star_loop].
    + rewrite rmatch_none; [reflexivity | ].
      intros st1 cs1.
      destruct (Nat.ltb_spec (length (rest st1)) (length (rest st)));
        [lia | reflexivity].
    + f_equal. apply rmatch_ext. intros st1 cs1.
      destruct (Nat.ltb_spec (length (rest st1)) (length (rest st)));
        [apply IH; lia | reflexivity].
Qed.

(** Hence a star satisfies the equation of a greedy iteration: one more
    iteration that reads something, then the star again; or else what
    follows. *)
Lemma rmatch_star {A : Type} (r : regex) (st : mstate) (cs : captures)
    (k : mstate -> captures -> option A) :
  rmatch (Star r) st cs k
  = orelse
      (rmatch r st cs (fun st1 cs1 =>
         if (length (rest st1) <? length (rest st))%nat
         then rmatch (Star r) st1 cs1 k else None))
      (k st cs).
Proof.
  cbn [rmatch].
  rewrite (star_loop_fuel r k (length (rest st)) (S (length (rest st))) st cs)
    by lia.
  cbn [star_loop]. f_equal. apply rmatch_ext. intros st1 cs1.
  destruct (Nat.ltb_spec (length (rest st1)) (length (rest st)));
    [ | reflexivity].
  apply star_loop_fuel; lia.
Qed.

Lemma match_here_sound r st st' cs :
  match_here r st = Some (st', cs) -> matches r st [] st' cs.
Proof.
  unfold match_here. intros H. apply rmatch_sound in H.
  destruct H as (st1 & cs1 & M & H). injection H as <- <-. exact M.
Qed.

(** What a path reads is a prefix of what was left, and the character
    before the new position is the last one read. *)
Lemma last_read_app pv w1 w2 :
  last_read pv (w1 ++ w2) = last_read (last_read pv w1) w2.
Proof.
  unfold last_read. rewrite rev_app_distr.
  destruct (rev w2); simpl; reflexivity.
Qed.

Lemma matches_reads r st cs st' cs' :
  matches r st cs st' cs' ->
  exists w, rest st = w ++ rest st' /\ prev st' = last_read (prev st) w.
Proof.
  induction 1;
    try (exists []; split; reflexivity).
  - exists [c]. split; reflexivity.
  - destruct IHmatches1 as (w1 & E1 & P1), IHmatches2 as (w2 & E2 & P2).
    exists (w1 ++ w2). split.
    + rewrite E1, E2, app_assoc. reflexivity.
    + rewrite last_read_app, <- P1. exact P2.
  - exact IHmatches.
  - exact IHmatches.
  - destruct IHmatches1 as (w1 & E1 & P1), IHmatches2 as (w2 & E2 & P2).
    exists (w1 ++ w2). split.
    + rewrite E1, E2, app_assoc. reflexivity.
    + rewrite last_read_app, <- P1. exact P2.
  - exact IHmatches.
Qed.

Lemma consumed_app st st' w :
  rest st = w ++ rest st' -> consumed st st' = w.
Proof.
  unfold consumed. intros ->. rewrite length_app.
  replace (length w + length (rest st') - length (rest st'))%nat
    with (length w) by lia.
  rewrite firstn_app, Nat.sub_diag, firstn_all. simpl. apply app_nil_r.
Qed.

(** A pattern without groups leaves the captures as they were. *)
Lemma matches_capfree r st cs st' cs' :
  matches r st cs st' cs' -> capfree r = true -> cs' = cs.
Proof.
  induction 1; simpl; intros C; try reflexivity;
    try (apply andb_true_iff in C; destruct C as [C1 C2]).
  - rewrite IHmatches2, IHmatches1; auto.
  - auto.
  - auto.
  - rewrite IHmatches2, IHmatches1; auto.
  - discriminate.
Qed.

(** ** Characters, by enumeration *)

Lemma all_ascii_complete (c : ascii) : In c all_ascii.
Proof.
  unfold all_ascii. rewrite <- (ascii_nat_embedding c).
  apply in_map, in_seq. pose proof (nat_ascii_bounded c). lia.
Qed.

Lemma forall_ascii (P : ascii -> bool) :
  forallb P all_ascii = true -> forall c, P c = true.
Proof.
  intros H c. rewrite forallb_forall in H. apply H, all_ascii_complete.
Qed.

Lemma forall_ascii2 (P : ascii -> ascii -> bool) :
  forallb (fun a => forallb (P a) all_ascii) all_ascii = true ->
  forall a b, P a b = true.
Proof.
  intros H a b.
  apply (forall_ascii (P a)). apply (forall_ascii _ H).
Qed.

Lemma digit_facts (c : ascii) :
  is_digit c = true ->
  0 <= digit_value c <= 9 /\ is_js_space c = false /\ is_word_char c = true /\
  Ascii.eqb c "-" = false /\ Ascii.eqb c "+" = false /\
  Ascii.eqb c "x" = false /\ Ascii.eqb c "X" = false /\ Ascii.eqb c "_" = false.
Proof.
  intros H.
  pose proof (forall_ascii (fun c => implb (is_digit c)
             ((0 <=? digit_value c) && (digit_value c <=? 9) &&
              negb (is_js_space c) && is_word_char c &&
              negb (Ascii.eqb c "-") && negb (Ascii.eqb c "+") &&
              negb (Ascii.eqb c "x") && negb (Ascii.eqb c "X") &&
              negb (Ascii.eqb c "_")))
                ltac:(vm_compute; reflexivity) c) as G.
  simpl in G. rewrite H in G. simpl in G.
  repeat (apply andb_true_iff in G; destruct G as [G ?]).
  repeat match goal with
         | X : negb _ = true |- _ => apply negb_true_iff in X
         end.
  repeat split; try assumption; lia.
Qed.

Lemma canon_lower (a b : ascii) :
  Ascii.eqb (canon a) (canon b) = true -> lower_char a = lower_char b.
Proof.
  intros H.
  pose proof (forall_ascii2 (fun a b => implb (Ascii.eqb (canon a) (canon b))
                            (Ascii.eqb (lower_char a) (lower_char b)))
                ltac:(vm_compute; reflexivity) a b) as G.
  simpl in G. rewrite H in G. simpl in G. apply Ascii.eqb_eq. exact G.
Qed.

(** ** Reading numbers *)

Lemma read_digits_all (w : list ascii) :
  all_digits w -> forall acc, 0 <= acc ->
  exists n, read_digits 10 is_digit digit_value true acc w = Some n /\
            acc * 10 ^ Z.of_nat (length w) <= n
              < (acc + 1) * 10 ^ Z.of_nat (length w).
Proof.
  unfold all_digits. induction w as [ | c w IH]; intros D acc Hacc.
  - exists acc. simpl. split; [reflexivity | lia].
  - simpl in D. apply andb_true_iff in D. destruct D as [Dc D].
    destruct (digit_facts c Dc) as (Hv & _).
    destruct (IH D (acc * 10 + digit_value c) ltac:(lia)) as (n & E & B).
    exists n. split.
    + simpl. rewrite Dc. exact E.
    + rewrite length_cons, Nat2Z.inj_succ, Z.pow_succ_r by lia.
      assert (0 < 10 ^ Z.of_nat (length w)) by (apply Z.pow_pos_nonneg; lia).
      nia.
Qed.

(** [parseInt] of a non-empty string of digits is its decimal value. *)
Lemma parseInt_digits (w : list ascii) :
  all_digits w -> w <> [] ->
  exists n, parseInt w = Int n /\ 0 <= n < 10 ^ Z.of_nat (length w).
Proof.
  intros D Hne. destruct w as [ | c w]; [congruence | ].
  pose proof D as D'. unfold all_digits in D'. simpl in D'.
  apply andb_true_iff in D'. destruct D' as [Dc Dw].
  destruct (digit_facts c Dc) as (Hv & Hs & _ & Hm & Hp & _).
  assert (U : parse_unsigned (c :: w)
              = read_digits 10 is_digit digit_value false 0 (c :: w)).
  { unfold parse_unsigned. destruct w as [ | x w']; [reflexivity | ].
    simpl in Dw. apply andb_true_iff in Dw. destruct Dw as [Dx _].
    destruct (digit_facts x Dx) as (_ & _ & _ & _ & _ & Hx & HX & _).
    rewrite Hx, HX, andb_false_r. reflexivity. }
  unfold parseInt. simpl trimStart. rewrite Hs, Hm, Hp, U.
  simpl read_digits. rewrite Dc.
  destruct (read_digits_all w Dw (0 * 10 + digit_value c) ltac:(lia))
    as (n & E & B).
  exists n. rewrite E. split; [f_equal; lia | ].
  rewrite length_cons, Nat2Z.inj_succ, Z.pow_succ_r by lia.
  assert (0 < 10 ^ Z.of_nat (length w)) by (apply Z.pow_pos_nonneg; lia).
  nia.
Qed.

(** ** Searching *)

Lemma last_read_cons pv c w : last_read pv (c :: w) = last_read (Some c) w.
Proof. apply (last_read_app pv [c] w). Qed.

(** A search that succeeds does so at some position of the text. *)
Lemma search_from_sound r s :
  forall p st' cs,
    search_from r p s = Some (st', cs) ->
    exists pre s', s = pre ++ s' /\
      match_here r (MState (last_read p pre) s') = Some (st', cs).
Proof.
  induction s as [ | c s IH]; intros p st' cs H; simpl in H.
  - destruct (match_here r (MState p [])) eqn:E; [ | discriminate].
    exists [], []. split; [reflexivity | ]. rewrite <- H. exact E.
  - destruct (match_here r (MState p (c :: s))) eqn:E.
    + exists [], (c :: s). split; [reflexivity | ]. rewrite <- H. exact E.
    + apply IH in H. destruct H as (pre & s' & -> & H).
      exists (c :: pre), s'. split; [reflexivity | ].
      rewrite last_read_cons. exact H.
Qed.

Lemma search_from_matches r p s st' cs :
  search_from r p s = Some (st', cs) ->
  exists pre s' w, s = pre ++ s' /\ s' = w ++ rest st' /\
    prev st' = last_read (last_read p pre) w /\
    matches r (MState (last_read p pre) s') [] st' cs.
Proof.
  intros H. apply search_from_sound in H. destruct H as (pre & s' & E & H).
  apply match_here_sound in H.
  destruct (matches_reads _ _ _ _ _ H) as (w & Ew & Ep). simpl in Ew, Ep.
  exists pre, s', w. auto.
Qed.

Lemma exec_matches r text cs :
  exec r text = Some cs -> exists st st', matches r st [] st' cs.
Proof.
  unfold exec. destruct (search_from r None text) as [[st' cs'] | ] eqn:E;
    [ | discriminate].
  intros H. injection H as <-.
  apply search_from_matches in E. destruct E as (pre & s' & w & _ & _ & _ & M).
  eauto.
Qed.

(** ** Reading through the patterns *)

Lemma matches_chars (ps : list (ascii -> bool)) :
  forall st cs st' cs',
    matches (seqs (map Char ps)) st cs st' cs' ->
    cs' = cs /\
    exists w, rest st = w ++ rest st' /\ Forall2 (fun p c => p c = true) ps w.
Proof.
  induction ps as [ | p ps IH]; intros st cs st' cs' M.
  - inversion M; subst. split; [reflexivity | ]. exists []. split; constructor.
  - destruct ps as [ | q ps].
    + inversion M; subst. split; [reflexivity | ]. exists [c].
      split; [reflexivity | repeat constructor; assumption].
    + change (seqs (map Char (p :: q :: ps)))
        with (Seq (Char p) (seqs (map Char (q :: ps)))) in M.
      inversion M as [ | | r1 r2 st0 cs0 st1 cs1 st2 cs2 M1 M2 | | | | | | | | ];
        subst.
      inversion M1; subst.
      apply IH in M2. destruct M2 as (-> & w & E & F). simpl in E.
      split; [reflexivity | ]. exists (c :: w). split.
      * simpl. rewrite E. reflexivity.
      * constructor; assumption.
Qed.

Lemma Forall2_length_eq {A B : Type} (R : A -> B -> Prop) l1 l2 :
  Forall2 R l1 l2 -> length l1 = length l2.
Proof. induction 1; simpl; congruence. Qed.

Lemma matches_liti (s : string) st cs st' cs' :
  matches (liti s) st cs st' cs' ->
  cs' = cs /\
  exists w, rest st = w ++ rest st' /\ toLowerCase w = toLowerCase (str s).
Proof.
  unfold liti. rewrite <- (map_map _ Char). intros M.
  apply matches_chars in M. destruct M as (-> & w & E & F).
  split; [reflexivity | ]. exists w. split; [exact E | ].
  clear E. revert w F. generalize (str s) as l.
  induction l as [ | c l IH]; intros w F; inversion F; subst; simpl.
  - reflexivity.
  - f_equal; [apply canon_lower; assumption | apply IH; assumption].
Qed.

Lemma matches_alts (rs : list regex) st cs st' cs' :
  matches (alts rs) st cs st' cs' ->
  exists r, In r rs /\ matches r st cs st' cs'.
Proof.
  induction rs as [ | r rs IH]; intros M.
  - inversion M; subst. discriminate.
  - destruct rs as [ | r' rs].
    + exists r. split; [left; reflexivity | exact M].
    + change (alts (r :: r' :: rs)) with (Alt r (alts (r' :: rs))) in M.
      inversion M; subst.
      * exists r. split; [left; reflexivity | assumption].
      * destruct IH as (r0 & I & M0); [assumption | ].
        exists r0. split; [right; exact I | exact M0].
Qed.

(** One of several case-insensitive words was read. *)
Lemma matches_words (names : list string) st cs st' cs' :
  matches (alts (map liti names)) st cs st' cs' ->
  cs' = cs /\
  exists name w, In name names /\ rest st = w ++ rest st' /\
    toLowerCase w = toLowerCase (str name).
Proof.
  intros M. apply matches_alts in M. destruct M as (r & I & M).
  apply in_map_iff in I. destruct I as (name & <- & I).
  apply matches_liti in M. destruct M as (-> & w & E & L).
  split; [reflexivity | ]. exists name, w. auto.
Qed.

Lemma matches_digits (n : nat) st cs st' cs' :
  matches (seqs (repeat digit n)) st cs st' cs' ->
  cs' = cs /\
  exists w, rest st = w ++ rest st' /\ all_digits w /\ length w = n.
Proof.
  replace (repeat digit n) with (map Char (repeat is_digit n))
    by (unfold digit; induction n; simpl; congruence).
  intros M. apply matches_chars in M. destruct M as (-> & w & E & F).
  split; [reflexivity | ]. exists w. split; [exact E | ].
  split.
  - unfold all_digits. clear E. revert w F.
    induction n as [ | n IH]; intros w F; inversion F; subst; simpl.
    + reflexivity.
    + apply andb_true_iff. split; [assumption | apply IH; assumption].
  - apply Forall2_length_eq in F. rewrite repeat_length in F. auto.
Qed.

Lemma matches_digits_1_2 st cs st' cs' :
  matches digits_1_2 st cs st' cs' ->
  cs' = cs /\
  exists w, rest st = w ++ rest st' /\ all_digits w /\
            (1 <= length w <= 2)%nat.
Proof.
  unfold digits_1_2, Opt, digit. intros M.
  inversion M as [ | | r1 r2 st0 cs0 st1 cs1 st2 cs2 M1 M2 | | | | | | | | ];
    subst.
  inversion M1; subst.
  inversion M2 as [ | | | r1 r2 st0 cs0 st2' cs2' M3 | r1 r2 st0 cs0 st2' cs2' M3
                  | | | | | | ]; subst.
  - inversion M3; subst. split; [reflexivity | ].
    exists [c; c0]. unfold all_digits. simpl.
    repeat split; try lia.
    apply andb_true_iff; split; [ | apply andb_true_iff; split]; auto.
  - inversion M3; subst. split; [reflexivity | ].
    exists [c]. unfold all_digits. simpl.
    repeat split; try lia. apply andb_true_iff; split; auto.
Qed.

(** ** What the date and time patterns capture *)

Ltac invc H := inversion H; subst; clear H.

(** Takes a path through a sequence apart, one element at a time. *)
Ltac split_path :=
  repeat match goal with
         | H : matches (Seq _ _) _ _ _ _ |- _ => invc H
         | H : matches (Group _ _) _ _ _ _ |- _ => invc H
         | H : matches Empty _ _ _ _ |- _ => invc H
         end.

(** Uses that a pattern without groups keeps the captures. *)
Ltac same_captures :=
  repeat match goal with
         | H : matches ?r _ ?cs _ ?cs' |- _ =>
             is_var cs';
             let E := fresh "E" in
             assert (E : cs' = cs)
               by (apply (matches_capfree _ _ _ _ _ H); vm_compute; reflexivity);
             subst cs'
         end.

Lemma parseMonth_name (name : string) (w : list ascii) :
  In name month_names -> toLowerCase w = toLowerCase (str name) ->
  0 <= parseMonth w <= 11.
Proof.
  intros I L. unfold parseMonth. rewrite L. clear L.
  simpl in I.
  repeat (destruct I as [<- | I]; [vm_compute; split; discriminate | ]).
  contradiction.
Qed.

Lemma monthDayYear_captures st st' cs :
  matches DATE_PATTERNS.monthDayYear st [] st' cs -> mdy_shape cs.
Proof.
  unfold DATE_PATTERNS.monthDayYear.
  cbn [seqs]. intros M.
  split_path.
  repeat match goal with
         | H : matches (Alt (liti "jan") _) _ _ _ _ |- _ =>
             apply (matches_words month_names) in H;
             destruct H as (? & name & wm & Im & Em & Lm); subst
         | H : matches digits_1_2 _ _ _ _ |- _ =>
             apply matches_digits_1_2 in H;
             destruct H as (? & wd & Ed & Dd & Ld); subst
         | H : matches digits_4 _ _ _ _ |- _ =>
             apply (matches_digits 4) in H;
             destruct H as (? & wy & Ey & Dy & Ly); subst
         end.
  same_captures.
  exists wm, wd, wy. simpl.
  rewrite (consumed_app _ _ _ Em), (consumed_app _ _ _ Ed),
    (consumed_app _ _ _ Ey).
  repeat split; auto; try lia; eapply parseMonth_name; eauto.
Qed.

Lemma monthDay_captures st st' cs :
  matches DATE_PATTERNS.monthDay st [] st' cs -> md_shape cs.
Proof.
  unfold DATE_PATTERNS.monthDay.
  cbn [seqs]. intros M.
  split_path.
  repeat match goal with
         | H : matches (Alt (liti "jan") _) _ _ _ _ |- _ =>
             apply (matches_words month_names) in H;
             destruct H as (? & name & wm & Im & Em & Lm); subst
         | H : matches digits_1_2 _ _ _ _ |- _ =>
             apply matches_digits_1_2 in H;
             destruct H as (? & wd & Ed & Dd & Ld); subst
         end.
  same_captures.
  exists wm, wd. simpl.
  rewrite (consumed_app _ _ _ Em), (consumed_app _ _ _ Ed).
  repeat split; auto; try lia; eapply parseMonth_name; eauto.
Qed.

Lemma iso_captures st st' cs :
  matches DATE_PATTERNS.iso st [] st' cs -> iso_shape cs.
Proof.
  unfold DATE_PATTERNS.iso. cbn [seqs]. intros M.
  split_path.
  repeat match goal with
         | H : matches digits_4 _ _ _ _ |- _ =>
             apply (matches_digits 4) in H;
             destruct H as (? & wy & Ey & Dy & Ly); subst
         | H : matches digits_2 _ _ _ _ |- _ =>
             apply (matches_digits 2) in H;
             let w := fresh "w" in let E := fresh "Ew" in
             let D := fresh "Dw" in let L := fresh "Lw" in
             destruct H as (? & w & E & D & L); subst
         end.
  same_captures.
  rewrite (consumed_app _ _ _ Ey), (consumed_app _ _ _ Ew),
    (consumed_app _ _ _ Ew0).
  exists wy, w, w0. repeat split; auto.
Qed.

Lemma minutes_part st cs0 st' cs :
  matches (Opt (Seq (lit ":") (Group 2 digits_2))) st cs0 st' cs ->
  cs = cs0 \/
  exists m, cs = (2%nat, m) :: cs0 /\ all_digits m /\ length m = 2%nat.
Proof.
  unfold Opt. intros M. invc M.
  - split_path. same_captures.
    match goal with H : matches digits_2 _ _ _ _ |- _ =>
      apply (matches_digits 2) in H; destruct H as (_ & w & E & D & L) end.
    rewrite (consumed_app _ _ _ E). right. exists w. auto.
  - split_path. left. reflexivity.
Qed.

Lemma meridian_part st cs0 st' cs :
  matches (Opt (Group 3 meridian_marker)) st cs0 st' cs ->
  cs = cs0 \/
  exists a, cs = (3%nat, a) :: cs0 /\
    (toLowerCase a = str "am" \/ toLowerCase a = str "pm").
Proof.
  unfold Opt. intros M. invc M.
  - split_path.
    match goal with H : matches meridian_marker _ _ _ _ |- _ =>
      apply (matches_words ["am"; "pm"]%string) in H;
      destruct H as (-> & name & w & I & E & L) end.
    rewrite (consumed_app _ _ _ E). right. exists w. split; [reflexivity | ].
    simpl in I. destruct I as [<- | [<- | []]]; [left | right]; exact L.
  - split_path. left. reflexivity.
Qed.

Lemma time_shape_intro h cs1 cs :
  all_digits h -> (1 <= length h <= 2)%nat ->
  (cs1 = [(1%nat, h)] \/
   exists m, cs1 = [(2%nat, m); (1%nat, h)] /\ all_digits m /\ length m = 2%nat) ->
  (cs = cs1 \/
   exists a, cs = (3%nat, a) :: cs1 /\
     (toLowerCase a = str "am" \/ toLowerCase a = str "pm")) ->
  time_shape cs.
Proof.
  intros Dh Lh [-> | (m & -> & Dm & Lm)] [-> | (a & -> & La)];
    (split; [exists h; simpl; auto | ]); split; simpl; eauto.
Qed.

Lemma keyword_time_captures st st' cs :
  matches keyword_time st [] st' cs -> time_shape cs.
Proof.
  unfold keyword_time. cbn [seqs]. intros M.
  split_path. same_captures.
  match goal with H : matches digits_1_2 _ _ _ _ |- _ =>
    apply matches_digits_1_2 in H; destruct H as (_ & h & E & Dh & Lh) end.
  rewrite (consumed_app _ _ _ E) in *.
  match goal with H : matches (Opt (Seq _ _)) _ _ _ _ |- _ =>
    apply minutes_part in H end.
  match goal with H : matches (Opt (Group 3 _)) _ _ _ _ |- _ =>
    apply meridian_part in H end.
  eapply time_shape_intro; eauto.
Qed.

(** A match of the scanning pattern moreover reads at least one digit. *)
Lemma TIME_PATTERN_captures st st' cs :
  matches TIME_PATTERN st [] st' cs ->
  time_shape cs /\ (length (rest st') < length (rest st))%nat.
Proof.
  unfold TIME_PATTERN. cbn [seqs]. intros M.
  split_path.
  repeat match goal with H : matches WordB _ _ _ _ |- _ => invc H end.
  same_captures.
  match goal with H : matches digits_1_2 _ _ _ _ |- _ =>
    apply matches_digits_1_2 in H; destruct H as (_ & h & E & Dh & Lh) end.
  rewrite (consumed_app _ _ _ E) in *.
  split.
  - match goal with H : matches (Opt (Seq _ _)) _ _ _ _ |- _ =>
      apply minutes_part in H end.
    match goal with H : matches (Opt (Group 3 _)) _ _ _ _ |- _ =>
      apply meridian_part in H end.
    eapply time_shape_intro; eauto.
  - repeat match goal with H : matches _ _ _ _ _ |- _ =>
      apply matches_reads in H; destruct H as (? & ? & _) end.
    repeat match goal with H : rest _ = _ |- _ =>
      apply (f_equal (@length ascii)) in H; rewrite length_app in H end.
    lia.
Qed.

(** ** The calendar *)

Ltac zdiv := Z.div_mod_to_equations; lia.

Lemma is_leap_cases (y : Z) :
  (is_leap y = true /\ DayFromYear (y + 1) = DayFromYear y + 366) \/
  (is_leap y = false /\ DayFromYear (y + 1) = DayFromYear y + 365).
Proof.
  unfold is_leap, DayFromYear.
  destruct (y mod 4 =? 0) eqn:E4; destruct (y mod 100 =? 0) eqn:E100;
    destruct (y mod 400 =? 0) eqn:E400; simpl;
    rewrite ?Z.eqb_eq, ?Z.eqb_neq in *;
    first [ left; split; [reflexivity | zdiv]
          | right; split; [reflexivity | zdiv] ].
Qed.

Lemma DayFromYear_mono (y1 y2 : Z) :
  y1 <= y2 -> DayFromYear y1 + 365 * (y2 - y1) <= DayFromYear y2.
Proof.
  intros H. unfold DayFromYear. zdiv.
Qed.

(** [YearFromDay d] is the year whose days include [d]. *)
Lemma YearFromDay_spec (d : Z) :
  DayFromYear (YearFromDay d) <= d < DayFromYear (YearFromDay d + 1).
Proof.
  unfold YearFromDay.
  set (y0 := 1970 + d * 400 / 146097).
  assert (L : DayFromYear (y0 - 1) <= d) by (subst y0; unfold DayFromYear; zdiv).
  assert (U : d < DayFromYear (y0 + 2)) by (subst y0; unfold DayFromYear; zdiv).
  destruct (DayFromYear (y0 + 1) <=? d) eqn:E1.
  - apply Z.leb_le in E1. replace (y0 + 1 + 1) with (y0 + 2) by lia. lia.
  - apply Z.leb_gt in E1.
    destruct (DayFromYear y0 <=? d) eqn:E0.
    + apply Z.leb_le in E0. lia.
    + apply Z.leb_gt in E0. replace (y0 - 1 + 1) with y0 by lia. lia.
Qed.

Lemma YearFromDay_unique (d y : Z) :
  DayFromYear y <= d < DayFromYear (y + 1) -> YearFromDay d = y.
Proof.
  intros H. pose proof (YearFromDay_spec d) as S.
  destruct (Z.lt_trichotomy (YearFromDay d) y) as [L | [E | G]]; [ | exact E | ].
  - pose proof (DayFromYear_mono (YearFromDay d + 1) y ltac:(lia)). lia.
  - pose proof (DayFromYear_mono (y + 1) (YearFromDay d) ltac:(lia)). lia.
Qed.

Lemma Day_MakeDate (d tw : Z) :
  0 <= tw < msPerDay ->
  Day (MakeDate d tw) = d /\ TimeWithinDay (MakeDate d tw) = tw.
Proof.
  unfold Day, TimeWithinDay, MakeDate, msPerDay. intros H. split; zdiv.
Qed.

Lemma MakeDay_in_year (y m dt : Z) :
  0 <= m <= 11 ->
  MakeDay y m dt
  = DayFromYear y + month_start (if is_leap y then 1 else 0) m + dt - 1.
Proof.
  intros H. unfold MakeDay.
  replace (m / 12) with 0 by zdiv. replace (m mod 12) with m by zdiv.
  rewrite Z.add_0_r. reflexivity.
Qed.

Ltac month_cases m :=
  let H := fresh in
  assert (H : m = 0 \/ m = 1 \/ m = 2 \/ m = 3 \/ m = 4 \/ m = 5 \/ m = 6 \/
              m = 7 \/ m = 8 \/ m = 9 \/ m = 10 \/ m = 11) by lia;
  repeat (destruct H as [H | H]; [subst m | ]); [ .. | subst m].

Ltac decide_ltb :=
  repeat match goal with
         | |- context [?a <? ?b] =>
             destruct (Z.ltb_spec a b); try lia
         end.

(** The fields of a time value that was made from an existing date are
    that date. *)
Lemma fields_of_date (y m dt tw : Z) :
  valid_date y m dt -> 0 <= tw < msPerDay ->
  let t := MakeDate (MakeDay y m dt) tw in
  YearFromTime t = y /\ MonthFromTime t = m /\ DateFromTime t = dt /\
  Day t = MakeDay y m dt /\ TimeWithinDay t = tw.
Proof.
  intros [Hm Hd] Htw t.
  destruct (Day_MakeDate (MakeDay y m dt) tw Htw) as [ED ET]. fold t in ED, ET.
  pose proof (MakeDay_in_year y m dt Hm) as EM.
  assert (R : 0 <= month_start (if is_leap y then 1 else 0) m + dt - 1
              < DayFromYear (y + 1) - DayFromYear y).
  { unfold days_in_month in Hd.
    destruct (is_leap_cases y) as [[L E] | [L E]]; rewrite L in *; rewrite E;
      month_cases m; simpl in *; lia. }
  assert (EY : YearFromTime t = y).
  { unfold YearFromTime. rewrite ED. apply YearFromDay_unique. lia. }
  assert (EW : DayWithinYear t
               = month_start (if is_leap y then 1 else 0) m + dt - 1).
  { unfold DayWithinYear. rewrite EY, ED. lia. }
  assert (EL : InLeapYear t = if is_leap y then 1 else 0).
  { unfold InLeapYear. rewrite EY. reflexivity. }
  assert (EMo : MonthFromTime t = m).
  { unfold MonthFromTime. rewrite EW, EL. unfold days_in_month in Hd.
    destruct (is_leap y); month_cases m; simpl in *; decide_ltb. }
  repeat split; try assumption.
  unfold DateFromTime. rewrite EMo, EW, EL. lia.
Qed.

(** Conversely, every time value is made from the date its fields show. *)
Lemma MonthFromTime_range (t : Z) : 0 <= MonthFromTime t <= 11.
Proof. unfold MonthFromTime. decide_ltb. Qed.

Lemma DayWithinYear_range (t : Z) :
  0 <= DayWithinYear t < 365 + InLeapYear t.
Proof.
  unfold DayWithinYear, InLeapYear, YearFromTime.
  pose proof (YearFromDay_spec (Day t)) as S.
  destruct (is_leap_cases (YearFromDay (Day t))) as [[L E] | [L E]];
    rewrite L; lia.
Qed.

Lemma date_of_fields (t : Z) :
  Day t = MakeDay (YearFromTime t) (MonthFromTime t) (DateFromTime t) /\
  valid_date (YearFromTime t) (MonthFromTime t) (DateFromTime t).
Proof.
  pose proof (MonthFromTime_range t) as Hm.
  pose proof (DayWithinYear_range t) as Hw.
  split.
  - rewrite MakeDay_in_year by exact Hm.
    unfold DateFromTime, DayWithinYear, InLeapYear. lia.
  - split; [exact Hm | ].
    unfold DateFromTime, days_in_month. revert Hw.
    unfold MonthFromTime, InLeapYear.
    destruct (is_leap (YearFromTime t)); intros Hw; decide_ltb; simpl; lia.
Qed.

(** ** The proximity match *)

Lemma hour_value (h : list ascii) :
  all_digits h -> (1 <= length h <= 2)%nat ->
  exists n, parseInt h = Int n /\ 0 <= n <= 99.
Proof.
  intros D L.
  destruct (parseInt_digits h D) as (n & E & B).
  { destruct h; simpl in L; [lia | discriminate]. }
  exists n. split; [exact E | ].
  assert (10 ^ Z.of_nat (length h) <= 100).
  { assert (C : length h = 1%nat \/ length h = 2%nat) by lia.
    destruct C as [-> | ->]; simpl; lia. }
  lia.
Qed.

(** C10. The proximity match is not subject to the rejections of the
    scan: when the number after at/until/by is a bare hour, with neither
    minutes nor a meridian marker, [parseTime] returns it with minutes 0
    (the scan would have rejected it), and an hour above 23 is kept and
    reduced modulo 24. *)
Theorem C10_proximity_bypasses_rejection :
  (forall text cs,
     exec keyword_time text = Some cs ->
     cap cs 2 = None -> cap cs 3 = None ->
     exists h,
       parseInt_value (cap cs 1) = Int h /\ 0 <= h <= 99 /\
       parseTime text
       = Some (mkTime (Int (if 23 <? h then h mod 24 else h)) (Int 0)) /\
       keep_time (time_of_match cs) = false) /\
  parseTime (str "by 5") = Some (mkTime (Int 5) (Int 0)) /\
  parseTime (str "at 99") = Some (mkTime (Int 3) (Int 0)).
Proof.
  split; [ | split; vm_compute; reflexivity].
  intros text cs E C2 C3.
  destruct (exec_matches _ _ _ E) as (st & st' & M).
  apply keyword_time_captures in M.
  destruct M as ((w & C1 & D & L) & _ & _).
  destruct (hour_value w D L) as (h & P & B).
  exists h. rewrite C1. simpl parseInt_value.
  split; [exact P | ]. split; [exact B | ]. split.
  - unfold parseTime. rewrite E, C1, C2, C3. simpl parseInt_value. rewrite P.
    change (parseInt (or_zero None)) with (Int 0).
    unfold normalizeTime, num_gtb, num_ltb, num_rem, num_map2, num_eqb. simpl option_map.
    destruct (Z.ltb_spec 12 h).
    + destruct (Z.ltb_spec 23 h); [ | reflexivity].
      rewrite Z.rem_mod_nonneg by lia. reflexivity.
    + destruct (Z.ltb_spec 23 h); [lia | ].
      rewrite !bool_decide_eq_false_2 by discriminate. reflexivity.
  - unfold keep_time, time_of_match. simpl. rewrite C2, C3. simpl.
    apply andb_false_r.
Qed.

Lemma C10_proximity_bypasses_rejection_witness :
  exists h,
    parseInt_value (Some (str "99")) = Int h /\ 0 <= h <= 99 /\
    parseTime (str "closes at 99")
    = Some (mkTime (Int (if 23 <? h then h mod 24 else h)) (Int 0)) /\
    keep_time (time_of_match [(1%nat, str "99")]) = false.
Proof.
  apply (proj1 C10_proximity_bypasses_rejection (str "closes at 99")
           [(1%nat, str "99")]); vm_compute; reflexivity.
Defined.

(** ** The text normaliser *)

(** The reading of C4 in the specification does not hold: the hierarchy
    is not "Section B > Week 3 > Essay Draft", the details are not
    "Due Jan 26", and the result is not the one made of these. *)
Lemma C4_counterexample :
  hierarchy (classify (surviving_lines (join [LF] six_lines)))
    <> map str ["Section B"; "Week 3"; "Essay Draft"]%string /\
  details (classify (surviving_lines (join [LF] six_lines)))
    <> [str "Due Jan 26"] /\
  cleanRawText (join [LF] six_lines)
    <> str "Section B > Week 3 > Essay Draft" ++ [LF; LF] ++ str "Due Jan 26".
Proof. repeat split; vm_compute; discriminate. Qed.

(** C4, amended. On the six input lines the consecutive duplicate is
    collapsed and the standalone number is dropped, which leaves four
    lines; "Essay Draft" is two capitalised words, so it is discarded as
    a personal name, "Due Jan 26" becomes the assignment line, and the
    result is the single line "Section B > Week 3 > Due Jan 26" with no
    details. *)
Theorem C4_clean_six_lines :
  surviving_lines (join [LF] six_lines)
    = map str ["Section B"; "Week 3"; "Essay Draft"; "Due Jan 26"]%string /\
  test name_pattern (str "Essay Draft") = true /\
  hierarchy (classify (surviving_lines (join [LF] six_lines)))
    = map str ["Section B"; "Week 3"; "Due Jan 26"]%string /\
  details (classify (surviving_lines (join [LF] six_lines))) = [] /\
  cleanRawText (join [LF] six_lines) = str "Section B > Week 3 > Due Jan 26".
Proof. repeat split; vm_compute; reflexivity. Qed.

(** ** The time patterns, read character by character *)

(** *** Characters *)

Lemma canon_fold_case (x l : ascii) :
  is_lower l = true ->
  Ascii.eqb (canon x) (canon l) = Ascii.eqb (fold_case x) l.
Proof.
  intros H.
  assert (H0 : forallb (fun x => forallb (fun l =>
                 implb (is_lower l)
                   (Bool.eqb (Ascii.eqb (canon x) (canon l))
                             (Ascii.eqb (fold_case x) l))) all_ascii) all_ascii
               = true) by (vm_compute; reflexivity).
  pose proof (forall_ascii2 _ H0 x l) as G. cbv beta in G.
  rewrite H in G. apply Bool.eqb_prop in G. exact G.
Qed.

Lemma space_facts (c : ascii) :
  is_js_space c = true ->
  is_digit c = false /\ is_word_char c = false /\
  Ascii.eqb (fold_case c) "a" = false /\ Ascii.eqb (fold_case c) "p" = false.
Proof.
  intros H.
  assert (H0 : forallb (fun c => implb (is_js_space c)
                 (negb (is_digit c) && negb (is_word_char c) &&
                  negb (Ascii.eqb (fold_case c) "a") &&
                  negb (Ascii.eqb (fold_case c) "p"))) all_ascii = true)
    by (vm_compute; reflexivity).
  pose proof (forall_ascii _ H0 c) as G. cbv beta in G.
  rewrite H in G. simpl in G.
  repeat (apply andb_true_iff in G; destruct G as [G ?]).
  repeat match goal with
         | X : negb _ = true |- _ => apply negb_true_iff in X
         end.
  repeat split; assumption.
Qed.

Lemma digit_not_letter (c : ascii) :
  is_digit c = true ->
  Ascii.eqb c ":" = false /\
  Ascii.eqb (fold_case c) "a" = false /\ Ascii.eqb (fold_case c) "p" = false.
Proof.
  intros H.
  assert (H0 : forallb (fun c => implb (is_digit c)
                 (negb (Ascii.eqb c ":") &&
                  negb (Ascii.eqb (fold_case c) "a") &&
                  negb (Ascii.eqb (fold_case c) "p"))) all_ascii = true)
    by (vm_compute; reflexivity).
  pose proof (forall_ascii _ H0 c) as G. cbv beta in G.
  rewrite H in G. simpl in G.
  repeat (apply andb_true_iff in G; destruct G as [G ?]).
  repeat match goal with
         | X : negb _ = true |- _ => apply negb_true_iff in X
         end.
  repeat split; assumption.
Qed.

(** A letter that reads as a small letter is lowered to it. *)
Lemma fold_case_lower (x l : ascii) :
  is_lower l = true -> Ascii.eqb (fold_case x) l = true -> lower_char x = l.
Proof.
  intros H E.
  assert (H0 : forallb (fun x => forallb (fun l =>
                 implb (is_lower l && Ascii.eqb (fold_case x) l)
                       (Ascii.eqb (lower_char x) l)) all_ascii) all_ascii
               = true) by (vm_compute; reflexivity).
  pose proof (forall_ascii2 _ H0 x l) as G. cbv beta in G.
  rewrite H, E in G. simpl in G. apply Ascii.eqb_eq. exact G.
Qed.

(** *** The matcher *)

Lemma orelse_none_r {A : Type} (x : option A) : orelse x None = x.
Proof. destruct x; reflexivity. Qed.

(** Mapping the result of the continuation maps the result of the
    matcher. *)
Lemma rmatch_map {A B : Type} (f : A -> B) (r : regex) :
  forall st cs (k : mstate -> captures -> option A),
    rmatch r st cs (fun st' cs' => option_map f (k st' cs'))
    = option_map f (rmatch r st cs k).
Proof.
  assert (O : forall x y : option A,
             orelse (option_map f x) (option_map f y)
             = option_map f (orelse x y)) by (intros [a | ] y; reflexivity).
  induction r as [ | p | r1 IH1 r2 IH2 | r1 IH1 r2 IH2 | r1 IH1 | n r1 IH1 | | | ];
    intros st cs k; simpl.
  - reflexivity.
  - destruct (rest st) as [ | c s]; [reflexivity | ].
    destruct (p c); reflexivity.
  - rewrite <- IH1. apply rmatch_ext. intros st1 cs1. apply IH2.
  - rewrite IH1, IH2. apply O.
  - generalize (length (rest st)) as fuel. intros fuel. revert st cs.
    induction fuel as [ | fuel IHf]; intros st cs; cbn [star_loop].
    + reflexivity.
    + rewrite <- O. f_equal. rewrite <- IH1. apply rmatch_ext.
      intros st1 cs1.
      destruct (length (rest st1) <? length (rest st))%nat;
        [apply IHf | reflexivity].
  - apply (IH1 st cs (fun st1 cs1 => k st1 ((n, consumed st st1) :: cs1))).
  - destruct (at_word_boundary st); reflexivity.
  - destruct (prev st); reflexivity.
  - destruct (rest st); reflexivity.
Qed.

(** An attempt at a position, seen through where it ends and through
    its captures alone. *)
Lemma match_here_rest (r : regex) (st : mstate) :
  rmatch r st [] (fun st' cs => Some (rest st', cs))
  = option_map (fun res => (rest (fst res), snd res)) (match_here r st).
Proof.
  unfold match_here.
  rewrite <- (rmatch_map (fun res => (rest (fst res), snd res))).
  reflexivity.
Qed.

Lemma match_here_captures (r : regex) (st : mstate) :
  rmatch r st [] (fun _ cs => Some cs) = option_map snd (match_here r st).
Proof.
  unfold match_here. rewrite <- (rmatch_map snd). reflexivity.
Qed.

(** White space, greedily: one more character when it is white space,
    and what follows only if that fails. *)
Lemma star_space_cons {A : Type} (p : option ascii) (c : ascii)
    (r : list ascii) (cs : captures) (k : mstate -> captures -> option A) :
  rmatch (Star space) (MState p (c :: r)) cs k
  = if is_js_space c
    then orelse (rmatch (Star space) (MState (Some c) r) cs k)
                (k (MState p (c :: r)) cs)
    else k (MState p (c :: r)) cs.
Proof.
  rewrite rmatch_star. cbn [rmatch space rest].
  destruct (is_js_space c); [ | reflexivity].
  cbn [rest length].
  destruct (Nat.ltb_spec (length r) (S (length r))); [reflexivity | lia].
Qed.

Lemma star_space_nil {A : Type} (p : option ascii) (cs : captures)
    (k : mstate -> captures -> option A) :
  rmatch (Star space) (MState p []) cs k = k (MState p []) cs.
Proof. reflexivity. Qed.

Lemma trimStart_length (s : list ascii) :
  (length (trimStart s) <= length s)%nat.
Proof.
  induction s as [ | c s IH]; simpl; [lia | ].
  destruct (is_js_space c); simpl; lia.
Qed.

Lemma fold_case_word (x l : ascii) :
  is_lower l = true -> Ascii.eqb (fold_case x) l = true ->
  is_word_char x = true.
Proof.
  intros H E.
  assert (H0 : forallb (fun x => forallb (fun l =>
                 implb (is_lower l && Ascii.eqb (fold_case x) l)
                       (is_word_char x)) all_ascii) all_ascii
               = true) by (vm_compute; reflexivity).
  pose proof (forall_ascii2 _ H0 x l) as G. cbv beta in G.
  rewrite H, E in G. exact G.
Qed.

(** *** The scanning pattern, from its end *)

Lemma boundary_state (p : option ascii) (r : list ascii) :
  at_word_boundary (MState p r) = xorb (is_word p) (starts_word r).
Proof.
  unfold at_word_boundary, word_before, word_after, starts_word, is_word.
  destruct p, r; reflexivity.
Qed.

Lemma marker_then_boundary (p : option ascii) (r : list ascii) (cs : captures) :
  rmatch (Seq (Opt (Group 3 meridian_marker)) WordB) (MState p r) cs
    (fun st' cs' => Some (rest st', cs'))
  = let plain :=
      if xorb (is_word p) (starts_word r) then Some (r, cs) else None in
    match read_marker r with
    | Some (w, r') =>
        if starts_word r' then plain else Some (r', (3%nat, w) :: cs)
    | None => plain
    end.
Proof.
  cbn [rmatch Opt meridian_marker alts liti seqs map str list_ascii_of_string].
  rewrite boundary_state. cbn [rest].
  unfold read_marker.
  destruct r as [ | a [ | b r']];
    cbn [reads_word str list_ascii_of_string];
    rewrite ?(canon_fold_case _ "a" eq_refl), ?(canon_fold_case _ "p" eq_refl),
      ?(canon_fold_case _ "m" eq_refl).
  - reflexivity.
  - destruct (Ascii.eqb (fold_case a) "a"), (Ascii.eqb (fold_case a) "p");
      reflexivity.
  - rewrite !boundary_state.
    rewrite (consumed_app (MState p (a :: b :: r')) (MState (Some b) r') [a; b])
      by reflexivity.
    cbn [rest firstn].
    destruct (Ascii.eqb (fold_case b) "m") eqn:Eb.
    + rewrite (fold_case_word b "m" eq_refl Eb : is_word (Some b) = true).
      cbn [xorb].
      destruct (Ascii.eqb (fold_case a) "a"), (Ascii.eqb (fold_case a) "p");
        cbn [orelse]; destruct (starts_word r'); reflexivity.
    + destruct (Ascii.eqb (fold_case a) "a"), (Ascii.eqb (fold_case a) "p");
        reflexivity.
Qed.

Lemma read_marker_space (c : ascii) (r : list ascii) :
  is_js_space c = true -> read_marker (c :: r) = None.
Proof.
  intros H. destruct (space_facts c H) as (_ & _ & Ha & Hp).
  unfold read_marker. cbn [reads_word str list_ascii_of_string].
  rewrite Ha, Hp. reflexivity.
Qed.

(** White space and what follows it, after a white space character. *)
Lemma spaces_after_space (r : list ascii) :
  forall c cs, is_js_space c = true ->
    rmatch (Star space) (MState (Some c) r) cs
      (fun st1 cs1 =>
         rmatch (Seq (Opt (Group 3 meridian_marker)) WordB) st1 cs1
           (fun st' cs' => Some (rest st', cs')))
    = let plain :=
        if starts_word (trimStart r) then Some (trimStart r, cs) else None in
      match read_marker (trimStart r) with
      | Some (w, r') =>
          if starts_word r' then plain else Some (r', (3%nat, w) :: cs)
      | None => plain
      end.
Proof.
  induction r as [ | d r IH]; intros c cs Hc;
    destruct (space_facts c Hc) as (_ & Hw & _ & _).
  - rewrite star_space_nil, marker_then_boundary.
    cbn [is_word]. rewrite Hw. reflexivity.
  - rewrite star_space_cons. cbn [trimStart].
    destruct (is_js_space d) eqn:Hd.
    + rewrite (IH d cs Hd), marker_then_boundary.
      rewrite (read_marker_space d r Hd).
      destruct (space_facts d Hd) as (_ & Hwd & _ & _).
      cbn [is_word starts_word head]. rewrite Hw.
      unfold starts_word at 4. cbn [head is_word]. rewrite Hwd. cbn [xorb].
      apply orelse_none_r.
    + rewrite marker_then_boundary. cbn [is_word]. rewrite Hw. reflexivity.
Qed.

(** The end of an occurrence, after its digits. *)
Lemma tail_of_occurrence (p : option ascii) (r : list ascii) (cs : captures) :
  is_word p = true ->
  rmatch (Star space) (MState p r) cs
    (fun st1 cs1 =>
       rmatch (Seq (Opt (Group 3 meridian_marker)) WordB) st1 cs1
         (fun st' cs' => Some (rest st', cs')))
  = option_map (fun t => (snd t, group_captures 3 (fst t) ++ cs)) (read_tail r).
Proof.
  intros Hp. unfold read_tail. destruct r as [ | d r].
  - rewrite star_space_nil, marker_then_boundary. rewrite Hp. reflexivity.
  - rewrite star_space_cons. cbn [trimStart].
    destruct (is_js_space d) eqn:Hd.
    + rewrite (spaces_after_space r d cs Hd), marker_then_boundary.
      rewrite (read_marker_space d r Hd).
      destruct (space_facts d Hd) as (_ & Hwd & _ & _).
      rewrite Hp. unfold starts_word at 3. cbn [head is_word]. rewrite Hwd.
      cbn [xorb].
      assert (L : (length (trimStart r) <? length (d :: r))%nat = true).
      { apply Nat.ltb_lt. pose proof (trimStart_length r). simpl. lia. }
      rewrite L.
      destruct (read_marker (trimStart r)) as [[w r'] | ].
      * destruct (starts_word r'); [ | reflexivity].
        destruct (starts_word (trimStart r)); reflexivity.
      * destruct (starts_word (trimStart r)); reflexivity.
    + rewrite marker_then_boundary. rewrite Hp.
      rewrite Nat.ltb_irrefl.
      destruct (read_marker (d :: r)) as [[w r'] | ].
      * destruct (starts_word r'); [ | reflexivity].
        destruct (starts_word (d :: r)); reflexivity.
      * destruct (starts_word (d :: r)); reflexivity.
Qed.

Lemma rmatch_seq {A : Type} (r1 r2 : regex) st cs
    (k : mstate -> captures -> option A) :
  rmatch (Seq r1 r2) st cs k
  = rmatch r1 st cs (fun st1 cs1 => rmatch r2 st1 cs1 k).
Proof. reflexivity. Qed.

(** The minutes and the end of an occurrence, after its hour. *)
Lemma minutes_of_occurrence (p : option ascii) (r : list ascii) (cs : captures) :
  is_word p = true ->
  rmatch (seqs [Opt (Seq (lit ":") (Group 2 digits_2)); Star space;
                Opt (Group 3 meridian_marker); WordB]) (MState p r) cs
    (fun st' cs' => Some (rest st', cs'))
  = let without :=
      option_map (fun t => (snd t, group_captures 3 (fst t) ++ cs))
        (read_tail r) in
    match read_minute r with
    | Some (m, r1) =>
        match read_tail r1 with
        | Some (mk, r') => Some (r', group_captures 3 mk ++ (2%nat, m) :: cs)
        | None => without
        end
    | None => without
    end.
Proof.
  intros Hp. cbn [seqs]. rewrite rmatch_seq.
  set (k := fun st1 cs1 => rmatch _ st1 cs1 _).
  assert (Hk : forall p r cs, is_word p = true ->
            k (MState p r) cs
            = option_map (fun t => (snd t, group_captures 3 (fst t) ++ cs))
                (read_tail r)).
  { intros p0 r0 cs0 H0. subst k. cbv beta. rewrite rmatch_seq.
    apply tail_of_occurrence. exact H0. }
  clearbody k. unfold Opt.
  cbn [rmatch lit digits_2 digit map seqs str list_ascii_of_string rest].
  rewrite (Hk p r cs Hp). cbv zeta.
  destruct r as [ | c [ | a [ | b r1]]]; cbn [read_minute orelse];
    try reflexivity.
  - destruct (Ascii.eqb ":" c); reflexivity.
  - destruct (Ascii.eqb ":" c); [ | reflexivity].
    destruct (is_digit a); reflexivity.
  - rewrite (Ascii.eqb_sym c ":").
    destruct (Ascii.eqb ":" c); [ | reflexivity]. cbn [andb].
    destruct (is_digit a); [ | reflexivity]. cbn [andb].
    destruct (is_digit b) eqn:Db; [ | reflexivity].
    rewrite (consumed_app (MState (Some c) (a :: b :: r1)) (MState (Some b) r1)
               [a; b]) by reflexivity.
    destruct (digit_facts b Db) as (_ & _ & Wb & _).
    rewrite (Hk (Some b) r1 _ Wb).
    destruct (read_tail r1) as [[mk r'] | ]; reflexivity.
Qed.

(** An attempt of the scanning pattern at a position reads the
    occurrence that stands there. *)

Lemma rmatch_wordb {A : Type} st cs (k : mstate -> captures -> option A) :
  rmatch WordB st cs k = if at_word_boundary st then k st cs else None.
Proof. reflexivity. Qed.

Lemma read_minute_digit (c : ascii) (r : list ascii) :
  is_digit c = true -> read_minute (c :: r) = None.
Proof.
  intros H. destruct (digit_not_letter c H) as (Hc & _).
  destruct r as [ | a [ | b r]]; cbn [read_minute]; try reflexivity.
  rewrite Hc. reflexivity.
Qed.

Lemma read_marker_digit (c : ascii) (r : list ascii) :
  is_digit c = true -> read_marker (c :: r) = None.
Proof.
  intros H. destruct (digit_not_letter c H) as (_ & Ha & Hp).
  unfold read_marker. cbn [reads_word str list_ascii_of_string].
  rewrite Ha, Hp. reflexivity.
Qed.

Lemma read_tail_digit (c : ascii) (r : list ascii) :
  is_digit c = true -> read_tail (c :: r) = None.
Proof.
  intros H. destruct (digit_facts c H) as (_ & Hs & Hw & _).
  unfold read_tail. cbn [trimStart]. rewrite Hs.
  rewrite (read_marker_digit c r H).
  unfold starts_word. cbn [head is_word]. rewrite Hw, Nat.ltb_irrefl.
  reflexivity.
Qed.

(** The captures of the phrase read after the hour [h]. *)
Lemma captures_after_hour (h r : list ascii) :
  (let without :=
     option_map (fun t => (snd t, group_captures 3 (fst t) ++ [(1%nat, h)]))
       (read_tail r) in
   match read_minute r with
   | Some (m, r1) =>
       match read_tail r1 with
       | Some (mk, r') =>
           Some (r', group_captures 3 mk ++ [(2%nat, m); (1%nat, h)])
       | None => without
       end
   | None => without
   end)
  = option_map (fun o => (snd o, phrase_captures (fst o)))
      (let without_minutes :=
         match read_tail r with
         | Some (mk, r') => Some (mkPhrase h None mk, r')
         | None => None
         end in
       match read_minute r with
       | Some (m, r1) =>
           match read_tail r1 with
           | Some (mk, r') => Some (mkPhrase h (Some m) mk, r')
           | None => without_minutes
           end
       | None => without_minutes
       end).
Proof.
  cbv zeta.
  destruct (read_minute r) as [[m r1] | ];
    [destruct (read_tail r1) as [[mk r'] | ]; [reflexivity | ] | ];
    destruct (read_tail r) as [[mk r'] | ]; reflexivity.
Qed.

(** An attempt of the scanning pattern at a position reads the
    occurrence that stands there. *)
Lemma occurrence_here (p : option ascii) (s : list ascii) :
  rmatch TIME_PATTERN (MState p s) [] (fun st' cs' => Some (rest st', cs'))
  = if is_word p then None
    else option_map (fun o => (snd o, phrase_captures (fst o))) (phrase_at s).
Proof.
  unfold TIME_PATTERN.
  change (seqs (WordB :: Group 1 digits_1_2 :: ?l))
    with (Seq WordB (Seq (Group 1 digits_1_2) (seqs l))).
  rewrite rmatch_seq, rmatch_wordb, boundary_state, rmatch_seq.
  set (k := fun st1 cs1 =>
              rmatch (seqs [Opt (Seq (lit ":") (Group 2 digits_2)); Star space;
                            Opt (Group 3 meridian_marker); WordB]) st1 cs1
                (fun st' cs' => Some (rest st', cs'))).
  assert (Hk : forall p r cs, is_word p = true ->
            k (MState p r) cs
            = let without :=
                option_map (fun t => (snd t, group_captures 3 (fst t) ++ cs))
                  (read_tail r) in
              match read_minute r with
              | Some (m, r1) =>
                  match read_tail r1 with
                  | Some (mk, r') =>
                      Some (r', group_captures 3 mk ++ (2%nat, m) :: cs)
                  | None => without
                  end
              | None => without
              end).
  { intros p0 r0 cs0 H0. subst k. cbv beta.
    apply minutes_of_occurrence. exact H0. }
  clearbody k.
  cbn [rmatch digits_1_2 Opt digit rest].
  unfold phrase_at, starts_word.
  destruct s as [ | a [ | b r]]; cbn [head is_word read_hour].
  - destruct (is_word p); reflexivity.
  - destruct (is_digit a) eqn:Da.
    + destruct (digit_facts a Da) as (_ & _ & Wa & _). rewrite Wa.
      rewrite (consumed_app (MState p [a]) (MState (Some a) []) [a])
        by reflexivity.
      rewrite (Hk (Some a) [] _ Wa), captures_after_hour.
      destruct (is_word p); reflexivity.
    + destruct (xorb (is_word p) (is_word_char a)), (is_word p); reflexivity.
  - destruct (is_digit a) eqn:Da.
    + destruct (digit_facts a Da) as (_ & _ & Wa & _). rewrite Wa.
      rewrite (consumed_app (MState p (a :: b :: r)) (MState (Some a) (b :: r))
                 [a]) by reflexivity.
      rewrite (Hk (Some a) (b :: r) _ Wa).
      destruct (is_digit b) eqn:Db.
      * destruct (digit_facts b Db) as (_ & _ & Wb & _).
        rewrite (consumed_app (MState p (a :: b :: r)) (MState (Some b) r)
                   [a; b]) by reflexivity.
        rewrite (Hk (Some b) r _ Wb), captures_after_hour.
        rewrite (read_minute_digit b r Db), (read_tail_digit b r Db).
        cbv zeta. cbn [option_map]. rewrite orelse_none_r.
        destruct (is_word p); reflexivity.
      * rewrite captures_after_hour. cbn [orelse].
        destruct (is_word p); reflexivity.
    + destruct (xorb (is_word p) (is_word_char a)), (is_word p); reflexivity.
Qed.

(** *** The proximity pattern, from its end *)

Lemma marker_at_end (p : option ascii) (r : list ascii) (cs : captures) :
  rmatch (Opt (Group 3 meridian_marker)) (MState p r) cs
    (fun _ cs' => Some cs')
  = Some (group_captures 3 (option_map fst (read_marker r)) ++ cs).
Proof.
  cbn [rmatch Opt meridian_marker alts liti seqs map str list_ascii_of_string
       rest].
  unfold read_marker.
  destruct r as [ | a [ | b r']];
    cbn [reads_word str list_ascii_of_string];
    rewrite ?(canon_fold_case _ "a" eq_refl), ?(canon_fold_case _ "p" eq_refl),
      ?(canon_fold_case _ "m" eq_refl).
  - reflexivity.
  - destruct (Ascii.eqb (fold_case a) "a"), (Ascii.eqb (fold_case a) "p");
      reflexivity.
  - rewrite (consumed_app (MState p (a :: b :: r')) (MState (Some b) r') [a; b])
      by reflexivity.
    cbn [firstn].
    destruct (Ascii.eqb (fold_case a) "a"), (Ascii.eqb (fold_case a) "p"),
      (Ascii.eqb (fold_case b) "m"); reflexivity.
Qed.

Lemma spaces_and_marker (r : list ascii) :
  forall p cs,
    rmatch (Star space) (MState p r) cs
      (fun st1 cs1 =>
         rmatch (Opt (Group 3 meridian_marker)) st1 cs1 (fun _ cs' => Some cs'))
    = Some (group_captures 3 (option_map fst (read_marker (trimStart r)))
              ++ cs).
Proof.
  induction r as [ | d r IH]; intros p cs.
  - rewrite star_space_nil. apply marker_at_end.
  - rewrite star_space_cons. cbn [trimStart].
    destruct (is_js_space d).
    + rewrite IH. reflexivity.
    + apply marker_at_end.
Qed.

Lemma minutes_after_keyword (p : option ascii) (r : list ascii) (cs : captures) :
  rmatch (seqs [Opt (Seq (lit ":") (Group 2 digits_2)); Star space;
                Opt (Group 3 meridian_marker)]) (MState p r) cs
    (fun _ cs' => Some cs')
  = match read_minute r with
    | Some (m, r2) =>
        Some (group_captures 3 (option_map fst (read_marker (trimStart r2)))
                ++ (2%nat, m) :: cs)
    | None =>
        Some (group_captures 3 (option_map fst (read_marker (trimStart r)))
                ++ cs)
    end.
Proof.
  cbn [seqs]. rewrite rmatch_seq.
  set (k := fun st1 cs1 =>
              rmatch (Seq (Star space) (Opt (Group 3 meridian_marker))) st1 cs1
                (fun _ cs' => Some cs')).
  assert (Hk : forall p r cs,
            k (MState p r) cs
            = Some (group_captures 3
                      (option_map fst (read_marker (trimStart r))) ++ cs)).
  { intros p0 r0 cs0. subst k. cbv beta. rewrite rmatch_seq.
    apply spaces_and_marker. }
  clearbody k. unfold Opt.
  cbn [rmatch lit digits_2 digit map seqs str list_ascii_of_string rest].
  rewrite (Hk p r cs).
  destruct r as [ | c [ | a [ | b r1]]]; cbn [read_minute orelse];
    try reflexivity.
  - destruct (Ascii.eqb ":" c); reflexivity.
  - destruct (Ascii.eqb ":" c); [ | reflexivity].
    destruct (is_digit a); reflexivity.
  - rewrite (Ascii.eqb_sym c ":").
    destruct (Ascii.eqb ":" c); [ | reflexivity]. cbn [andb].
    destruct (is_digit a); [ | reflexivity]. cbn [andb].
    destruct (is_digit b) eqn:Db; [ | reflexivity].
    rewrite (consumed_app (MState (Some c) (a :: b :: r1)) (MState (Some b) r1)
               [a; b]) by reflexivity.
    rewrite Hk. reflexivity.
Qed.

(** The phrase that follows the white space after a keyword. *)
Lemma hour_after_keyword (p : option ascii) (r : list ascii) :
  rmatch (seqs [Group 1 digits_1_2; Opt (Seq (lit ":") (Group 2 digits_2));
                Star space; Opt (Group 3 meridian_marker)]) (MState p r) []
    (fun _ cs' => Some cs')
  = match read_hour r with
    | Some (h, r1) =>
        let '(m, r2) :=
          match read_minute r1 with
          | Some (m, r2) => (Some m, r2)
          | None => (None, r1)
          end in
        Some (phrase_captures
                (mkPhrase h m (option_map fst (read_marker (trimStart r2)))))
    | None => None
    end.
Proof.
  change (seqs (Group 1 digits_1_2 :: ?l))
    with (Seq (Group 1 digits_1_2) (seqs l)).
  rewrite rmatch_seq.
  set (k := fun st1 cs1 =>
              rmatch (seqs [Opt (Seq (lit ":") (Group 2 digits_2)); Star space;
                            Opt (Group 3 meridian_marker)]) st1 cs1
                (fun _ cs' => Some cs')).
  assert (Hk : forall p r cs,
            k (MState p r) cs
            = match read_minute r with
              | Some (m, r2) =>
                  Some (group_captures 3
                          (option_map fst (read_marker (trimStart r2)))
                          ++ (2%nat, m) :: cs)
              | None =>
                  Some (group_captures 3
                          (option_map fst (read_marker (trimStart r))) ++ cs)
              end).
  { intros p0 r0 cs0. subst k. cbv beta. apply minutes_after_keyword. }
  clearbody k.
  cbn [rmatch digits_1_2 Opt digit rest].
  destruct r as [ | a [ | b r]]; cbn [read_hour].
  - reflexivity.
  - destruct (is_digit a); [ | reflexivity].
    rewrite (consumed_app (MState p [a]) (MState (Some a) []) [a])
      by reflexivity.
    rewrite Hk. cbn [orelse].
    destruct (read_minute []) as [[m r2] | ]; reflexivity.
  - destruct (is_digit a); [ | reflexivity].
    destruct (is_digit b).
    + rewrite (consumed_app (MState p (a :: b :: r)) (MState (Some b) r)
                 [a; b]) by reflexivity.
      rewrite Hk.
      destruct (read_minute r) as [[m r2] | ]; reflexivity.
    + rewrite (consumed_app (MState p (a :: b :: r)) (MState (Some a) (b :: r))
                 [a]) by reflexivity.
      rewrite Hk. cbn [orelse].
      destruct (read_minute (b :: r)) as [[m r2] | ]; reflexivity.
Qed.

Lemma read_hour_space (c : ascii) (r : list ascii) :
  is_js_space c = true -> read_hour (c :: r) = None.
Proof.
  intros H. destruct (space_facts c H) as (Hd & _).
  destruct r; cbn [read_hour]; rewrite Hd; reflexivity.
Qed.

Lemma spaces_then_hour (r : list ascii) :
  forall p,
    rmatch (Star space) (MState p r) []
      (fun st1 cs1 =>
         rmatch (seqs [Group 1 digits_1_2;
                       Opt (Seq (lit ":") (Group 2 digits_2));
                       Star space; Opt (Group 3 meridian_marker)]) st1 cs1
           (fun _ cs' => Some cs'))
    = match read_hour (trimStart r) with
      | Some (h, r1) =>
          let '(m, r2) :=
            match read_minute r1 with
            | Some (m, r2) => (Some m, r2)
            | None => (None, r1)
            end in
          Some (phrase_captures
                  (mkPhrase h m (option_map fst (read_marker (trimStart r2)))))
      | None => None
      end.
Proof.
  induction r as [ | d r IH]; intros p.
  - rewrite star_space_nil. apply hour_after_keyword.
  - rewrite star_space_cons. cbn [trimStart].
    destruct (is_js_space d) eqn:Hd.
    + rewrite IH, hour_after_keyword, (read_hour_space d r Hd).
      apply orelse_none_r.
    + apply hour_after_keyword.
Qed.

(** A word of the pattern, under the flag [i], is read letter by
    letter. *)
Lemma liti_reads {A : Type} (w : list ascii) :
  Forall (fun l => is_lower l = true) w -> w <> [] ->
  forall p s cs (k : mstate -> captures -> option A),
    rmatch (seqs (map (fun c => Char (fun x => Ascii.eqb (canon x) (canon c)))
                    w)) (MState p s) cs k
    = match reads_word w s with
      | Some r => k (MState (last_read p (firstn (length w) s)) r) cs
      | None => None
      end.
Proof.
  induction w as [ | l w IH]; intros F N p s cs k; [congruence | ].
  inversion F as [ | ? ? Hl Fw]; subst.
  destruct w as [ | l' w'].
  - cbn [map seqs rmatch rest reads_word length firstn].
    destruct s as [ | c s]; [reflexivity | ].
    rewrite (canon_fold_case c l Hl).
    destruct (Ascii.eqb (fold_case c) l); reflexivity.
  - change (seqs (map ?f (l :: l' :: w')))
      with (Seq (f l) (seqs (map f (l' :: w')))).
    rewrite rmatch_seq. cbn [rmatch rest].
    destruct s as [ | c s]; [reflexivity | ].
    rewrite (canon_fold_case c l Hl).
    change (reads_word (l :: l' :: w') (c :: s))
      with (if Ascii.eqb (fold_case c) l then reads_word (l' :: w') s
            else None).
    destruct (Ascii.eqb (fold_case c) l); [ | reflexivity].
    rewrite (IH Fw ltac:(discriminate)).
    destruct (reads_word (l' :: w') s) as [r | ] eqn:E; [ | reflexivity].
    f_equal. f_equal.
    change (firstn (length (l :: l' :: w')) (c :: s))
      with (c :: firstn (length (l' :: w')) s).
    rewrite last_read_cons. reflexivity.
Qed.

(** The three keywords start with different letters. *)
Lemma one_keyword (s : list ascii) :
  (reads_word (str "at") s <> None ->
   reads_word (str "until") s = None /\ reads_word (str "by") s = None) /\
  (reads_word (str "until") s <> None -> reads_word (str "by") s = None).
Proof.
  destruct s as [ | c s]; [split; intros H; exfalso; apply H; reflexivity | ].
  cbn [reads_word str list_ascii_of_string].
  split.
  - destruct (Ascii.eqb (fold_case c) "a") eqn:E;
      [ | intros H; exfalso; apply H; reflexivity].
    apply Ascii.eqb_eq in E. rewrite E. intros _. split; reflexivity.
  - destruct (Ascii.eqb (fold_case c) "u") eqn:E;
      [ | intros H; exfalso; apply H; reflexivity].
    apply Ascii.eqb_eq in E. rewrite E. intros _. reflexivity.
Qed.

(** An attempt of the proximity pattern at a position reads the phrase
    that follows the keyword standing there. *)
Lemma keyword_here (p : option ascii) (s : list ascii) :
  rmatch keyword_time (MState p s) [] (fun _ cs' => Some cs')
  = option_map phrase_captures (after_keyword s).
Proof.
  unfold keyword_time.
  change (seqs (?a :: Plus space :: ?l))
    with (Seq a (Seq (Plus space) (seqs l))).
  rewrite rmatch_seq.
  set (k := fun st1 cs1 => rmatch (Seq (Plus space) _) st1 cs1 _).
  assert (Hk : forall p r,
            k (MState p r) []
            = match r with
              | c :: r' =>
                  if is_js_space c then
                    match read_hour (trimStart r') with
                    | Some (h, r1) =>
                        let '(m, r2) :=
                          match read_minute r1 with
                          | Some (m, r2) => (Some m, r2)
                          | None => (None, r1)
                          end in
                        Some (phrase_captures
                                (mkPhrase h m
                                   (option_map fst
                                      (read_marker (trimStart r2)))))
                    | None => None
                    end
                  else None
              | [] => None
              end).
  { intros p0 r0. subst k. cbv beta. unfold Plus.
    rewrite !rmatch_seq. cbn [rmatch space rest].
    destruct r0 as [ | c r']; [reflexivity | ].
    destruct (is_js_space c); [ | reflexivity].
    apply (spaces_then_hour r' (Some c)). }
  clearbody k.
  cbn [alts map]. cbn [rmatch]. unfold liti.
  rewrite !liti_reads
    by (first [ discriminate | repeat constructor ]).
  unfold after_keyword, read_keyword.
  destruct (one_keyword s) as [Hat Hun].
  destruct (reads_word (str "at") s) as [r | ] eqn:Eat.
  - destruct (Hat ltac:(discriminate)) as [-> ->]. cbn [orelse].
    rewrite orelse_none_r, Hk.
    destruct r as [ | c r']; [reflexivity | ].
    destruct (is_js_space c); [ | reflexivity].
    destruct (read_hour (trimStart r')) as [[h r1] | ]; [ | reflexivity].
    destruct (read_minute r1) as [[m r2] | ]; reflexivity.
  - cbn [orelse].
    destruct (reads_word (str "until") s) as [r | ] eqn:Eun.
    + rewrite (Hun ltac:(discriminate)). rewrite orelse_none_r, Hk.
      destruct r as [ | c r']; [reflexivity | ].
      destruct (is_js_space c); [ | reflexivity].
      destruct (read_hour (trimStart r')) as [[h r1] | ]; [ | reflexivity].
      destruct (read_minute r1) as [[m r2] | ]; reflexivity.
    + cbn [orelse].
      destruct (reads_word (str "by") s) as [r | ]; [ | reflexivity].
      rewrite Hk.
      destruct r as [ | c r']; [reflexivity | ].
      destruct (is_js_space c); [ | reflexivity].
      destruct (read_hour (trimStart r')) as [[h r1] | ]; [ | reflexivity].
      destruct (read_minute r1) as [[m r2] | ]; reflexivity.
Qed.

(** *** The two searches *)

(** The proximity match of the script is the first phrase of the text
    that the letters of a keyword precede. *)
Lemma search_keyword (s : list ascii) :
  forall p,
    option_map snd (search_from keyword_time p s)
    = option_map phrase_captures (proximity false p s).
Proof.
  induction s as [ | c s IH]; intros p; cbn [search_from proximity andb].
  - pose proof (keyword_here p []) as H. rewrite match_here_captures in H.
    destruct (match_here keyword_time (MState p [])) as [res | ],
      (after_keyword []) as [ph | ]; try discriminate; exact H.
  - pose proof (keyword_here p (c :: s)) as H.
    rewrite match_here_captures in H.
    destruct (match_here keyword_time (MState p (c :: s))) as [res | ],
      (after_keyword (c :: s)) as [ph | ]; try discriminate;
      [exact H | apply IH].
Qed.

Lemma exec_keyword (text : list ascii) :
  exec keyword_time text
  = option_map phrase_captures (proximity false None text).
Proof.
  unfold exec. rewrite <- search_keyword.
  destruct (search_from keyword_time None text) as [[st cs] | ]; reflexivity.
Qed.

(** Passing the characters of an occurrence. *)
Lemma occurrences_skip (w : list ascii) :
  forall q r,
    occurrences (length w) q (w ++ r) = occurrences 0 (last_read q w) r.
Proof.
  induction w as [ | x w IH]; intros q r.
  - reflexivity.
  - cbn [length app occurrences]. rewrite IH, last_read_cons. reflexivity.
Qed.

(** One step of the scan: the leftmost occurrence, and the scan resumes
    after it. *)
Lemma scan_step (s : list ascii) :
  forall p,
    match search_from TIME_PATTERN p s with
    | Some (st', cs) =>
        exists ph, cs = phrase_captures ph /\
          occurrences 0 p s = ph :: occurrences 0 (prev st') (rest st') /\
          (length (rest st') < length s)%nat
    | None => occurrences 0 p s = []
    end.
Proof.
  induction s as [ | c s IH]; intros p; cbn [search_from].
  - pose proof (occurrence_here p []) as H. rewrite match_here_rest in H.
    destruct (match_here TIME_PATTERN (MState p [])) as [[st' cs] | ] eqn:E;
      [ | reflexivity].
    exfalso. destruct (is_word p); discriminate H.
  - pose proof (occurrence_here p (c :: s)) as H.
    rewrite match_here_rest in H.
    destruct (match_here TIME_PATTERN (MState p (c :: s))) as [[st' cs] | ]
      eqn:E.
    + cbn [option_map fst snd] in H.
      destruct (is_word p) eqn:Wp; [discriminate | ].
      destruct (phrase_at (c :: s)) as [[ph r] | ] eqn:Ph; [ | discriminate].
      cbn [option_map fst snd] in H. injection H as Hr Hc.
      apply match_here_sound in E.
      destruct (matches_reads _ _ _ _ _ E) as (w & Ew & Ep).
      apply TIME_PATTERN_captures in E. destruct E as [_ L].
      cbn [rest prev] in Ew, Ep, L.
      exists ph. split; [exact Hc | ]. split; [ | exact L].
      cbn [occurrences]. rewrite Wp, Ph.
      destruct w as [ | x w]; [simpl in Ew; rewrite <- Ew in L; lia | ].
      cbn [app] in Ew. injection Ew as <- ->.
      rewrite <- Hr, length_app.
      replace (length w + length (rest st') - length (rest st'))%nat
        with (length w) by lia.
      rewrite occurrences_skip, Ep, last_read_cons. reflexivity.
    + cbn [option_map] in H.
      assert (G : (if is_word p then None else phrase_at (c :: s)) = None).
      { destruct (is_word p); [reflexivity | ].
        destruct (phrase_at (c :: s)); [discriminate | reflexivity]. }
      specialize (IH (Some c)).
      cbn [occurrences]. rewrite G.
      destruct (search_from TIME_PATTERN (Some c) s) as [[st' cs] | ];
        [ | exact IH].
      destruct IH as (ph & Hc & Ho & L). exists ph.
      split; [exact Hc | ]. split; [exact Ho | ]. simpl. lia.
Qed.

(** The scan of the script sees all the occurrences of the block. *)
Lemma exec_all_occurrences (n : nat) :
  forall p s, (length s < n)%nat ->
    exec_all n TIME_PATTERN p s = map phrase_captures (occurrences 0 p s).
Proof.
  induction n as [ | n IH]; intros p s L; [lia | ].
  cbn [exec_all]. pose proof (scan_step s p) as H.
  destruct (search_from TIME_PATTERN p s) as [[st' cs] | ].
  - destruct H as (ph & -> & -> & L'). cbn [map]. f_equal.
    apply IH. lia.
  - rewrite H. reflexivity.
Qed.

(** *** What the phrases denote *)

Lemma read_hour_digits s h r :
  read_hour s = Some (h, r) ->
  all_digits h /\ (1 <= length h <= 2)%nat.
Proof.
  unfold all_digits.
  destruct s as [ | a [ | b s]]; cbn [read_hour]; [discriminate | | ].
  - destruct (is_digit a) eqn:Da; [ | discriminate].
    intros [= <- <-]. simpl. rewrite Da. split; [reflexivity | lia].
  - destruct (is_digit a) eqn:Da; [ | discriminate].
    destruct (is_digit b) eqn:Db; intros [= <- <-]; simpl;
      rewrite Da, ?Db; split; try reflexivity; lia.
Qed.

Lemma read_minute_digits s m r :
  read_minute s = Some (m, r) -> all_digits m /\ length m = 2%nat.
Proof.
  unfold all_digits.
  destruct s as [ | c [ | a [ | b s]]]; cbn [read_minute]; try discriminate.
  destruct (Ascii.eqb c ":"); [ | discriminate].
  destruct (is_digit a) eqn:Da; [ | discriminate].
  destruct (is_digit b) eqn:Db; [ | discriminate].
  intros [= <- <-]. simpl. rewrite Da, Db. split; reflexivity.
Qed.

Lemma read_marker_letters s w r :
  read_marker s = Some (w, r) ->
  reads_word (str "am") w = Some [] \/ reads_word (str "pm") w = Some [].
Proof.
  unfold read_marker.
  destruct s as [ | a [ | b s]];
    cbn [reads_word str list_ascii_of_string firstn].
  - discriminate.
  - destruct (Ascii.eqb (fold_case a) "a"), (Ascii.eqb (fold_case a) "p");
      discriminate.
  - destruct (Ascii.eqb (fold_case a) "a") eqn:Ea,
      (Ascii.eqb (fold_case a) "p") eqn:Ep,
      (Ascii.eqb (fold_case b) "m") eqn:Em;
      try discriminate; intros [= <- <-];
      cbn [reads_word str list_ascii_of_string]; rewrite ?Ea, ?Ep, ?Em; auto.
Qed.

Lemma read_tail_letters s mk r :
  read_tail s = Some (mk, r) ->
  match mk with
  | Some w =>
      reads_word (str "am") w = Some [] \/ reads_word (str "pm") w = Some []
  | None => True
  end.
Proof.
  unfold read_tail.
  destruct (read_marker (trimStart s)) as [[w r'] | ] eqn:E.
  - apply read_marker_letters in E.
    destruct (starts_word r').
    + destruct (starts_word (trimStart s));
        [destruct (length (trimStart s) <? length s)%nat | ];
        intros [= <- <-] || discriminate; exact I.
    + intros [= <- <-]. exact E.
  - destruct (starts_word (trimStart s));
      [destruct (length (trimStart s) <? length s)%nat | ];
      intros [= <- <-] || discriminate; exact I.
Qed.

Lemma phrase_at_well_formed s ph r :
  phrase_at s = Some (ph, r) -> well_formed ph.
Proof.
  unfold phrase_at, well_formed.
  destruct (read_hour s) as [[h r0] | ] eqn:Eh; [ | discriminate].
  destruct (read_hour_digits _ _ _ Eh) as [Dh Lh].
  assert (W : match read_tail r0 with
              | Some (mk, r') => Some (mkPhrase h None mk, r')
              | None => None
              end = Some (ph, r) ->
              all_digits (hour_text ph) /\
              (1 <= length (hour_text ph) <= 2)%nat /\
              match minute_text ph with
              | Some m => all_digits m /\ length m = 2%nat
              | None => True
              end /\
              match marker_text ph with
              | Some w =>
                  reads_word (str "am") w = Some [] \/
                  reads_word (str "pm") w = Some []
              | None => True
              end).
  { destruct (read_tail r0) as [[mk r'] | ] eqn:Et; [ | discriminate].
    intros [= <- <-]. cbn [hour_text minute_text marker_text].
    split; [exact Dh | ]. split; [exact Lh | ]. split; [exact I | ].
    exact (read_tail_letters _ _ _ Et). }
  destruct (read_minute r0) as [[m r1] | ] eqn:Em; [ | exact W].
  destruct (read_tail r1) as [[mk r'] | ] eqn:Et; [ | exact W].
  intros [= <- <-]. cbn [hour_text minute_text marker_text].
  split; [exact Dh | ]. split; [exact Lh | ].
  split; [exact (read_minute_digits _ _ _ Em) | ].
  exact (read_tail_letters _ _ _ Et).
Qed.

Lemma after_keyword_well_formed s ph :
  after_keyword s = Some ph -> well_formed ph.
Proof.
  unfold after_keyword, well_formed.
  destruct (read_keyword s) as [[ | c r] | ]; try discriminate.
  destruct (is_js_space c); [ | discriminate].
  destruct (read_hour (trimStart r)) as [[h r1] | ] eqn:Eh; [ | discriminate].
  destruct (read_hour_digits _ _ _ Eh) as [Dh Lh].
  assert (M : forall r2,
            match option_map fst (read_marker (trimStart r2)) with
            | Some w =>
                reads_word (str "am") w = Some [] \/
                reads_word (str "pm") w = Some []
            | None => True
            end).
  { intros r2. destruct (read_marker (trimStart r2)) as [[w r'] | ] eqn:E;
      [ | exact I].
    exact (read_marker_letters _ _ _ E). }
  destruct (read_minute r1) as [[m r2] | ] eqn:Em; intros [= <-];
    cbn [hour_text minute_text marker_text].
  - split; [exact Dh | ]. split; [exact Lh | ].
    split; [exact (read_minute_digits _ _ _ Em) | apply M].
  - split; [exact Dh | ]. split; [exact Lh | ]. split; [exact I | apply M].
Qed.

Lemma proximity_well_formed (b : bool) (s : list ascii) :
  forall p ph, proximity b p s = Some ph -> well_formed ph.
Proof.
  induction s as [ | c s IH]; intros p ph; cbn [proximity].
  - destruct (b && is_word p); [discriminate | ].
    destruct (after_keyword []) eqn:E; [ | discriminate].
    intros [= <-]. exact (after_keyword_well_formed _ _ E).
  - destruct (if b && is_word p then None else after_keyword (c :: s))
      as [ph' | ] eqn:E.
    + intros [= <-]. destruct (b && is_word p); [discriminate | ].
      exact (after_keyword_well_formed _ _ E).
    + apply IH.
Qed.

Lemma occurrences_well_formed (s : list ascii) :
  forall skip p, Forall well_formed (occurrences skip p s).
Proof.
  induction s as [ | c s IH]; intros skip p; cbn [occurrences].
  - constructor.
  - destruct skip as [ | n]; [ | apply IH].
    destruct (if is_word p then None else phrase_at (c :: s))
      as [[ph r] | ] eqn:E; [ | apply IH].
    constructor; [ | apply IH].
    destruct (is_word p); [discriminate | ].
    exact (phrase_at_well_formed _ _ _ E).
Qed.

(** [parseInt] of an hour or of minutes is the number they write. *)
Lemma parseInt_short (w : list ascii) :
  all_digits w -> (1 <= length w <= 2)%nat ->
  parseInt w = Int (digits_value w) /\ 0 <= digits_value w <= 99.
Proof.
  unfold all_digits. intros D L.
  destruct w as [ | a [ | b [ | c w]]]; simpl in L; try lia.
  - assert (H0 : forallb (fun a => implb (is_digit a)
                   (match parseInt [a] with
                    | Int n => (n =? digits_value [a]) && (0 <=? n) && (n <=? 99)
                    | NaN => false
                    end)) all_ascii = true) by (vm_compute; reflexivity).
    pose proof (forall_ascii _ H0 a) as G. cbv beta in G.
    simpl in D. rewrite andb_true_r in D. rewrite D in G. simpl implb in G.
    destruct (parseInt [a]) as [n | ]; [ | discriminate].
    apply andb_true_iff in G. destruct G as [G G3].
    apply andb_true_iff in G. destruct G as [G1 G2].
    apply Z.eqb_eq in G1. apply Z.leb_le in G2, G3. subst n.
    split; [reflexivity | lia].
  - assert (H0 : forallb (fun a => forallb (fun b =>
                   implb (is_digit a && is_digit b)
                   (match parseInt [a; b] with
                    | Int n =>
                        (n =? digits_value [a; b]) && (0 <=? n) && (n <=? 99)
                    | NaN => false
                    end)) all_ascii) all_ascii = true)
      by (vm_compute; reflexivity).
    pose proof (forall_ascii2 _ H0 a b) as G. cbv beta in G.
    simpl in D. rewrite andb_true_r in D. rewrite D in G. simpl implb in G.
    destruct (parseInt [a; b]) as [n | ]; [ | discriminate].
    apply andb_true_iff in G. destruct G as [G G3].
    apply andb_true_iff in G. destruct G as [G1 G2].
    apply Z.eqb_eq in G1. apply Z.leb_le in G2, G3. subst n.
    split; [reflexivity | lia].
Qed.

(** The marker, lowered as the script lowers it. *)
Lemma marker_lowered (l : ascii) (w : list ascii) :
  is_lower l = true ->
  reads_word [l; "m"%char] w = Some [] -> toLowerCase w = [l; "m"%char].
Proof.
  intros Hl. destruct w as [ | a [ | b [ | c w]]]; cbn [reads_word];
    try discriminate.
  - destruct (Ascii.eqb (fold_case a) l); discriminate.
  - destruct (Ascii.eqb (fold_case a) l) eqn:Ea; [ | discriminate].
    destruct (Ascii.eqb (fold_case b) "m") eqn:Eb; [ | discriminate].
    intros _. cbn [toLowerCase map].
    rewrite (fold_case_lower a l Hl Ea), (fold_case_lower b "m" eq_refl Eb).
    reflexivity.
  - destruct (Ascii.eqb (fold_case a) l); [ | discriminate].
    destruct (Ascii.eqb (fold_case b) "m"); discriminate.
Qed.

Lemma marker_meridian (ph : phrase) :
  well_formed ph ->
  match meridian_of ph with
  | Some AM => option_map toLowerCase (marker_text ph) = Some (str "am")
  | Some PM => option_map toLowerCase (marker_text ph) = Some (str "pm")
  | None => marker_text ph = None
  end.
Proof.
  intros (_ & _ & _ & W). unfold meridian_of.
  destruct (marker_text ph) as [w | ]; [ | reflexivity].
  destruct W as [W | W].
  - rewrite W. cbn [option_map]. f_equal.
    exact (marker_lowered "a" w eq_refl W).
  - pose proof (marker_lowered "p" w eq_refl W) as E.
    destruct (reads_word (str "am") w) as [[ | x r] | ] eqn:A.
    + apply (marker_lowered "a" w eq_refl) in A. rewrite E in A. discriminate.
    + rewrite W. cbn [option_map]. f_equal. exact E.
    + rewrite W. cbn [option_map]. f_equal. exact E.
Qed.

Lemma cap_phrase (ph : phrase) :
  cap (phrase_captures ph) 1 = Some (hour_text ph) /\
  cap (phrase_captures ph) 2 = minute_text ph /\
  cap (phrase_captures ph) 3 = marker_text ph.
Proof.
  unfold phrase_captures.
  destruct (marker_text ph), (minute_text ph); repeat split; reflexivity.
Qed.

(** The time match that the script makes of a phrase. *)
Lemma time_of_phrase (ph : phrase) :
  well_formed ph ->
  time_of_match (phrase_captures ph)
  = mkTimeMatch (Int (hour_of ph)) (Int (minute_of ph))
      (option_map toLowerCase (marker_text ph)) (has_minute ph) /\
  0 <= hour_of ph <= 99 /\ 0 <= minute_of ph <= 99 /\
  truthy (option_map toLowerCase (marker_text ph)) = has_marker ph.
Proof.
  intros W. pose proof W as (Dh & Lh & Wm & Wk).
  destruct (cap_phrase ph) as (C1 & C2 & C3).
  unfold time_of_match. rewrite C1, C2, C3. cbn [parseInt_value].
  destruct (parseInt_short _ Dh Lh) as [Eh Bh]. rewrite Eh.
  unfold hour_of, minute_of, has_minute, has_marker.
  assert (K : truthy (option_map toLowerCase (marker_text ph))
              = match marker_text ph with Some _ => true | None => false end).
  { destruct (marker_text ph) as [w | ]; [ | reflexivity].
    cbn [option_map].
    destruct Wk as [Wk | Wk];
      [rewrite (marker_lowered "a" w eq_refl Wk)
      | rewrite (marker_lowered "p" w eq_refl Wk)]; reflexivity. }
  destruct (minute_text ph) as [m | ].
  - destruct Wm as [Dm Lm].
    destruct (parseInt_short m Dm ltac:(lia)) as [Em Bm].
    destruct m as [ | x m]; [discriminate | ].
    cbn [or_zero truthy]. rewrite Em. auto.
  - cbn [or_zero truthy].
    change (parseInt (str "0")) with (Int 0).
    repeat split; try assumption; lia.
Qed.

(** The normalisation of the script gives the time that the phrase
    denotes. *)
Lemma normalizeTime_phrase (ph : phrase) :
  well_formed ph ->
  normalizeTime (Int (hour_of ph)) (Int (minute_of ph))
    (option_map toLowerCase (marker_text ph))
  = clock_time ph.
Proof.
  intros W. destruct (time_of_phrase ph W) as (_ & Bh & _ & _).
  pose proof (marker_meridian ph W) as M.
  unfold normalizeTime, clock_time, num_gtb, num_ltb, num_eqb, num_rem,
    num_add, num_map2.
  destruct (Z.ltb_spec 12 (hour_of ph)).
  - destruct (Z.ltb_spec 23 (hour_of ph)).
    + rewrite Z.rem_mod_nonneg by lia. reflexivity.
    + rewrite Z.mod_small by lia. reflexivity.
  - destruct (meridian_of ph) as [[ | ] | ].
    + rewrite M.
      rewrite (bool_decide_eq_false_2
                 (Some (str "am") = Some (str "pm")) ltac:(discriminate)).
      rewrite (bool_decide_eq_true_2
                 (Some (str "am") = Some (str "am")) eq_refl).
      cbn [andb]. destruct (hour_of ph =? 12); reflexivity.
    + rewrite M.
      rewrite (bool_decide_eq_true_2
                 (Some (str "pm") = Some (str "pm")) eq_refl).
      cbn [andb].
      destruct (Z.ltb_spec (hour_of ph) 12); [reflexivity | ].
      rewrite (bool_decide_eq_false_2
                 (Some (str "pm") = Some (str "am")) ltac:(discriminate)).
      reflexivity.
    + rewrite M. cbn [option_map].
      rewrite !bool_decide_eq_false_2 by discriminate. reflexivity.
Qed.

Lemma time_match_of_phrase (ph : phrase) :
  well_formed ph ->
  let t := time_of_match (phrase_captures ph) in
  normalizeTime (tm_hours t) (tm_minutes t) (tm_meridian t) = clock_time ph /\
  keep_time t = negb (rejected ph) /\
  truthy (tm_meridian t) = has_marker ph.
Proof.
  intros W. destruct (time_of_phrase ph W) as (E & Bh & Bm & K).
  cbv zeta. rewrite E. cbn [tm_hours tm_minutes tm_meridian tm_has_minutes].
  split; [exact (normalizeTime_phrase ph W) | ]. split; [ | exact K].
  unfold keep_time, rejected.
  cbn [tm_hours tm_minutes tm_meridian tm_has_minutes].
  rewrite K. unfold num_gtb, num_ltb.
  destruct (23 <? hour_of ph), (has_marker ph), (has_minute ph); reflexivity.
Qed.

Lemma filter_times (l : list phrase) :
  Forall well_formed l ->
  List.filter keep_time (map (fun ph => time_of_match (phrase_captures ph)) l)
  = map (fun ph => time_of_match (phrase_captures ph))
      (List.filter (fun ph => negb (rejected ph)) l) /\
  List.filter (fun t => truthy (tm_meridian t))
    (map (fun ph => time_of_match (phrase_captures ph)) l)
  = map (fun ph => time_of_match (phrase_captures ph))
      (List.filter has_marker l).
Proof.
  induction 1 as [ | ph l W F [IH1 IH2]]; [split; reflexivity | ].
  destruct (time_match_of_phrase ph W) as (_ & K & T). cbv zeta in K, T.
  cbn [map List.filter]. rewrite K, T, IH1, IH2.
  destruct (negb (rejected ph)), (has_marker ph); split; reflexivity.
Qed.

Lemma find_head {A : Type} (f : A -> bool) (l : list A) :
  find f l = head (List.filter f l).
Proof.
  induction l as [ | x l IH]; simpl; [reflexivity | ].
  destruct (f x); [reflexivity | exact IH].
Qed.

(** The time [parseTime] returns is the time that the phrase chosen in
    the text denotes, the keyword of a proximity match being read letter
    by letter. *)
Lemma parseTime_selected (text : list ascii) :
  parseTime text = option_map clock_time (selected false text).
Proof.
  unfold parseTime, selected. rewrite exec_keyword.
  destruct (proximity false None text) as [ph | ] eqn:P.
  - apply proximity_well_formed in P.
    destruct (time_match_of_phrase ph P) as (E & _). cbv zeta in E.
    cbn [option_map]. f_equal. exact E.
  - cbn [option_map]. unfold scan_times, scan_choice.
    rewrite exec_all_occurrences by lia. rewrite map_map.
    pose proof (occurrences_well_formed text 0 None) as F.
    destruct (filter_times _ F) as [E1 _]. rewrite E1.
    set (remaining := List.filter (fun ph => negb (rejected ph)) _).
    assert (R : Forall (fun ph => well_formed ph /\ rejected ph = false)
                  remaining).
    { apply List.Forall_forall. intros ph I. apply List.filter_In in I.
      destruct I as [I N]. split.
      - exact (proj1 (List.Forall_forall _ _) F ph I).
      - apply negb_true_iff. exact N. }
    assert (F' : Forall well_formed remaining)
      by (revert R; apply List.Forall_impl; intros ? [? _]; assumption).
    destruct (filter_times _ F') as [_ E2]. rewrite E2.
    rewrite find_head.
    destruct remaining as [ | ph0 rem]; [reflexivity | ].
    cbn [map].
    destruct (List.filter has_marker (ph0 :: rem)) as [ | ph l] eqn:M.
    + cbn [map head]. inversion R as [ | ? ? [W0 N0] _]; subst.
      simpl in M. destruct (has_marker ph0) eqn:K0; [discriminate | ].
      unfold rejected in N0. rewrite K0 in N0.
      apply orb_false_iff in N0. destruct N0 as [_ N0].
      rewrite andb_true_r in N0. apply negb_false_iff in N0.
      cbn [find]. rewrite N0. cbn [option_map]. f_equal.
      exact (proj1 (time_match_of_phrase ph0 W0)).
    + cbn [map head option_map]. f_equal.
      assert (I : In ph (List.filter has_marker (ph0 :: rem)))
        by (rewrite M; left; reflexivity).
      apply List.filter_In in I. destruct I as [I _].
      exact (proj1 (time_match_of_phrase ph
                      (proj1 (List.Forall_forall _ _) F' ph I))).
Qed.

(** *** Bare numbers *)

Lemma digit_not_keyword (c : ascii) (s : list ascii) :
  is_digit c = true -> after_keyword (c :: s) = None.
Proof.
  intros H.
  assert (H0 : forallb (fun c => implb (is_digit c)
                 (negb (Ascii.eqb (fold_case c) "a") &&
                  negb (Ascii.eqb (fold_case c) "u") &&
                  negb (Ascii.eqb (fold_case c) "b"))) all_ascii = true)
    by (vm_compute; reflexivity).
  pose proof (forall_ascii _ H0 c) as G. cbv beta in G.
  rewrite H in G. simpl in G.
  repeat (apply andb_true_iff in G; destruct G as [G ?]).
  repeat match goal with
         | X : negb _ = true |- _ => apply negb_true_iff in X
         end.
  unfold after_keyword, read_keyword.
  cbn [reads_word str list_ascii_of_string].
  rewrite G, H1, H2. reflexivity.
Qed.

Lemma digits_no_proximity (b : bool) (s : list ascii) :
  all_digits s -> forall p, proximity b p s = None.
Proof.
  unfold all_digits. induction s as [ | c s IH]; intros D p; cbn [proximity].
  - destruct (b && is_word p); reflexivity.
  - simpl in D. apply andb_true_iff in D. destruct D as [Dc D].
    rewrite (digit_not_keyword c s Dc).
    destruct (b && is_word p); exact (IH D (Some c)).
Qed.

Lemma digits_phrase (s : list ascii) ph r :
  all_digits s -> phrase_at s = Some (ph, r) -> bare ph.
Proof.
  unfold all_digits, phrase_at. intros D.
  destruct (read_hour s) as [[h r0] | ] eqn:Eh; [ | discriminate].
  assert (D0 : forallb is_digit r0 = true).
  { destruct s as [ | a [ | b s]]; cbn [read_hour] in Eh; [discriminate | | ].
    - destruct (is_digit a); [ | discriminate]. injection Eh as <- <-.
      reflexivity.
    - simpl in D. destruct (is_digit a); [ | discriminate].
      destruct (is_digit b) eqn:Db; injection Eh as <- <-; simpl in D |- *;
        [exact D | rewrite Db; exact D]. }
  destruct r0 as [ | d r0].
  - cbn [read_minute]. destruct (read_tail []) as [[mk r'] | ] eqn:Et;
      [ | discriminate].
    vm_compute in Et. injection Et as <- <-. intros [= <- <-].
    split; reflexivity.
  - simpl in D0. apply andb_true_iff in D0. destruct D0 as [Dd _].
    rewrite (read_minute_digit d r0 Dd), (read_tail_digit d r0 Dd).
    discriminate.
Qed.

Lemma digits_occurrences (s : list ascii) :
  all_digits s -> forall skip p, Forall bare (occurrences skip p s).
Proof.
  unfold all_digits. induction s as [ | c s IH]; intros D skip p;
    cbn [occurrences]; [constructor | ].
  pose proof D as D'. simpl in D'. apply andb_true_iff in D'.
  destruct D' as [_ Ds].
  destruct skip as [ | n]; [ | exact (IH Ds n (Some c))].
  destruct (if is_word p then None else phrase_at (c :: s))
    as [[ph r] | ] eqn:E; [ | exact (IH Ds 0%nat (Some c))].
  constructor; [ | apply (IH Ds)].
  destruct (is_word p); [discriminate | ].
  exact (digits_phrase _ _ _ D E).
Qed.

(** When every occurrence is a bare hour, the scan chooses nothing. *)
Lemma bare_hours_rejected (l : list phrase) :
  Forall bare l -> List.filter (fun ph => negb (rejected ph)) l = [].
Proof.
  induction 1 as [ | ph l [M K] _ IH]; [reflexivity | ].
  cbn [List.filter]. unfold rejected. rewrite M, K, orb_true_r. exact IH.
Qed.

(** *** The keyword as a word *)

Lemma proximity_whole_word (s : list ascii) :
  forall p, keyword_in_word p s = false ->
    proximity false p s = proximity true p s.
Proof.
  induction s as [ | c s IH]; intros p H; cbn [keyword_in_word] in H;
    apply orb_false_iff in H; destruct H as [H1 H2];
    cbn [proximity andb].
  - destruct (is_word p); [ | reflexivity].
    destruct (after_keyword []); [discriminate | reflexivity].
  - destruct (is_word p).
    + destruct (after_keyword (c :: s)); [discriminate | ].
      exact (IH (Some c) H2).
    + destruct (after_keyword (c :: s)); [reflexivity | ].
      exact (IH (Some c) H2).
Qed.

(** ** Time normalisation *)

(** C3. Time normalisation, for the time phrase that [parseTime] matches
    in any text (its marker read in any case): an hour above 12 is read
    on the 24-hour clock whatever meridian marker is attached to it;
    otherwise [pm] adds 12 to an hour below 12, [am] turns 12 into 0, and
    any other hour is kept.  A text whose numbers are all bare hours, as
    a text made of digits alone, gives no time.  So "17:00 pm", "5 pm"
    and "5 PM" all give 17:00, and a bare "5" gives no time. *)
Theorem C3_time_normalization :
  (forall text ph, selected false text = Some ph ->
     (12 < hour_of ph ->
      parseTime text
      = Some (mkTime (Int (if 23 <? hour_of ph then hour_of ph mod 24
                           else hour_of ph))
                     (Int (minute_of ph)))) /\
     (hour_of ph < 12 -> meridian_of ph = Some PM ->
      parseTime text
      = Some (mkTime (Int (hour_of ph + 12)) (Int (minute_of ph)))) /\
     (hour_of ph = 12 -> meridian_of ph = Some AM ->
      parseTime text = Some (mkTime (Int 0) (Int (minute_of ph)))) /\
     (hour_of ph <= 12 ->
      (meridian_of ph = Some PM -> hour_of ph = 12) ->
      (meridian_of ph = Some AM -> hour_of ph < 12) ->
      parseTime text
      = Some (mkTime (Int (hour_of ph)) (Int (minute_of ph))))) /\
  (forall text,
     proximity false None text = None ->
     Forall bare (occurrences 0 None text) ->
     parseTime text = None) /\
  (forall text, all_digits text -> parseTime text = None) /\
  (forall h m mer, 12 < h ->
     normalizeTime (Int h) m mer = normalizeTime (Int h) m None /\
     (h <= 23 -> normalizeTime (Int h) m mer = mkTime (Int h) m)) /\
  (forall h m, h < 12 ->
     normalizeTime (Int h) m (Some (str "pm")) = mkTime (Int (h + 12)) m) /\
  (forall m, normalizeTime (Int 12) m (Some (str "am")) = mkTime (Int 0) m) /\
  (forall h m mer, h <= 12 ->
     (mer = Some (str "pm") -> h = 12) ->
     (mer = Some (str "am") -> h < 12) ->
     normalizeTime (Int h) m mer = mkTime (Int h) m) /\
  parseTime (str "17:00 pm") = Some (mkTime (Int 17) (Int 0)) /\
  parseTime (str "5 pm") = Some (mkTime (Int 17) (Int 0)) /\
  parseTime (str "5 PM") = Some (mkTime (Int 17) (Int 0)) /\
  parseTime (str "12:30 Am") = Some (mkTime (Int 0) (Int 30)) /\
  parseTime (str "5") = None.
Proof.
  assert (Scan : forall text,
            proximity false None text = None ->
            Forall bare (occurrences 0 None text) ->
            parseTime text = None).
  { intros text P B. rewrite parseTime_selected. unfold selected, scan_choice.
    rewrite P, (bare_hours_rejected _ B). reflexivity. }
  split; [ | split; [exact Scan | split;
    [ | split; [ | split; [ | split; [ | split]]]]]].
  - intros text ph S. rewrite parseTime_selected, S. cbn [option_map].
    unfold clock_time.
    split; [ | split; [ | split]].
    + intros H. destruct (Z.ltb_spec 12 (hour_of ph)); [ | lia].
      destruct (Z.ltb_spec 23 (hour_of ph)); [reflexivity | ].
      assert (0 <= hour_of ph) by lia.
      rewrite Z.mod_small by lia. reflexivity.
    + intros H M. rewrite M.
      destruct (Z.ltb_spec 12 (hour_of ph)); [lia | ].
      destruct (Z.ltb_spec (hour_of ph) 12); [reflexivity | lia].
    + intros H M. rewrite M, H. reflexivity.
    + intros H Hpm Ham.
      destruct (Z.ltb_spec 12 (hour_of ph)); [lia | ].
      destruct (meridian_of ph) as [[ | ] | ]; [ | | reflexivity].
      * specialize (Ham eq_refl).
        destruct (Z.eqb_spec (hour_of ph) 12); [lia | reflexivity].
      * specialize (Hpm eq_refl).
        destruct (Z.ltb_spec (hour_of ph) 12); [lia | reflexivity].
  - intros text D. apply Scan.
    + exact (digits_no_proximity false text D None).
    + exact (digits_occurrences text D 0%nat None).
  - intros h m mer H. unfold normalizeTime, num_gtb, num_ltb.
    destruct (Z.ltb_spec 12 h); [ | lia].
    split; [reflexivity | ]. intros H23.
    destruct (Z.ltb_spec 23 h); [lia | reflexivity].
  - intros h m H. unfold normalizeTime, num_gtb, num_ltb.
    destruct (Z.ltb_spec 12 h); [lia | ].
    rewrite bool_decide_eq_true_2 by reflexivity.
    destruct (Z.ltb_spec h 12); [reflexivity | lia].
  - intros m. reflexivity.
  - intros h m mer H Hpm Ham. unfold normalizeTime, num_gtb, num_ltb, num_eqb.
    destruct (Z.ltb_spec 12 h); [lia | ].
    destruct (decide (mer = Some (str "pm"))) as [Epm | Npm].
    + rewrite (bool_decide_eq_true_2 _ Epm).
      destruct (Z.ltb_spec h 12); [specialize (Hpm Epm); lia | ].
      rewrite bool_decide_eq_false_2 by (rewrite Epm; discriminate).
      reflexivity.
    + rewrite (bool_decide_eq_false_2 _ Npm). cbn [andb].
      destruct (decide (mer = Some (str "am"))) as [Eam | Nam].
      * rewrite (bool_decide_eq_true_2 _ Eam).
        destruct (Z.eqb_spec h 12); [specialize (Ham Eam); lia | reflexivity].
      * rewrite (bool_decide_eq_false_2 _ Nam). reflexivity.
  - repeat split; vm_compute; reflexivity.
Qed.

Lemma C3_time_normalization_witness :
  selected false (str "Ends 5:30 PM")
  = Some (mkPhrase (str "5") (Some (str "30")) (Some (str "PM"))) /\
  parseTime (str "Ends 5:30 PM") = Some (mkTime (Int 17) (Int 30)) /\
  normalizeTime (Int 7) (Int 30) (Some (str "am")) = mkTime (Int 7) (Int 30).
Proof.
  split; [vm_compute; reflexivity | ]. split.
  - apply (proj1 (proj2 (proj1 C3_time_normalization (str "Ends 5:30 PM")
                           (mkPhrase (str "5") (Some (str "30"))
                                     (Some (str "PM")))
                           ltac:(vm_compute; reflexivity))));
      vm_compute; reflexivity.
  - apply (proj1 (proj2 (proj2 (proj2 (proj2 (proj2 (proj2
             C3_time_normalization)))))) 7 (Int 30) (Some (str "am")));
      [lia | discriminate | lia].
Defined.

(** ** The choice of a time *)

(** C6. The choice of a time, against the specification.  [parseTime]
    returns the time of the phrase chosen as specified: the first phrase
    that follows at, until or by and white space, and otherwise, among
    all the occurrences of the block that are neither above 23 hours nor
    bare hours, the first with a meridian marker, or else the first with
    minutes; the scan of the script sees all the occurrences, whatever
    bound above the length of the text it is given.  But the script reads
    the keyword letter by letter, inside a word too.  It agrees with the
    specification, where the keyword is a word, on every text in which no
    keyword before a time is glued to a word character; on "Note that 5
    students; submit by 11:59 PM" it returns 5:00, for the "at" of
    "that", where the specification chooses 23:59. *)
Theorem C6_time_selection :
  (forall text, parseTime text = option_map clock_time (selected false text)) /\
  (forall text fuel, (length text < fuel)%nat ->
     exec_all fuel TIME_PATTERN None text
     = map phrase_captures (occurrences 0 None text)) /\
  (forall text, keyword_in_word None text = false ->
     parseTime text = option_map clock_time (selected true text)) /\
  parseTime (str "Note that 5 students; submit by 11:59 PM")
  = Some (mkTime (Int 5) (Int 0)) /\
  option_map clock_time
    (selected true (str "Note that 5 students; submit by 11:59 PM"))
  = Some (mkTime (Int 23) (Int 59)).
Proof.
  split; [exact parseTime_selected | ].
  split; [intros text fuel L; apply exec_all_occurrences; exact L | ].
  split; [ | split; vm_compute; reflexivity].
  intros text H. rewrite parseTime_selected. unfold selected.
  rewrite (proximity_whole_word text None H). reflexivity.
Qed.

Lemma C6_time_selection_witness :
  keyword_in_word None (str "Opens 9:30, closes 5 pm; quiz by 11:59 PM")
  = false /\
  parseTime (str "Opens 9:30, closes 5 pm; quiz by 11:59 PM")
  = Some (mkTime (Int 23) (Int 59)).
Proof.
  split; [vm_compute; reflexivity | ].
  exact (eq_trans
           (proj1 (proj2 (proj2 C6_time_selection))
              (str "Opens 9:30, closes 5 pm; quiz by 11:59 PM")
              ltac:(vm_compute; reflexivity))
           ltac:(vm_compute; reflexivity)).
Defined.

(** ** The candidate collector *)

Lemma has_true (x : list ascii) (seen : gset (list ascii)) :
  has x seen = true <-> x ∈ seen.
Proof. unfold has. apply bool_decide_eq_true. Qed.

Lemma has_false (x : list ascii) (seen : gset (list ascii)) :
  has x seen = false <-> x ∉ seen.
Proof. unfold has. apply bool_decide_eq_false. Qed.

(** One turn of the collecting loop, in terms of the text block. *)
Lemma collect_cons (e : ElementRef) (elements : list ElementRef)
    (seen : gset (list ascii)) :
  collect (e :: elements) seen
  = match block_text e with
    | Some t =>
        if has t seen then collect elements seen
        else mkCandidate e t :: collect elements ({[ t ]} ∪ seen)
    | None => collect elements seen
    end.
Proof.
  unfold block_text, rendered_text. simpl.
  destruct (isVisible e); simpl; [ | reflexivity].
  destruct (option_map trim (inner_text e)) as [t | ]; [ | reflexivity].
  unfold in_window.
  destruct (8 <=? length t)%nat eqn:E8; destruct (length t <=? 1000)%nat eqn:E1000;
    rewrite ?Nat.leb_le, ?Nat.leb_gt in *;
    destruct (length t <? 8)%nat eqn:F8; destruct (1000 <? length t)%nat eqn:F1000;
    rewrite ?Nat.ltb_lt, ?Nat.ltb_ge in *; try lia;
    simpl; rewrite ?orb_true_r; try reflexivity.
  destruct t; simpl in *; [lia | reflexivity].
Qed.

Lemma block_text_window (e : ElementRef) (t : list ascii) :
  block_text e = Some t -> (8 <= length t <= 1000)%nat.
Proof.
  unfold block_text. destruct (isVisible e); [ | discriminate].
  destruct (rendered_text e) as [t' | ]; [ | discriminate].
  destruct (in_window t') eqn:W; [ | discriminate].
  intros H. injection H as <-. unfold in_window in W.
  apply andb_true_iff in W. destruct W as [W1 W2].
  apply Nat.leb_le in W1, W2. lia.
Qed.

Lemma collect_sound (elements : list ElementRef) :
  forall seen c, c ∈ collect elements seen ->
    block_text (el c) = Some (text c) /\ (text c ∉ seen) /\
    exists before after, elements = before ++ el c :: after /\
      forall e, e ∈ before -> block_text e <> Some (text c).
Proof.
  induction elements as [ | e elements IH]; intros seen c I.
  - simpl in I. inversion I.
  - rewrite collect_cons in I.
    assert (Later : forall seen', c ∈ collect elements seen' ->
              (block_text e = Some (text c) -> text c ∈ seen') ->
              seen ⊆ seen' ->
              block_text (el c) = Some (text c) /\ (text c ∉ seen) /\
              exists before after, e :: elements = before ++ el c :: after /\
                forall e0, e0 ∈ before -> block_text e0 <> Some (text c)).
    { intros seen' I' First Sub.
      destruct (IH _ _ I') as (B & N & before & after & -> & F).
      split; [exact B | ]. split; [set_solver | ].
      exists (e :: before), after. split; [reflexivity | ].
      intros e0 I0. apply elem_of_cons in I0. destruct I0 as [-> | I0].
      - intros Eq. apply N, First, Eq.
      - apply F, I0. }
    destruct (block_text e) as [t | ] eqn:B.
    + destruct (has t seen) eqn:H.
      * apply has_true in H. apply (Later seen I); [ | set_solver].
        intros Eq. injection Eq as <-. exact H.
      * apply has_false in H. apply elem_of_cons in I.
        destruct I as [-> | I].
        -- simpl. split; [exact B | ]. split; [exact H | ].
           exists [], elements. split; [reflexivity | ].
           intros e0 I0. inversion I0.
        -- apply (Later _ I); [ | set_solver].
           intros Eq. injection Eq as <-. set_solver.
    + apply (Later seen I); [discriminate | set_solver].
Qed.

Lemma collect_NoDup (elements : list ElementRef) :
  forall seen, NoDup (map text (collect elements seen)).
Proof.
  induction elements as [ | e elements IH]; intros seen.
  - simpl. constructor.
  - rewrite collect_cons. destruct (block_text e) as [t | ]; [ | apply IH].
    destruct (has t seen); [apply IH | ].
    simpl. constructor; [ | apply IH].
    intros I. apply list_elem_of_fmap in I. destruct I as (c & E & I).
    apply collect_sound in I. destruct I as (_ & N & _).
    apply N. rewrite <- E. set_solver.
Qed.

Lemma collect_complete (elements : list ElementRef) :
  forall seen e t, e ∈ elements -> block_text e = Some t ->
    t ∈ seen \/ exists c, c ∈ collect elements seen /\ text c = t.
Proof.
  induction elements as [ | e0 elements IH]; intros seen e t I B.
  - inversion I.
  - rewrite collect_cons. apply elem_of_cons in I. destruct I as [-> | I].
    + rewrite B. destruct (has t seen) eqn:H.
      * left. apply has_true, H.
      * right. exists (mkCandidate e0 t). split; [left | reflexivity].
    + destruct (block_text e0) as [t0 | ] eqn:B0.
      * destruct (has t0 seen) eqn:H.
        -- apply (IH seen e t I B).
        -- destruct (IH ({[ t0 ]} ∪ seen) e t I B) as [S | (c & Ic & Ec)].
           ++ apply elem_of_union in S. destruct S as [S | S]; [ | left; exact S].
              apply elem_of_singleton in S. subst t0.
              right. exists (mkCandidate e0 t). split; [left | reflexivity].
           ++ right. exists c. split; [right; exact Ic | exact Ec].
      * apply (IH seen e t I B).
Qed.

Lemma collect_sublist (elements : list ElementRef) :
  forall seen, sublist (map el (collect elements seen)) elements.
Proof.
  induction elements as [ | e elements IH]; intros seen.
  - simpl. constructor.
  - rewrite collect_cons. destruct (block_text e) as [t | ].
    + destruct (has t seen).
      * apply sublist_cons, IH.
      * simpl. apply sublist_skip, IH.
    + apply sublist_cons, IH.
Qed.

(** C8. Every text block the collector produces is the trimmed text of a
    visible element and has between 8 and 1000 characters; no two blocks
    have the same text; the element kept for a text is the first one, in
    traversal order, that shows it; every such text is represented; and
    the blocks come in traversal order. *)
Theorem C8_candidate_window_and_duplicates (doc : Document) :
  (forall c, c ∈ findCandidateElements doc ->
     (8 <= length (text c) <= 1000)%nat /\
     block_text (el c) = Some (text c) /\
     exists before after,
       all_elements doc = before ++ el c :: after /\
       forall e, e ∈ before -> block_text e <> Some (text c)) /\
  NoDup (map text (findCandidateElements doc)) /\
  (forall e t, e ∈ all_elements doc -> block_text e = Some t ->
     exists c, c ∈ findCandidateElements doc /\ text c = t) /\
  sublist (map el (findCandidateElements doc)) (all_elements doc).
Proof.
  unfold findCandidateElements.
  split; [ | split; [ | split]].
  - intros c I. apply collect_sound in I. destruct I as (B & _ & F).
    split; [eapply block_text_window; exact B | ]. split; [exact B | exact F].
  - apply collect_NoDup.
  - intros e t I B.
    destruct (collect_complete _ ∅ e t I B) as [S | C]; [set_solver | exact C].
  - apply collect_sublist.
Qed.

Lemma C8_candidate_window_and_duplicates_witness :
  match findCandidateElements sample_document with
  | c :: _ =>
      (8 <= length (text c) <= 1000)%nat /\
      block_text (el c) = Some (text c)
  | [] => False
  end.
Proof.
  destruct (findCandidateElements sample_document) as [ | c cs] eqn:E.
  - vm_compute in E. discriminate E.
  - destruct (proj1 (C8_candidate_window_and_duplicates sample_document) c)
      as (W & B & _).
    + rewrite E. left.
    + split; [exact W | exact B].
Defined.

(** ** Deduplication *)

Lemma split_at_first {A : Type} (x : A) (l1 : list A) :
  forall l2 r1 r2,
    l1 ++ x :: r1 = l2 ++ x :: r2 -> x ∉ l1 -> x ∉ l2 ->
    l1 = l2 /\ r1 = r2.
Proof.
  induction l1 as [ | a l1 IH]; intros [ | b l2] r1 r2 E N1 N2; simpl in E.
  - injection E as E. auto.
  - injection E as E _. subst b. exfalso. apply N2. left.
  - injection E as E _. subst a. exfalso. apply N1. left.
  - injection E as E1 E2. subst b.
    destruct (IH l2 r1 r2 E2) as [-> ->].
    + intros I. apply N1. right. exact I.
    + intros I. apply N2. right. exact I.
    + auto.
Qed.

(** The key separates the title from a due date without underscores. *)
Lemma dedup_key_inj (t1 d1 t2 d2 : list ascii) :
  underscore ∉ d1 -> underscore ∉ d2 ->
  dedup_key t1 d1 = dedup_key t2 d2 -> t1 = t2 /\ d1 = d2.
Proof.
  intros N1 N2 E. unfold dedup_key in E.
  apply (f_equal (@rev ascii)) in E.
  rewrite !rev_app_distr in E. simpl in E. rewrite <- !app_assoc in E.
  simpl in E.
  apply (split_at_first underscore) in E.
  - destruct E as [E1 E2]. injection E2 as E2.
    apply (f_equal (@rev ascii)) in E1, E2.
    rewrite !rev_involutive in E1, E2. auto.
  - rewrite list_elem_of_In, <- in_rev, <- list_elem_of_In. exact N1.
  - rewrite list_elem_of_In, <- in_rev, <- list_elem_of_In. exact N2.
Qed.

Lemma digit_char_not_underscore (k : Z) :
  0 <= k <= 9 -> digit_char k <> underscore.
Proof.
  intros H.
  assert (C : k = 0 \/ k = 1 \/ k = 2 \/ k = 3 \/ k = 4 \/ k = 5 \/ k = 6 \/
              k = 7 \/ k = 8 \/ k = 9) by lia.
  repeat (destruct C as [-> | C]; [discriminate | ]). subst. discriminate.
Qed.

Lemma pad_no_underscore (w : nat) : forall n, underscore ∉ pad w n.
Proof.
  induction w as [ | w IH]; intros n; simpl.
  - apply not_elem_of_nil.
  - intros I. apply elem_of_app in I. destruct I as [I | I].
    + exact (IH _ I).
    + apply list_elem_of_singleton in I.
      symmetry in I. revert I. apply digit_char_not_underscore.
      pose proof (Z.mod_pos_bound n 10). lia.
Qed.

Lemma no_underscore_app (a b : list ascii) :
  underscore ∉ a -> underscore ∉ b -> underscore ∉ a ++ b.
Proof.
  intros Na Nb I. apply elem_of_app in I. destruct I as [I | I]; auto.
Qed.

Lemma no_underscore_char (c : ascii) :
  c <> underscore -> underscore ∉ [c].
Proof.
  intros N I. apply list_elem_of_singleton in I. congruence.
Qed.

Lemma iso_year_no_underscore (y : Z) : underscore ∉ iso_year y.
Proof.
  unfold iso_year.
  destruct ((0 <=? y) && (y <=? 9999)); [apply pad_no_underscore | ].
  apply no_underscore_app; [ | apply pad_no_underscore].
  destruct (y <? 0); apply no_underscore_char; discriminate.
Qed.

Lemma toISOString_no_underscore (d : Date) (s : list ascii) :
  toISOString d = Ok s -> underscore ∉ s.
Proof.
  destruct d as [t | ]; unfold toISOString; [ | discriminate].
  intros H.
  apply (f_equal (fun r => match r with Ok x => x | Throw _ => s end)) in H.
  cbv beta iota in H. subst s.
  unfold str. cbn [list_ascii_of_string].
  repeat first [ apply iso_year_no_underscore
               | apply pad_no_underscore
               | apply no_underscore_char; discriminate
               | apply no_underscore_app ].
Qed.

Lemma parsed_no_underscore tz now text s :
  parseDateTimeFromText tz now text = Ok (Some s) -> underscore ∉ s.
Proof.
  unfold parseDateTimeFromText.
  destruct (parseDate tz now text) as [[date | ] | ]; simpl; try discriminate.
  destruct (toISOString _) as [s' | ] eqn:E; simpl; [ | discriminate].
  intros H. injection H as <-. eapply toISOString_no_underscore, E.
Qed.

(** One turn of the scrape loop, in terms of what the candidate yields. *)
Lemma scrape_loop_cons tz doc nc candidates seen :
  scrape_loop tz doc (nc :: candidates) seen
  = match candidate_task tz doc nc with
    | Throw e => Throw e
    | Ok None => scrape_loop tz doc candidates seen
    | Ok (Some t) =>
        if has (dedup_key (title t) (dueDate t)) seen
        then scrape_loop tz doc candidates seen
        else
          do results <-
            scrape_loop tz doc candidates
              ({[ dedup_key (title t) (dueDate t) ]} ∪ seen);
          Ok (t :: results)
    end.
Proof.
  destruct nc as [now c]. unfold candidate_task. simpl.
  destruct (test DUE_KEYWORDS (text c)); simpl; [ | reflexivity].
  destruct (parseDateTimeFromText tz now (text c)) as [[[ | ch s] | ] | e];
    reflexivity.
Qed.

Lemma candidate_task_no_underscore tz doc nc t :
  candidate_task tz doc nc = Ok (Some t) -> underscore ∉ dueDate t.
Proof.
  destruct nc as [now c]. unfold candidate_task.
  destruct (test DUE_KEYWORDS (text c)); [ | discriminate].
  destruct (parseDateTimeFromText tz now (text c)) as [[[ | ch s] | ] | e] eqn:E;
    simpl; try discriminate.
  intros H. injection H as <-. simpl.
  eapply parsed_no_underscore, E.
Qed.

Lemma seen_agree_add seen pairs t d :
  seen_agree seen pairs -> underscore ∉ d ->
  seen_agree ({[ dedup_key t d ]} ∪ seen) ((t, d) :: pairs).
Proof.
  intros A N t' d' N'. rewrite elem_of_union, elem_of_singleton, elem_of_cons.
  rewrite (A t' d' N'). split; intros [E | I]; auto; left.
  - apply dedup_key_inj in E; [ | assumption | assumption].
    destruct E as [-> ->]. reflexivity.
  - injection E as -> ->. reflexivity.
Qed.

(** The loop returns the first occurrences of the tasks its candidates
    yield, unless one of them throws. *)
Lemma scrape_loop_spec tz doc candidates :
  forall seen pairs, seen_agree seen pairs ->
    match scrape_loop tz doc candidates seen with
    | Ok results =>
        results
        = first_by_pair pairs (omap (surviving_task tz doc) candidates) /\
        forall nc, nc ∈ candidates -> exists o, candidate_task tz doc nc = Ok o
    | Throw _ =>
        exists nc e, nc ∈ candidates /\ candidate_task tz doc nc = Throw e
    end.
Proof.
  induction candidates as [ | nc candidates IH]; intros seen pairs A.
  - simpl. split; [reflexivity | ]. intros nc I. inversion I.
  - rewrite scrape_loop_cons. simpl omap. unfold surviving_task at 1.
    assert (Tail : forall seen' pairs', seen_agree seen' pairs' ->
              (exists o, candidate_task tz doc nc = Ok o) ->
              forall f : list ScrapedTask -> list ScrapedTask,
              match
                do results <- scrape_loop tz doc candidates seen'; Ok (f results)
              with
              | Ok results =>
                  results
                  = f (first_by_pair pairs'
                         (omap (surviving_task tz doc) candidates)) /\
                  forall nc0, nc0 ∈ nc :: candidates ->
                    exists o0, candidate_task tz doc nc0 = Ok o0
              | Throw _ =>
                  exists nc0 e, nc0 ∈ nc :: candidates /\
                    candidate_task tz doc nc0 = Throw e
              end).
    { intros seen' pairs' A' Eo f. specialize (IH seen' pairs' A').
      destruct (scrape_loop tz doc candidates seen') as [r | e]; simpl.
      - destruct IH as [-> All]. split; [reflexivity | ].
        intros nc0 I. apply elem_of_cons in I.
        destruct I as [-> | I]; [exact Eo | apply All, I].
      - destruct IH as (nc0 & e0 & I & E). exists nc0, e0.
        split; [right; exact I | exact E]. }
    assert (Same : forall r : result (list ScrapedTask),
              (do results <- r; Ok (id results)) = r)
      by (intros [r | e]; reflexivity).
    destruct (candidate_task tz doc nc) as [[t | ] | e] eqn:E.
    + pose proof (candidate_task_no_underscore _ _ _ _ E) as N.
      destruct (has (dedup_key (title t) (dueDate t)) seen) eqn:H.
      * apply has_true, (A _ _ N) in H.
        cbn [first_by_pair].
        rewrite (bool_decide_eq_true_2 (task_pair t ∈ pairs) H).
        rewrite <- (Same (scrape_loop tz doc candidates seen)). apply (Tail seen pairs A ltac:(eauto) id).
      * apply has_false in H. rewrite (A _ _ N) in H.
        cbn [first_by_pair].
        rewrite (bool_decide_eq_false_2 (task_pair t ∈ pairs) H).
        apply (Tail _ (task_pair t :: pairs)
                 (seen_agree_add _ _ _ _ A N) ltac:(eauto) (cons t)).
    + rewrite <- (Same (scrape_loop tz doc candidates seen)). apply (Tail seen pairs A ltac:(eauto) id).
    + exists nc, e. split; [left | exact E].
Qed.

Lemma first_by_pair_fresh (ts : list ScrapedTask) :
  forall pairs,
    NoDup (map task_pair (first_by_pair pairs ts)) /\
    forall t, t ∈ first_by_pair pairs ts -> task_pair t ∉ pairs.
Proof.
  induction ts as [ | t ts IH]; intros pairs; simpl.
  - split; [constructor | ]. intros t I. inversion I.
  - destruct (bool_decide_reflect (task_pair t ∈ pairs)) as [I | N].
    + apply IH.
    + destruct (IH (task_pair t :: pairs)) as [ND F]. split.
      * simpl. constructor; [ | exact ND].
        intros I. apply list_elem_of_fmap in I. destruct I as (t' & E & I).
        apply F in I. apply I. rewrite E. left.
      * intros t' I. apply elem_of_cons in I. destruct I as [-> | I];
          [exact N | ].
        apply F in I. intros I'. apply I. right. exact I'.
Qed.

Lemma seen_agree_empty : seen_agree ∅ [].
Proof.
  intros t d _. split; intros I; [apply elem_of_empty in I | inversion I];
    contradiction.
Qed.

(** C5. Within one scrape pass no two returned tasks have the same
    (title, dueDate) pair; the tasks returned are the first occurrences,
    in collection order, among those the candidates yield; so of three
    candidates with one title, the first two with the same due date and
    the third with another, the first and the third are returned. *)
Theorem C5_deduplication (tz : Z) (doc : Document) (clock : nat -> Z)
    (results : list ScrapedTask) :
  scrapeTasks tz doc clock = Ok results ->
  NoDup (map task_pair results) /\
  results
  = first_by_pair [] (omap (surviving_task tz doc) (timed_candidates doc clock)) /\
  forall c1 c2 c3 t1 t2 t3,
    candidate_task tz doc c1 = Ok (Some t1) ->
    candidate_task tz doc c2 = Ok (Some t2) ->
    candidate_task tz doc c3 = Ok (Some t3) ->
    task_pair t2 = task_pair t1 ->
    title t3 = title t1 -> dueDate t3 <> dueDate t1 ->
    scrape_loop tz doc [c1; c2; c3] ∅ = Ok [t1; t3].
Proof.
  intros H. unfold scrapeTasks in H. fold (timed_candidates doc clock) in H.
  pose proof (scrape_loop_spec tz doc (timed_candidates doc clock) ∅ []
                seen_agree_empty) as S.
  rewrite H in S. destruct S as [E _].
  split; [rewrite E; apply first_by_pair_fresh | ].
  split; [exact E | ].
  intros c1 c2 c3 t1 t2 t3 E1 E2 E3 P2 T3 D3.
  pose proof (scrape_loop_spec tz doc [c1; c2; c3] ∅ [] seen_agree_empty) as S.
  destruct (scrape_loop tz doc [c1; c2; c3] ∅) as [r | e].
  - destruct S as [-> _]. f_equal. simpl omap. unfold surviving_task.
    rewrite E1, E2, E3. simpl.
    rewrite P2. rewrite bool_decide_eq_true_2 by left.
    rewrite bool_decide_eq_false_2; [reflexivity | ].
    intros I. apply list_elem_of_singleton in I.
    unfold task_pair in I. injection I as _ I. contradiction.
  - destruct S as (nc & e0 & I & E0).
    repeat (apply elem_of_cons in I; destruct I as [-> | I]; [congruence | ]).
    inversion I.
Qed.

Lemma C5_deduplication_witness :
  NoDup (map task_pair sample_tasks) /\
  sample_tasks
  = first_by_pair []
      (omap (surviving_task 0 sample_document)
            (timed_candidates sample_document (fun _ => 0))).
Proof.
  destruct (C5_deduplication 0 sample_document (fun _ => 0) sample_tasks)
    as (N & E & _).
  - vm_compute. reflexivity.
  - split; [exact N | exact E].
Defined.

(** ** No date out of range *)

Lemma year_bounded (d : Z) :
  365 * Z.abs (YearFromDay d - 1970) <= Z.abs d + 365.
Proof.
  pose proof (YearFromDay_spec d) as S. revert S.
  generalize (YearFromDay d) as y. intros y S.
  unfold DayFromYear in S. zdiv.
Qed.

Lemma month_start_bounded (l m : Z) :
  0 <= l <= 1 -> 0 <= m <= 11 -> 0 <= month_start l m <= 335.
Proof. intros Hl Hm. month_cases m; simpl; lia. Qed.

Lemma MakeDay_bounded (y m d : Z) :
  -1 <= m <= 98 -> 0 <= d <= 100 ->
  Z.abs (MakeDay y m d) <= 366 * Z.abs (y - 1970) + 4000.
Proof.
  intros Hm Hd. unfold MakeDay.
  assert (Q : -1 <= m / 12 <= 8) by zdiv.
  assert (R : 0 <= m mod 12 <= 11) by zdiv.
  pose proof (month_start_bounded
                (if is_leap (y + m / 12) then 1 else 0) (m mod 12)
                ltac:(destruct (is_leap _); lia) R) as MS.
  revert MS. generalize (month_start (if is_leap (y + m / 12) then 1 else 0)
                           (m mod 12)) as ms.
  intros ms MS. revert Q. generalize (m / 12) as q. intros q Q.
  unfold DayFromYear. zdiv.
Qed.

Lemma TimeClip_UTC (tz local : Z) :
  Z.abs tz <= msPerDay -> Z.abs local <= reach ->
  TimeClip (UTC tz local) = Int (local - tz).
Proof.
  unfold TimeClip, UTC, maxTime, msPerDay, reach. intros Htz Hl.
  destruct (Z.leb_spec (Z.abs (local - tz)) 8640000000000000);
    [reflexivity | lia].
Qed.

(** [new Date(y, m, d)] for a year the script can come across: the
    local midnight of some day not much further from the epoch than the
    year is. *)
Lemma new_Date_value (tz y m d : Z) :
  Z.abs tz <= msPerDay ->
  Z.abs (y - 1970) <= 255000 -> -1 <= m <= 98 -> 0 <= d <= 100 ->
  exists days,
    new_Date tz (Int y) (Int m) (Int d) = Int (days * msPerDay - tz) /\
    Z.abs days <= 366 * Z.abs (y - 1970) + 4000.
Proof.
  intros Htz Hy Hm Hd. unfold new_Date.
  set (yr := if (0 <=? y) && (y <=? 99) then 1900 + y else y).
  assert (Hyr : Z.abs (yr - 1970) <= Z.abs (y - 1970)).
  { subst yr. destruct ((0 <=? y) && (y <=? 99)) eqn:E; [ | lia].
    apply andb_true_iff in E. destruct E as [E1 E2].
    apply Z.leb_le in E1, E2. lia. }
  pose proof (MakeDay_bounded yr m d Hm Hd) as B.
  exists (MakeDay yr m d). split; [ | lia].
  rewrite TimeClip_UTC; [ | assumption | ].
  - unfold MakeDate, MakeTime. f_equal. lia.
  - unfold MakeDate, MakeTime, msPerDay, reach. simpl. lia.
Qed.

Lemma in_reach_days (tz days tw : Z) :
  Z.abs days <= 96000000 -> 0 <= tw <= 2 * msPerDay ->
  Z.abs tz <= msPerDay ->
  TimeClip (UTC tz (MakeDate days tw)) = Int (MakeDate days tw - tz) /\
  in_reach tz (Int (MakeDate days tw - tz)).
Proof.
  intros Hd Htw Htz.
  assert (L : Z.abs (MakeDate days tw) <= reach)
    by (unfold MakeDate, msPerDay, reach in *; lia).
  split; [apply TimeClip_UTC; assumption | ].
  eexists. split; [reflexivity | ].
  replace (MakeDate days tw - tz + tz) with (MakeDate days tw) by lia.
  exact L.
Qed.

Lemma DateFromTime_range (t : Z) : 1 <= DateFromTime t <= 31.
Proof.
  destruct (date_of_fields t) as [_ [Hm Hd]].
  unfold days_in_month in Hd.
  remember (MonthFromTime t) as m eqn:Em. clear Em.
  destruct (is_leap (YearFromTime t)); month_cases m; lia.
Qed.

Lemma new_Date_in_reach (tz y m d : Z) :
  Z.abs tz <= msPerDay ->
  Z.abs (y - 1970) <= 255000 -> -1 <= m <= 98 -> 0 <= d <= 100 ->
  in_reach tz (new_Date tz (Int y) (Int m) (Int d)).
Proof.
  intros Htz Hy Hm Hd.
  destruct (new_Date_value tz y m d Htz Hy Hm Hd) as (days & -> & B).
  eexists. split; [reflexivity | ].
  unfold reach, msPerDay in *. lia.
Qed.

Lemma two_digits_value (w : list ascii) :
  all_digits w -> length w = 2%nat ->
  exists n, parseInt w = Int n /\ 0 <= n <= 99.
Proof. intros D L. apply hour_value; [exact D | lia]. Qed.

Lemma four_digits_value (w : list ascii) :
  all_digits w -> length w = 4%nat ->
  exists n, parseInt w = Int n /\ 0 <= n <= 9999.
Proof.
  intros D L. destruct (parseInt_digits w D) as (n & E & B).
  { destruct w; [discriminate | discriminate]. }
  exists n. split; [exact E | ]. rewrite L in B. simpl in B. lia.
Qed.

Lemma try_iso_reach (tz : Z) (text : list ascii) (d : Date) :
  Z.abs tz <= msPerDay -> try_iso tz text = Some d -> in_reach tz d.
Proof.
  intros Htz H. unfold try_iso in H.
  destruct (exec DATE_PATTERNS.iso text) as [cs | ] eqn:E; [ | discriminate].
  destruct (exec_matches _ _ _ E) as (st & st' & M).
  apply iso_captures in M.
  destruct M as (y & m & dd & -> & Dy & Ly & Dm & Lm & Dd & Ld).
  cbn [cap Nat.eqb parseInt_value] in H.
  destruct (four_digits_value y Dy Ly) as (vy & Ey & By).
  destruct (two_digits_value m Dm Lm) as (vm & Em & Bm).
  destruct (two_digits_value dd Dd Ld) as (vd & Ed & Bd).
  rewrite Ey, Em, Ed in H. cbn [num_sub num_map2] in H. injection H as <-.
  apply new_Date_in_reach; try assumption; lia.
Qed.

Lemma try_monthDayYear_reach (tz : Z) (text : list ascii) :
  Z.abs tz <= msPerDay ->
  exists od, try_monthDayYear tz text = Ok od /\
    (forall d, od = Some d -> in_reach tz d) /\
    (od = None -> exec DATE_PATTERNS.monthDayYear text = None).
Proof.
  intros Htz. unfold try_monthDayYear.
  destruct (exec DATE_PATTERNS.monthDayYear text) as [cs | ] eqn:E.
  - destruct (exec_matches _ _ _ E) as (st & st' & M).
    apply monthDayYear_captures in M.
    destruct M as (mon & day & year & -> & -> & -> & Bm & Dd & Ld & Dy & Ly).
    cbn [parseMonth_value result_bind parseInt_value].
    destruct (hour_value day Dd Ld) as (vd & -> & Bd).
    destruct (four_digits_value year Dy Ly) as (vy & -> & By).
    destruct (Z.eqb_spec (parseMonth mon) (-1)) as [F | _]; [lia | ].
    cbn [negb]. eexists. split; [reflexivity | ]. split; [ | discriminate].
    intros d H. injection H as <-.
    apply new_Date_in_reach; try assumption; lia.
  - exists None. split; [reflexivity | ]. split; [discriminate | reflexivity].
Qed.

Lemma local_year_bounded (tz now : Z) :
  Z.abs tz <= msPerDay -> Z.abs now <= clock_bound ->
  Z.abs (YearFromTime (LocalTime tz now) - 1970) <= 253700.
Proof.
  intros Htz Hnow. unfold YearFromTime.
  pose proof (year_bounded (Day (LocalTime tz now))) as Y.
  assert (D : Z.abs (Day (LocalTime tz now)) <= 92592600)
    by (unfold Day, LocalTime, msPerDay, clock_bound in *; zdiv).
  lia.
Qed.

Lemma Day_of_midnight (days : Z) :
  Day (days * msPerDay) = days /\ TimeWithinDay (days * msPerDay) = 0.
Proof.
  unfold Day, TimeWithinDay, msPerDay. split; zdiv.
Qed.

Lemma rolled_date_reach (tz now m vd : Z) :
  Z.abs tz <= msPerDay -> Z.abs now <= clock_bound ->
  0 <= m <= 11 -> 0 <= vd <= 99 ->
  in_reach tz
    (if num_ltb (new_Date tz (getFullYear tz (Int now)) (Int m) (Int vd)) (Int now)
     then setFullYear tz
            (new_Date tz (getFullYear tz (Int now)) (Int m) (Int vd))
            (num_add (getFullYear tz (Int now)) (Int 1))
     else new_Date tz (getFullYear tz (Int now)) (Int m) (Int vd)).
Proof.
  intros Htz Hnow Hm Hd.
  pose proof (local_year_bounded tz now Htz Hnow) as BY.
  unfold getFullYear.
  remember (YearFromTime (LocalTime tz now)) as Y eqn:EY. clear EY.
  destruct (new_Date_value tz Y m vd Htz) as (days & E & BD);
    [lia | lia | lia | ].
  rewrite E. clear E.
  destruct (num_ltb (Int (days * msPerDay - tz)) (Int now)).
  - unfold setFullYear, num_add, num_map2, LocalTime.
    replace (days * msPerDay - tz + tz) with (days * msPerDay) by lia.
    destruct (Day_of_midnight days) as [_ ET]. rewrite ET. clear ET.
    pose proof (MonthFromTime_range (days * msPerDay)) as RM.
    pose proof (DateFromTime_range (days * msPerDay)) as RD.
    remember (MonthFromTime (days * msPerDay)) as M eqn:EM. clear EM.
    remember (DateFromTime (days * msPerDay)) as D eqn:ED. clear ED.
    pose proof (MakeDay_bounded (Y + 1) M D ltac:(lia) ltac:(lia)) as B.
    destruct (in_reach_days tz (MakeDay (Y + 1) M D) 0) as [ER R];
      [lia | unfold msPerDay; lia | exact Htz | ].
    rewrite ER. exact R.
  - eexists. split; [reflexivity | ]. unfold reach, msPerDay in *. lia.
Qed.

Lemma try_monthDay_reach (tz now : Z) (text : list ascii) :
  Z.abs tz <= msPerDay -> Z.abs now <= clock_bound ->
  exists od, try_monthDay tz now text = Ok od /\
    (forall d, od = Some d -> in_reach tz d) /\
    (od = None -> exec DATE_PATTERNS.monthDay text = None).
Proof.
  intros Htz Hnow. unfold try_monthDay.
  destruct (exec DATE_PATTERNS.monthDay text) as [cs | ] eqn:E.
  - destruct (exec_matches _ _ _ E) as (st & st' & M).
    apply monthDay_captures in M.
    destruct M as (mon & day & -> & -> & Bm & Dd & Ld).
    cbn [parseMonth_value result_bind parseInt_value].
    destruct (hour_value day Dd Ld) as (vd & -> & Bd).
    destruct (Z.eqb_spec (parseMonth mon) (-1)) as [F | _]; [lia | ].
    cbn [negb]. eexists. split; [reflexivity | ]. split; [ | discriminate].
    intros d H.
    apply (f_equal (fun o => match o with Some x => x | None => d end)) in H.
    cbv beta iota in H. subst d.
    apply rolled_date_reach; assumption.
  - exists None. split; [reflexivity | ]. split; [discriminate | reflexivity].
Qed.

Lemma relative_date_reach (tz now : Z) (tomorrow : bool) :
  Z.abs tz <= msPerDay -> Z.abs now <= clock_bound ->
  in_reach tz
    (if tomorrow
     then setDate tz
            (new_Date tz (getFullYear tz (Int now)) (getMonth tz (Int now))
                         (getDate tz (Int now)))
            (num_add
               (getDate tz
                  (new_Date tz (getFullYear tz (Int now))
                     (getMonth tz (Int now)) (getDate tz (Int now))))
               (Int 1))
     else new_Date tz (getFullYear tz (Int now)) (getMonth tz (Int now))
                      (getDate tz (Int now))).
Proof.
  intros Htz Hnow.
  pose proof (local_year_bounded tz now Htz Hnow) as BY.
  pose proof (MonthFromTime_range (LocalTime tz now)) as RM.
  pose proof (DateFromTime_range (LocalTime tz now)) as RD.
  remember (new_Date tz (getFullYear tz (Int now)) (getMonth tz (Int now))
              (getDate tz (Int now))) as base eqn:EB.
  unfold getFullYear, getMonth, getDate in EB.
  destruct (new_Date_value tz (YearFromTime (LocalTime tz now))
              (MonthFromTime (LocalTime tz now))
              (DateFromTime (LocalTime tz now)) Htz) as (days & E & BD);
    [lia | lia | lia | ].
  rewrite E in EB. clear E. subst base.
  assert (BD' : Z.abs days <= 92860000) by lia. clear BD BY RM RD.
  destruct tomorrow.
  - unfold setDate, getDate, num_add, num_map2, LocalTime.
    replace (days * msPerDay - tz + tz) with (days * msPerDay) by lia.
    destruct (Day_of_midnight days) as [EDay ET]. rewrite ET. clear ET.
    pose proof (year_bounded (Day (days * msPerDay))) as BY'.
    rewrite EDay in BY'.
    pose proof (MonthFromTime_range (days * msPerDay)) as RM'.
    pose proof (DateFromTime_range (days * msPerDay)) as RD'.
    unfold YearFromTime. rewrite EDay. clear EDay.
    remember (YearFromDay days) as Y' eqn:EY'. clear EY'.
    remember (MonthFromTime (days * msPerDay)) as M' eqn:EM'. clear EM'.
    remember (DateFromTime (days * msPerDay)) as D' eqn:ED'. clear ED'.
    pose proof (MakeDay_bounded Y' M' (D' + 1) ltac:(lia) ltac:(lia)) as B.
    destruct (in_reach_days tz (MakeDay Y' M' (D' + 1)) 0) as [ER R];
      [lia | unfold msPerDay; lia | exact Htz | ].
    rewrite ER. exact R.
  - eexists. split; [reflexivity | ]. unfold reach, msPerDay in *. lia.
Qed.

Lemma try_relative_reach (tz now : Z) (text : list ascii) (d : Date) :
  Z.abs tz <= msPerDay -> Z.abs now <= clock_bound ->
  try_relative tz now text = Some d -> in_reach tz d.
Proof.
  intros Htz Hnow H. unfold try_relative in H.
  destruct (exec DATE_PATTERNS.relative (toLowerCase text)) as [cs | ];
    [ | discriminate].
  apply (f_equal (fun o => match o with Some x => x | None => d end)) in H.
  cbv beta iota in H. subst d.
  apply relative_date_reach; assumption.
Qed.

(** ** No time out of range in the hour *)

Lemma exec_all_shape (fuel : nat) :
  forall p s cs, In cs (exec_all fuel TIME_PATTERN p s) -> time_shape cs.
Proof.
  induction fuel as [ | fuel IH]; intros p s cs I; simpl in I; [contradiction | ].
  destruct (search_from TIME_PATTERN p s) as [[st' cs'] | ] eqn:E;
    [ | contradiction].
  destruct I as [<- | I]; [ | eapply IH, I].
  apply search_from_matches in E.
  destruct E as (pre & s' & w & _ & _ & _ & M).
  apply TIME_PATTERN_captures in M. apply M.
Qed.

Lemma time_of_match_bounds (cs : captures) :
  time_shape cs ->
  exists h m,
    tm_hours (time_of_match cs) = Int h /\ 0 <= h <= 99 /\
    tm_minutes (time_of_match cs) = Int m /\ 0 <= m <= 99.
Proof.
  intros ((w & C1 & D & L) & C2 & _). unfold time_of_match. simpl.
  rewrite C1. simpl. destruct (hour_value w D L) as (h & -> & Bh).
  exists h.
  destruct C2 as [-> | (wm & -> & Dm & Lm)].
  - exists 0. split; [reflexivity | ]. split; [exact Bh | ].
    split; [reflexivity | lia].
  - destruct (two_digits_value wm Dm Lm) as (m & Em & Bm).
    exists m. split; [reflexivity | ]. split; [exact Bh | ].
    split; [ | exact Bm].
    destruct wm; [discriminate | ]. cbn [or_zero]. exact Em.
Qed.

Lemma normalizeTime_bounds (h m : Z) (mer : option (list ascii)) :
  0 <= h <= 99 ->
  exists h', normalizeTime (Int h) (Int m) mer = mkTime (Int h') (Int m) /\
             0 <= h' <= 23.
Proof.
  intros H. unfold normalizeTime, num_gtb, num_ltb, num_eqb, num_rem,
    num_add, num_map2.
  destruct (Z.ltb_spec 12 h).
  - destruct (Z.ltb_spec 23 h).
    + exists (Z.rem h 24). split; [reflexivity | ].
      rewrite Z.rem_mod_nonneg by lia. pose proof (Z.mod_pos_bound h 24). lia.
    + exists h. split; [reflexivity | lia].
  - destruct (bool_decide (mer = Some (str "pm")) && (h <? 12)) eqn:P.
    + apply andb_true_iff in P. destruct P as [_ P]. apply Z.ltb_lt in P.
      exists (h + 12). split; [reflexivity | lia].
    + destruct (bool_decide (mer = Some (str "am")) && (h =? 12)).
      * exists 0. split; [reflexivity | lia].
      * exists h. split; [reflexivity | lia].
Qed.

Lemma normalized_match_bounds (cs : captures) :
  time_shape cs ->
  exists h m,
    normalizeTime (tm_hours (time_of_match cs)) (tm_minutes (time_of_match cs))
                  (tm_meridian (time_of_match cs))
    = mkTime (Int h) (Int m) /\ 0 <= h <= 23 /\ 0 <= m <= 99.
Proof.
  intros S. destruct (time_of_match_bounds cs S) as (h & m & -> & Bh & -> & Bm).
  destruct (normalizeTime_bounds h m (tm_meridian (time_of_match cs)) Bh)
    as (h' & -> & Bh').
  exists h', m. auto.
Qed.

(** Every time [parseTime] returns has its hour between 0 and 23; its
    minutes are two digits as written, up to 99. *)
Lemma parseTime_bounds (text : list ascii) (tm : ParsedTime) :
  parseTime text = Some tm ->
  exists h m, tm = mkTime (Int h) (Int m) /\ 0 <= h <= 23 /\ 0 <= m <= 99.
Proof.
  unfold parseTime.
  destruct (exec keyword_time text) as [cs | ] eqn:E.
  - intros H. injection H as <-.
    destruct (exec_matches _ _ _ E) as (st & st' & M).
    apply keyword_time_captures in M.
    exact (normalized_match_bounds cs M).
  - assert (A : forall t, In t (scan_times text) ->
                exists h m,
                  normalizeTime (tm_hours t) (tm_minutes t) (tm_meridian t)
                  = mkTime (Int h) (Int m) /\ 0 <= h <= 23 /\ 0 <= m <= 99).
    { intros t I. unfold scan_times in I. apply List.filter_In in I.
      destruct I as [I _]. apply in_map_iff in I. destruct I as (cs & <- & I).
      apply exec_all_shape in I. exact (normalized_match_bounds cs I). }
    destruct (scan_times text) as [ | t0 times] eqn:S; [discriminate | ].
    destruct (List.filter (fun t => truthy (tm_meridian t)) (t0 :: times))
      as [ | t ts] eqn:F; intros H; injection H as <-.
    + apply A. left. reflexivity.
    + apply A.
      assert (I : In t (List.filter (fun t => truthy (tm_meridian t)) (t0 :: times)))
        by (rewrite F; left; reflexivity).
      apply List.filter_In in I. apply I.
Qed.

(** C7. The range of a parsed time: the hour is always between 0 and
    23, but the minutes are only known to be two digits; "5:75" is read
    as hour 5, minute 75, on the proximity path as on the scan path, and
    layered onto the date as 06:15. *)
Theorem C7_minutes_out_of_range :
  parseTime (str "Due at 5:75") = Some (mkTime (Int 5) (Int 75)) /\
  parseTime (str "Closes 17:75") = Some (mkTime (Int 17) (Int 75)) /\
  parseDateTimeFromText 0 0 (str "Due 2026-01-26 at 5:75")
  = Ok (Some (str "2026-01-26T06:15:00.000Z")) /\
  (forall text tm, parseTime text = Some tm ->
     exists h m, tm = mkTime (Int h) (Int m) /\ 0 <= h <= 23 /\ 0 <= m <= 99).
Proof.
  split; [vm_compute; reflexivity | ].
  split; [vm_compute; reflexivity | ].
  split; [vm_compute; reflexivity | ].
  exact parseTime_bounds.
Qed.

Lemma C7_minutes_out_of_range_witness :
  exists h m,
    mkTime (Int 5) (Int 75) = mkTime (Int h) (Int m) /\
    0 <= h <= 23 /\ 0 <= m <= 99.
Proof.
  apply (proj2 (proj2 (proj2 C7_minutes_out_of_range)) (str "Due at 5:75")).
  vm_compute. reflexivity.
Defined.

(** ** The scrape never throws *)

Lemma parseDate_reach (tz now : Z) (text : list ascii) :
  Z.abs tz <= msPerDay -> Z.abs now <= clock_bound ->
  exists od, parseDate tz now text = Ok od /\
             forall d, od = Some d -> in_reach tz d.
Proof.
  intros Htz Hnow. unfold parseDate.
  destruct (try_iso tz text) as [d | ] eqn:I.
  - exists (Some d). split; [reflexivity | ]. intros d' H. injection H as <-.
    eapply try_iso_reach; eassumption.
  - destruct (try_monthDayYear_reach tz text Htz) as (o1 & -> & R1 & _).
    cbn [result_bind]. destruct o1 as [d | ].
    + exists (Some d). split; [reflexivity | exact R1].
    + destruct (try_monthDay_reach tz now text Htz Hnow) as (o2 & -> & R2 & _).
      cbn [result_bind]. destruct o2 as [d | ].
      * exists (Some d). split; [reflexivity | exact R2].
      * eexists. split; [reflexivity | ]. intros d H.
        eapply try_relative_reach; eassumption.
Qed.

Lemma setHours_valid (tz : Z) (d : Date) (h m : Z) :
  Z.abs tz <= msPerDay -> in_reach tz d ->
  0 <= h <= 23 -> 0 <= m <= 99 ->
  exists t, setHours tz d (Int h) (Int m) (Int 0) (Int 0) = Int t.
Proof.
  intros Htz (t & -> & R) Hh Hm. unfold setHours, TimeClip, UTC, LocalTime.
  eexists.
  destruct (Z.leb_spec
              (Z.abs (MakeDate (Day (t + tz)) (MakeTime h m 0 0) - tz)) maxTime)
    as [_ | F]; [reflexivity | ].
  exfalso. revert F.
  unfold MakeDate, MakeTime, Day, maxTime, reach, msPerDay, msPerHour,
    msPerMinute, msPerSecond in *.
  zdiv.
Qed.

(** Whatever the text, reading a date and time from it returns. *)
Lemma parseDateTimeFromText_returns (tz now : Z) (text : list ascii) :
  Z.abs tz <= msPerDay -> Z.abs now <= clock_bound ->
  exists r, parseDateTimeFromText tz now text = Ok r.
Proof.
  intros Htz Hnow. unfold parseDateTimeFromText.
  destruct (parseDate_reach tz now text Htz Hnow) as (od & -> & R).
  cbn [result_bind]. destruct od as [d | ]; [ | eexists; reflexivity].
  specialize (R d eq_refl).
  assert (V : exists t,
            match parseTime text with
            | Some time => setHours tz d (hours time) (minutes time) (Int 0) (Int 0)
            | None => d
            end = Int t).
  { destruct (parseTime text) as [tm | ] eqn:T.
    - apply parseTime_bounds in T. destruct T as (h & m & -> & Bh & Bm).
      apply setHours_valid; assumption.
    - destruct R as (t & -> & _). eexists. reflexivity. }
  destruct V as (t & ->). unfold toISOString. cbn [result_bind].
  eexists. reflexivity.
Qed.

Lemma dropped_yields_nothing tz doc nc :
  dropped tz nc -> candidate_task tz doc nc = Ok None.
Proof.
  destruct nc as [now c]. unfold dropped, candidate_task. simpl.
  intros [G | P].
  - rewrite G. reflexivity.
  - rewrite P. destruct (test DUE_KEYWORDS (text c)); reflexivity.
Qed.

Lemma candidate_task_returns tz doc nc :
  Z.abs tz <= msPerDay -> Z.abs (fst nc) <= clock_bound ->
  exists o, candidate_task tz doc nc = Ok o.
Proof.
  destruct nc as [now c]. simpl. intros Htz Hnow. unfold candidate_task.
  destruct (test DUE_KEYWORDS (text c)); [ | eexists; reflexivity].
  destruct (parseDateTimeFromText_returns tz now (text c) Htz Hnow) as (r & ->).
  cbn [result_bind]. destruct r as [[ | ch s] | ]; eexists; reflexivity.
Qed.

Lemma scrape_loop_skip tz doc nc post (pre : list (Z * Candidate)) :
  candidate_task tz doc nc = Ok None ->
  forall seen,
    scrape_loop tz doc (pre ++ nc :: post) seen
    = scrape_loop tz doc (pre ++ post) seen.
Proof.
  intros N. induction pre as [ | a pre IH]; intros seen.
  - simpl app. rewrite scrape_loop_cons, N. reflexivity.
  - simpl app. rewrite !scrape_loop_cons.
    destruct (candidate_task tz doc a) as [[t | ] | e]; try reflexivity;
      [ | apply IH].
    destruct (has _ seen); [apply IH | ]. rewrite IH. reflexivity.
Qed.

Lemma scrape_loop_all_dropped tz doc (candidates : list (Z * Candidate)) :
  (forall nc, nc ∈ candidates -> dropped tz nc) ->
  forall seen, scrape_loop tz doc candidates seen = Ok [].
Proof.
  induction candidates as [ | nc candidates IH]; intros D seen.
  - reflexivity.
  - rewrite scrape_loop_cons, (dropped_yields_nothing tz doc nc).
    + apply IH. intros nc' I. apply D. right. exact I.
    + apply D. left.
Qed.

Lemma timed_candidates_clock doc clock nc :
  nc ∈ timed_candidates doc clock -> exists i, fst nc = clock i.
Proof.
  unfold timed_candidates. intros I. apply list_elem_of_In in I.
  destruct nc as [now c]. apply in_combine_l in I.
  apply in_map_iff in I. destruct I as (i & <- & _). exists i. reflexivity.
Qed.

(** C9. Failures stay local: a scrape pass returns a list, whatever the
    document, as long as the clock is within some 250,000 years of the
    epoch; a candidate that fails the gate or in which no date is found
    is dropped and the pass goes on exactly as if it had not been there;
    and when every candidate is dropped the result is the empty list. *)
Theorem C9_failures_are_local (tz : Z) (doc : Document) (clock : nat -> Z) :
  (Z.abs tz <= msPerDay -> (forall i, Z.abs (clock i) <= clock_bound) ->
   exists results, scrapeTasks tz doc clock = Ok results) /\
  (forall pre nc post seen, dropped tz nc ->
     scrape_loop tz doc (pre ++ nc :: post) seen
     = scrape_loop tz doc (pre ++ post) seen) /\
  ((forall nc, nc ∈ timed_candidates doc clock -> dropped tz nc) ->
   scrapeTasks tz doc clock = Ok []).
Proof.
  split; [ | split].
  - intros Htz Hclock. unfold scrapeTasks. fold (timed_candidates doc clock).
    pose proof (scrape_loop_spec tz doc (timed_candidates doc clock) ∅ []
                  seen_agree_empty) as S.
    destruct (scrape_loop tz doc (timed_candidates doc clock) ∅) as [r | e].
    + exists r. reflexivity.
    + exfalso. destruct S as (nc & e0 & I & E).
      destruct (timed_candidates_clock _ _ _ I) as (i & Ei).
      destruct (candidate_task_returns tz doc nc Htz) as (o & Eo).
      * rewrite Ei. apply Hclock.
      * congruence.
  - intros pre nc post seen D. apply scrape_loop_skip.
    apply dropped_yields_nothing, D.
  - intros D. unfold scrapeTasks. fold (timed_candidates doc clock).
    apply scrape_loop_all_dropped, D.
Qed.

Lemma C9_failures_are_local_witness :
  exists results, scrapeTasks 0 sample_document (fun _ => 0) = Ok results.
Proof.
  apply (proj1 (C9_failures_are_local 0 sample_document (fun _ => 0))).
  - unfold msPerDay. simpl. lia.
  - intros i. unfold clock_bound. simpl. lia.
Defined.

(** ** The precedence of the date patterns *)

Lemma parseDate_first_match (tz now : Z) (text : list ascii) :
  parseDate tz now text = Ok (first_match_date tz now text).
Proof.
  unfold parseDate, first_match_date, try_iso.
  destruct (exec DATE_PATTERNS.iso text) as [cs | ]; [reflexivity | ].
  unfold try_monthDayYear.
  destruct (exec DATE_PATTERNS.monthDayYear text) as [cs | ] eqn:E1.
  - destruct (exec_matches _ _ _ E1) as (st & st' & M).
    apply monthDayYear_captures in M.
    destruct M as (mon & day & year & C1 & C2 & C3 & Bm & _).
    unfold date_of_monthDayYear. rewrite C1.
    cbn [parseMonth_value result_bind month_number].
    destruct (Z.eqb_spec (parseMonth mon) (-1)) as [F | _]; [lia | reflexivity].
  - cbn [result_bind]. unfold try_monthDay.
    destruct (exec DATE_PATTERNS.monthDay text) as [cs | ] eqn:E2.
    + destruct (exec_matches _ _ _ E2) as (st & st' & M).
      apply monthDay_captures in M.
      destruct M as (mon & day & C1 & C2 & Bm & _).
      unfold date_of_monthDay. rewrite C1.
      cbn [parseMonth_value result_bind month_number].
      destruct (Z.eqb_spec (parseMonth mon) (-1)) as [F | _];
        [lia | reflexivity].
    + cbn [result_bind]. unfold try_relative.
      destruct (exec DATE_PATTERNS.relative (toLowerCase text));
        reflexivity.
Qed.

Lemma word_after_head (pv : option ascii) (s : list ascii) :
  word_after (MState pv s) = is_word (head s).
Proof. destruct s; reflexivity. Qed.

(** The characters of [l] that come before its suffix [r]. *)
Ltac prefix_of l r :=
  lazymatch l with
  | r => constr:(@nil ascii)
  | ?c :: ?l' => let w := prefix_of l' r in constr:(c :: w)
  end.

Ltac compute_consumed :=
  repeat match goal with
         | |- context [consumed (MState ?a ?l) (MState ?b ?r)] =>
             let w := prefix_of l r in
             rewrite (consumed_app (MState a l) (MState b r) w eq_refl)
         end.

Ltac split_chars :=
  repeat match goal with
         | H : matches (Seq _ _) _ _ _ _ |- _ => invc H
         | H : matches (Group _ _) _ _ _ _ |- _ => invc H
         | H : matches (Char _) _ _ _ _ |- _ => invc H
         | H : matches WordB _ _ _ _ |- _ => invc H
         end.

Lemma boundary_before_digit (p : option ascii) (c : ascii) (s : list ascii) :
  is_digit c = true ->
  at_word_boundary (MState p (c :: s)) = negb (is_word p).
Proof.
  intros D. unfold at_word_boundary, word_before, word_after. simpl.
  rewrite (proj1 (proj2 (proj2 (digit_facts c D)))).
  unfold is_word. destruct p as [q | ]; [destruct (is_word_char q) | ];
    reflexivity.
Qed.

Lemma boundary_after_digit (c : ascii) (s : list ascii) :
  is_digit c = true ->
  at_word_boundary (MState (Some c) s) = negb (is_word (head s)).
Proof.
  intros D. unfold at_word_boundary, word_before. rewrite word_after_head.
  simpl. rewrite (proj1 (proj2 (proj2 (digit_facts c D)))).
  destruct (is_word (head s)); reflexivity.
Qed.

(** Where the ISO pattern matches there is an ISO token, and the captures
    are its three fields. *)
Lemma iso_match_token (p : option ascii) (s : list ascii) st' cs :
  match_here DATE_PATTERNS.iso (MState p s) = Some (st', cs) ->
  exists y m d, iso_token p s = Some (y, m, d) /\
                cs = [(3%nat, d); (2%nat, m); (1%nat, y)].
Proof.
  intros H. apply match_here_sound in H.
  unfold DATE_PATTERNS.iso, digits_4, digits_2, lit, digit in H.
  cbn [seqs map str list_ascii_of_string] in H.
  split_chars.
  repeat match goal with
         | H : Ascii.eqb _ _ = true |- _ => apply Ascii.eqb_eq in H; subst
         end.
  match goal with
  | H : at_word_boundary (MState _ (_ :: _)) = true |- _ =>
      rewrite boundary_before_digit in H by assumption;
      apply negb_true_iff in H; rename H into Before
  end.
  match goal with
  | H : at_word_boundary (MState (Some _) _) = true |- _ =>
      rewrite boundary_after_digit in H by assumption;
      apply negb_true_iff in H; rename H into After
  end.
  do 3 eexists. split.
  - unfold iso_token. simpl forallb.
    repeat match goal with
           | H : is_digit ?c = true |- _ => rewrite H; clear H
           end.
    rewrite Before, After. simpl. reflexivity.
  - compute_consumed. reflexivity.
Qed.

(** Conversely the ISO pattern matches at every ISO token. *)
Lemma iso_token_match (p : option ascii) (s : list ascii) y m d :
  iso_token p s = Some (y, m, d) ->
  exists st',
    match_here DATE_PATTERNS.iso (MState p s)
    = Some (st', [(3%nat, d); (2%nat, m); (1%nat, y)]).
Proof.
  unfold iso_token.
  destruct s as [ | y1 [ | y2 [ | y3 [ | y4 [ | h1 [ | m1 [ | m2 [ | h2
              [ | d1 [ | d2 post]]]]]]]]]]; try discriminate.
  destruct (forallb is_digit [y1; y2; y3; y4; m1; m2; d1; d2]
            && Ascii.eqb h1 "-" && Ascii.eqb h2 "-"
            && negb (is_word p) && negb (is_word (head post))) eqn:C;
    [ | discriminate].
  intros H. injection H as <- <- <-.
  simpl forallb in C.
  repeat match goal with
         | H : _ && _ = true |- _ => apply andb_true_iff in H; destruct H
         end.
  repeat match goal with
         | H : Ascii.eqb _ _ = true |- _ => apply Ascii.eqb_eq in H; subst
         end.
  unfold match_here, DATE_PATTERNS.iso, digits_4, digits_2, lit, digit.
  cbn [seqs map str list_ascii_of_string rmatch rest prev].
  rewrite boundary_before_digit by assumption.
  rewrite boundary_after_digit by assumption.
  repeat match goal with
         | H : is_digit ?c = true |- _ => rewrite H; clear H
         | H : negb _ = true |- _ => rewrite H; clear H
         end.
  cbn [Ascii.eqb Bool.eqb].
  compute_consumed.
  eexists. reflexivity.
Qed.

(** The search for an ISO date passes over a stretch without tokens. *)
Lemma search_iso_skip (rest : list ascii) (pre : list ascii) :
  forall p, iso_free p pre rest = true ->
    search_from DATE_PATTERNS.iso p (pre ++ rest)
    = search_from DATE_PATTERNS.iso (last_read p pre) rest.
Proof.
  induction pre as [ | a pre IH]; intros p H.
  - reflexivity.
  - cbn [iso_free] in H.
    destruct (iso_token p ((a :: pre) ++ rest)) as [tok | ] eqn:T;
      [discriminate | ].
    cbn [app search_from].
    destruct (match_here DATE_PATTERNS.iso (MState p (a :: pre ++ rest)))
      as [[st' cs] | ] eqn:M.
    + apply iso_match_token in M. destruct M as (y & m & d & T' & _).
      cbn [app] in T. rewrite T in T'. discriminate T'.
    + rewrite (IH (Some a) H), (last_read_cons p a pre). reflexivity.
Qed.

Lemma days_in_month_le (y m : Z) : days_in_month y m <= 31.
Proof.
  unfold days_in_month.
  repeat match goal with
         | |- context [match ?x with _ => _ end] => destruct x
         end; lia.
Qed.

(** The fields of [new Date(y, m, d)] for an existing date of a year from
    100 on are [y], [m] and [d]. *)
Lemma new_Date_fields (tz y m d : Z) :
  Z.abs tz <= msPerDay -> 100 <= y <= 250000 -> valid_date y m d ->
  getFullYear tz (new_Date tz (Int y) (Int m) (Int d)) = Int y /\
  getMonth tz (new_Date tz (Int y) (Int m) (Int d)) = Int m /\
  getDate tz (new_Date tz (Int y) (Int m) (Int d)) = Int d.
Proof.
  intros Htz Hy V. pose proof V as [Hm Hd].
  pose proof (days_in_month_le y m) as Hdim.
  unfold new_Date.
  replace ((0 <=? y) && (y <=? 99)) with false
    by (symmetry; apply andb_false_iff; right; apply Z.leb_gt; lia).
  pose proof (MakeDay_bounded y m d ltac:(lia) ltac:(lia)) as B.
  change (MakeTime 0 0 0 0) with 0.
  assert (L : Z.abs (MakeDate (MakeDay y m d) 0) <= reach)
    by (unfold MakeDate, msPerDay, reach; lia).
  rewrite TimeClip_UTC by assumption.
  unfold getFullYear, getMonth, getDate, LocalTime.
  replace (MakeDate (MakeDay y m d) 0 - tz + tz)
    with (MakeDate (MakeDay y m d) 0) by lia.
  destruct (fields_of_date y m d 0 V ltac:(unfold msPerDay; lia))
    as (-> & -> & -> & _).
  auto.
Qed.

(** The ISO date that the search finds is the leftmost token. *)
Lemma exec_iso_token (pre y m d post : list ascii) :
  iso_fields y m d -> delimited pre post ->
  iso_free None pre (iso_text y m d ++ post) = true ->
  exec DATE_PATTERNS.iso (pre ++ iso_text y m d ++ post)
  = Some [(3%nat, d); (2%nat, m); (1%nat, y)].
Proof.
  intros (Dy & Ly & Dm & Lm & Dd & Ld) [Before After] Left.
  unfold exec. rewrite (search_iso_skip _ _ _ Left).
  assert (T : iso_token (last_read None pre) (iso_text y m d ++ post)
              = Some (y, m, d)).
  { destruct y as [ | y1 [ | y2 [ | y3 [ | y4 [ | ]]]]]; try discriminate.
    destruct m as [ | m1 [ | m2 [ | ]]]; try discriminate.
    destruct d as [ | d1 [ | d2 [ | ]]]; try discriminate.
    unfold iso_text, iso_token. cbn [app str list_ascii_of_string].
    unfold all_digits in *. cbn [forallb] in *.
    repeat match goal with
           | H : _ && _ = true |- _ => apply andb_true_iff in H; destruct H
           end.
    repeat match goal with
           | H : is_digit ?c = true |- _ => rewrite H; clear H
           end.
    rewrite Before, After. reflexivity. }
  apply iso_token_match in T. destruct T as (st' & T).
  destruct (iso_text y m d ++ post) as [ | c s];
    cbn [search_from]; rewrite T; reflexivity.
Qed.

(** The reading of C1 in the specification does not hold: a text that
    contains a YYYY-MM-DD substring glued to a letter is not read as
    that date; the month-name date that follows is chosen. *)
Lemma C1_counterexample :
  ~ (forall tz now pre y m d post,
       iso_fields y m d ->
       parseDate tz now (pre ++ iso_text y m d ++ post)
       = Ok (Some (new_Date tz (parseInt y) (num_sub (parseInt m) (Int 1))
                                (parseInt d)))).
Proof.
  intros H.
  specialize (H 0 0 (str "x") (str "2026") (str "01") (str "26")
                (str " or Jan 5, 2027")).
  assert (F : iso_fields (str "2026") (str "01") (str "26"))
    by (repeat split; reflexivity).
  specialize (H F). vm_compute in H. discriminate H.
Qed.

(** C1, amended. The four date patterns are tried in the fixed order
    ISO, month-day-year, month-day, relative, and the first one that
    matches determines the result.  In particular, when a YYYY-MM-DD
    text stands between word boundaries and no such token starts before
    it, [parseDate] returns [new Date(YYYY, MM - 1, DD)], whatever else
    the text contains; for an existing calendar date of a year from 100
    on, that is the date with exactly these fields. *)
Theorem C1_date_precedence (tz now : Z) :
  (forall text, parseDate tz now text = Ok (first_match_date tz now text)) /\
  (forall pre y m d post,
     iso_fields y m d -> delimited pre post ->
     iso_free None pre (iso_text y m d ++ post) = true ->
     exists vy vm vd,
       parseInt y = Int vy /\ parseInt m = Int vm /\ parseInt d = Int vd /\
       parseDate tz now (pre ++ iso_text y m d ++ post)
       = Ok (Some (new_Date tz (Int vy) (Int (vm - 1)) (Int vd))) /\
       (Z.abs tz <= msPerDay -> 100 <= vy -> valid_date vy (vm - 1) vd ->
        getFullYear tz (new_Date tz (Int vy) (Int (vm - 1)) (Int vd)) = Int vy /\
        getMonth tz (new_Date tz (Int vy) (Int (vm - 1)) (Int vd))
        = Int (vm - 1) /\
        getDate tz (new_Date tz (Int vy) (Int (vm - 1)) (Int vd)) = Int vd)).
Proof.
  split; [apply parseDate_first_match | ].
  intros pre y m d post F D L.
  pose proof F as (Dy & Ly & Dm & Lm & Dd & Ld).
  destruct (four_digits_value y Dy Ly) as (vy & Ey & By).
  destruct (two_digits_value m Dm Lm) as (vm & Em & Bm).
  destruct (two_digits_value d Dd Ld) as (vd & Ed & Bd).
  exists vy, vm, vd. repeat (split; [assumption | ]). split.
  - rewrite parseDate_first_match. unfold first_match_date.
    rewrite (exec_iso_token pre y m d post F D L).
    unfold date_of_iso. cbn [cap Nat.eqb parseInt_value].
    rewrite Ey, Em, Ed. reflexivity.
  - intros Htz Hy V. apply new_Date_fields; [assumption | lia | assumption].
Qed.

Lemma C1_date_precedence_witness :
  exists vy vm vd,
    parseInt (str "2026") = Int vy /\ parseInt (str "01") = Int vm /\
    parseInt (str "26") = Int vd /\
    parseDate 0 0
      (str "Essay, due " ++ iso_text (str "2026") (str "01") (str "26")
       ++ str " (moved from Jan 5, 2027)")
    = Ok (Some (new_Date 0 (Int vy) (Int (vm - 1)) (Int vd))) /\
    (Z.abs 0 <= msPerDay -> 100 <= vy -> valid_date vy (vm - 1) vd ->
     getFullYear 0 (new_Date 0 (Int vy) (Int (vm - 1)) (Int vd)) = Int vy /\
     getMonth 0 (new_Date 0 (Int vy) (Int (vm - 1)) (Int vd)) = Int (vm - 1) /\
     getDate 0 (new_Date 0 (Int vy) (Int (vm - 1)) (Int vd)) = Int vd).
Proof.
  apply (proj2 (C1_date_precedence 0 0)).
  - repeat split; reflexivity.
  - split; reflexivity.
  - vm_compute. reflexivity.
Defined.

(** ** The year of a date without one *)

Lemma new_Date_local (tz y m d : Z) :
  Z.abs tz <= msPerDay -> 100 <= y <= 250000 -> valid_date y m d ->
  new_Date tz (Int y) (Int m) (Int d)
  = Int (MakeDate (MakeDay y m d) 0 - tz).
Proof.
  intros Htz Hy [Hm Hd].
  pose proof (days_in_month_le y m) as Hdim.
  unfold new_Date.
  replace ((0 <=? y) && (y <=? 99)) with false
    by (symmetry; apply andb_false_iff; right; apply Z.leb_gt; lia).
  pose proof (MakeDay_bounded y m d ltac:(lia) ltac:(lia)) as B.
  change (MakeTime 0 0 0 0) with 0.
  apply TimeClip_UTC; [assumption | ].
  unfold MakeDate, msPerDay, reach. lia.
Qed.

(** Setting the next year on an existing date whose day also exists next
    year gives the same day of next year. *)
Lemma setFullYear_next (tz y m d : Z) :
  Z.abs tz <= msPerDay -> 100 <= y < 250000 -> valid_date y m d ->
  setFullYear tz (new_Date tz (Int y) (Int m) (Int d)) (Int (y + 1))
  = new_Date tz (Int (y + 1)) (Int m) (Int d).
Proof.
  intros Htz Hy V.
  rewrite (new_Date_local tz y m d Htz ltac:(lia) V).
  unfold setFullYear, LocalTime.
  replace (MakeDate (MakeDay y m d) 0 - tz + tz)
    with (MakeDate (MakeDay y m d) 0) by lia.
  destruct (fields_of_date y m d 0 V ltac:(unfold msPerDay; lia))
    as (_ & -> & -> & _ & ->).
  unfold new_Date.
  replace ((0 <=? y + 1) && (y + 1 <=? 99)) with false
    by (symmetry; apply andb_false_iff; right; apply Z.leb_gt; lia).
  reflexivity.
Qed.

(** The general rule of C2: the date of a month and a day without a year
    is that day of the current year, or of the next year when its local
    midnight is strictly before now. *)
Lemma monthDay_year_rule (tz now : Z) (text : list ascii) cs mon day vd :
  Z.abs tz <= msPerDay ->
  exec DATE_PATTERNS.iso text = None ->
  exec DATE_PATTERNS.monthDayYear text = None ->
  exec DATE_PATTERNS.monthDay text = Some cs ->
  cap cs 1 = Some mon -> cap cs 2 = Some day -> parseInt day = Int vd ->
  let Y := YearFromTime (LocalTime tz now) in
  let m := parseMonth mon in
  let Y' := if MakeDate (MakeDay Y m vd) 0 <? LocalTime tz now
            then Y + 1 else Y in
  100 <= Y < 250000 -> valid_date Y m vd -> valid_date (Y + 1) m vd ->
  parseDate tz now text = Ok (Some (new_Date tz (Int Y') (Int m) (Int vd))) /\
  getFullYear tz (new_Date tz (Int Y') (Int m) (Int vd)) = Int Y' /\
  getMonth tz (new_Date tz (Int Y') (Int m) (Int vd)) = Int m /\
  getDate tz (new_Date tz (Int Y') (Int m) (Int vd)) = Int vd.
Proof.
  intros Htz E1 E2 E3 C1 C2 P Y m Y' HY V V'.
  assert (VY' : valid_date Y' m vd) by (subst Y'; destruct (_ <? _); assumption).
  assert (HY' : 100 <= Y' <= 250000) by (subst Y'; destruct (_ <? _); lia).
  split; [ | apply new_Date_fields; assumption].
  rewrite parseDate_first_match. unfold first_match_date.
  rewrite E1, E2, E3. unfold date_of_monthDay.
  rewrite C1, C2. cbn [month_number parseInt_value]. rewrite P.
  unfold getFullYear. fold Y. fold m.
  rewrite (new_Date_local tz Y m vd Htz ltac:(lia) V).
  unfold num_ltb, num_add, num_map2.
  rewrite <- (new_Date_local tz Y m vd Htz ltac:(lia) V).
  rewrite (setFullYear_next tz Y m vd Htz HY V).
  subst Y'. unfold LocalTime.
  destruct (Z.ltb_spec (MakeDate (MakeDay Y m vd) 0 - tz) now);
    destruct (Z.ltb_spec (MakeDate (MakeDay Y m vd) 0) (now + tz));
    try lia; reflexivity.
Qed.

Lemma local_date_start (tz now y m d : Z) :
  local_date tz now = (y, m, d) ->
  YearFromTime (LocalTime tz now) = y /\
  MakeDay y m d * msPerDay <= LocalTime tz now.
Proof.
  unfold local_date. intros H. injection H as HY HM HD.
  destruct (date_of_fields (LocalTime tz now)) as [E _].
  rewrite HY, HM, HD in E. split; [exact HY | ].
  rewrite <- E. unfold Day, msPerDay. zdiv.
Qed.

Lemma jan_26_rolls (tz now y : Z) :
  Z.abs tz <= msPerDay -> 100 <= y < 250000 ->
  YearFromTime (LocalTime tz now) = y ->
  MakeDate (MakeDay y 0 26) 0 < LocalTime tz now ->
  parseDate tz now (str "Jan 26")
  = Ok (Some (new_Date tz (Int (y + 1)) (Int 0) (Int 26))).
Proof.
  intros Htz Hy HY Past.
  assert (V : forall y', valid_date y' 0 26)
    by (intros y'; unfold valid_date, days_in_month; lia).
  destruct (monthDay_year_rule tz now (str "Jan 26")
              [(2%nat, str "26"); (1%nat, str "Jan")] (str "Jan") (str "26")
              26 Htz) as (R & _).
  - vm_compute. reflexivity.
  - vm_compute. reflexivity.
  - vm_compute. reflexivity.
  - reflexivity.
  - reflexivity.
  - vm_compute. reflexivity.
  - rewrite HY. exact Hy.
  - apply V.
  - apply V.
  - rewrite R. rewrite HY.
    change (parseMonth (str "Jan")) with 0.
    destruct (Z.ltb_spec (MakeDate (MakeDay y 0 26) 0) (LocalTime tz now));
      [reflexivity | lia].
Qed.

(** C2. A month and a day without a year are read in the current year,
    and in the next year when that date (at local midnight) is strictly
    before now.  So "Jan 26, 2026" is 2026-01-26; "Jan 26" read on
    2026-03-01 is 2027-01-26; and read on 2025-12-01 it is 2026-01-26. *)
Theorem C2_year_inference (tz now : Z) :
  Z.abs tz <= msPerDay ->
  (forall text cs mon day vd,
     exec DATE_PATTERNS.iso text = None ->
     exec DATE_PATTERNS.monthDayYear text = None ->
     exec DATE_PATTERNS.monthDay text = Some cs ->
     cap cs 1 = Some mon -> cap cs 2 = Some day -> parseInt day = Int vd ->
     let Y := YearFromTime (LocalTime tz now) in
     let m := parseMonth mon in
     let Y' := if MakeDate (MakeDay Y m vd) 0 <? LocalTime tz now
               then Y + 1 else Y in
     100 <= Y < 250000 -> valid_date Y m vd -> valid_date (Y + 1) m vd ->
     parseDate tz now text = Ok (Some (new_Date tz (Int Y') (Int m) (Int vd))) /\
     getFullYear tz (new_Date tz (Int Y') (Int m) (Int vd)) = Int Y' /\
     getMonth tz (new_Date tz (Int Y') (Int m) (Int vd)) = Int m /\
     getDate tz (new_Date tz (Int Y') (Int m) (Int vd)) = Int vd) /\
  parseDate tz now (str "Jan 26, 2026")
  = Ok (Some (new_Date tz (Int 2026) (Int 0) (Int 26))) /\
  (local_date tz now = (2026, 2, 1) ->
   parseDate tz now (str "Jan 26")
   = Ok (Some (new_Date tz (Int 2027) (Int 0) (Int 26)))) /\
  (local_date tz now = (2025, 11, 1) ->
   parseDate tz now (str "Jan 26")
   = Ok (Some (new_Date tz (Int 2026) (Int 0) (Int 26)))) /\
  (forall y, 100 <= y <= 250000 ->
     local_date tz (MakeDate (MakeDay y 0 26) 0 - tz) = (y, 0, 26) /\
     new_Date tz (Int y) (Int 0) (Int 26)
     = Int (MakeDate (MakeDay y 0 26) 0 - tz)).
Proof.
  intros Htz. split; [ | split; [ | split; [ | split]]].
  - intros text cs mon day vd E1 E2 E3 C1 C2 P.
    exact (monthDay_year_rule tz now text cs mon day vd Htz E1 E2 E3 C1 C2 P).
  - rewrite parseDate_first_match. unfold first_match_date.
    replace (exec DATE_PATTERNS.iso (str "Jan 26, 2026")) with (@None captures)
      by (vm_compute; reflexivity).
    replace (exec DATE_PATTERNS.monthDayYear (str "Jan 26, 2026"))
      with (Some [(3%nat, str "2026"); (2%nat, str "26"); (1%nat, str "Jan")])
      by (vm_compute; reflexivity).
    unfold date_of_monthDayYear.
    change (parseInt_value (cap [(3%nat, str "2026"); (2%nat, str "26");
                                 (1%nat, str "Jan")] 3)) with (Int 2026).
    change (parseInt_value (cap [(3%nat, str "2026"); (2%nat, str "26");
                                 (1%nat, str "Jan")] 2)) with (Int 26).
    change (month_number (cap [(3%nat, str "2026"); (2%nat, str "26");
                               (1%nat, str "Jan")] 1)) with 0.
    reflexivity.
  - intros L. destruct (local_date_start _ _ _ _ _ L) as [HY S].
    apply (jan_26_rolls tz now 2026 Htz ltac:(lia) HY).
    change (MakeDay 2026 2 1) with 20513 in S.
    change (MakeDate (MakeDay 2026 0 26) 0) with 1769385600000.
    unfold msPerDay in S. lia.
  - intros L. destruct (local_date_start _ _ _ _ _ L) as [HY S].
    apply (jan_26_rolls tz now 2025 Htz ltac:(lia) HY).
    change (MakeDay 2025 11 1) with 20423 in S.
    change (MakeDate (MakeDay 2025 0 26) 0) with 1737849600000.
    unfold msPerDay in S. lia.
  - intros y Hy.
    assert (V : valid_date y 0 26)
      by (unfold valid_date, days_in_month; lia).
    split; [ | apply new_Date_local; assumption].
    unfold local_date, LocalTime.
    replace (MakeDate (MakeDay y 0 26) 0 - tz + tz)
      with (MakeDate (MakeDay y 0 26) 0) by lia.
    destruct (fields_of_date y 0 26 0 V ltac:(unfold msPerDay; lia))
      as (-> & -> & -> & _).
    reflexivity.
Qed.

Lemma C2_year_inference_witness :
  parseDate 0 noon_2026_03_01 (str "Jan 26")
  = Ok (Some (new_Date 0 (Int 2027) (Int 0) (Int 26))).
Proof.
  apply (proj1 (proj2 (proj2 (C2_year_inference 0 noon_2026_03_01
                                ltac:(unfold msPerDay; simpl; lia))))).
  vm_compute. reflexivity.
Defined.

(** * Properties of the popup and of the service worker *)

(** ** Escaping *)

Lemma replace_char_app (c : ascii) (r a b : list ascii) :
  replace_char c r (a ++ b) = replace_char c r a ++ replace_char c r b.
Proof. unfold replace_char. apply flat_map_app. Qed.

Lemma escapeHtml_app (a b : list ascii) :
  escapeHtml (a ++ b) = escapeHtml a ++ escapeHtml b.
Proof. unfold escapeHtml. now rewrite !replace_char_app. Qed.

Lemma escapeHtml_one (c : ascii) :
  escapeHtml [c] = escape_character c.
Proof.
  assert (H0 : forallb (fun c => bool_decide (escapeHtml [c] = escape_character c)) all_ascii = true)
    by (vm_compute; reflexivity).
  pose proof (forall_ascii _ H0 c) as H; cbv beta in H; clear H0.
  now apply bool_decide_eq_true_1 in H.
Qed.

Lemma escapeHtml_cons (c : ascii) (s : list ascii) :
  escapeHtml (c :: s) = escape_character c ++ escapeHtml s.
Proof.
  change (c :: s) with ([c] ++ s).
  now rewrite escapeHtml_app, escapeHtml_one.
Qed.

(** X1. The five replacements of [escapeHtml] do not interfere: the
    result is the concatenation of what each character of the input
    becomes on its own, the five special characters their entity and any
    other character itself; so the ampersand of an entity that a later
    pass would seem to meet is never escaped a second time, and escaping
    distributes over concatenation. *)
Theorem escapeHtml_characterwise :
  (forall s, escapeHtml s = flat_map escape_character s) /\
  (forall a b, escapeHtml (a ++ b) = escapeHtml a ++ escapeHtml b) /\
  escapeHtml (str "&lt;") = str "&amp;lt;".
Proof.
  split; [ | split; [exact escapeHtml_app | vm_compute; reflexivity]].
  induction s as [ | c s IH]; [reflexivity | ].
  rewrite escapeHtml_cons, IH. reflexivity.
Qed.

Lemma escape_character_safe (c x : ascii) :
  In x (escape_character c) -> is_markup x = false.
Proof.
  assert (H0 : forallb (fun c => forallb (fun x => negb (is_markup x)) (escape_character c)) all_ascii = true)
    by (vm_compute; reflexivity).
  pose proof (forall_ascii _ H0 c) as H; cbv beta in H; clear H0.
  rewrite forallb_forall in H. intros Hx. apply H in Hx.
  now apply negb_true_iff in Hx.
Qed.

(** An ampersand of the output starts one of the five entities. *)
Lemma escapeHtml_ampersand (s : list ascii) :
  forall pre post, escapeHtml s = pre ++ "&"%char :: post ->
  exists name post', In name entity_names /\ post = str name ++ post'.
Proof.
  induction s as [ | c s IH]; intros pre post E.
  - destruct pre; discriminate.
  - rewrite escapeHtml_cons in E.
    assert (Hc : (escape_character c = [c] /\ c <> "&"%char) \/
                 exists name, In name entity_names /\
                   escape_character c = "&"%char :: str name).
    { assert (H0 : forallb (fun c => (bool_decide (escape_character c = [c])
                   && negb (Ascii.eqb c "&"))
                  || existsb (fun name =>
                       bool_decide (escape_character c = "&"%char :: str name))
                     entity_names) all_ascii = true)
    by (vm_compute; reflexivity).
  pose proof (forall_ascii _ H0 c) as H; cbv beta in H; clear H0.
      apply orb_true_iff in H. destruct H as [H | H].
      - left. apply andb_true_iff in H. destruct H as [H1 H2].
        apply bool_decide_eq_true_1 in H1. apply negb_true_iff in H2.
        apply Ascii.eqb_neq in H2. now split.
      - right. apply existsb_exists in H. destruct H as (name & Hin & H).
        apply bool_decide_eq_true_1 in H. now exists name. }
    destruct Hc as [[Hc Hne] | (name & Hin & Hc)]; rewrite Hc in E.
    + destruct pre as [ | p pre]; cbn in E.
      * injection E as E1 E2. now subst c.
      * injection E as _ E. now apply IH in E.
    + destruct pre as [ | p pre]; cbn in E.
      * injection E as E. exists name, (escapeHtml s). now split.
      * injection E as _ E.
        (* the ampersand lies after the first character of the entity:
           either within the name, which has none, or in the rest *)
        assert (Hname : ~ In "&"%char (str name)).
        { clear - Hin. cbn in Hin.
          repeat (destruct Hin as [<- | Hin];
                  [vm_compute; intuition discriminate | ]).
          destruct Hin. }
        revert pre E. generalize (str name) Hname. clear - IH.
        induction l as [ | x l IHl]; intros Hl pre E.
        -- cbn in E. now apply IH in E.
        -- destruct pre as [ | p pre]; cbn in E.
           ++ injection E as E1 _. exfalso. apply Hl. now left.
           ++ injection E as _ E. apply (IHl ltac:(intros F; apply Hl; now right) pre E).
Qed.

(** X2. The output of [escapeHtml] holds none of the characters [<],
    [>], the double quote and the apostrophe, and each of its ampersands
    starts one of the entities [&amp;], [&lt;], [&gt;], [&quot;] and
    [&#39;]: whatever the input, it can end neither an attribute value
    nor a text node. *)
Theorem escapeHtml_output_is_inert (s : list ascii) :
  (forall c, In c (escapeHtml s) -> is_markup c = false) /\
  (forall pre post, escapeHtml s = pre ++ "&"%char :: post ->
     exists name post', In name entity_names /\ post = str name ++ post').
Proof.
  split; [ | apply escapeHtml_ampersand].
  induction s as [ | c s IH]; intros x Hx; [destruct Hx | ].
  rewrite escapeHtml_cons in Hx. apply in_app_or in Hx.
  destruct Hx as [Hx | Hx]; [now apply escape_character_safe in Hx | now apply IH].
Qed.

Lemma decode_escape_character (c : ascii) (s : list ascii) :
  decode_entities O (escape_character c ++ s) = c :: decode_entities O s.
Proof.
  assert (H0 : forallb (fun c => (bool_decide (escape_character c = [c])
               && negb (Ascii.eqb c "&"))
              || existsb (fun e =>
                   bool_decide (escape_character c = "&"%char :: str (fst e))
                   && Ascii.eqb (snd e) c)
                 entities) all_ascii = true)
    by (vm_compute; reflexivity).
  pose proof (forall_ascii _ H0 c) as H; cbv beta in H; clear H0.
  apply orb_true_iff in H. destruct H as [H | H].
  - apply andb_true_iff in H. destruct H as [H1 H2].
    apply bool_decide_eq_true_1 in H1. apply negb_true_iff in H2.
    rewrite H1. cbn. now rewrite H2.
  - apply existsb_exists in H. destruct H as (e & Hin & H).
    apply andb_true_iff in H. destruct H as [H1 H2].
    apply bool_decide_eq_true_1 in H1. apply Ascii.eqb_eq in H2.
    rewrite H1. subst c. cbn in Hin.
    repeat (destruct Hin as [<- | Hin]; [reflexivity | ]). destruct Hin.
Qed.

Lemma decode_escapeHtml (s : list ascii) :
  decode_entities O (escapeHtml s) = s.
Proof.
  induction s as [ | c s IH]; [reflexivity | ].
  now rewrite escapeHtml_cons, decode_escape_character, IH.
Qed.

(** X3. Escaping loses nothing: decoding the five entities of the
    output, left to right, gives the input back; hence two different
    strings never have the same escaped form. *)
Theorem escapeHtml_round_trip :
  (forall s, decode_entities O (escapeHtml s) = s) /\
  (forall s t, escapeHtml s = escapeHtml t -> s = t).
Proof.
  split; [exact decode_escapeHtml | ].
  intros s t E. rewrite <- (decode_escapeHtml s), <- (decode_escapeHtml t).
  now rewrite E.
Qed.

(** ** Trimming and splitting *)

Lemma trimStart_nonspace (c : ascii) (s : list ascii) :
  is_js_space c = false -> trimStart (c :: s) = c :: s.
Proof. intros H. cbn. now rewrite H. Qed.

Lemma trimStart_snoc (l : list ascii) (c : ascii) :
  is_js_space c = false -> trimStart (l ++ [c]) = trimStart l ++ [c].
Proof.
  intros Hc. induction l as [ | x l IH]; cbn.
  - now rewrite Hc.
  - destruct (is_js_space x); [exact IH | reflexivity].
Qed.

Lemma trimStart_head (s : list ascii) :
  match trimStart s with
  | c :: _ => is_js_space c = false
  | [] => True
  end.
Proof.
  induction s as [ | x s IH]; cbn; [exact I | ].
  destruct (is_js_space x) eqn:E; [exact IH | exact E].
Qed.

Lemma trimStart_idem (s : list ascii) : trimStart (trimStart s) = trimStart s.
Proof.
  pose proof (trimStart_head s) as H.
  destruct (trimStart s) as [ | c t]; [reflexivity | ].
  now apply trimStart_nonspace.
Qed.

Lemma trimEnd_nonspace (c : ascii) (s : list ascii) :
  is_js_space c = false -> trimEnd (c :: s) = c :: trimEnd s.
Proof.
  intros Hc. unfold trimEnd. cbn [rev].
  rewrite trimStart_snoc by exact Hc. now rewrite rev_app_distr.
Qed.

Lemma trimEnd_idem (s : list ascii) : trimEnd (trimEnd s) = trimEnd s.
Proof. unfold trimEnd. now rewrite rev_involutive, trimStart_idem. Qed.

Lemma trim_nonspace (c : ascii) (s : list ascii) :
  is_js_space c = false -> trim (c :: s) = c :: trimEnd s.
Proof.
  intros Hc. unfold trim. rewrite trimStart_nonspace by exact Hc.
  now apply trimEnd_nonspace.
Qed.

Lemma trim_space (c : ascii) (s : list ascii) :
  is_js_space c = true -> trim (c :: s) = trim s.
Proof. intros Hc. unfold trim. cbn. now rewrite Hc. Qed.

Lemma trim_idem (s : list ascii) : trim (trim s) = trim s.
Proof.
  unfold trim at 2 3. pose proof (trimStart_head s) as H.
  destruct (trimStart s) as [ | c t]; [reflexivity | ].
  rewrite trimEnd_nonspace by exact H.
  rewrite trim_nonspace by exact H. now rewrite trimEnd_idem.
Qed.

Lemma trimStart_In (c : ascii) (s : list ascii) :
  In c (trimStart s) -> In c s.
Proof.
  induction s as [ | x s IH]; cbn; [tauto | ].
  destruct (is_js_space x); [ | tauto]. intros H. right. now apply IH.
Qed.

Lemma trim_In (c : ascii) (s : list ascii) : In c (trim s) -> In c s.
Proof.
  unfold trim, trimEnd. intros H. apply in_rev in H.
  apply trimStart_In in H. apply in_rev in H. now apply trimStart_In in H.
Qed.

Lemma split_on_cons (sep c : ascii) (s : list ascii) :
  split_on sep (c :: s) =
  if Ascii.eqb c sep then [] :: split_on sep s
  else match split_on sep s with
       | l :: ls => (c :: l) :: ls
       | [] => [[c]]
       end.
Proof. reflexivity. Qed.

Lemma split_on_nonempty (sep : ascii) (s : list ascii) : split_on sep s <> [].
Proof.
  destruct s as [ | c s]; [discriminate | ]. rewrite split_on_cons.
  destruct (Ascii.eqb c sep); [discriminate | ].
  destruct (split_on sep s); discriminate.
Qed.

(** The pieces of a split hold no separator. *)
Lemma split_on_pieces (sep : ascii) (s : list ascii) :
  Forall (fun piece => ~ In sep piece) (split_on sep s).
Proof.
  induction s as [ | c s IH]; [repeat constructor; intros [] | ].
  rewrite split_on_cons. destruct (Ascii.eqb c sep) eqn:E.
  - constructor; [intros [] | exact IH].
  - apply Ascii.eqb_neq in E.
    destruct (split_on sep s) as [ | l ls].
    + repeat constructor. intros [H | []]. now subst.
    + inversion IH as [ | ? ? Hl Hls]; subst. constructor; [ | exact Hls].
      intros [H | H]; [now subst | now apply Hl].
Qed.

(** A split goes through a piece without separator up to the separator
    that follows it. *)
Lemma split_on_piece (sep : ascii) (l r : list ascii) :
  ~ In sep l -> split_on sep (l ++ sep :: r) = l :: split_on sep r.
Proof.
  induction l as [ | c l IH]; intros Hl.
  - cbn [app]. rewrite split_on_cons. now rewrite Ascii.eqb_refl.
  - cbn [app]. rewrite split_on_cons.
    destruct (Ascii.eqb c sep) eqn:E.
    + apply Ascii.eqb_eq in E. exfalso. apply Hl. now left.
    + rewrite IH; [reflexivity | ]. intros H. apply Hl. now right.
Qed.

Lemma split_on_last (sep : ascii) (l : list ascii) :
  ~ In sep l -> split_on sep l = [l].
Proof.
  induction l as [ | c l IH]; intros Hl; [reflexivity | ].
  rewrite split_on_cons. destruct (Ascii.eqb c sep) eqn:E.
  - apply Ascii.eqb_eq in E. exfalso. apply Hl. now left.
  - rewrite IH; [reflexivity | ]. intros H. apply Hl. now right.
Qed.

(** ** Labels *)

Lemma split_labels_cons (l r : list ascii) :
  ~ In ","%char l ->
  split_labels (l ++ ","%char :: r) =
  (if nonempty (trim l) then [trim l] else []) ++ split_labels r.
Proof.
  intros Hl. unfold split_labels. rewrite split_on_piece by exact Hl.
  cbn [map List.filter]. now destruct (nonempty (trim l)).
Qed.

Lemma split_labels_last (l : list ascii) :
  ~ In ","%char l ->
  split_labels l = if nonempty (trim l) then [trim l] else [].
Proof.
  intros Hl. unfold split_labels. rewrite split_on_last by exact Hl.
  cbn [map List.filter]. now destruct (nonempty (trim l)).
Qed.

Lemma split_labels_join (labels : list (list ascii)) :
  Forall is_label labels ->
  split_labels (join (str ", ") labels) = labels.
Proof.
  induction labels as [ | l labels IH]; intros H; [reflexivity | ].
  inversion H as [ | ? ? (Hne & Htrim & Hcomma) Hrest]; subst.
  destruct labels as [ | l' labels].
  - cbn [join]. rewrite split_labels_last by exact Hcomma.
    rewrite Htrim. destruct l; [now elim Hne | reflexivity].
  - change (join (str ", ") (l :: l' :: labels))
      with (l ++ ","%char :: " "%char :: join (str ", ") (l' :: labels)).
    rewrite split_labels_cons by exact Hcomma.
    rewrite Htrim. destruct l as [ | c l]; [now elim Hne | ].
    cbn [nonempty app]. f_equal.
    rewrite <- (IH Hrest) at 2.
    (* the space after the comma is trimmed away *)
    unfold split_labels. set (rest := join (str ", ") (l' :: labels)).
    rewrite split_on_cons.
    replace (Ascii.eqb " " ",") with false by reflexivity.
    pose proof (split_on_nonempty "," rest) as Hn.
    destruct (split_on "," rest) as [ | p ps]; [now elim Hn | ].
    cbn [map]. now rewrite trim_space by reflexivity.
Qed.

Lemma split_labels_are_labels (s : list ascii) :
  Forall is_label (split_labels s).
Proof.
  unfold split_labels. apply List.Forall_forall. intros l Hl.
  apply List.filter_In in Hl. destruct Hl as [Hin Hne].
  apply in_map_iff in Hin. destruct Hin as (piece & <- & Hpiece).
  pose proof (split_on_pieces "," s) as Hp.
  rewrite List.Forall_forall in Hp. apply Hp in Hpiece.
  split; [ | split].
  - intros E. rewrite E in Hne. discriminate.
  - apply trim_idem.
  - intros H. apply Hpiece. now apply trim_In.
Qed.

Lemma join_values_texts (sep : list ascii) (labels : list (list ascii)) :
  join_values sep (map Text labels) = join sep labels.
Proof.
  unfold join_values. rewrite map_map. cbn. now rewrite map_id.
Qed.

(** X4. The labels survive the form: when each label of a task is
    non-empty, has no white space at either end and no comma, joining
    them with a comma and a space, as [renderTasks] does, and splitting
    the field again, as [onSave] does, gives the same list. *)
Theorem labels_round_trip (labels : list (list ascii)) :
  Forall is_label labels ->
  exists shown,
    labels_text (Array (map Text labels)) = Ok shown /\
    split_labels shown = labels.
Proof.
  intros H. exists (join (str ", ") labels). split.
  - cbn. now rewrite join_values_texts.
  - now apply split_labels_join.
Qed.

Lemma labels_round_trip_witness :
  exists shown,
    labels_text (Array (map Text [str "capture"; str "home work"])) = Ok shown /\
    split_labels shown = [str "capture"; str "home work"].
Proof.
  apply (labels_round_trip [str "capture"; str "home work"]).
  repeat constructor; try discriminate; vm_compute; intuition discriminate.
Defined.

(** X5. Whatever is typed in the labels field, each label [onSave]
    reads from it is non-empty, has no white space at either end and no
    comma; showing these labels and reading them again changes nothing;
    and [normalizeLabels] reads a string in the same way, leaves an array
    as it is, and gives the empty array for anything else. *)
Theorem labels_are_clean (s : list ascii) :
  Forall is_label (split_labels s) /\
  split_labels (join (str ", ") (split_labels s)) = split_labels s /\
  normalizeLabels (Text s) = Array (map Text (split_labels s)) /\
  (forall l, normalizeLabels (Array l) = Array l) /\
  (forall v, match v with
             | Text _ | Array _ => True
             | _ => normalizeLabels v = Array []
             end).
Proof.
  split; [apply split_labels_are_labels | ].
  split; [apply split_labels_join, split_labels_are_labels | ].
  split; [ | split].
  - unfold normalizeLabels. destruct s; reflexivity.
  - reflexivity.
  - intros v. unfold normalizeLabels.
    destruct v; try reflexivity; try exact I; now destruct (is_truthy _).
Qed.

(** ** The origin and its mode *)

Lemma startsWith_app (p s : list ascii) : startsWith (p ++ s) p = true.
Proof.
  induction p as [ | c p IH]; [reflexivity | ].
  cbn. now rewrite Ascii.eqb_refl, IH.
Qed.

Lemma is_text_eq (v : value) (s : string) :
  is_text v s = true <-> v = Text (str s).
Proof.
  unfold is_text. destruct v; try (split; [discriminate | ]; discriminate).
  rewrite bool_decide_eq_true. split; [now intros -> | now intros [= ->]].
Qed.

Lemma resolveOrigin_cases (v : value) :
  resolveOrigin v = PROD_ORIGIN \/ resolveOrigin v = DEV_ORIGIN \/
  (v = Text (resolveOrigin v) /\ startsWith (resolveOrigin v) (str "http") = true).
Proof.
  unfold resolveOrigin.
  destruct (negb (is_truthy v) || is_text v "prod"); [now left | ].
  destruct (is_text v "dev"); [now right; left | ].
  destruct v; try now left.
  destruct (startsWith l (str "http")) eqn:E; [ | now left].
  right; right. now split.
Qed.

Lemma resolveOrigin_http (v : value) :
  startsWith (resolveOrigin v) (str "http") = true.
Proof.
  destruct (resolveOrigin_cases v) as [-> | [-> | [_ H]]];
    [reflexivity | reflexivity | exact H].
Qed.

Lemma resolveOrigin_text (s : list ascii) :
  startsWith s (str "http") = true -> resolveOrigin (Text s) = s.
Proof.
  intros H. unfold resolveOrigin.
  destruct s as [ | c s]; [discriminate | ].
  cbn [is_truthy nonempty negb orb].
  destruct (is_text (Text (c :: s)) "prod") eqn:E1.
  { apply is_text_eq in E1. injection E1 as E1. rewrite E1 in H. discriminate. }
  destruct (is_text (Text (c :: s)) "dev") eqn:E2.
  { apply is_text_eq in E2. injection E2 as E2. rewrite E2 in H. discriminate. }
  now rewrite H.
Qed.

(** X6. Whatever it is given, [resolveOrigin] returns the production
    origin, the development origin, or the string it was given when that
    starts with [http]; the result always starts with [http], and
    resolving it again gives the same origin. *)
Theorem resolveOrigin_idempotent (modeOrUrl : value) :
  (resolveOrigin modeOrUrl = PROD_ORIGIN \/
   resolveOrigin modeOrUrl = DEV_ORIGIN \/
   modeOrUrl = Text (resolveOrigin modeOrUrl)) /\
  startsWith (resolveOrigin modeOrUrl) (str "http") = true /\
  resolveOrigin (Text (resolveOrigin modeOrUrl)) = resolveOrigin modeOrUrl.
Proof.
  split; [ | split].
  - destruct (resolveOrigin_cases modeOrUrl) as [H | [H | [H _]]]; tauto.
  - apply resolveOrigin_http.
  - apply resolveOrigin_text, resolveOrigin_http.
Qed.

(** X7. The mode reported for an origin, chosen again, gives the
    origin back only for the two built-in origins: [resolveMode] of a
    custom origin is [custom], which [resolveOrigin] does not take for a
    URL, so choosing it selects the production origin.  And the URL of
    the development origin, given as a custom URL, is reported as the
    mode [dev]. *)
Theorem mode_round_trip (origin : list ascii) :
  resolveMode (resolveOrigin (Text (str "dev"))) = str "dev" /\
  resolveMode (resolveOrigin (Text (str "prod"))) = str "prod" /\
  resolveMode (resolveOrigin (Text DEV_ORIGIN)) = str "dev" /\
  resolveOrigin (Text (resolveMode origin)) =
    (if bool_decide (origin = DEV_ORIGIN) then DEV_ORIGIN else PROD_ORIGIN) /\
  (resolveOrigin (Text (resolveMode origin)) = origin <->
   origin = DEV_ORIGIN \/ origin = PROD_ORIGIN).
Proof.
  assert (E : resolveOrigin (Text (resolveMode origin)) =
    (if bool_decide (origin = DEV_ORIGIN) then DEV_ORIGIN else PROD_ORIGIN)).
  { unfold resolveMode.
    destruct (bool_decide (origin = DEV_ORIGIN)); [reflexivity | ].
    destruct (bool_decide (origin = PROD_ORIGIN)); reflexivity. }
  split; [reflexivity | ]. split; [reflexivity | ]. split; [reflexivity | ].
  split; [exact E | ].
  rewrite E. destruct (bool_decide (origin = DEV_ORIGIN)) eqn:D.
  - apply bool_decide_eq_true_1 in D. subst. tauto.
  - apply bool_decide_eq_false_1 in D. split; [now right | ].
    intros [H | H]; [contradiction | now symmetry].
Qed.

(** ** Dates as text *)

Lemma digit_char_value (k : Z) :
  0 <= k <= 9 -> is_digit (digit_char k) = true /\ digit_value (digit_char k) = k.
Proof.
  intros H.
  assert (C : k = 0 \/ k = 1 \/ k = 2 \/ k = 3 \/ k = 4 \/ k = 5 \/ k = 6 \/
              k = 7 \/ k = 8 \/ k = 9) by lia.
  repeat (destruct C as [-> | C]; [split; reflexivity | ]).
  subst. split; reflexivity.
Qed.

Lemma pad_length (w : nat) : forall n, length (pad w n) = w.
Proof.
  induction w as [ | w IH]; intros n; [reflexivity | ].
  cbn [pad]. rewrite length_app, IH. cbn. lia.
Qed.

Lemma pad_digits (w : nat) : forall n, forallb is_digit (pad w n) = true.
Proof.
  induction w as [ | w IH]; intros n; [reflexivity | ].
  cbn [pad]. rewrite forallb_app, IH. cbn [forallb andb].
  destruct (digit_char_value (n mod 10)) as [-> _]; [ | reflexivity].
  pose proof (Z.mod_pos_bound n 10). lia.
Qed.

(** Reading the digits of [pad w n] gives [n], up to the width. *)
Lemma pad_value (w : nat) : forall n acc,
  fold_left (fun a c => a * 10 + digit_value c) (pad w n) acc =
  acc * 10 ^ Z.of_nat w + n mod 10 ^ Z.of_nat w.
Proof.
  induction w as [ | w IH]; intros n acc.
  - cbn. rewrite Z.mod_1_r. lia.
  - cbn [pad]. rewrite fold_left_app, IH. cbn [fold_left].
    destruct (digit_char_value (n mod 10)) as [_ ->];
      [pose proof (Z.mod_pos_bound n 10); lia | ].
    rewrite Nat2Z.inj_succ, Z.pow_succ_r by lia.
    pose proof (Z.pow_pos_nonneg 10 (Z.of_nat w) ltac:(lia) ltac:(lia)) as P.
    remember (10 ^ Z.of_nat w) as p eqn:Ep. clear Ep IH.
    rewrite (Z.rem_mul_r n 10 p) by lia.
    lia.
Qed.

Lemma take_digits_pad (w : nat) (n : Z) (rest : list ascii) :
  0 <= n < 10 ^ Z.of_nat w ->
  take_digits w (pad w n ++ rest) = Some (n, rest).
Proof.
  intros H. unfold take_digits.
  rewrite firstn_app, pad_length, Nat.sub_diag, firstn_O, app_nil_r.
  rewrite firstn_all2 by (rewrite pad_length; lia).
  rewrite pad_length, Nat.eqb_refl, pad_digits. cbn [andb].
  rewrite pad_value, Z.mod_small by exact H.
  rewrite skipn_app, pad_length, Nat.sub_diag, skipn_O.
  rewrite skipn_all2 by (rewrite pad_length; lia).
  reflexivity.
Qed.

Lemma parse_year_iso_year (y : Z) (rest : list ascii) :
  -999999 <= y <= 999999 ->
  parse_year (iso_year y ++ rest) = Some (y, rest).
Proof.
  intros H. unfold iso_year.
  destruct ((0 <=? y) && (y <=? 9999)) eqn:E.
  - apply andb_true_iff in E. destruct E as [E1 E2].
    apply Z.leb_le in E1. apply Z.leb_le in E2.
    pose proof (take_digits_pad 4 y rest ltac:(cbn; lia)) as T.
    pose proof (pad_digits 4 y) as D. pose proof (pad_length 4 y) as L.
    destruct (pad 4 y) as [ | c p]; [discriminate | ].
    cbn [forallb] in D. apply andb_true_iff in D. destruct D as [D _].
    destruct (digit_facts c D) as (_ & _ & _ & Hm & Hp & _).
    cbn [app] in *. unfold parse_year. now rewrite Hp, Hm.
  - destruct (Z.ltb_spec y 0) as [Hneg | Hpos].
    + cbn [str list_ascii_of_string app]. unfold parse_year.
      replace (Ascii.eqb "-" "+") with false by reflexivity.
      rewrite Ascii.eqb_refl.
      rewrite take_digits_pad by (cbn; lia).
      destruct (Z.eqb_spec (Z.abs y) 0); [lia | ]. f_equal. f_equal. lia.
    + cbn [str list_ascii_of_string app]. unfold parse_year.
      rewrite Ascii.eqb_refl.
      rewrite take_digits_pad by (cbn; lia).
      f_equal. f_equal. lia.
Qed.

Lemma take_char_cons (c : ascii) (s : list ascii) :
  take_char c (c :: s) = Some s.
Proof. unfold take_char. now rewrite Ascii.eqb_refl. Qed.

Lemma bind_some {A B : Type} (x : A) (f : A -> option B) :
  (Some x ≫= f) = f x.
Proof. reflexivity. Qed.

Ltac read_fields :=
  repeat first
    [ rewrite bind_some; cbv beta iota zeta
    | progress cbn [str list_ascii_of_string app]
    | rewrite take_char_cons
    | rewrite take_digits_pad by (cbn; lia) ].

(** A string in the format of [toISOString] is read back field by field. *)
Lemma iso_time_value_utc (tz y mo d h mi sec ms : Z) :
  -999999 <= y <= 999999 -> 1 <= mo <= 12 ->
  1 <= d <= days_in_month y (mo - 1) ->
  0 <= h <= 23 -> 0 <= mi <= 59 -> 0 <= sec <= 59 -> 0 <= ms <= 999 ->
  iso_time_value tz
    (iso_year y ++ str "-" ++ pad 2 mo ++ str "-" ++ pad 2 d ++ str "T" ++
     pad 2 h ++ str ":" ++ pad 2 mi ++ str ":" ++ pad 2 sec ++ str "." ++
     pad 3 ms ++ str "Z") =
  Some (TimeClip (MakeDate (MakeDay y (mo - 1) d) (MakeTime h mi sec ms))).
Proof.
  intros Hy Hmo Hd Hh Hmi Hsec Hms.
  pose proof (days_in_month_le y (mo - 1)) as Hdim.
  unfold iso_time_value. rewrite parse_year_iso_year by assumption.
  read_fields. unfold parse_seconds. read_fields.
  replace ((1 <=? mo) && (mo <=? 12) && (1 <=? d)
           && (d <=? days_in_month y (mo - 1)) && (h <=? 23) && (mi <=? 59)
           && (sec <=? 59)) with true; [reflexivity | ].
  symmetry. repeat (apply andb_true_iff; split); apply Z.leb_le; lia.
Qed.

(** And so is a string in the format of a date and time field, as local
    time. *)
Lemma iso_time_value_local (tz y mo d h mi : Z) :
  0 <= y <= 9999 -> 1 <= mo <= 12 ->
  1 <= d <= days_in_month y (mo - 1) ->
  0 <= h <= 23 -> 0 <= mi <= 59 ->
  iso_time_value tz
    (pad 4 y ++ str "-" ++ pad 2 mo ++ str "-" ++ pad 2 d ++ str "T" ++
     pad 2 h ++ str ":" ++ pad 2 mi) =
  Some (TimeClip (UTC tz (MakeDate (MakeDay y (mo - 1) d) (MakeTime h mi 0 0)))).
Proof.
  intros Hy Hmo Hd Hh Hmi.
  pose proof (days_in_month_le y (mo - 1)) as Hdim.
  pose proof (parse_year_iso_year y
    (str "-" ++ pad 2 mo ++ str "-" ++ pad 2 d ++ str "T" ++
     pad 2 h ++ str ":" ++ pad 2 mi) ltac:(lia)) as Py.
  unfold iso_year in Py.
  replace ((0 <=? y) && (y <=? 9999)) with true in Py
    by (symmetry; apply andb_true_iff; split; apply Z.leb_le; lia).
  unfold iso_time_value. rewrite Py.
  read_fields.
  rewrite <- (app_nil_r (pad 2 mi)). read_fields.
  change (parse_seconds []) with (Some (0, 0, @nil ascii)). read_fields.
  replace ((1 <=? mo) && (mo <=? 12) && (1 <=? d)
           && (d <=? days_in_month y (mo - 1)) && (h <=? 23) && (mi <=? 59)
           && (0 <=? 59)) with true; [reflexivity | ].
  symmetry. repeat (apply andb_true_iff; split); try apply Z.leb_le; try lia.
Qed.

(** The fuel of [Z_toString] is enough: its digits read back as the
    number. *)
Lemma decimal_value (fuel : nat) :
  forall n, 0 <= n < 10 ^ Z.of_nat fuel ->
  fold_left (fun a c => a * 10 + digit_value c) (decimal fuel n) 0 = n.
Proof.
  induction fuel as [ | fuel IH]; intros n H.
  - change (10 ^ Z.of_nat 0) with 1 in H. cbn [decimal fold_left]. lia.
  - cbn [decimal]. rewrite fold_left_app. cbn [fold_left].
    destruct (digit_char_value (n mod 10)) as [_ ->];
      [pose proof (Z.mod_pos_bound n 10); lia | ].
    destruct (Z.ltb_spec n 10) as [S | B].
    + cbn [fold_left]. rewrite Z.mod_small by lia. lia.
    + rewrite IH.
      * clear. zdiv.
      * rewrite Nat2Z.inj_succ, Z.pow_succ_r in H by lia.
        pose proof (Z.pow_pos_nonneg 10 (Z.of_nat fuel) ltac:(lia) ltac:(lia)).
        remember (10 ^ Z.of_nat fuel) as p. clear - H B. zdiv.
Qed.

Lemma Z_toString_value (n : Z) :
  0 <= n -> fold_left (fun a c => a * 10 + digit_value c) (Z_toString n) 0 = n.
Proof.
  intros H. unfold Z_toString. destruct (Z.ltb_spec n 0); [lia | ].
  apply decimal_value. split; [exact H | ].
  rewrite Nat2Z.inj_succ, Z2Nat.id by apply Z.log2_nonneg.
  destruct (Z.eq_dec n 0) as [-> | N]; [reflexivity | ].
  pose proof (Z.log2_spec n ltac:(lia)) as [_ U].
  pose proof (Z.log2_nonneg n) as L.
  pose proof (Z.pow_le_mono_l 2 10 (Z.succ (Z.log2 n)) ltac:(lia)). lia.
Qed.

Lemma range_check (P : Z -> bool) (lo len : Z) :
  forallb P (map (fun i => lo + Z.of_nat i) (seq 0 (Z.to_nat len))) = true ->
  forall n, lo <= n < lo + len -> P n = true.
Proof.
  intros H n Hn. rewrite forallb_forall in H. apply H.
  apply in_map_iff. exists (Z.to_nat (n - lo)). split; [lia | ].
  apply in_seq. lia.
Qed.

Lemma toLocalInput_pad_two (n : Z) :
  0 <= n <= 99 -> toLocalInput_pad (Int n) = pad 2 n.
Proof.
  intros H.
  assert (C : forallb (fun n => bool_decide (toLocalInput_pad (Int n) = pad 2 n))
                (map (fun i => 0 + Z.of_nat i) (seq 0 (Z.to_nat 100))) = true)
    by (vm_compute; reflexivity).
  pose proof (range_check _ 0 100 C n ltac:(lia)) as E.
  now apply bool_decide_eq_true_1 in E.
Qed.

Lemma Z_toString_four (y : Z) :
  1000 <= y <= 9999 -> Z_toString y = pad 4 y.
Proof.
  intros H.
  assert (C : forallb (fun y => bool_decide (Z_toString y = pad 4 y))
                (map (fun i => 1000 + Z.of_nat i) (seq 0 (Z.to_nat 9000))) = true)
    by (vm_compute; reflexivity).
  pose proof (range_check _ 1000 9000 C y ltac:(lia)) as E.
  now apply bool_decide_eq_true_1 in E.
Qed.

(** The fields of a time value make it up again. *)
Lemma time_of_fields (t : Z) :
  MakeTime (HourFromTime t) (MinFromTime t) (SecFromTime t) (msFromTime t)
    = TimeWithinDay t /\
  MakeDate (Day t) (TimeWithinDay t) = t /\
  0 <= HourFromTime t <= 23 /\ 0 <= MinFromTime t <= 59 /\
  0 <= SecFromTime t <= 59 /\ 0 <= msFromTime t <= 999.
Proof.
  unfold MakeTime, MakeDate, HourFromTime, MinFromTime, SecFromTime,
    msFromTime, TimeWithinDay, Day, msPerDay, msPerHour, msPerMinute,
    msPerSecond.
  repeat split; zdiv.
Qed.

Lemma time_value_of_fields (t : Z) :
  MakeDate (MakeDay (YearFromTime t) (MonthFromTime t) (DateFromTime t))
           (MakeTime (HourFromTime t) (MinFromTime t) (SecFromTime t)
                     (msFromTime t)) = t.
Proof.
  destruct (date_of_fields t) as [<- _].
  destruct (time_of_fields t) as (-> & E & _). exact E.
Qed.

Lemma year_of_time_bounded (t : Z) :
  Z.abs t <= maxTime + msPerDay -> -999999 <= YearFromTime t <= 999999.
Proof.
  intros H. unfold YearFromTime.
  pose proof (year_bounded (Day t)) as Y.
  assert (D : Z.abs (Day t) <= 100000001)
    by (unfold Day, msPerDay, maxTime in *; zdiv).
  lia.
Qed.

Lemma TimeClip_valid (t : Z) : Z.abs t <= maxTime -> TimeClip t = Int t.
Proof.
  intros H. unfold TimeClip. destruct (Z.leb_spec (Z.abs t) maxTime); [reflexivity | lia].
Qed.

Lemma toISOString_read_back (tz t : Z) :
  Z.abs t <= maxTime ->
  exists s, toISOString (Int t) = Ok s /\ s <> [] /\
            iso_time_value tz s = Some (Int t).
Proof.
  intros H. eexists. split; [reflexivity | ]. split.
  - unfold iso_year. intros E.
    destruct ((0 <=? YearFromTime t) && (YearFromTime t <=? 9999)).
    + pose proof (pad_length 4 (YearFromTime t)) as L.
      destruct (pad 4 (YearFromTime t)); discriminate.
    + destruct (YearFromTime t <? 0); discriminate.
  - destruct (date_of_fields t) as [_ [Hm Hd]].
    destruct (time_of_fields t) as (_ & _ & Hh & Hmi & Hs & Hms).
    pose proof (year_of_time_bounded t
                  ltac:(unfold msPerDay, maxTime in *; lia)) as Hy.
    rewrite iso_time_value_utc; try assumption; try lia.
    + replace (MonthFromTime t + 1 - 1) with (MonthFromTime t) by lia.
      rewrite time_value_of_fields. now rewrite TimeClip_valid.
    + now replace (MonthFromTime t + 1 - 1) with (MonthFromTime t) by lia.
Qed.

(** X8. What [toISOString] writes, [new Date] reads back: for every
    valid time value the ISO string of the due date denotes that very
    instant, in every time zone and whatever the implementation does with
    strings in other formats. *)
Theorem date_text_round_trip (tz : Z) (legacy_parse : list ascii -> number)
    (t : Z) :
  Z.abs t <= maxTime ->
  exists s, toISOString (Int t) = Ok s /\
            new_Date_of tz legacy_parse (Text s) = Int t.
Proof.
  intros H. destruct (toISOString_read_back tz t H) as (s & E & _ & R).
  exists s. split; [exact E | ].
  unfold new_Date_of, Date_parse. now rewrite R.
Qed.

Lemma date_text_round_trip_witness :
  exists s, toISOString (Int 1769408100000) = Ok s /\
            new_Date_of 3600000 (fun _ => NaN) (Text s) = Int 1769408100000.
Proof.
  apply (date_text_round_trip 3600000 (fun _ => NaN) 1769408100000).
  vm_compute. discriminate.
Defined.

(** ** The date and time field of the popup *)

Lemma toLocalInput_of_iso (tz : Z) (legacy_parse : list ascii -> number)
    (t : Z) (s : list ascii) :
  Z.abs t <= maxTime -> toISOString (Int t) = Ok s ->
  toLocalInput tz legacy_parse (Text s) =
    Z_toString (YearFromTime (LocalTime tz t)) ++ str "-" ++
    pad 2 (MonthFromTime (LocalTime tz t) + 1) ++ str "-" ++
    pad 2 (DateFromTime (LocalTime tz t)) ++ str "T" ++
    pad 2 (HourFromTime (LocalTime tz t)) ++ str ":" ++
    pad 2 (MinFromTime (LocalTime tz t)).
Proof.
  intros H E. destruct (toISOString_read_back tz t H) as (s' & E' & Hne & R).
  rewrite E in E'. injection E' as <-.
  unfold toLocalInput.
  replace (is_truthy (Text s)) with true by (destruct s; [now elim Hne | reflexivity]).
  cbn [negb]. unfold new_Date_of, Date_parse. rewrite R.
  unfold getFullYear, getMonth, getDate, getHours, getMinutes, num_add,
    num_map2, Number_toString.
  pose proof (MonthFromTime_range (LocalTime tz t)) as Hm.
  pose proof (DateFromTime_range (LocalTime tz t)) as Hd.
  destruct (time_of_fields (LocalTime tz t)) as (_ & _ & Hh & Hmi & _).
  rewrite !toLocalInput_pad_two by lia. reflexivity.
Qed.

Lemma local_year_window (tz t : Z) :
  Z.abs tz <= msPerDay -> 0 <= YearFromTime (LocalTime tz t) <= 9999 ->
  Z.abs t <= 400000000000000.
Proof.
  intros Htz Hy. unfold YearFromTime in Hy.
  pose proof (YearFromDay_spec (Day (LocalTime tz t))) as S.
  pose proof (DayFromYear_mono 0 (YearFromDay (Day (LocalTime tz t))) ltac:(lia)) as M1.
  pose proof (DayFromYear_mono (YearFromDay (Day (LocalTime tz t)) + 1) 10000 ltac:(lia)) as M2.
  change (DayFromYear 0) with (-719528) in M1.
  change (DayFromYear 10000) with 2932897 in M2.
  remember (YearFromDay (Day (LocalTime tz t))) as Y eqn:EY. clear EY.
  remember (DayFromYear Y) as a eqn:Ea. clear Ea.
  remember (DayFromYear (Y + 1)) as b eqn:Eb. clear Eb.
  unfold Day, LocalTime, msPerDay in *. zdiv.
Qed.

(** X9. The date and time field of a task shows its due date in
    local time: for the ISO string of an instant whose local year has
    four digits, [toLocalInput] gives the sixteen characters
    YYYY-MM-DDTHH:mm of the local date and time, the seconds dropped. *)
Theorem toLocalInput_shows_local_time (tz : Z)
    (legacy_parse : list ascii -> number) (t : Z) (s : list ascii) :
  Z.abs tz <= msPerDay ->
  1000 <= YearFromTime (LocalTime tz t) <= 9999 ->
  toISOString (Int t) = Ok s ->
  toLocalInput tz legacy_parse (Text s) =
    pad 4 (YearFromTime (LocalTime tz t)) ++ str "-" ++
    pad 2 (MonthFromTime (LocalTime tz t) + 1) ++ str "-" ++
    pad 2 (DateFromTime (LocalTime tz t)) ++ str "T" ++
    pad 2 (HourFromTime (LocalTime tz t)) ++ str ":" ++
    pad 2 (MinFromTime (LocalTime tz t)) /\
  length (toLocalInput tz legacy_parse (Text s)) = 16%nat.
Proof.
  intros Htz Hy E.
  pose proof (local_year_window tz t Htz ltac:(lia)) as Ht.
  rewrite (toLocalInput_of_iso tz legacy_parse t s
             ltac:(unfold maxTime; lia) E).
  rewrite Z_toString_four by exact Hy. split; [reflexivity | ].
  rewrite !length_app, !pad_length. reflexivity.
Qed.

Lemma toLocalInput_shows_local_time_witness :
  toLocalInput 3600000 (fun _ => NaN) (Text (str "2026-01-26T06:15:00.000Z"))
    = str "2026-01-26T07:15".
Proof.
  refine (proj1 (toLocalInput_shows_local_time 3600000 (fun _ => NaN)
                   1769408100000 (str "2026-01-26T06:15:00.000Z") _ _ _)).
  - vm_compute. discriminate.
  - vm_compute. split; discriminate.
  - vm_compute. reflexivity.
Defined.

Lemma decimal_chars (fuel : nat) :
  forall n c, In c (decimal fuel n) -> is_digit c = true.
Proof.
  induction fuel as [ | fuel IH]; intros n c H; [destruct H | ].
  cbn [decimal] in H. apply in_app_or in H. destruct H as [H | [<- | []]].
  - destruct (n <? 10); [destruct H | exact (IH _ _ H)].
  - apply digit_char_value. pose proof (Z.mod_pos_bound n 10). lia.
Qed.

Lemma Z_toString_chars (n : Z) (c : ascii) :
  In c (Z_toString n) -> is_field_char c = true.
Proof.
  unfold Z_toString, is_field_char. destruct (n <? 0); intros H.
  - destruct H as [<- | H]; [reflexivity | ].
    now rewrite (decimal_chars _ _ _ H).
  - now rewrite (decimal_chars _ _ _ H).
Qed.

Lemma toLocalInput_pad_chars (n : Z) (c : ascii) :
  In c (toLocalInput_pad (Int n)) -> is_field_char c = true.
Proof.
  unfold toLocalInput_pad. destruct (num_ltb (Int n) (Int 10)); cbn [Number_toString].
  - intros [<- | H]; [reflexivity | exact (Z_toString_chars _ _ H)].
  - apply Z_toString_chars.
Qed.

Lemma toLocalInput_chars (tz : Z) (legacy_parse : list ascii -> number)
    (iso : value) (c : ascii) :
  In c (toLocalInput tz legacy_parse iso) -> is_field_char c = true.
Proof.
  unfold toLocalInput. destruct (negb (is_truthy iso)); [intros [] | ].
  destruct (new_Date_of tz legacy_parse iso) as [t | ]; [ | intros []].
  unfold getFullYear, getMonth, getDate, getHours, getMinutes, num_add,
    num_map2, Number_toString.
  intros H.
  repeat (apply in_app_or in H; destruct H as [H | H]);
    first [ exact (Z_toString_chars _ _ H)
          | exact (toLocalInput_pad_chars _ _ H)
          | destruct H as [<- | []]; reflexivity ].
Qed.

Lemma escapeHtml_plain (s : list ascii) :
  (forall c, In c s -> escape_character c = [c]) -> escapeHtml s = s.
Proof.
  induction s as [ | c s IH]; intros H; [reflexivity | ].
  rewrite escapeHtml_cons, (H c) by now left.
  cbn [app]. f_equal. apply IH. intros x Hx. apply H. now right.
Qed.

Lemma field_char_plain (c : ascii) :
  is_field_char c = true -> escape_character c = [c] /\ is_markup c = false.
Proof.
  assert (H0 : forallb (fun c => negb (is_field_char c)
                 || (bool_decide (escape_character c = [c])
                     && negb (is_markup c))) all_ascii = true)
    by (vm_compute; reflexivity).
  pose proof (forall_ascii _ H0 c) as H; cbv beta in H; clear H0.
  intros F. rewrite F in H. cbn [negb orb] in H.
  apply andb_true_iff in H. destruct H as [H1 H2].
  apply bool_decide_eq_true_1 in H1. apply negb_true_iff in H2. now split.
Qed.

(** X10. Whatever the due date of a task is (a string in any format,
    or any other value) and however the implementation reads an unknown
    format, [toLocalInput] returns only digits, hyphens, [T] and colons:
    the one value that [renderTasks] puts into the markup without
    escaping needs none.  For a missing or empty due date, and for one
    that is no date, it returns the empty string. *)
Theorem toLocalInput_needs_no_escaping (tz : Z)
    (legacy_parse : list ascii -> number) (iso : value) :
  (forall c, In c (toLocalInput tz legacy_parse iso) -> is_field_char c = true) /\
  escapeHtml (toLocalInput tz legacy_parse iso) = toLocalInput tz legacy_parse iso /\
  toLocalInput tz legacy_parse Null = [] /\
  toLocalInput tz legacy_parse Undefined = [] /\
  toLocalInput tz legacy_parse (Text []) = [] /\
  (new_Date_of tz legacy_parse iso = NaN -> toLocalInput tz legacy_parse iso = []).
Proof.
  split; [apply toLocalInput_chars | ].
  split.
  { apply escapeHtml_plain. intros c H.
    apply toLocalInput_chars in H. now apply field_char_plain. }
  repeat split.
  intros E. unfold toLocalInput. rewrite E. now destruct (negb (is_truthy iso)).
Qed.

Lemma toLocalInput_needs_no_escaping_witness :
  new_Date_of 0 (fun _ => NaN) (Text (str "<script>")) = NaN /\
  toLocalInput 0 (fun _ => NaN) (Text (str "<script>")) = [].
Proof.
  split; [reflexivity | ].
  apply (toLocalInput_needs_no_escaping 0 (fun _ => NaN) (Text (str "<script>"))).
  reflexivity.
Defined.

(** The instant that the field of a task stands for. *)
Lemma local_field_read_back (tz t : Z) :
  Z.abs tz <= msPerDay -> 0 <= YearFromTime (LocalTime tz t) <= 9999 ->
  iso_time_value tz
    (pad 4 (YearFromTime (LocalTime tz t)) ++ str "-" ++
     pad 2 (MonthFromTime (LocalTime tz t) + 1) ++ str "-" ++
     pad 2 (DateFromTime (LocalTime tz t)) ++ str "T" ++
     pad 2 (HourFromTime (LocalTime tz t)) ++ str ":" ++
     pad 2 (MinFromTime (LocalTime tz t))) =
  Some (Int (t - LocalTime tz t mod msPerMinute)).
Proof.
  intros Htz Hy.
  pose proof (local_year_window tz t Htz Hy) as Ht.
  destruct (date_of_fields (LocalTime tz t)) as [ED [Hm Hd]].
  destruct (time_of_fields (LocalTime tz t)) as (ET & EL & Hh & Hmi & Hs & Hms).
  rewrite iso_time_value_local; try assumption; try lia.
  - replace (MonthFromTime (LocalTime tz t) + 1 - 1)
      with (MonthFromTime (LocalTime tz t)) by lia.
    rewrite <- ED. f_equal.
    assert (EM : MakeDate (Day (LocalTime tz t))
                   (MakeTime (HourFromTime (LocalTime tz t))
                             (MinFromTime (LocalTime tz t)) 0 0)
                 = LocalTime tz t - LocalTime tz t mod msPerMinute).
    { clear. unfold MakeDate, MakeTime, Day, HourFromTime, MinFromTime,
        msPerDay, msPerHour, msPerMinute, msPerSecond. zdiv. }
    rewrite EM. unfold UTC, LocalTime.
    replace (t + tz - (t + tz) mod msPerMinute - tz)
      with (t - (t + tz) mod msPerMinute) by lia.
    apply TimeClip_valid.
    pose proof (Z.mod_pos_bound (t + tz) msPerMinute ltac:(reflexivity)) as B.
    unfold msPerMinute, maxTime in *. lia.
  - now replace (MonthFromTime (LocalTime tz t) + 1 - 1)
      with (MonthFromTime (LocalTime tz t)) by lia.
Qed.

(** What [onSave] reads in the field that [toLocalInput] filled in. *)
Lemma onSave_of_shown_date (tz : Z) (legacy_parse : list ascii -> number)
    (t : Z) (s : list ascii) :
  Z.abs tz <= msPerDay ->
  1000 <= YearFromTime (LocalTime tz t) <= 9999 ->
  toISOString (Int t) = Ok s ->
  onSave_dueDate tz legacy_parse (toLocalInput tz legacy_parse (Text s)) =
    (do s' <- toISOString (Int (t - LocalTime tz t mod msPerMinute));
     Ok (Text s')).
Proof.
  intros Htz Hy E.
  pose proof (local_year_window tz t Htz ltac:(lia)) as Ht.
  rewrite (toLocalInput_of_iso tz legacy_parse t s
             ltac:(unfold maxTime; lia) E).
  rewrite Z_toString_four by exact Hy.
  pose proof (local_field_read_back tz t Htz ltac:(lia)) as P.
  remember (pad 4 (YearFromTime (LocalTime tz t)) ++ str "-" ++
            pad 2 (MonthFromTime (LocalTime tz t) + 1) ++ str "-" ++
            pad 2 (DateFromTime (LocalTime tz t)) ++ str "T" ++
            pad 2 (HourFromTime (LocalTime tz t)) ++ str ":" ++
            pad 2 (MinFromTime (LocalTime tz t))) as field eqn:EF.
  clear EF. destruct field as [ | c field]; [discriminate | ].
  unfold onSave_dueDate, new_Date_of, Date_parse. now rewrite P.
Qed.

(** Dropping the seconds of the local time leaves the date, the hour and
    the minute. *)
Lemma local_minute_fields (tz t : Z) :
  let t' := t - LocalTime tz t mod msPerMinute in
  Day (LocalTime tz t') = Day (LocalTime tz t) /\
  HourFromTime (LocalTime tz t') = HourFromTime (LocalTime tz t) /\
  MinFromTime (LocalTime tz t') = MinFromTime (LocalTime tz t) /\
  LocalTime tz t' mod msPerMinute = 0.
Proof.
  cbv zeta.
  unfold Day, HourFromTime, MinFromTime, LocalTime, msPerDay, msPerHour,
    msPerMinute.
  repeat split; zdiv.
Qed.

(** X11. Saving a task whose date field was not touched keeps what the
    field shows: for the ISO string of an instant whose local year has
    four digits, [onSave] makes of the field that [toLocalInput] filled
    in an ISO string that is shown as the same date and time; and saving
    once more, untouched again, gives that very string. *)
Theorem onSave_keeps_what_is_shown (tz : Z)
    (legacy_parse : list ascii -> number) (t : Z) (s : list ascii) :
  Z.abs tz <= msPerDay ->
  1000 <= YearFromTime (LocalTime tz t) <= 9999 ->
  toISOString (Int t) = Ok s ->
  exists s',
    onSave_dueDate tz legacy_parse (toLocalInput tz legacy_parse (Text s))
    = Ok (Text s') /\
    toLocalInput tz legacy_parse (Text s')
    = toLocalInput tz legacy_parse (Text s) /\
    onSave_dueDate tz legacy_parse (toLocalInput tz legacy_parse (Text s'))
    = Ok (Text s').
Proof.
  intros Htz Hy E.
  pose proof (local_year_window tz t Htz ltac:(lia)) as Ht.
  destruct (local_minute_fields tz t) as (FD & FH & FM & F0).
  set (t' := t - LocalTime tz t mod msPerMinute) in *.
  assert (Ht' : Z.abs t' <= maxTime).
  { subst t'. pose proof (Z.mod_pos_bound (LocalTime tz t) msPerMinute
                            ltac:(unfold msPerMinute; lia)).
    unfold maxTime, msPerMinute in *. lia. }
  assert (FY : YearFromTime (LocalTime tz t') = YearFromTime (LocalTime tz t))
    by (unfold YearFromTime; now rewrite FD).
  destruct (toISOString_read_back tz t' Ht') as (s' & E' & _ & _).
  exists s'.
  rewrite (onSave_of_shown_date tz legacy_parse t s Htz Hy E).
  fold t'. rewrite E'. split; [reflexivity | ]. split.
  - rewrite (toLocalInput_of_iso tz legacy_parse t' s' Ht' E').
    rewrite (toLocalInput_of_iso tz legacy_parse t s
               ltac:(unfold maxTime; lia) E).
    assert (FMo : MonthFromTime (LocalTime tz t')
                  = MonthFromTime (LocalTime tz t))
      by (unfold MonthFromTime, DayWithinYear, InLeapYear; now rewrite FY, FD).
    assert (FDa : DateFromTime (LocalTime tz t')
                  = DateFromTime (LocalTime tz t))
      by (unfold DateFromTime, DayWithinYear, InLeapYear;
          now rewrite FMo, FY, FD).
    rewrite FY, FMo, FDa, FH, FM. reflexivity.
  - rewrite (onSave_of_shown_date tz legacy_parse t' s' Htz
               ltac:(rewrite FY; exact Hy) E').
    rewrite F0, Z.sub_0_r, E'. reflexivity.
Qed.

(** An instant with seconds: 06:15:42 UTC is shown as 07:15 one hour
    east, and saved as 06:15:00 UTC. *)
Lemma onSave_keeps_what_is_shown_witness :
  exists s',
    onSave_dueDate 3600000 (fun _ => NaN)
      (toLocalInput 3600000 (fun _ => NaN)
         (Text (str "2026-01-26T06:15:42.000Z")))
    = Ok (Text s') /\
    toLocalInput 3600000 (fun _ => NaN) (Text s')
    = toLocalInput 3600000 (fun _ => NaN)
        (Text (str "2026-01-26T06:15:42.000Z")) /\
    onSave_dueDate 3600000 (fun _ => NaN)
      (toLocalInput 3600000 (fun _ => NaN) (Text s'))
    = Ok (Text s').
Proof.
  apply (onSave_keeps_what_is_shown 3600000 (fun _ => NaN) 1769408142000
           (str "2026-01-26T06:15:42.000Z")).
  - vm_compute. discriminate.
  - vm_compute. split; discriminate.
  - vm_compute. reflexivity.
Defined.

(** * Further properties of the content script *)

(** ** Every date found is a local midnight *)

Lemma new_Date_midnight (tz y m d : Z) :
  Z.abs tz <= msPerDay ->
  Z.abs (y - 1970) <= 255000 -> -1 <= m <= 98 -> 0 <= d <= 100 ->
  local_midnight tz (new_Date tz (Int y) (Int m) (Int d)).
Proof.
  intros Htz Hy Hm Hd.
  destruct (new_Date_value tz y m d Htz Hy Hm Hd) as (days & -> & B).
  exists days. split; [reflexivity | lia].
Qed.

Lemma midnight_of_days (tz days : Z) :
  Z.abs tz <= msPerDay -> Z.abs days <= 96000000 ->
  TimeClip (UTC tz (MakeDate days 0)) = Int (days * msPerDay - tz).
Proof.
  intros Htz Hd.
  destruct (in_reach_days tz days 0 Hd ltac:(unfold msPerDay; lia) Htz) as [-> _].
  unfold MakeDate. f_equal. lia.
Qed.

Lemma try_iso_midnight (tz : Z) (text : list ascii) (d : Date) :
  Z.abs tz <= msPerDay -> try_iso tz text = Some d -> local_midnight tz d.
Proof.
  intros Htz H. unfold try_iso in H.
  destruct (exec DATE_PATTERNS.iso text) as [cs | ] eqn:E; [ | discriminate].
  destruct (exec_matches _ _ _ E) as (st & st' & M).
  apply iso_captures in M.
  destruct M as (y & m & dd & -> & Dy & Ly & Dm & Lm & Dd & Ld).
  cbn [cap Nat.eqb parseInt_value] in H.
  destruct (four_digits_value y Dy Ly) as (vy & Ey & By).
  destruct (two_digits_value m Dm Lm) as (vm & Em & Bm).
  destruct (two_digits_value dd Dd Ld) as (vd & Ed & Bd).
  rewrite Ey, Em, Ed in H. cbn [num_sub num_map2] in H. injection H as <-.
  apply new_Date_midnight; try assumption; lia.
Qed.

Lemma try_monthDayYear_midnight (tz : Z) (text : list ascii) :
  Z.abs tz <= msPerDay ->
  exists od, try_monthDayYear tz text = Ok od /\
    forall d, od = Some d -> local_midnight tz d.
Proof.
  intros Htz. unfold try_monthDayYear.
  destruct (exec DATE_PATTERNS.monthDayYear text) as [cs | ] eqn:E.
  - destruct (exec_matches _ _ _ E) as (st & st' & M).
    apply monthDayYear_captures in M.
    destruct M as (mon & day & year & -> & -> & -> & Bm & Dd & Ld & Dy & Ly).
    cbn [parseMonth_value result_bind parseInt_value].
    destruct (hour_value day Dd Ld) as (vd & -> & Bd).
    destruct (four_digits_value year Dy Ly) as (vy & -> & By).
    destruct (Z.eqb_spec (parseMonth mon) (-1)) as [F | _]; [lia | ].
    cbn [negb]. eexists. split; [reflexivity | ].
    intros d H. injection H as <-.
    apply new_Date_midnight; try assumption; lia.
  - exists None. split; [reflexivity | discriminate].
Qed.

Lemma rolled_date_midnight (tz now m vd : Z) :
  Z.abs tz <= msPerDay -> Z.abs now <= clock_bound ->
  0 <= m <= 11 -> 0 <= vd <= 99 ->
  local_midnight tz
    (if num_ltb (new_Date tz (getFullYear tz (Int now)) (Int m) (Int vd)) (Int now)
     then setFullYear tz
            (new_Date tz (getFullYear tz (Int now)) (Int m) (Int vd))
            (num_add (getFullYear tz (Int now)) (Int 1))
     else new_Date tz (getFullYear tz (Int now)) (Int m) (Int vd)).
Proof.
  intros Htz Hnow Hm Hd.
  pose proof (local_year_bounded tz now Htz Hnow) as BY.
  unfold getFullYear.
  remember (YearFromTime (LocalTime tz now)) as Y eqn:EY. clear EY.
  destruct (new_Date_value tz Y m vd Htz) as (days & E & BD);
    [lia | lia | lia | ].
  rewrite E. clear E.
  destruct (num_ltb (Int (days * msPerDay - tz)) (Int now)).
  - unfold setFullYear, num_add, num_map2, LocalTime.
    replace (days * msPerDay - tz + tz) with (days * msPerDay) by lia.
    destruct (Day_of_midnight days) as [_ ET]. rewrite ET. clear ET.
    pose proof (MonthFromTime_range (days * msPerDay)) as RM.
    pose proof (DateFromTime_range (days * msPerDay)) as RD.
    remember (MonthFromTime (days * msPerDay)) as M eqn:EM. clear EM.
    remember (DateFromTime (days * msPerDay)) as D eqn:ED. clear ED.
    pose proof (MakeDay_bounded (Y + 1) M D ltac:(lia) ltac:(lia)) as B.
    rewrite midnight_of_days by (try assumption; lia).
    eexists. split; [reflexivity | lia].
  - exists days. split; [reflexivity | lia].
Qed.

Lemma try_monthDay_midnight (tz now : Z) (text : list ascii) :
  Z.abs tz <= msPerDay -> Z.abs now <= clock_bound ->
  exists od, try_monthDay tz now text = Ok od /\
    forall d, od = Some d -> local_midnight tz d.
Proof.
  intros Htz Hnow. unfold try_monthDay.
  destruct (exec DATE_PATTERNS.monthDay text) as [cs | ] eqn:E.
  - destruct (exec_matches _ _ _ E) as (st & st' & M).
    apply monthDay_captures in M.
    destruct M as (mon & day & -> & -> & Bm & Dd & Ld).
    cbn [parseMonth_value result_bind parseInt_value].
    destruct (hour_value day Dd Ld) as (vd & -> & Bd).
    destruct (Z.eqb_spec (parseMonth mon) (-1)) as [F | _]; [lia | ].
    cbn [negb]. eexists. split; [reflexivity | ].
    intros d H.
    apply (f_equal (fun o => match o with Some x => x | None => d end)) in H.
    cbv beta iota in H. subst d.
    apply rolled_date_midnight; assumption.
  - exists None. split; [reflexivity | discriminate].
Qed.

(** The day after a local midnight. *)
Lemma tomorrow_of_midnight (tz days : Z) :
  Z.abs tz <= msPerDay -> Z.abs days <= 95000000 ->
  setDate tz (Int (days * msPerDay - tz))
    (num_add (getDate tz (Int (days * msPerDay - tz))) (Int 1))
  = Int ((days + 1) * msPerDay - tz).
Proof.
  intros Htz Hd.
  unfold setDate, getDate, num_add, num_map2, LocalTime.
  replace (days * msPerDay - tz + tz) with (days * msPerDay) by lia.
  destruct (Day_of_midnight days) as [EDay ET]. rewrite ET.
  assert (EM : MakeDay (YearFromTime (days * msPerDay))
                       (MonthFromTime (days * msPerDay))
                       (DateFromTime (days * msPerDay) + 1)
               = days + 1).
  { destruct (date_of_fields (days * msPerDay)) as [ED' [RM' _]].
    rewrite EDay in ED'.
    rewrite MakeDay_in_year by exact RM'.
    rewrite MakeDay_in_year in ED' by exact RM'. lia. }
  rewrite EM. apply midnight_of_days; [exact Htz | lia].
Qed.

(** Today: the local midnight that starts the day of [now]. *)
Lemma today_value (tz now : Z) :
  Z.abs tz <= msPerDay -> Z.abs now <= clock_bound ->
  100 <= YearFromTime (LocalTime tz now) ->
  new_Date tz (getFullYear tz (Int now)) (getMonth tz (Int now))
              (getDate tz (Int now))
  = Int (Day (LocalTime tz now) * msPerDay - tz).
Proof.
  intros Htz Hnow HY.
  destruct (date_of_fields (LocalTime tz now)) as [ED _].
  assert (BD : Z.abs (Day (LocalTime tz now)) <= 92600000)
    by (unfold Day, LocalTime, msPerDay, clock_bound in *; zdiv).
  unfold getFullYear, getMonth, getDate, new_Date.
  remember (YearFromTime (LocalTime tz now)) as Y eqn:EY.
  remember (MonthFromTime (LocalTime tz now)) as M eqn:EM.
  remember (DateFromTime (LocalTime tz now)) as D eqn:EDt.
  remember (Day (LocalTime tz now)) as days eqn:Edays.
  clear EY EM EDt Edays.
  destruct (Z.leb_spec Y 99) as [F | _]; [lia | ].
  rewrite andb_false_r. rewrite <- ED. unfold MakeTime.
  replace (0 * msPerHour + 0 * msPerMinute + 0 * msPerSecond + 0) with 0 by reflexivity.
  apply midnight_of_days; [exact Htz | lia].
Qed.

Lemma try_relative_midnight (tz now : Z) (text : list ascii) (d : Date) :
  Z.abs tz <= msPerDay -> Z.abs now <= clock_bound ->
  try_relative tz now text = Some d -> local_midnight tz d.
Proof.
  intros Htz Hnow H. unfold try_relative in H.
  destruct (exec DATE_PATTERNS.relative (toLowerCase text)) as [cs | ];
    [ | discriminate].
  apply (f_equal (fun o => match o with Some x => x | None => d end)) in H.
  cbv beta iota in H. subst d.
  pose proof (local_year_bounded tz now Htz Hnow) as BY.
  pose proof (MonthFromTime_range (LocalTime tz now)) as RM.
  pose proof (DateFromTime_range (LocalTime tz now)) as RD.
  remember (new_Date tz (getFullYear tz (Int now)) (getMonth tz (Int now))
              (getDate tz (Int now))) as base eqn:EB.
  unfold getFullYear, getMonth, getDate in EB.
  destruct (new_Date_value tz (YearFromTime (LocalTime tz now))
              (MonthFromTime (LocalTime tz now))
              (DateFromTime (LocalTime tz now)) Htz) as (days & E & BD);
    [lia | lia | lia | ].
  rewrite E in EB. clear E. subst base.
  destruct (bool_decide _).
  - rewrite tomorrow_of_midnight by (try assumption; lia).
    eexists. split; [reflexivity | lia].
  - exists days. split; [reflexivity | lia].
Qed.

Lemma parseDate_midnight (tz now : Z) (text : list ascii) :
  Z.abs tz <= msPerDay -> Z.abs now <= clock_bound ->
  exists od, parseDate tz now text = Ok od /\
             forall d, od = Some d -> local_midnight tz d.
Proof.
  intros Htz Hnow. unfold parseDate.
  destruct (try_iso tz text) as [d | ] eqn:I.
  - exists (Some d). split; [reflexivity | ]. intros d' H. injection H as <-.
    eapply try_iso_midnight; eassumption.
  - destruct (try_monthDayYear_midnight tz text Htz) as (o1 & -> & R1).
    cbn [result_bind]. destruct o1 as [d | ].
    + exists (Some d). split; [reflexivity | exact R1].
    + destruct (try_monthDay_midnight tz now text Htz Hnow) as (o2 & -> & R2).
      cbn [result_bind]. destruct o2 as [d | ].
      * exists (Some d). split; [reflexivity | exact R2].
      * eexists. split; [reflexivity | ]. intros d H.
        eapply try_relative_midnight; eassumption.
Qed.

(** ** The due date: a local day and a time of day *)

Lemma setHours_of_midnight (tz days h m : Z) :
  Z.abs tz <= msPerDay -> Z.abs days <= 96000000 ->
  0 <= h <= 23 -> 0 <= m <= 99 ->
  setHours tz (Int (days * msPerDay - tz)) (Int h) (Int m) (Int 0) (Int 0)
  = Int (days * msPerDay + h * msPerHour + m * msPerMinute - tz).
Proof.
  intros Htz Hd Hh Hm. unfold setHours, LocalTime.
  replace (days * msPerDay - tz + tz) with (days * msPerDay) by lia.
  destruct (Day_of_midnight days) as [-> _].
  unfold UTC, MakeDate, MakeTime.
  replace (days * msPerDay + (h * msPerHour + m * msPerMinute + 0 * msPerSecond + 0) - tz)
    with (days * msPerDay + h * msPerHour + m * msPerMinute - tz) by lia.
  apply TimeClip_valid.
  unfold msPerDay, msPerHour, msPerMinute, maxTime in *. lia.
Qed.

Lemma parsed_due_date (tz now : Z) (text s : list ascii) :
  Z.abs tz <= msPerDay -> Z.abs now <= clock_bound ->
  parseDateTimeFromText tz now text = Ok (Some s) ->
  exists days h m,
    parseDate tz now text = Ok (Some (Int (days * msPerDay - tz))) /\
    Z.abs days <= 96000000 /\
    (parseTime text = Some (mkTime (Int h) (Int m)) \/
     parseTime text = None /\ h = 0 /\ m = 0) /\
    0 <= h <= 23 /\ 0 <= m <= 99 /\
    toISOString
      (Int (days * msPerDay + h * msPerHour + m * msPerMinute - tz)) = Ok s.
Proof.
  intros Htz Hnow H. unfold parseDateTimeFromText in H.
  destruct (parseDate_midnight tz now text Htz Hnow) as (od & E & R).
  rewrite E in H. cbn [result_bind] in H.
  destruct od as [d | ]; [ | discriminate].
  destruct (R d eq_refl) as (days & -> & Bd).
  exists days.
  destruct (parseTime text) as [tm | ] eqn:T.
  - destruct (parseTime_bounds _ _ T) as (h & m & -> & Bh & Bm).
    cbn [hours minutes] in H.
    rewrite setHours_of_midnight in H by assumption.
    exists h, m. repeat split; try assumption; try lia.
    + now left.
    + unfold toISOString in *. cbn [result_bind] in H. now injection H as <-.
  - exists 0, 0. repeat split; try assumption; try lia.
    + right. repeat split.
    + unfold toISOString in *. cbn [result_bind] in H. injection H as <-.
      replace (days * msPerDay + 0 * msPerHour + 0 * msPerMinute - tz)
        with (days * msPerDay - tz) by lia.
      reflexivity.
Qed.

(** X12. The time of day leaves the deadline on its day.  The due date
    of a text is the date found in it when no time is found.  When a
    time is found, the due date falls on the calendar day of the date
    found, with one exception: at 23 hours, minutes from 60 to 99, which
    the parser lets through, carry it over to the next day. *)
Theorem time_of_day_keeps_the_date (tz now : Z) (text s : list ascii) :
  Z.abs tz <= msPerDay -> Z.abs now <= clock_bound ->
  parseDateTimeFromText tz now text = Ok (Some s) ->
  exists d t,
    parseDate tz now text = Ok (Some (Int d)) /\
    toISOString (Int t) = Ok s /\
    match parseTime text with
    | Some time =>
        exists h m,
          time = mkTime (Int h) (Int m) /\ 0 <= h <= 23 /\ 0 <= m <= 99 /\
          Day (LocalTime tz t)
          = Day (LocalTime tz d) + (if (h =? 23) && (60 <=? m) then 1 else 0)
    | None => t = d
    end.
Proof.
  intros Htz Hnow H.
  destruct (parsed_due_date tz now text s Htz Hnow H)
    as (days & h & m & E & _ & T & Bh & Bm & S).
  exists (days * msPerDay - tz),
    (days * msPerDay + h * msPerHour + m * msPerMinute - tz).
  split; [exact E | ]. split; [exact S | ].
  destruct T as [T | (T & -> & ->)]; rewrite T.
  - exists h, m. split; [reflexivity | ]. split; [exact Bh | ].
    split; [exact Bm | ].
    unfold Day, LocalTime, msPerDay, msPerHour, msPerMinute.
    destruct (Z.eqb_spec h 23) as [-> | Nh];
      destruct (Z.leb_spec 60 m); cbn [andb]; zdiv.
  - unfold msPerHour, msPerMinute. lia.
Qed.

(** A deadline at 23:75: the date found is the 26th, the due date is
    00:15 on the 27th. *)
Lemma time_of_day_keeps_the_date_witness :
  exists d t,
    parseDate 0 0 (str "Due 2026-01-26 at 23:75") = Ok (Some (Int d)) /\
    toISOString (Int t) = Ok (str "2026-01-27T00:15:00.000Z") /\
    match parseTime (str "Due 2026-01-26 at 23:75") with
    | Some time =>
        exists h m,
          time = mkTime (Int h) (Int m) /\ 0 <= h <= 23 /\ 0 <= m <= 99 /\
          Day (LocalTime 0 t)
          = Day (LocalTime 0 d) + (if (h =? 23) && (60 <=? m) then 1 else 0)
    | None => t = d
    end.
Proof.
  apply (time_of_day_keeps_the_date 0 0 (str "Due 2026-01-26 at 23:75")).
  - vm_compute. discriminate.
  - vm_compute. discriminate.
  - vm_compute. reflexivity.
Defined.

(** X13. A scraped due date goes through the popup unchanged: when its
    local year has four digits, the date and time field that
    [toLocalInput] fills in for it is read by [onSave] as the same ISO
    string. *)
Theorem scraped_due_date_survives_the_form (tz now : Z)
    (legacy_parse : list ascii -> number) (text s : list ascii) :
  Z.abs tz <= msPerDay -> Z.abs now <= clock_bound ->
  parseDateTimeFromText tz now text = Ok (Some s) ->
  (forall t, new_Date_of tz legacy_parse (Text s) = Int t ->
             1000 <= YearFromTime (LocalTime tz t) <= 9999) ->
  onSave_dueDate tz legacy_parse (toLocalInput tz legacy_parse (Text s))
  = Ok (Text s).
Proof.
  intros Htz Hnow H HY.
  destruct (parsed_due_date tz now text s Htz Hnow H)
    as (days & h & m & _ & Bd & _ & Bh & Bm & S).
  remember (days * msPerDay + h * msPerHour + m * msPerMinute - tz) as t eqn:Et.
  assert (Ht : Z.abs t <= maxTime)
    by (unfold msPerDay, msPerHour, msPerMinute, maxTime in *; lia).
  assert (Z0 : LocalTime tz t mod msPerMinute = 0)
    by (subst t; unfold LocalTime, msPerDay, msPerHour, msPerMinute; zdiv).
  clear Et.
  destruct (toISOString_read_back tz t Ht) as (s' & E' & _ & R).
  rewrite S in E'. injection E' as <-.
  assert (Y : 1000 <= YearFromTime (LocalTime tz t) <= 9999).
  { apply HY. unfold new_Date_of, Date_parse. now rewrite R. }
  rewrite (toLocalInput_of_iso tz legacy_parse t s Ht S).
  rewrite Z_toString_four by exact Y.
  pose proof (local_field_read_back tz t Htz ltac:(lia)) as P.
  match type of P with iso_time_value _ ?f = _ =>
    remember f as field eqn:EF end.
  assert (Hne : field <> []).
  { subst field. intros F. apply (f_equal (@length ascii)) in F.
    rewrite !length_app, !pad_length in F. discriminate. }
  clear EF. destruct field as [ | c field]; [now elim Hne | ].
  unfold onSave_dueDate, new_Date_of, Date_parse. rewrite P.
  rewrite Z0, Z.sub_0_r, S. reflexivity.
Qed.

Lemma scraped_due_date_survives_the_form_witness :
  onSave_dueDate 3600000 (fun _ => NaN)
    (toLocalInput 3600000 (fun _ => NaN) (Text (str "2026-01-26T06:15:00.000Z")))
  = Ok (Text (str "2026-01-26T06:15:00.000Z")).
Proof.
  apply (scraped_due_date_survives_the_form 3600000 0 (fun _ => NaN)
           (str "Due 2026-01-26 at 7:15")).
  - vm_compute. discriminate.
  - vm_compute. discriminate.
  - vm_compute. reflexivity.
  - intros t E. vm_compute in E. injection E as <-.
    vm_compute. split; discriminate.
Defined.

(** ** Today and tomorrow *)

(** X14. When no other date pattern matches and the text has the word
    today or tomorrow, the date is on the calendar day of the clock, or
    on the following one: tomorrow is the next day of the calendar also
    on the last day of a month or of a year.  The date found for today
    is never after the clock, so a deadline "today" without a time is
    already past; the one found for tomorrow is always after it.  (The
    clock is taken to show a year from 100 on: [new Date(y, m, d)] reads
    a year below 100 as 19yy.) *)
Theorem relative_dates (tz now : Z) (text : list ascii) (cs : captures) :
  Z.abs tz <= msPerDay -> Z.abs now <= clock_bound ->
  100 <= YearFromTime (LocalTime tz now) ->
  exec DATE_PATTERNS.iso text = None ->
  exec DATE_PATTERNS.monthDayYear text = None ->
  exec DATE_PATTERNS.monthDay text = None ->
  exec DATE_PATTERNS.relative (toLowerCase text) = Some cs ->
  exists t,
    parseDate tz now text = Ok (Some (Int t)) /\
    if bool_decide (cap cs 1 = Some (str "tomorrow"))
    then Day (LocalTime tz t) = Day (LocalTime tz now) + 1 /\ now < t
    else Day (LocalTime tz t) = Day (LocalTime tz now) /\ t <= now.
Proof.
  intros Htz Hnow HY E1 E2 E3 E4.
  exists ((Day (LocalTime tz now)
           + (if bool_decide (cap cs 1 = Some (str "tomorrow"))
              then 1 else 0)) * msPerDay - tz).
  split.
  - unfold parseDate, try_iso, try_monthDayYear, try_monthDay, try_relative.
    rewrite E1, E2. cbn [result_bind]. rewrite E3. cbn [result_bind].
    rewrite E4. do 2 f_equal.
    rewrite (today_value tz now Htz Hnow HY).
    assert (BD : Z.abs (Day (LocalTime tz now)) <= 92600000)
      by (unfold Day, LocalTime, msPerDay, clock_bound in *; zdiv).
    destruct (bool_decide (cap cs 1 = Some (str "tomorrow"))).
    + apply tomorrow_of_midnight; [exact Htz | lia].
    + f_equal. lia.
  - destruct (bool_decide (cap cs 1 = Some (str "tomorrow")));
      unfold Day, LocalTime, msPerDay; split; zdiv.
Qed.

(** 23:30 UTC on 2026-12-31, in a zone one hour east: local time is
    00:30 on 2027-01-01, and tomorrow is 2027-01-02. *)
Lemma relative_dates_witness :
  exists t,
    parseDate 3600000 1798759800000 (str "Due TOMORROW") = Ok (Some (Int t)) /\
    Day (LocalTime 3600000 t) = Day (LocalTime 3600000 1798759800000) + 1 /\
    1798759800000 < t.
Proof.
  apply (relative_dates 3600000 1798759800000 (str "Due TOMORROW")
           [(1%nat, str "tomorrow")]).
  - vm_compute. discriminate.
  - vm_compute. discriminate.
  - vm_compute. discriminate.
  - vm_compute. reflexivity.
  - vm_compute. reflexivity.
  - vm_compute. reflexivity.
  - vm_compute. reflexivity.
Defined.

(** ** A day that the month does not have *)

Lemma MakeDay_overflow (y m d : Z) :
  0 <= m <= 11 ->
  MakeDay y m d =
  MakeDay (if m =? 11 then y + 1 else y) (if m =? 11 then 0 else m + 1)
          (d - days_in_month y m).
Proof.
  intros Hm. destruct (Z.eqb_spec m 11) as [-> | Hn].
  - rewrite !MakeDay_in_year by lia. unfold days_in_month. cbn [month_start].
    destruct (is_leap_cases y) as [[L E] | [L E]]; rewrite E, L; lia.
  - rewrite !MakeDay_in_year by lia. unfold days_in_month.
    destruct (is_leap y); month_cases m; try lia;
      match goal with
      | |- context [month_start ?l (?a + 1)] =>
          let v := eval vm_compute in (month_start l (a + 1)) in
          change (month_start l (a + 1)) with v
      end; cbn [month_start]; lia.
Qed.

Lemma new_Date_overflow (tz y m d : Z) :
  100 <= y -> 0 <= m <= 11 ->
  new_Date tz (Int y) (Int m) (Int d) =
  new_Date tz (Int (if m =? 11 then y + 1 else y))
              (Int (if m =? 11 then 0 else m + 1))
              (Int (d - days_in_month y m)).
Proof.
  intros Hy Hm. unfold new_Date.
  destruct (Z.leb_spec y 99) as [F | _]; [lia | ]. rewrite andb_false_r.
  destruct (Z.leb_spec (if m =? 11 then y + 1 else y) 99) as [F | _];
    [destruct (m =? 11); lia | ].
  rewrite andb_false_r. now rewrite (MakeDay_overflow y m d Hm).
Qed.

(** X15. The day of a date is not checked against its month: when
    the ISO date of a text names a day that its month does not have
    (but at most 28 days past its end), the date found is that many days
    into the following month, so 2026-02-30 is read as the second of
    March. *)
Theorem day_overflows_into_next_month (tz now : Z) (text : list ascii)
    (cs : captures) (y m d : Z) :
  Z.abs tz <= msPerDay ->
  exec DATE_PATTERNS.iso text = Some cs ->
  parseInt_value (cap cs 1) = Int y ->
  parseInt_value (cap cs 2) = Int (m + 1) ->
  parseInt_value (cap cs 3) = Int d ->
  100 <= y < 250000 -> 0 <= m <= 11 ->
  days_in_month y m < d <= days_in_month y m + 28 ->
  exists date,
    parseDate tz now text = Ok (Some date) /\
    getFullYear tz date = Int (if m =? 11 then y + 1 else y) /\
    getMonth tz date = Int (if m =? 11 then 0 else m + 1) /\
    getDate tz date = Int (d - days_in_month y m).
Proof.
  intros Htz E Ey Em Ed Hy Hm Hd.
  eexists. split.
  - unfold parseDate, try_iso. rewrite E, Ey, Em, Ed.
    cbn [num_sub num_map2]. replace (m + 1 - 1) with m by lia. reflexivity.
  - rewrite new_Date_overflow by lia.
    apply new_Date_fields; [exact Htz | destruct (m =? 11); lia | ].
    split; [destruct (Z.eqb_spec m 11); lia | ].
    destruct (Z.eqb_spec m 11) as [-> | Hn].
    + unfold days_in_month in *. lia.
    + month_cases m; try lia;
        match goal with
        | |- context [days_in_month y (?a + 1)] =>
            let v := eval vm_compute in (a + 1) in change (a + 1) with v
        end;
        unfold days_in_month in *; destruct (is_leap y); lia.
Qed.

Lemma day_overflows_into_next_month_witness :
  exists date,
    parseDate 0 0 (str "Due 2026-02-30") = Ok (Some date) /\
    getFullYear 0 date = Int 2026 /\ getMonth 0 date = Int 2 /\
    getDate 0 date = Int 2.
Proof.
  apply (day_overflows_into_next_month 0 0 (str "Due 2026-02-30")
           [(3%nat, str "30"); (2%nat, str "02"); (1%nat, str "2026")] 2026 1 30).
  - vm_compute. discriminate.
  - vm_compute. reflexivity.
  - vm_compute. reflexivity.
  - vm_compute. reflexivity.
  - vm_compute. reflexivity.
  - lia.
  - lia.
  - vm_compute. split; [reflexivity | discriminate].
Defined.

(** ** Years below 100, and the 29th of February *)

(** X16. A year below 100 is read as a year of the twentieth century:
    when the ISO date of a text has the year 00yy, the date found is
    that day of the year 19yy. *)
Theorem year_below_100_is_19yy (tz now : Z) (text : list ascii)
    (cs : captures) (y m d : Z) :
  Z.abs tz <= msPerDay ->
  exec DATE_PATTERNS.iso text = Some cs ->
  parseInt_value (cap cs 1) = Int y ->
  parseInt_value (cap cs 2) = Int (m + 1) ->
  parseInt_value (cap cs 3) = Int d ->
  0 <= y <= 99 -> valid_date (1900 + y) m d ->
  exists date,
    parseDate tz now text = Ok (Some date) /\
    getFullYear tz date = Int (1900 + y) /\
    getMonth tz date = Int m /\ getDate tz date = Int d.
Proof.
  intros Htz E Ey Em Ed Hy V.
  eexists. split.
  - unfold parseDate, try_iso. rewrite E, Ey, Em, Ed.
    cbn [num_sub num_map2]. replace (m + 1 - 1) with m by lia. reflexivity.
  - assert (Q : new_Date tz (Int y) (Int m) (Int d)
                = new_Date tz (Int (1900 + y)) (Int m) (Int d)).
    { unfold new_Date.
      destruct (Z.leb_spec 0 y); [ | lia]. destruct (Z.leb_spec y 99); [ | lia].
      destruct (Z.leb_spec (1900 + y) 99); [lia | ].
      rewrite andb_false_r. reflexivity. }
    rewrite Q. apply new_Date_fields; [exact Htz | lia | exact V].
Qed.

Lemma year_below_100_is_19yy_witness :
  exists date,
    parseDate 0 0 (str "Due 0026-01-05") = Ok (Some date) /\
    getFullYear 0 date = Int (1900 + 26) /\
    getMonth 0 date = Int 0 /\ getDate 0 date = Int 5.
Proof.
  apply (year_below_100_is_19yy 0 0 (str "Due 0026-01-05")
           [(3%nat, str "05"); (2%nat, str "01"); (1%nat, str "0026")]).
  - vm_compute. discriminate.
  - vm_compute. reflexivity.
  - vm_compute. reflexivity.
  - vm_compute. reflexivity.
  - vm_compute. reflexivity.
  - lia.
  - vm_compute. repeat split; discriminate.
Defined.

(** X17. The 29th of February is lost when the year is rolled
    forward.  Read in a year without one, "Feb 29" is the first of
    March of that year; when that day has passed, the date found is the
    first of March of the next year, also when the next year is a leap
    year and has a 29th of February. *)
Theorem leap_day_rolls_to_march (tz now Y : Z) :
  Z.abs tz <= msPerDay ->
  YearFromTime (LocalTime tz now) = Y -> 100 <= Y < 250000 ->
  is_leap Y = false ->
  MakeDate (MakeDay Y 2 1) 0 < LocalTime tz now ->
  exists date,
    parseDate tz now (str "Feb 29") = Ok (Some date) /\
    getFullYear tz date = Int (Y + 1) /\
    getMonth tz date = Int 2 /\ getDate tz date = Int 1.
Proof.
  intros Htz HY Hy L Past.
  assert (V : forall y, valid_date y 2 1)
    by (intros y; unfold valid_date, days_in_month; lia).
  assert (E1 : exec DATE_PATTERNS.iso (str "Feb 29") = None)
    by (vm_compute; reflexivity).
  assert (E2 : exec DATE_PATTERNS.monthDayYear (str "Feb 29") = None)
    by (vm_compute; reflexivity).
  assert (E3 : exec DATE_PATTERNS.monthDay (str "Feb 29")
               = Some [(2%nat, str "29"); (1%nat, str "Feb")])
    by (vm_compute; reflexivity).
  exists (new_Date tz (Int (Y + 1)) (Int 2) (Int 1)). split.
  - unfold parseDate, try_iso, try_monthDayYear, try_monthDay.
    rewrite E1, E2. cbn [result_bind]. rewrite E3.
    change (cap [(2%nat, str "29"); (1%nat, str "Feb")] 1) with (Some (str "Feb")).
    change (cap [(2%nat, str "29"); (1%nat, str "Feb")] 2) with (Some (str "29")).
    change (parseMonth_value (Some (str "Feb"))) with (@Ok Z 1).
    change (parseInt_value (Some (str "29"))) with (Int 29).
    cbn [result_bind]. change (negb (1 =? -1)) with true. cbv iota.
    unfold getFullYear. rewrite HY.
    rewrite (new_Date_overflow tz Y 1 29) by lia.
    change (1 =? 11) with false. cbv iota.
    change (1 + 1) with 2.
    replace (29 - days_in_month Y 1) with 1
      by (unfold days_in_month; rewrite L; reflexivity).
    rewrite (new_Date_local tz Y 2 1 Htz ltac:(lia) (V Y)).
    unfold num_ltb.
    destruct (Z.ltb_spec (MakeDate (MakeDay Y 2 1) 0 - tz) now) as [_ | F];
      [ | unfold LocalTime in Past; lia].
    rewrite <- (new_Date_local tz Y 2 1 Htz ltac:(lia) (V Y)).
    cbn [num_add num_map2].
    rewrite (setFullYear_next tz Y 2 1 Htz Hy (V Y)). reflexivity.
  - apply new_Date_fields; [exact Htz | lia | apply V].
Qed.

(** Read on the first of June 2027, "Feb 29" is the first of March 2028,
    a year that has a 29th of February. *)
Lemma leap_day_rolls_to_march_witness :
  is_leap 2028 = true /\
  exists date,
    parseDate 0 1811851200000 (str "Feb 29") = Ok (Some date) /\
    getFullYear 0 date = Int (2027 + 1) /\
    getMonth 0 date = Int 2 /\ getDate 0 date = Int 1.
Proof.
  split; [reflexivity | ].
  apply (leap_day_rolls_to_march 0 1811851200000 2027).
  - vm_compute. discriminate.
  - vm_compute. reflexivity.
  - lia.
  - reflexivity.
  - vm_compute. reflexivity.
Defined.

(** ** Titles *)

Lemma trimmed_text_nonempty (n : Node) (t : list ascii) :
  trimmed_text n = Some t -> t <> [].
Proof.
  unfold trimmed_text. destruct (innerText (elem n)) as [s | ]; [ | discriminate].
  destruct (trim s) as [ | c t'] eqn:E; [discriminate | ].
  now intros [= <-].
Qed.

Lemma heading_text_nonempty (doc : Document) (tag : string) (t : list ascii) :
  heading_text doc tag = Some t -> t <> [].
Proof.
  unfold heading_text. destruct (querySelector doc tag) as [h | ]; [ | discriminate].
  apply trimmed_text_nonempty.
Qed.

Lemma title_above_nonempty (body : option (list nat)) (cur : ElementRef)
    (t : list ascii) :
  title_above body cur = Some t -> t <> [].
Proof.
  induction cur as [ | l up IH]; [discriminate | ].
  cbn [title_above]. destruct (bool_decide (Some (path l) = body)); [discriminate | ].
  destruct (find _ (descendants (node l))) as [heading | ].
  - destruct (trimmed_text heading) as [t' | ] eqn:E.
    + intros [= <-]. now apply trimmed_text_nonempty in E.
    + destruct (previousElementSibling l) as [p | ]; [ | exact IH].
      destruct (tag_is _ p); [ | exact IH].
      destruct (trimmed_text p) as [t' | ] eqn:E'; [ | exact IH].
      intros [= <-]. now apply trimmed_text_nonempty in E'.
  - destruct (previousElementSibling l) as [p | ]; [ | exact IH].
    destruct (tag_is _ p); [ | exact IH].
    destruct (trimmed_text p) as [t' | ] eqn:E'; [ | exact IH].
    intros [= <-]. now apply trimmed_text_nonempty in E'.
Qed.

Lemma getTitle_nonempty (doc : Document) (e : ElementRef) :
  getTitle doc e <> [].
Proof.
  unfold getTitle.
  destruct (heading_text doc "h1") as [t | ] eqn:H1;
    [now apply heading_text_nonempty in H1 | ].
  destruct (heading_text doc "h2") as [t | ] eqn:H2;
    [now apply heading_text_nonempty in H2 | ].
  destruct (title_above (body_path doc) e) as [t | ] eqn:H3;
    [now apply title_above_nonempty in H3 | ].
  destruct (documentTitle doc); [discriminate | discriminate].
Qed.

(** ** What a pass returns *)

Lemma first_by_pair_subset (ts : list ScrapedTask) :
  forall pairs t, t ∈ first_by_pair pairs ts -> t ∈ ts.
Proof.
  induction ts as [ | x ts IH]; intros pairs t H; [exact H | ].
  cbn [first_by_pair] in H.
  destruct (bool_decide (task_pair x ∈ pairs)).
  - apply elem_of_cons. right. exact (IH _ _ H).
  - apply elem_of_cons in H. destruct H as [-> | H].
    + apply elem_of_cons. now left.
    + apply elem_of_cons. right. exact (IH _ _ H).
Qed.

Lemma timed_candidates_candidate (doc : Document) (clock : nat -> Z)
    (nc : Z * Candidate) :
  nc ∈ timed_candidates doc clock -> snd nc ∈ findCandidateElements doc.
Proof.
  unfold timed_candidates. intros H. apply list_elem_of_In in H.
  destruct nc as [now c]. apply in_combine_r in H.
  now apply list_elem_of_In.
Qed.

(** Each task of a pass is the task of one of its candidates. *)
Lemma scraped_task_origin (tz : Z) (doc : Document) (clock : nat -> Z)
    (results : list ScrapedTask) :
  scrapeTasks tz doc clock = Ok results ->
  NoDup (map task_pair results) /\
  forall task, task ∈ results ->
    exists nc, nc ∈ timed_candidates doc clock /\
               candidate_task tz doc nc = Ok (Some task).
Proof.
  intros H. unfold scrapeTasks in H. fold (timed_candidates doc clock) in H.
  pose proof (scrape_loop_spec tz doc (timed_candidates doc clock) ∅ []
                seen_agree_empty) as S.
  rewrite H in S. destruct S as [E _].
  split; [rewrite E; apply first_by_pair_fresh | ].
  intros task I. rewrite E in I. apply first_by_pair_subset in I.
  apply list_elem_of_omap in I. destruct I as (nc & I & T).
  exists nc. split; [exact I | ].
  unfold surviving_task in T.
  destruct (candidate_task tz doc nc) as [[t | ] | ]; try discriminate.
  now injection T as <-.
Qed.

Lemma candidate_task_fields (tz : Z) (doc : Document) (now : Z)
    (c : Candidate) (task : ScrapedTask) :
  candidate_task tz doc (now, c) = Ok (Some task) ->
  test DUE_KEYWORDS (text c) = true /\
  parseDateTimeFromText tz now (text c) = Ok (Some (dueDate task)) /\
  dueDate task <> [] /\
  title task = getTitle doc (el c) /\
  raw task = cleanRawText (text c).
Proof.
  unfold candidate_task.
  destruct (test DUE_KEYWORDS (text c)); [ | discriminate].
  destruct (parseDateTimeFromText tz now (text c)) as [[[ | ch s] | ] | ];
    try discriminate.
  cbn [result_bind]. intros [= <-]. repeat split. discriminate.
Qed.

Lemma toISOString_length (d : Date) (s : list ascii) :
  toISOString d = Ok s -> length s = 24%nat \/ length s = 27%nat.
Proof.
  destruct d as [t | ]; [ | discriminate]. intros [= <-].
  rewrite length_app. cbn [length]. unfold iso_year.
  destruct ((0 <=? YearFromTime t) && (YearFromTime t <=? 9999)).
  - left. now rewrite pad_length.
  - right. rewrite length_app, pad_length.
    destruct (YearFromTime t <? 0); reflexivity.
Qed.

Lemma parseDateTimeFromText_length (tz now : Z) (text s : list ascii) :
  parseDateTimeFromText tz now text = Ok (Some s) ->
  length s = 24%nat \/ length s = 27%nat.
Proof.
  unfold parseDateTimeFromText.
  destruct (parseDate tz now text) as [[d | ] | ]; try discriminate.
  cbn [result_bind].
  destruct (toISOString _) as [s' | ] eqn:E; [ | discriminate].
  cbn [result_bind]. intros [= <-]. exact (toISOString_length _ _ E).
Qed.

(** X18. Every task that a pass returns comes from one of the text
    blocks collected: a block that has a due keyword and in which the
    date of the task was found.  Its title is not empty, its due date is
    an ISO string of 24 characters (27 for a year beyond 9999), and its
    notes are the cleaned text of the block; and a pass returns no more
    tasks than there are blocks. *)
Theorem scraped_tasks_are_grounded (tz : Z) (doc : Document)
    (clock : nat -> Z) (results : list ScrapedTask) :
  scrapeTasks tz doc clock = Ok results ->
  (forall task, task ∈ results ->
     exists now c,
       c ∈ findCandidateElements doc /\
       test DUE_KEYWORDS (text c) = true /\
       parseDateTimeFromText tz now (text c) = Ok (Some (dueDate task)) /\
       title task = getTitle doc (el c) /\ title task <> [] /\
       (length (dueDate task) = 24%nat \/ length (dueDate task) = 27%nat) /\
       raw task = cleanRawText (text c)) /\
  (length results <= length (findCandidateElements doc))%nat.
Proof.
  intros H. split.
  - destruct (scraped_task_origin tz doc clock results H) as [_ O].
    intros task I. destruct (O task I) as ([now c] & In & T).
    apply timed_candidates_candidate in In.
    destruct (candidate_task_fields tz doc now c task T) as (G & P & _ & Ti & R).
    exists now, c. repeat split; try assumption.
    + rewrite Ti. apply getTitle_nonempty.
    + exact (parseDateTimeFromText_length _ _ _ _ P).
  - unfold scrapeTasks in H. fold (timed_candidates doc clock) in H.
    pose proof (scrape_loop_spec tz doc (timed_candidates doc clock) ∅ []
                  seen_agree_empty) as S.
    rewrite H in S. destruct S as [-> _].
    assert (L1 : forall ts pairs,
               (length (first_by_pair pairs ts) <= length ts)%nat).
    { induction ts as [ | x ts IH]; intros pairs; [reflexivity | ].
      cbn [first_by_pair]. destruct (bool_decide _); cbn [length].
      - specialize (IH pairs). lia.
      - specialize (IH (task_pair x :: pairs)). lia. }
    assert (L2 : forall (l : list (Z * Candidate)),
               (length (omap (surviving_task tz doc) l) <= length l)%nat).
    { induction l as [ | x l IH]; [reflexivity | ].
      cbn [omap list_omap]. destruct (surviving_task tz doc x); cbn [length]; lia. }
    specialize (L1 (omap (surviving_task tz doc) (timed_candidates doc clock)) []).
    specialize (L2 (timed_candidates doc clock)).
    assert (L3 : (length (timed_candidates doc clock)
                  <= length (findCandidateElements doc))%nat).
    { unfold timed_candidates. rewrite length_combine. lia. }
    lia.
Qed.

Lemma scraped_tasks_are_grounded_witness :
  (length sample_tasks <= length (findCandidateElements sample_document))%nat.
Proof.
  refine (proj2 (scraped_tasks_are_grounded 0 sample_document (fun _ => 0)
                   sample_tasks _)).
  vm_compute. reflexivity.
Defined.

(** X19. A heading of the page is the title of every task: when the
    first [h1] of the document has text (or, without such an [h1], the
    first [h2]), every task of a pass carries that text as its title,
    whatever element it was found in; so the tasks of the pass differ in
    their due dates, and of the deadlines of the page that fall on the
    same instant only the first is returned. *)
Theorem page_heading_titles_every_task (tz : Z) (doc : Document)
    (clock : nat -> Z) (results : list ScrapedTask) (heading : list ascii) :
  scrapeTasks tz doc clock = Ok results ->
  heading_text doc "h1" = Some heading \/
  heading_text doc "h1" = None /\ heading_text doc "h2" = Some heading ->
  (forall e, getTitle doc e = heading) /\
  (forall task, task ∈ results -> title task = heading) /\
  NoDup (map dueDate results).
Proof.
  intros H Hh.
  assert (G : forall e, getTitle doc e = heading).
  { intros e. unfold getTitle. destruct Hh as [-> | [-> ->]]; reflexivity. }
  destruct (scraped_task_origin tz doc clock results H) as [N O].
  assert (T : forall task, task ∈ results -> title task = heading).
  { intros task I. destruct (O task I) as ([now c] & _ & C).
    destruct (candidate_task_fields tz doc now c task C) as (_ & _ & _ & -> & _).
    apply G. }
  split; [exact G | ]. split; [exact T | ].
  clear - N T. induction results as [ | x results IH]; [constructor | ].
  cbn [map] in *. apply NoDup_cons in N. destruct N as [Nx N].
  apply NoDup_cons. split.
  - intros I. apply Nx. apply list_elem_of_fmap in I. destruct I as (y & E & I).
    apply list_elem_of_fmap. exists y. split; [ | exact I].
    unfold task_pair. rewrite E.
    rewrite (T x) by (apply elem_of_cons; now left).
    rewrite (T y) by (apply elem_of_cons; now right). reflexivity.
  - apply IH; [exact N | ]. intros task I. apply T. apply elem_of_cons. now right.
Qed.

Lemma page_heading_titles_every_task_witness :
  (forall task, task ∈ sample_tasks -> title task = str "Essay") /\
  NoDup (map dueDate sample_tasks).
Proof.
  refine (proj2 (page_heading_titles_every_task 0 sample_document (fun _ => 0)
                   sample_tasks (str "Essay") _ _)).
  - vm_compute. reflexivity.
  - left. vm_compute. reflexivity.
Defined.

(** ** The lines of a text block *)

Lemma drop_repeats_head (cleaned : list (list ascii)) :
  forall b, match drop_repeats (Some b) cleaned with
            | x :: _ => trim x <> trim b
            | [] => True
            end.
Proof.
  induction cleaned as [ | line cleaned IH]; intros b; [exact I | ].
  cbn [drop_repeats]. destruct (bool_decide (trim line = trim b)) eqn:E.
  - cbn [negb app]. apply bool_decide_eq_true_1 in E.
    specialize (IH line). destruct (drop_repeats (Some line) cleaned); [exact I | ].
    now rewrite <- E.
  - cbn [negb app]. now apply bool_decide_eq_false_1 in E.
Qed.

Lemma drop_repeats_no_repeats (cleaned : list (list ascii)) :
  forall before, no_repeats (drop_repeats before cleaned).
Proof.
  induction cleaned as [ | line cleaned IH]; intros before; [exact I | ].
  cbn [drop_repeats].
  destruct (match before with
            | Some b => negb (bool_decide (trim line = trim b))
            | None => true
            end); cbn [app]; [ | apply IH].
  pose proof (drop_repeats_head cleaned line) as H.
  specialize (IH (Some line)).
  destruct (drop_repeats (Some line) cleaned) as [ | x rest]; [exact I | ].
  split; [now apply not_eq_sym | exact IH].
Qed.

Lemma drop_repeats_sublist (cleaned : list (list ascii)) :
  forall before, sublist (drop_repeats before cleaned) cleaned.
Proof.
  induction cleaned as [ | line cleaned IH]; intros before; [constructor | ].
  cbn [drop_repeats].
  destruct (match before with
            | Some b => negb (bool_decide (trim line = trim b))
            | None => true
            end); cbn [app].
  - apply sublist_skip, IH.
  - apply sublist_cons, IH.
Qed.

(** A list without repeats is left as it is. *)
Lemma drop_repeats_fixed (ls : list (list ascii)) :
  no_repeats ls ->
  forall before,
    match before, ls with
    | Some b, x :: _ => trim x <> trim b
    | _, _ => True
    end ->
    drop_repeats before ls = ls.
Proof.
  induction ls as [ | a ls IH]; intros N before Hb; [reflexivity | ].
  cbn [drop_repeats].
  assert (K : match before with
              | Some b => negb (bool_decide (trim a = trim b))
              | None => true
              end = true).
  { destruct before as [b | ]; [ | reflexivity].
    now rewrite bool_decide_eq_false_2. }
  rewrite K. cbn [app]. f_equal.
  destruct ls as [ | b ls]; [reflexivity | ].
  destruct N as [N1 N2]. apply IH; [exact N2 | now apply not_eq_sym].
Qed.

(** X20. The lines of a text block that reach the breadcrumb
    formatter: none of them is blank or matches a junk pattern, no two
    consecutive ones are equal up to the white space around them, they
    are lines of the block in their order, and cleaning them once more
    changes nothing.  Only a line equal to the one just before it is
    dropped as a duplicate: a line that comes back later is kept. *)
Theorem surviving_lines_are_clean (text : list ascii) :
  Forall (fun line => keep_line line = true) (surviving_lines text) /\
  no_repeats (surviving_lines text) /\
  sublist (surviving_lines text) (split_on LF text) /\
  drop_repeats None (List.filter keep_line (surviving_lines text))
    = surviving_lines text /\
  cleanRawText text = formatAsBreadcrumb (surviving_lines text) /\
  surviving_lines (str "Quiz 1" ++ [LF] ++ str "Quiz 1" ++ [LF] ++
                   str "Essay" ++ [LF] ++ str "Quiz 1")
    = [str "Quiz 1"; str "Essay"; str "Quiz 1"].
Proof.
  unfold surviving_lines.
  set (cleaned := List.filter keep_line (split_on LF text)).
  assert (K : Forall (fun line => keep_line line = true)
                (drop_repeats None cleaned)).
  { apply List.Forall_forall. intros line H.
    pose proof (drop_repeats_sublist cleaned None) as S.
    apply list_elem_of_In in H. apply (fun i => elem_of_sublist _ _ _ i S) in H.
    apply list_elem_of_In in H. subst cleaned.
    apply List.filter_In in H. tauto. }
  split; [exact K | ].
  split; [apply drop_repeats_no_repeats | ].
  split.
  { etransitivity; [apply drop_repeats_sublist | ].
    subst cleaned. clear. induction (split_on LF text) as [ | x l IH];
      [constructor | ].
    cbn [List.filter]. destruct (keep_line x).
    - now apply sublist_skip.
    - now apply sublist_cons. }
  split.
  { replace (List.filter keep_line (drop_repeats None cleaned))
      with (drop_repeats None cleaned).
    - apply drop_repeats_fixed; [apply drop_repeats_no_repeats | exact I].
    - symmetry. clear - K. induction (drop_repeats None cleaned) as [ | x l IH];
        [reflexivity | ].
      inversion K as [ | ? ? Kx Kl]; subst. cbn [List.filter]. rewrite Kx.
      f_equal. now apply IH. }
  split; [reflexivity | vm_compute; reflexivity].
Qed.

(** ** The breadcrumb *)

Lemma classify_line_name (b : Breadcrumb) (line : list ascii) :
  is_name line = true -> classify_line b line = b.
Proof. unfold is_name, classify_line. now intros ->. Qed.

Lemma classify_line_level (b : Breadcrumb) (line : list ascii) :
  is_name line = false -> is_level line = true -> foundAssignment b = false ->
  classify_line b line =
    mkBreadcrumb (hierarchy b ++ [trim line]) (details b) false.
Proof.
  unfold is_name, is_level, classify_line. intros -> L ->. cbn [negb andb].
  destruct (test course_pattern (trim line)); [reflexivity | ].
  destruct (test unit_pattern (trim line)); [reflexivity | ].
  destruct (test week_pattern (trim line)); [reflexivity | ].
  destruct (test weekday_pattern (trim line)); [reflexivity | discriminate].
Qed.

Lemma classify_line_other (b : Breadcrumb) (line : list ascii) :
  is_name line = false -> is_level line = false -> foundAssignment b = false ->
  classify_line b line =
    if nonempty (hierarchy b)
    then mkBreadcrumb (hierarchy b ++ [trim line]) (details b) true
    else mkBreadcrumb (hierarchy b) (details b ++ [trim line]) false.
Proof.
  unfold is_name, is_level, classify_line. intros -> L ->. cbn [negb andb].
  apply orb_false_iff in L. destruct L as [L Lw].
  apply orb_false_iff in L. destruct L as [L Lk].
  apply orb_false_iff in L. destruct L as [Lc Lu].
  rewrite Lc, Lu, Lk, Lw. reflexivity.
Qed.

Lemma classify_line_after (b : Breadcrumb) (line : list ascii) :
  is_name line = false -> foundAssignment b = true ->
  classify_line b line =
    mkBreadcrumb (hierarchy b) (details b ++ [trim line]) true.
Proof.
  unfold is_name, classify_line. intros -> ->. reflexivity.
Qed.

(** After the assignment every line is a detail. *)
Lemma classify_after (lines : list (list ascii)) :
  forall b, foundAssignment b = true ->
  fold_left classify_line lines b =
    mkBreadcrumb (hierarchy b)
      (details b ++ map trim (List.filter (fun l => negb (is_name l)) lines))
      true.
Proof.
  induction lines as [ | line lines IH]; intros b F.
  - cbn. rewrite app_nil_r. destruct b; cbn in *. now subst.
  - cbn [fold_left List.filter]. destruct (is_name line) eqn:N.
    + rewrite classify_line_name by exact N. cbn [negb]. now apply IH.
    + rewrite classify_line_after by assumption. cbn [negb].
      rewrite IH by reflexivity. cbn [hierarchy details map].
      now rewrite <- app_assoc.
Qed.

(** Once the hierarchy has begun: the levels that follow, the assignment
    after them, and the details. *)
Lemma classify_within (lines : list (list ascii)) :
  forall b, foundAssignment b = false -> hierarchy b <> [] ->
  exists levels assignment post,
    List.filter (fun l => negb (is_name l)) lines = levels ++ assignment ++ post /\
    Forall (fun l => is_level l = true) levels /\
    (assignment = [] /\ post = [] \/
     exists a, assignment = [a] /\ is_level a = false) /\
    hierarchy (fold_left classify_line lines b)
      = hierarchy b ++ map trim (levels ++ assignment) /\
    details (fold_left classify_line lines b) = details b ++ map trim post.
Proof.
  induction lines as [ | line lines IH]; intros b F H.
  - exists [], [], []. cbn. rewrite !app_nil_r.
    split; [reflexivity | ]. split; [constructor | ].
    split; [now left | ]. split; reflexivity.
  - cbn [fold_left List.filter]. destruct (is_name line) eqn:N.
    + rewrite classify_line_name by exact N. cbn [negb]. now apply IH.
    + cbn [negb]. destruct (is_level line) eqn:L.
      * rewrite classify_line_level by assumption.
        destruct (IH (mkBreadcrumb (hierarchy b ++ [trim line]) (details b) false)
                    eq_refl) as (levels & assignment & post & E & Fl & A & Hh & Hd).
        { cbn. destruct (hierarchy b); discriminate. }
        exists (line :: levels), assignment, post.
        cbn [hierarchy details] in *. rewrite E, Hh, Hd.
        split; [reflexivity | ]. split; [now constructor | ].
        split; [exact A | ]. split; [ | reflexivity].
        cbn [app map]. now rewrite <- app_assoc.
      * rewrite classify_line_other by assumption.
        destruct (hierarchy b) as [ | h0 hs] eqn:Eh; [now elim H | ].
        cbn [nonempty]. rewrite classify_after by reflexivity.
        exists [], [line], (List.filter (fun l => negb (is_name l)) lines).
        cbn [hierarchy details app map].
        split; [reflexivity | ]. split; [constructor | ].
        split; [right; now exists line | ]. split; reflexivity.
Qed.

(** X21. How the breadcrumb loop sorts the lines.  The lines that
    look like the name of a person are discarded.  Of the others, those
    before the first level line (a course, a unit, a week, a day) are
    details; the level lines that follow one another from there are the
    hierarchy, together with the first line after them that is not a
    level, the assignment; and every line after the assignment is a
    detail, a level line too.  So the hierarchy is one stretch of the
    lines and holds at most one line that is not a level, its last. *)
Theorem breadcrumb_structure (lines : list (list ascii)) :
  exists pre levels assignment post,
    List.filter (fun l => negb (is_name l)) lines
      = pre ++ levels ++ assignment ++ post /\
    Forall (fun l => is_level l = false) pre /\
    Forall (fun l => is_level l = true) levels /\
    (assignment = [] /\ post = [] \/
     exists a, assignment = [a] /\ is_level a = false /\ levels <> []) /\
    hierarchy (classify lines) = map trim (levels ++ assignment) /\
    details (classify lines) = map trim (pre ++ post).
Proof.
  unfold classify.
  assert (G : forall b, foundAssignment b = false -> hierarchy b = [] ->
    exists pre levels assignment post,
      List.filter (fun l => negb (is_name l)) lines
        = pre ++ levels ++ assignment ++ post /\
      Forall (fun l => is_level l = false) pre /\
      Forall (fun l => is_level l = true) levels /\
      (assignment = [] /\ post = [] \/
       exists a, assignment = [a] /\ is_level a = false /\ levels <> []) /\
      hierarchy (fold_left classify_line lines b)
        = map trim (levels ++ assignment) /\
      details (fold_left classify_line lines b)
        = details b ++ map trim (pre ++ post)).
  { induction lines as [ | line lines IH]; intros b F H.
    - exists [], [], [], []. cbn. rewrite app_nil_r.
      split; [reflexivity | ]. split; [constructor | ]. split; [constructor | ].
      split; [now left | ]. split; [exact H | reflexivity].
    - cbn [fold_left List.filter]. destruct (is_name line) eqn:N.
      + rewrite classify_line_name by exact N. cbn [negb]. now apply IH.
      + cbn [negb]. destruct (is_level line) eqn:L.
        * rewrite classify_line_level by assumption. rewrite H.
          destruct (classify_within lines
                      (mkBreadcrumb ([] ++ [trim line]) (details b) false)
                      eq_refl ltac:(discriminate))
            as (levels & assignment & post & E & Fl & A & Hh & Hd).
          exists [], (line :: levels), assignment, post.
          cbn [hierarchy details app map] in *. rewrite E, Hh, Hd.
          split; [reflexivity | ]. split; [constructor | ].
          split; [now constructor | ]. split; [ | split; reflexivity].
          destruct A as [A | (a & A1 & A2)]; [now left | right].
          exists a. split; [exact A1 | ]. split; [exact A2 | discriminate].
        * rewrite classify_line_other by assumption. rewrite H.
          cbn [nonempty].
          destruct (IH (mkBreadcrumb [] (details b ++ [trim line]) false)
                      eq_refl eq_refl)
            as (pre & levels & assignment & post & E & Fp & Fl & A & Hh & Hd).
          exists (line :: pre), levels, assignment, post.
          cbn [hierarchy details] in *. rewrite E, Hh, Hd.
          split; [reflexivity | ]. split; [now constructor | ].
          split; [exact Fl | ]. split; [exact A | ]. split; [reflexivity | ].
          cbn [app map]. now rewrite <- app_assoc. }
  destruct (G (mkBreadcrumb [] [] false) eq_refl eq_refl)
    as (pre & levels & assignment & post & E & Fp & Fl & A & Hh & Hd).
  exists pre, levels, assignment, post.
  split; [exact E | ]. split; [exact Fp | ]. split; [exact Fl | ].
  split; [exact A | ]. split; [exact Hh | exact Hd].
Qed.


(** * Properties of the messages *)

(** ** From the page to the worker *)

Lemma or_else_text (s : list ascii) : or_else (Text s) (Text []) = Text s.
Proof. destruct s; reflexivity. Qed.

Lemma scraped_task_sent (href : list ascii) (tab_url : value) (t : ScrapedTask) :
  title t <> [] -> dueDate t <> [] ->
  scraped_task tab_url (sent_task href t) = Ok (kept_task href tab_url t).
Proof.
  intros Ht Hd. unfold scraped_task, sent_task, kept_task, get.
  change (property (str "title") _) with (Text (title t)).
  change (property (str "description") _) with (Text []).
  change (property (str "dueDate") _) with (Text (dueDate t)).
  change (property (str "labels") _) with (Array [Text (str "capture")]).
  change (property (str "status") _) with Undefined.
  change (property (str "priority") _) with Undefined.
  change (property (str "url") _) with (Text href).
  change (property (str "raw") _) with (or_else (Text (raw t)) (Text [])).
  cbn [result_bind]. rewrite !or_else_text.
  destruct (title t) as [ | c s]; [now elim Ht | ].
  destruct (dueDate t) as [ | c' s']; [now elim Hd | ].
  reflexivity.
Qed.

Lemma map_result_sent (href : list ascii) (tab_url : value)
    (tasks : list ScrapedTask) :
  (forall t, t ∈ tasks -> title t <> [] /\ dueDate t <> []) ->
  map_result (scraped_task tab_url) (map (sent_task href) tasks)
  = Ok (map (kept_task href tab_url) tasks).
Proof.
  induction tasks as [ | t tasks IH]; intros H; [reflexivity | ].
  cbn [map map_result].
  destruct (H t ltac:(apply elem_of_cons; now left)) as [Ht Hd].
  rewrite scraped_task_sent by assumption. cbn [result_bind].
  rewrite IH; [reflexivity | ].
  intros x I. apply H. apply elem_of_cons. now right.
Qed.

(** X22. What the worker keeps of a pass is what the pass found: for
    the tasks of a pass, the [SCRAPED_TASKS] message that the content
    script makes of them is taken by the worker without a failure, and
    the task list of the worker then holds, for each task and in the
    same order, its title, its due date and its notes as they are, the
    label [capture], the status [todo], the priority [medium] and the
    address of the page; none of the worker's defaults for a missing
    title, due date or label list is used.  A pass that finds nothing
    sends no message, so the worker keeps the list it had. *)
Theorem worker_keeps_what_was_scraped (tz : Z) (doc : Document)
    (clock : nat -> Z) (href : list ascii) (tasks : list ScrapedTask) :
  scrapeTasks tz doc clock = Ok tasks ->
  (forall tab_url w,
     onMessage tab_url (scraped_message href tasks) w =
       Ok (mkWorker (currentOrigin w) (map (kept_task href tab_url) tasks)
                    (stored w),
           Some (Object
                   [ (str "ok", Boolean true);
                     (str "tasks",
                      Array (map (kept_task href tab_url) tasks)) ]))) /\
  on_request tz doc href (Object [(str "type", Text (str "REQUEST_SCRAPE"))])
    clock =
    Ok (if (0 <? length tasks)%nat then Some (scraped_message href tasks)
        else None,
        Some (Object [ (str "ok", Boolean true);
                       (str "count", Number (Int (Z.of_nat (length tasks)))) ])) /\
  on_injection tz doc href false clock =
    (true, Ok (if (length tasks =? 0)%nat then None
               else Some (scraped_message href tasks))).
Proof.
  intros H. split; [ | split].
  - intros tab_url w.
    assert (F : forall t, t ∈ tasks -> title t <> [] /\ dueDate t <> []).
    { destruct (scraped_task_origin tz doc clock tasks H) as [_ O].
      intros t I. destruct (O t I) as ([now c] & _ & C).
      destruct (candidate_task_fields tz doc now c t C) as (_ & _ & D & -> & _).
      split; [apply getTitle_nonempty | exact D]. }
    unfold onMessage, scraped_message, get.
    change (property (str "type") _) with (Text (str "SCRAPED_TASKS")).
    change (property (str "tasks") _) with (Array (map (sent_task href) tasks)).
    cbn [is_truthy negb result_bind].
    change (is_text (Text (str "SCRAPED_TASKS")) "SCRAPED_TASKS") with true.
    cbv iota. cbn [or_else is_truthy map_array].
    rewrite map_result_sent by exact F. reflexivity.
  - unfold on_request, get.
    change (property (str "type") _) with (Text (str "REQUEST_SCRAPE")).
    cbn [is_truthy negb result_bind].
    change (is_text (Text (str "REQUEST_SCRAPE")) "REQUEST_SCRAPE") with true.
    cbn [negb]. rewrite H. reflexivity.
  - unfold on_injection. rewrite H. reflexivity.
Qed.

Lemma worker_keeps_what_was_scraped_witness :
  on_injection 0 sample_document (str "https://school.example/essay") false
    (fun _ => 0) =
    (true, Ok (if (length sample_tasks =? 0)%nat then None
               else Some (scraped_message (str "https://school.example/essay")
                            sample_tasks))).
Proof.
  refine (proj2 (proj2 (worker_keeps_what_was_scraped 0 sample_document
                          (fun _ => 0) (str "https://school.example/essay")
                          sample_tasks _))).
  vm_compute. reflexivity.
Defined.

(** ** Saving *)

Lemma merged_task_post_body (t m : value) :
  merged_task t = Ok m -> post_body m = Ok m.
Proof.
  unfold merged_task.
  destruct (get t "title") as [title | ]; [ | discriminate].
  destruct (get t "description") as [description | ]; [ | discriminate].
  cbn [result_bind].
  destruct (if is_truthy description then Ok description
            else do s <- formatDescription t; Ok (Text s)) as [described | ];
    [ | discriminate].
  cbn [result_bind].
  destruct (get t "status") as [status | ]; [ | discriminate].
  destruct (get t "priority") as [priority | ]; [ | discriminate].
  destruct (get t "dueDate") as [dueDate | ]; [ | discriminate].
  destruct (get t "labels") as [labels | ]; [ | discriminate].
  cbn [result_bind]. intros [= <-]. reflexivity.
Qed.

Lemma map_result_Forall {A B : Type} (f : A -> result B) (P : B -> Prop)
    (l : list A) :
  (forall x y, f x = Ok y -> P y) ->
  forall ys, map_result f l = Ok ys -> Forall P ys.
Proof.
  intros H. induction l as [ | x l IH]; intros ys E.
  - injection E as <-. constructor.
  - cbn [map_result] in E. destruct (f x) as [y | ] eqn:Ef; [ | discriminate].
    cbn [result_bind] in E.
    destruct (map_result f l) as [ys' | ]; [ | discriminate].
    cbn [result_bind] in E. injection E as <-.
    constructor; [exact (H _ _ Ef) | now apply IH].
Qed.

Section SavingFacts.

Variable origin_at : nat -> list ascii.
Variable fetch : nat -> Request -> Fetched.

Lemma postTask_answer (i : nat) (m : value) :
  post_body m = Ok m ->
  postTask origin_at fetch i m =
    ([request_for origin_at i m],
     match answer origin_at fetch i m with
     | inl json => Fulfilled json
     | inr message => Failed message
     end).
Proof.
  intros E. unfold postTask, answer, request_for. rewrite E. f_equal.
  destruct (fetch i _) as [message | res]; [reflexivity | ].
  destruct (response_ok res); cbn [negb]; [ | reflexivity].
  destruct (response_json res); reflexivity.
Qed.

Lemma post_each_answers (merged : list value) :
  Forall (fun m => post_body m = Ok m) merged ->
  forall i,
    post_each origin_at fetch i merged =
      (imap (fun j => request_for origin_at (i + j))
            (firstn (S (length (fst (answers origin_at fetch i merged)))) merged),
       match snd (answers origin_at fetch i merged) with
       | None => Fulfilled (fst (answers origin_at fetch i merged))
       | Some message => Failed message
       end).
Proof.
  induction 1 as [ | m merged Hm _ IH]; intros i; [reflexivity | ].
  cbn [post_each answers]. rewrite postTask_answer by exact Hm.
  destruct (answer origin_at fetch i m) as [json | message].
  - rewrite (IH (S i)).
    destruct (answers origin_at fetch (S i) merged) as [results failure].
    cbn [fst snd length]. cbn [firstn]. rewrite imap_cons.
    rewrite Nat.add_0_r. cbn [app]. f_equal.
    + f_equal. apply imap_ext. intros j x _. cbn. f_equal. lia.
    + destruct failure; reflexivity.
  - cbn [fst snd length firstn]. rewrite imap_cons. cbn [imap].
    now rewrite Nat.add_0_r.
Qed.

End SavingFacts.

(** X23. [saveTasks] posts the tasks one by one and stops at the first
    request that fails.  When every task it is given can be read, the
    requests made are those for the tasks up to and including the first
    one whose request fails (each to the origin that is current when it
    is made); the tasks after it are not sent, the ones before it stay
    saved, and the error is that of the failed request.  When no request
    fails, every task is posted and the results are the answers, in
    order.  When a task cannot be read ([null] in the list, or a list
    that is no array), no request is made at all. *)
Theorem saveTasks_stops_at_first_failure (origin_at : nat -> list ascii)
    (fetch : nat -> Request -> Fetched) (tasks : list value) :
  (forall merged,
     map_result merged_task tasks = Ok merged ->
     saveTasks origin_at fetch (Array tasks) =
       (imap (request_for origin_at)
             (firstn (S (length (fst (answers origin_at fetch 0 merged)))) merged),
        match snd (answers origin_at fetch 0 merged) with
        | None => Fulfilled (fst (answers origin_at fetch 0 merged))
        | Some message => Failed message
        end)) /\
  (forall e,
     map_result merged_task tasks = Throw e ->
     saveTasks origin_at fetch (Array tasks) = ([], Raised e)) /\
  (forall v, match v with
             | Array _ => True
             | _ => saveTasks origin_at fetch v = ([], Raised TypeError)
             end).
Proof.
  split; [ | split].
  - intros merged E. unfold saveTasks, map_array. rewrite E.
    rewrite post_each_answers.
    + f_equal.
    + eapply map_result_Forall; [ | exact E].
      intros x y. apply merged_task_post_body.
  - intros e E. unfold saveTasks, map_array. now rewrite E.
  - intros v. destruct v; try exact I; reflexivity.
Qed.

(** Three tasks, of which the second is refused by the server: two
    requests are made and the third task is not sent. *)
Lemma saveTasks_stops_at_first_failure_witness :
  exists merged,
    map_result merged_task [Object []; Object []; Object []] = Ok merged /\
    saveTasks (fun _ => PROD_ORIGIN)
      (fun i _ => Responds (mkResponse (negb (i =? 1)%nat) 500
                              (Some (str "busy")) (inl Null)))
      (Array [Object []; Object []; Object []])
    = (imap (request_for (fun _ => PROD_ORIGIN)) (firstn 2 merged),
       Failed (str "API 500: busy")).
Proof.
  eexists. split; [vm_compute; reflexivity | ].
  refine (eq_trans
            (proj1 (saveTasks_stops_at_first_failure (fun _ => PROD_ORIGIN)
                      (fun i _ => Responds (mkResponse (negb (i =? 1)%nat) 500
                                              (Some (str "busy")) (inl Null)))
                      [Object []; Object []; Object []]) _ _) _).
  - vm_compute. reflexivity.
  - vm_compute. reflexivity.
Defined.

(** X24. What is posted for a task of the popup.  The title is the
    trimmed title of the form, or [Captured task] when that is empty; the
    description is the trimmed notes (there is no address to describe the
    task by); the status is [todo] and the priority [medium]; the due
    date is the one read from the date field, or [null]; and the labels
    are those read from the labels field, also when there are none: the
    default labels are not used for a task that comes from the popup. *)
Theorem posted_task_of_form (tz : Z) (legacy_parse : list ascii -> number)
    (f : TaskForm) (task : value) :
  onSave_task tz legacy_parse f = Ok task ->
  exists due,
    onSave_dueDate tz legacy_parse (form_due f) = Ok due /\
    (due = Null \/ exists iso, due = Text iso /\ iso <> []) /\
    merged_task task =
      Ok (Object
            [ (str "title",
               Text (if nonempty (trim (form_title f)) then trim (form_title f)
                     else str "Captured task"));
              (str "description", Text (trim (form_raw f)));
              (str "status", Text (str "todo"));
              (str "priority", Text (str "medium"));
              (str "dueDate", due);
              (str "labels",
               Array (map Text (split_labels (form_labels f)))) ]).
Proof.
  unfold onSave_task.
  destruct (onSave_dueDate tz legacy_parse (form_due f)) as [due | ] eqn:D;
    [ | discriminate].
  cbn [result_bind]. intros [= <-]. exists due. split; [reflexivity | ].
  assert (Hd : due = Null \/ exists iso, due = Text iso /\ iso <> []).
  { unfold onSave_dueDate in D. destruct (form_due f) as [ | c s].
    - injection D as <-. now left.
    - destruct (toISOString _) as [iso | ] eqn:E; [ | discriminate].
      cbn [result_bind] in D. injection D as <-. right. exists iso.
      split; [reflexivity | ].
      destruct (toISOString_length _ _ E) as [L | L];
        intros ->; discriminate. }
  split; [exact Hd | ].
  unfold merged_task, formatDescription, get.
  change (property (str "title") _) with (Text (trim (form_title f))).
  change (property (str "description") _) with (Text (trim (form_raw f))).
  change (property (str "status") _) with Undefined.
  change (property (str "priority") _) with Undefined.
  change (property (str "dueDate") _) with due.
  change (property (str "labels") _)
    with (Array (map Text (split_labels (form_labels f)))).
  change (property (str "url") _) with Undefined.
  change (property (str "raw") _) with Undefined.
  cbn [result_bind is_truthy or_else normalizeLabels negb app join_values map join].
  assert (E1 : (if nonempty (trim (form_raw f)) then Ok (Text (trim (form_raw f)))
                else Ok (Text [])) = Ok (Text (trim (form_raw f)))).
  { destruct (trim (form_raw f)); reflexivity. }
  rewrite E1. cbn [result_bind].
  assert (E2 : or_else due Null = due).
  { destruct Hd as [-> | (iso & -> & Hne)]; [reflexivity | ].
    destruct iso; [now elim Hne | reflexivity]. }
  rewrite E2. unfold or_else. cbn [is_truthy].
  destruct (trim (form_title f)); reflexivity.
Qed.

Lemma posted_task_of_form_witness :
  exists due,
    onSave_dueDate 0 (fun _ => NaN) [] = Ok due /\
    (due = Null \/ exists iso, due = Text iso /\ iso <> []) /\
    merged_task
      (Object [ (str "title", Text []); (str "dueDate", Null);
                (str "labels", Array []); (str "description", Text (str "p. 12")) ])
    = Ok (Object
            [ (str "title", Text (str "Captured task"));
              (str "description", Text (str "p. 12"));
              (str "status", Text (str "todo"));
              (str "priority", Text (str "medium"));
              (str "dueDate", due);
              (str "labels", Array []) ]).
Proof.
  apply (posted_task_of_form 0 (fun _ => NaN)
           (mkTaskForm (str "  ") [] (str " , ") (str " p. 12 "))).
  vm_compute. reflexivity.
Defined.

(** ** The origin of the worker *)

Lemma onMessage_origin (tab_url msg : value) (w w' : Worker)
    (response : option value) :
  onMessage tab_url msg w = Ok (w', response) ->
  (currentOrigin w' = currentOrigin w /\ stored w' = stored w) \/
  (exists v, currentOrigin w' = resolveOrigin v /\ stored w' = v :: stored w).
Proof.
  unfold onMessage.
  destruct (negb (is_truthy msg)); [intros [= <- _]; now left | ].
  destruct (get msg "type") as [type | ]; [ | discriminate]. cbn [result_bind].
  destruct (negb (is_truthy type)); [intros [= <- _]; now left | ].
  destruct (is_text type "SCRAPED_TASKS").
  { destruct (get msg "tasks") as [tasks | ]; [ | discriminate].
    cbn [result_bind].
    destruct (map_array _ _) as [kept | ]; [ | discriminate].
    cbn [result_bind]. intros [= <- _]. now left. }
  destruct (is_text type "GET_LAST_TASKS"); [intros [= <- _]; now left | ].
  destruct (is_text type "SAVE_TASKS"); [intros [= <- _]; now left | ].
  destruct (is_text type "GET_ENV"); [intros [= <- _]; now left | ].
  destruct (is_text type "SET_ENV"); [ | intros [= <- _]; now left].
  destruct (get msg "mode") as [mode | ]; [ | discriminate].
  destruct (get msg "origin") as [origin | ]; [ | discriminate].
  cbn [result_bind setOrigin]. intros [= <- _]. right.
  exists (or_else mode origin). split; reflexivity.
Qed.

Lemma after_event_origin (w : Worker) (e : event) :
  (currentOrigin (after_event w e) = currentOrigin w /\
   stored (after_event w e) = stored w) \/
  (exists v, currentOrigin (after_event w e) = resolveOrigin v /\
             stored (after_event w e) = v :: stored w).
Proof.
  destruct e as [tab_url msg | area change]; cbn [after_event].
  - destruct (onMessage tab_url msg w) as [[w' response] | ] eqn:E;
      [exact (onMessage_origin _ _ _ _ _ E) | now left].
  - unfold onStorageChanged.
    destruct (negb (bool_decide (area = str "local")) || negb (is_truthy change));
      [now left | ].
    destruct (get change "newValue") as [v | ]; [ | now left].
    cbn [result_bind setOrigin fst]. right. exists v. split; reflexivity.
Qed.

(** X25. The origin in use is always the one that the value last
    written to the storage resolves to: after the stored origin is
    loaded and after any sequence of messages and storage changes, also
    some whose listener throws, [currentOrigin] is [resolveOrigin] of
    the latest value written, it starts with [http], and [GET_ENV]
    reports it with its mode. *)
Theorem origin_follows_storage (found : value) (events : list event) :
  let w := after_events (started found) events in
  (exists v rest, stored w = v :: rest /\ currentOrigin w = resolveOrigin v) /\
  startsWith (currentOrigin w) (str "http") = true /\
  env_response w =
    Some (Object [ (str "ok", Boolean true);
                   (str "origin", Text (currentOrigin w));
                   (str "mode", Text (resolveMode (currentOrigin w))) ]).
Proof.
  cbv zeta.
  assert (I : forall events w,
            (exists v rest, stored w = v :: rest /\
                            currentOrigin w = resolveOrigin v) ->
            exists v rest, stored (after_events w events) = v :: rest /\
                           currentOrigin (after_events w events) = resolveOrigin v).
  { clear. induction events as [ | e events IH]; intros w H; [exact H | ].
    unfold after_events. cbn [fold_left]. apply IH.
    destruct H as (v & rest & S & C).
    destruct (after_event_origin w e) as [[C' S'] | (v' & C' & S')].
    - exists v, rest. split; congruence.
    - exists v', (stored w). split; assumption. }
  destruct (I events (started found)) as (v & rest & S & C).
  { eexists _, _. split; reflexivity. }
  split; [now exists v, rest | ].
  split; [rewrite C; apply resolveOrigin_http | reflexivity].
Qed.

(** ** The markup of a task *)

Lemma markup_of_app (a b : list ascii) :
  markup_of (a ++ b) = markup_of a ++ markup_of b.
Proof. apply List.filter_app. Qed.

Lemma markup_of_inert (s : list ascii) :
  (forall c, In c s -> is_markup c = false) -> markup_of s = [].
Proof.
  induction s as [ | c s IH]; intros H; [reflexivity | ].
  unfold markup_of. cbn [List.filter]. rewrite (H c) by now left.
  apply IH. intros x Hx. apply H. now right.
Qed.

Lemma markup_of_escapeHtml (s : list ascii) : markup_of (escapeHtml s) = [].
Proof.
  apply markup_of_inert. induction s as [ | c s IH]; intros x Hx; [destruct Hx | ].
  rewrite escapeHtml_cons in Hx. apply in_app_or in Hx.
  destruct Hx as [Hx | Hx]; [now apply escape_character_safe in Hx | now apply IH].
Qed.

Lemma markup_of_toLocalInput (tz : Z) (legacy_parse : list ascii -> number)
    (iso : value) :
  markup_of (toLocalInput tz legacy_parse iso) = [].
Proof.
  apply markup_of_inert. intros c H. apply toLocalInput_chars in H.
  now apply field_char_plain in H.
Qed.

Lemma escapeHtml_value_markup (v : value) (html : list ascii) :
  escapeHtml_value v = Ok html -> markup_of html = [].
Proof.
  destruct v; try discriminate. intros [= <-]. apply markup_of_escapeHtml.
Qed.

(** X26. The markup of a task item cannot be broken by the task: when
    [renderTasks] builds the markup of an item, its angle brackets,
    double quotes and apostrophes are exactly those of the template, in
    the same order, whatever the title, the due date, the labels and the
    notes of the task hold. *)
Theorem task_markup_is_the_template (tz : Z)
    (legacy_parse : list ascii -> number) (task : value) (html : list ascii) :
  task_markup tz legacy_parse task = Ok html ->
  markup_of html = markup_of blank_markup /\
  task_markup tz legacy_parse (Object []) = Ok blank_markup.
Proof.
  intros H. split; [ | reflexivity]. unfold task_markup in H.
  destruct (get task "title") as [title | ]; [ | discriminate].
  cbn [result_bind] in H.
  destruct (escapeHtml_value (or_else title (Text []))) as [title_html | ] eqn:E1;
    [ | discriminate].
  cbn [result_bind] in H.
  destruct (get task "dueDate") as [due | ]; [ | discriminate].
  destruct (get task "labels") as [labels | ]; [ | discriminate].
  cbn [result_bind] in H.
  destruct (labels_text labels) as [labels_joined | ]; [ | discriminate].
  cbn [result_bind] in H.
  destruct (get task "raw") as [raw | ]; [ | discriminate].
  destruct (get task "description") as [description | ]; [ | discriminate].
  cbn [result_bind] in H.
  destruct (escapeHtml_value (or_else (or_else raw description) (Text [])))
    as [notes_html | ] eqn:E2; [ | discriminate].
  apply (f_equal (fun r => match r with
                            | Ok s => markup_of s
                            | Throw _ => []
                            end)) in H.
  cbv beta iota delta [result_bind] in H. rewrite <- H. clear H.
  apply escapeHtml_value_markup in E1. apply escapeHtml_value_markup in E2.
  pose proof (markup_of_toLocalInput tz legacy_parse due) as E3.
  pose proof (markup_of_escapeHtml labels_joined) as E4.
  repeat rewrite markup_of_app.
  rewrite E1, E2, E3, E4. reflexivity.
Qed.

Lemma task_markup_is_the_template_witness :
  exists html,
    task_markup 0 (fun _ => NaN)
      (Object [(str "title", Text (str "<b>Essay</b>"))]) = Ok html /\
    markup_of html = markup_of blank_markup.
Proof.
  eexists. split; [vm_compute; reflexivity | ].
  refine (proj1 (task_markup_is_the_template 0 (fun _ => NaN)
                   (Object [(str "title", Text (str "<b>Essay</b>"))]) _ _)).
  vm_compute. reflexivity.
Defined.

(** * The gate *)

(** ** The matcher finds a path whenever there is one *)

Lemma orelse_is_some {A : Type} (x y : option A) :
  (exists a, x = Some a) \/ (exists a, y = Some a) ->
  exists a, orelse x y = Some a.
Proof.
  intros [[a ->] | [a ->]]; [now exists a | ].
  destruct x as [b | ]; [now exists b | now exists a].
Qed.

Lemma rmatch_complete {A : Type} r st cs st' cs' :
  matches r st cs st' cs' ->
  forall (k : mstate -> captures -> option A) a,
    k st' cs' = Some a -> exists a', rmatch r st cs k = Some a'.
Proof.
  induction 1 as
    [ st cs | p pv c s cs Hp | r1 r2 st cs st1 cs1 st2 cs2 _ IH1 _ IH2
    | r1 r2 st cs st' cs' _ IH | r1 r2 st cs st' cs' _ IH
    | r st cs | r st cs st1 cs1 st2 cs2 _ IH1 Hlt _ IH2
    | n r st cs st' cs' _ IH | st cs Hb | s cs | pv cs ];
    intros k a K.
  - now exists a.
  - cbn. rewrite Hp. now exists a.
  - cbn [rmatch]. destruct (IH2 k a K) as (a2 & E2).
    exact (IH1 (fun st1 cs1 => rmatch r2 st1 cs1 k) a2 E2).
  - cbn [rmatch]. apply orelse_is_some. left. exact (IH k a K).
  - cbn [rmatch]. apply orelse_is_some. right. exact (IH k a K).
  - rewrite rmatch_star. apply orelse_is_some. right. now exists a.
  - rewrite rmatch_star. apply orelse_is_some. left.
    destruct (IH2 k a K) as (a2 & E2).
    apply (IH1 _ a2).
    now rewrite (proj2 (Nat.ltb_lt _ _) Hlt).
  - cbn [rmatch]. exact (IH _ a K).
  - cbn [rmatch]. rewrite Hb. now exists a.
  - cbn. now exists a.
  - cbn. now exists a.
Qed.

Lemma match_here_complete r st st' cs :
  matches r st [] st' cs -> exists res, match_here r st = Some res.
Proof.
  intros M. unfold match_here.
  exact (rmatch_complete r st [] st' cs M _ (st', cs) eq_refl).
Qed.

Lemma search_from_complete r (pre : list ascii) :
  forall p s' res,
    match_here r (MState (last_read p pre) s') = Some res ->
    exists res', search_from r p (pre ++ s') = Some res'.
Proof.
  induction pre as [ | c pre IH]; intros p s' res H.
  - cbn [app]. change (last_read p []) with p in H.
    destruct s' as [ | c s']; cbn [search_from]; rewrite H; now exists res.
  - cbn [app search_from].
    destruct (match_here r (MState p (c :: pre ++ s'))) as [res0 | ];
      [now exists res0 | ].
    apply (IH (Some c) s' res). now rewrite <- last_read_cons with (pv := p).
Qed.

(** ** Building a path *)

Lemma chars_match (ps : list (ascii -> bool)) (w : list ascii) :
  Forall2 (fun p c => p c = true) ps w ->
  forall pv tail cs,
    matches (seqs (map Char ps)) (MState pv (w ++ tail)) cs
            (MState (last_read pv w) tail) cs.
Proof.
  induction 1 as [ | p c ps w Hp F IH]; intros pv tail cs.
  - apply m_empty.
  - destruct ps as [ | p' ps].
    + inversion F; subst. cbn [map seqs app].
      change (last_read pv [c]) with (Some c). now apply m_char.
    + change (seqs (map Char (p :: p' :: ps)))
        with (Seq (Char p) (seqs (map Char (p' :: ps)))).
      rewrite last_read_cons. cbn [app].
      eapply m_seq; [now apply m_char | apply IH].
Qed.

Lemma canon_of_plain (x c : ascii) :
  is_lower c || Ascii.eqb c " " = true -> lower_char x = c ->
  Ascii.eqb (canon x) (canon c) = true.
Proof.
  assert (H0 : forallb (fun x => forallb (fun c =>
                 negb (is_lower c || Ascii.eqb c " ")
                 || negb (Ascii.eqb (lower_char x) c)
                 || Ascii.eqb (canon x) (canon c)) all_ascii) all_ascii = true)
    by (vm_compute; reflexivity).
  pose proof (forall_ascii2 _ H0 x c) as H; cbv beta in H; clear H0.
  intros P L. rewrite P in H. apply Ascii.eqb_eq in L. rewrite L in H.
  exact H.
Qed.

Lemma liti_match (name : string) (w : list ascii) :
  forallb (fun c => is_lower c || Ascii.eqb c " ") (str name) = true ->
  toLowerCase w = str name ->
  forall pv tail cs,
    matches (liti name) (MState pv (w ++ tail)) cs
            (MState (last_read pv w) tail) cs.
Proof.
  intros P L. unfold liti. rewrite <- (map_map _ Char).
  apply chars_match. revert w L. generalize dependent (str name).
  intros l P. induction l as [ | c l IH]; intros w L.
  - destruct w; [constructor | discriminate].
  - destruct w as [ | x w]; [discriminate | ].
    cbn [toLowerCase map] in L. injection L as Lx Lw.
    cbn [forallb] in P. apply andb_true_iff in P. destruct P as [Pc Pl].
    cbn [map]. constructor; [now apply canon_of_plain | now apply IH].
Qed.

Lemma alts_match (rs : list regex) (r : regex) st cs st' cs' :
  In r rs -> matches r st cs st' cs' -> matches (alts rs) st cs st' cs'.
Proof.
  induction rs as [ | r0 rs IH]; intros I M; [destruct I | ].
  destruct rs as [ | r1 rs].
  - destruct I as [-> | []]. exact M.
  - change (alts (r0 :: r1 :: rs)) with (Alt r0 (alts (r1 :: rs))).
    destruct I as [-> | I]; [now apply m_alt_l | apply m_alt_r; now apply IH].
Qed.

(** ** A keyword as a whole word *)

Lemma keyword_facts (kw : string) :
  In kw due_keywords ->
  forallb (fun c => is_lower c || Ascii.eqb c " ") (str kw) = true /\
  toLowerCase (str kw) = str kw /\
  exists a mid z, (str kw = a :: mid ++ [z]) /\
                  is_lower a = true /\ is_lower z = true.
Proof.
  intros I.
  assert (C : forallb (fun kw =>
                forallb (fun c => is_lower c || Ascii.eqb c " ") (str kw)
                && bool_decide (toLowerCase (str kw) = str kw)
                && match str kw with
                   | a :: tail =>
                       is_lower a
                       && match rev tail with
                          | z :: _ => is_lower z
                          | [] => false
                          end
                   | [] => false
                   end) due_keywords = true)
    by (vm_compute; reflexivity).
  rewrite forallb_forall in C. specialize (C kw I).
  apply andb_true_iff in C. destruct C as [C C3].
  apply andb_true_iff in C. destruct C as [C1 C2].
  apply bool_decide_eq_true_1 in C2.
  split; [exact C1 | ]. split; [exact C2 | ].
  destruct (str kw) as [ | a tail]; [discriminate | ].
  apply andb_true_iff in C3. destruct C3 as [Pa C3].
  destruct (rev tail) as [ | z r] eqn:R; [discriminate | ].
  exists a, (rev r), z. split; [ | now split].
  f_equal. rewrite <- (rev_involutive tail), R. reflexivity.
Qed.

Lemma lower_is_word (x c : ascii) :
  is_lower c = true -> lower_char x = c -> is_word_char x = true.
Proof.
  assert (H0 : forallb (fun x => negb (is_lower (lower_char x))
                                 || is_word_char x) all_ascii = true)
    by (vm_compute; reflexivity).
  pose proof (forall_ascii _ H0 x) as H; cbv beta in H; clear H0.
  intros P L. rewrite L, P in H. exact H.
Qed.

(** The ends of a word that reads as a keyword are word characters. *)
Lemma keyword_ends (kw : string) (w : list ascii) :
  In kw due_keywords -> toLowerCase w = str kw ->
  exists a mid z, w = a :: mid ++ [z] /\
                  is_word_char a = true /\ is_word_char z = true.
Proof.
  intros I L. destruct (keyword_facts kw I) as (_ & _ & a & mid & z & E & Pa & Pz).
  rewrite E in L. destruct w as [ | x w]; [discriminate | ].
  cbn [toLowerCase map] in L. injection L as Lx Lw.
  destruct (exists_last (l := w)) as (mid' & y & ->).
  { intros ->. destruct mid; discriminate. }
  unfold toLowerCase in Lw. rewrite map_app in Lw. cbn [map] in Lw.
  apply app_inj_tail in Lw. destruct Lw as [_ Ly].
  exists x, mid', y. split; [reflexivity | ].
  split; [exact (lower_is_word _ _ Pa Lx) | exact (lower_is_word _ _ Pz Ly)].
Qed.

Lemma boundary_before_word (p : option ascii) (c : ascii) (s : list ascii) :
  is_word_char c = true ->
  at_word_boundary (MState p (c :: s)) = negb (is_word p).
Proof.
  intros W. unfold at_word_boundary, word_before, word_after. cbn.
  rewrite W. unfold is_word.
  destruct p as [q | ]; [destruct (is_word_char q) | ]; reflexivity.
Qed.

Lemma boundary_after_word (c : ascii) (s : list ascii) :
  is_word_char c = true ->
  at_word_boundary (MState (Some c) s) = negb (is_word (head s)).
Proof.
  intros W. unfold at_word_boundary, word_before. rewrite word_after_head.
  cbn. rewrite W. destruct (is_word (head s)); reflexivity.
Qed.

Lemma last_read_snoc (pv : option ascii) (w : list ascii) (z : ascii) :
  last_read pv (w ++ [z]) = Some z.
Proof. unfold last_read. now rewrite rev_app_distr. Qed.

(** X27. The gate lets a text block through exactly when it holds one
    of the due keywords as a whole word, in any case: somewhere in the
    text, characters that read as the keyword when lowered, with no
    letter of the ASCII alphabet, digit or underscore just before and
    just after them.  Another character next to the keyword, an accented
    letter too, does not hold the block back: "undue haste" is not let
    through, the same text with an e acute for its first two letters
    is. *)
Theorem gate_is_a_whole_keyword (text : list ascii) :
  (test DUE_KEYWORDS text = true <->
   exists pre w post kw,
     text = pre ++ w ++ post /\ In kw due_keywords /\
     toLowerCase w = str kw /\ delimited pre post) /\
  test DUE_KEYWORDS (str "undue haste") = false /\
  test DUE_KEYWORDS (ascii_of_N 233 :: str "due haste") = true.
Proof.
  split; [ | split; vm_compute; reflexivity].
  change DUE_KEYWORDS
    with (Seq WordB (Seq (Group 1 (alts (map liti due_keywords))) WordB)).
  split.
  - unfold test, exec.
    destruct (search_from _ None text) as [[st' cs] | ] eqn:E; [ | discriminate].
    intros _. apply search_from_matches in E.
    destruct E as (pre & s' & w0 & -> & Es & _ & M).
    invc M.
    match goal with H : matches WordB _ _ _ _ |- _ => invc H end.
    match goal with H : matches (Seq _ _) _ _ _ _ |- _ => invc H end.
    match goal with H : matches WordB _ _ _ _ |- _ => invc H end.
    match goal with H : matches (Group _ _) _ _ _ _ |- _ => invc H end.
    match goal with H : matches (Alt _ _) _ _ _ _ |- _ =>
      pose proof (matches_reads _ _ _ _ _ H) as (w' & Ew' & Ep');
      apply (matches_words due_keywords) in H;
      destruct H as (_ & kw & w & I & Ew & L)
    end.
    cbn [rest prev] in *.
    apply app_inv_tail in Ew. apply app_inv_tail in Ew'. subst w w'.
    destruct (keyword_facts kw I) as (_ & Lk & _). rewrite Lk in L.
    destruct (keyword_ends kw w0 I L) as (a & mid & z & -> & Wa & Wz).
    exists pre, (a :: mid ++ [z]), (rest st'), kw.
    split; [reflexivity | ]. split; [exact I | ]. split; [exact L | ].
    split.
    + match goal with H : at_word_boundary (MState _ _) = true |- _ =>
        cbn [app] in H;
        rewrite boundary_before_word in H by exact Wa;
        now apply negb_true_iff in H
      end.
    + match goal with H : at_word_boundary st' = true |- _ =>
        destruct st' as [pv' rest']; cbn [prev rest] in *;
        rewrite Ep' in H;
        change (a :: mid ++ [z]) with ((a :: mid) ++ [z]) in H;
        rewrite last_read_snoc in H;
        rewrite boundary_after_word in H by exact Wz;
        now apply negb_true_iff in H
      end.
  - intros (pre & w & post & kw & -> & I & L & [Db Da]).
    destruct (keyword_facts kw I) as (P & _ & _).
    destruct (keyword_ends kw w I L) as (a & mid & z & Ew & Wa & Wz).
    assert (M : matches
                  (Seq WordB (Seq (Group 1 (alts (map liti due_keywords))) WordB))
                  (MState (last_read None pre) (w ++ post)) []
                  (MState (last_read (last_read None pre) w) post)
                  [(1%nat, consumed (MState (last_read None pre) (w ++ post))
                                    (MState (last_read (last_read None pre) w) post))]).
    { eapply m_seq.
      - apply m_wordb. rewrite Ew. cbn [app].
        rewrite boundary_before_word by exact Wa. now rewrite Db.
      - eapply m_seq.
        + apply m_group. apply (alts_match _ (liti kw)).
          * apply in_map. exact I.
          * now apply liti_match.
        + apply m_wordb. rewrite Ew.
          change (a :: mid ++ [z]) with ((a :: mid) ++ [z]).
          rewrite last_read_snoc, boundary_after_word by exact Wz.
          now rewrite Da. }
    apply match_here_complete in M. destruct M as (res & M).
    destruct (search_from_complete _ pre None (w ++ post) res M) as ([st2 cs2] & S).
    unfold test, exec. now rewrite S.
Qed.
